(* ===== verification/_CoqProject ===== *)
-Q . S2P
Prelude.v
Crypto.v
Blocks.v
Stats.v
Common.v
Store.v
Ledger.v
Votes.v
Lmdb.v
Versioning.v
BlockStore.v
Upgrades.v
Numbers.v
BlockReaders.v
Messages.v
MultiIndex.v
Node.v
Peers.v
NodeCaches.v
Sending.v
Elections.v
BlockProcessor.v
Receiving.v
BootstrapServer.v
BootstrapClient.v
WalletStore.v
WalletActions.v
Concrete.v
StoreLemmas.v
LedgerInv.v
Visitors.v
Extend.v
ProcessLemmas.v
Commit.v
Process.v
Accounts.v
Retract.v
Rollback.v
Cascade.v
Reach.v
Accept.v
LedgerProps.v
Queries.v
VoteProps.v
StoreRefine.v
StoreProps.v
StoreCaches.v
NumberProps.v
BlockProps.v
MessageProps.v
NodeFrame.v
NodeLedger.v
NodeOk.v
NodeQuiet.v
NodeSends.v
NodePeers.v
NodeElections.v
NodeQuorum.v
NodeSafe.v
NodeAnnounce.v
NodeProcessor.v
NodeDrain.v
NodeReceive.v
NodeReach.v
BootstrapChains.v
BootstrapServed.v
BootstrapPushes.v
BootstrapPulls.v
BootstrapFrontiers.v
WalletProps.v
WalletSeeds.v
WalletRestore.v
WorkPool.v
WalletSends.v
LedgerSamples.v
StoreSamples.v
TextSamples.v
NodeSamples.v
BootstrapSamples.v
WalletSamples.v
