(* ===== verification/Prelude.v ===== *)
(** * Badem: a verification library of the ledger, its store and the node

    Badem is a node of a block-lattice currency: every account has a chain of
    blocks of its own, a send block takes an amount from one account and a
    receive, open or state block adds it to another.  The core of the program
    (badem/ and badem/lib/ under src/) is made of the following parts.

    - Numbers and blocks (lib/numbers.cpp, lib/blocks.cpp): unions of 128,
      256 and 512 bits with their texts, and five kinds of blocks with
      digests, signatures, binary forms and property trees.
    - The block store (blockstore.cpp, versioning.cpp): tables of byte
      strings in LMDB, two caches in front of them, and the upgrades of old
      databases.
    - The ledger (ledger.cpp, the visitors of common.cpp): it decides whether
      a block follows from what the store holds, applies it, rolls it back,
      and answers queries.
    - Votes (common.cpp, ledger::tally): representatives vote for one of
      several competing blocks; the ledger adds up their weights.
    - Messages (node/common.cpp, lib/work.cpp): what nodes send each other,
      and the parser of received datagrams with its check of work.
    - Statistics (node/stats.hpp): counters the ledger increments.
    - The node (node/node.cpp): datagrams become blocks for the block
      processor and votes for elections; the block processor hands blocks to
      the ledger, keeps those that wait for others aside, and replaces a block
      that lost an election; a list of peers and several caches say whom to
      ask and what was heard lately; functions are posted to a service, at
      once or through an alarm.
    - The bootstrap (node/bootstrap.cpp): over connections of their own nodes
      compare the heads of their accounts, pull the chains they lack and push
      those the other one lacks.
    - The wallet (node/wallet.cpp): a table of private keys, encrypted under a
      key that a password unlocks or derived from a seed; its backups and the
      keys moved between wallets; the sends, receives and changes it makes.
    - Work (lib/work.cpp): threads that search for proofs of work.

    ** Files

    This file holds what all others share: unsigned integers of [n] bytes
    ([uint n], with their wrap-around), byte strings and readers, the state
    and error monad [M], its rules ([wp] for one run, [sim] for two related
    runs) with the tactics and hints that apply them, and sums over maps.

    The model, translated from the code:
    - Crypto: BLAKE2b and Ed25519 as classes, [sign_message],
      [validate_message];
    - Blocks: block data, accessors, equality, digest, binary forms;
      BlockReaders: the members [deserialize], the property trees of
      [serialize_json] and the readers of such trees;
    - Numbers: the unions as bytes, and their texts;
    - Stats: the counters, and that each holds the sum of what was added to
      it; Common: the records of the tables with their
      encodings;
    - Store: [BlockStore], the interface of the store the ledger uses, and
      the abstract store [astore], one finite map per table;
    - Ledger: every operation of class ledger over any [BlockStore]:
      [process] with its five handlers, [rollback] with its visitor, the
      balance, amount and representative visitors, the queries, the genesis;
    - Votes: votes, elections, [tally] and [winner];
    - Lmdb: the calls of LMDB the store makes, as a class with its documented
      behaviour; BlockStore: class block_store on it; Versioning and
      Upgrades: old records, the ten upgrades, the constructor;
    - Messages: headers, the eight kinds of messages, the parser;
    - MultiIndex: Boost's containers with several indices;
    - Node: the state of the node as one record, its clock, random numbers,
      posted functions and outputs; Peers: [peer_container] and
      [reserved_address]; NodeCaches: [block_arrival], [gap_cache],
      [online_reps], [rep_crawler]; Sending: what the node sends and to whom;
      Elections: [election], [active_transactions], [vote_processor] and the
      observers of a vote; BlockProcessor: [block_processor], forks and
      confirmed blocks; Receiving: [network_message_visitor],
      [receive_action], the functions posted and the alarm;
    - BootstrapServer: [bootstrap_server], [bulk_pull_server],
      [bulk_pull_blocks_server], [bulk_push_server] and
      [frontier_req_server]; BootstrapClient: [bootstrap_attempt],
      [frontier_req_client], [bulk_pull_client] and [bulk_push_client].  A
      function that ends in a write returns the bytes, one that ends in a
      read is given the bytes that arrive; [connection] is the reader of a
      connection with its queue of requests, [connection_event] what happens
      on it next, and [session] a whole connection;
    - WalletStore: class wallet_store on one finite map, with the table of
      special entries, passwords, seeds, derived keys, upgrades, moves, backups
      and wallets opened from them; WalletActions: classes wallet and wallets,
      the blocks they make, the queue of their requests and the search for
      pending sends;
    - WorkPool: class work_pool, its threads as steps of one state.

    State is passed explicitly: an operation on a store [S] has type [M S A],
    its result is [Done] with a value and the next state, or [Fault] for a
    failed assertion (also where the code dereferences a null pointer).  Error
    results of the code (process_result, error flags) are values.

    The theorems:
    - StoreLemmas, LedgerInv, Visitors, Extend, ProcessLemmas, Commit,
      Process: the ledger invariant [Inv], and that [process] keeps it;
      Accounts, Retract, Rollback, Cascade: that [rollback] keeps it, also
      where it has to roll back the receivers of a send first;
    - Reach: the ledgers reached from the genesis ledger by [process] and
      [rollback] satisfy [Inv]; stores with the same blocks are the same up to
      time stamps; Accept: when a block is accepted, and the answer of
      [process] as a decision table over the tables;
    - LedgerProps: on reachable ledgers no assertion fails, [process] and
      [rollback] end, [rollback] undoes [process], accepted blocks are exactly
      the well-formed ones, the supply is conserved, weights, checksum and
      cached balances are exact, forks and double receives are refused;
    - StoreRefine: the store on LMDB simulates the abstract
      store method by method, so the ledger on LMDB simulates the ledger on
      the abstract store; StoreProps: [process] and [rollback] on LMDB
      tables, opening a database, the upgrade of the pending table;
      StoreCaches: votes and unchecked blocks with their caches;
    - VoteProps: the winner of an election has the greatest exact weight;
      votes are read back;
    - NumberProps, BlockProps: texts and binary forms are read back; where
      they are not, what happens instead;
    - MessageProps: messages are read back, the parser hands on exactly the
      valid ones, and when it trips an assertion;
    - Queries: the amount of a block, the block at a root and forks;
    - NodeFrame, NodeLedger, NodeOk, NodeQuiet: the invariant [node_ok], how
      the ledger on LMDB inside the node is related to the abstract one, and
      the operations that change neither ledger nor elections nor queues;
      NodeSends, NodePeers (with arrivals and the peers of a keepalive), NodeElections, NodeSafe, NodeProcessor,
      NodeReceive: that every operation keeps [node_ok];
    - NodeQuorum: what a vote does to an election, when there is a quorum and
      that an election is confirmed once; NodeAnnounce: a round of
      announcements;
    - NodeDrain: what becomes of a block, forced or not, which blocks that
      waited come back, and that the queue empties; NodeReach: no order of the
      steps expected trips an assertion, and the peers are always valid;
    - BootstrapChains, BootstrapServed: the chain from a block down to
      another, what the server answers to each request, and that requests
      are read back; BootstrapPushes: every connection is
      served to its end, however reading and answering interleave, and what is
      pushed arrives; BootstrapPulls: what is
      pulled arrives; BootstrapFrontiers: what a comparison of frontiers
      decides to pull and to push.  These theorems put the client and the
      server together, each with a node of its own;
    - WalletProps: what a wallet in order is ([sealed]), that the key of an
      account is lost when the account is watched and by nothing else, and
      changes of the password; WalletSeeds: a wallet restored from its seed,
      new wallets and keys moved; WalletRestore: backups opened and imported;
    - WalletSends: what a wallet sends or receives the ledger accepts, and a
      send asked for twice with one identifier is made once;
    - WorkPool: a result the pool gives is valid work for the root asked, and
      the thread that searches finds work when its numbers lead to some.

    Concrete, LedgerSamples, StoreSamples, TextSamples, NodeSamples, BootstrapSamples and WalletSamples hold small executable
    instances of the interfaces and the theorems with hypotheses applied to
    concrete runs.

    ** Assumptions

    Code that is not in the repository, or vendored, is a class, and what the
    program relies on its documented behaviour: [Blake2b] (digests have the
    length asked for), [Ed25519], [Lmdb] and [LmdbSpec] (tables are ordered
    maps of byte strings), [NumberText] and [NumberTextSpec] (printing and
    reading of Boost's integers), [PropertyTree] and [PropertyTreeSpec],
    [Unordered] (a hash map is visited in some order, each entry once),
    [LedgerConstants] (genesis account and sentinel).  No collision freedom is
    assumed of BLAKE2b.  The theorems on [process] assume of the digest of the
    given block only that it is not one of the sentinels zero and one or the
    number of the genesis account, and that an entry of [blocks_info] left
    under the same digest by a rolled-back block is that of the same state
    block ([digest_ok]).

    Of the node, the configuration ([NodeConfig]), the wallets ([Wallets]: the
    accounts, the key fetched for each, whether they are unlocked, the
    representative), the random numbers
    of Crypto++ ([RandomPool]) and the order in which a container visits
    entries with equal keys or hashed ones ([MultiIndex]) are classes.  The
    clock is any sequence of readings.  What the theorems on the node assume
    is stated with them: every account of an unlocked wallet has a key
    ([ReadableWallets]; an account that is watched has none, and voting then
    trips an assertion, [each_key_unreadable]); the socket is of version 6 and
    the datagram none the parser fails on ([expected]); a block taken from the queue is [fine] (its
    digest collides with nothing, it is no state block after the head of
    another account, which is known to trip an assertion) and, when forced,
    [replaceable] (no rival of the genesis block); [calm] says so of the
    blocks taken in the rounds considered; a block confirmed is the one stored
    under its digest ([genuine]).  Of the bootstrap: the account 2^256-1 has
    no block ([no_last], otherwise the frontiers never end), the clock moves
    by at most five seconds while frontiers are compared ([prompt]), and the
    blocks transferred have enough work, which the receiver checks.

    Of the wallet, AES in counter mode ([Aes]: decryption undoes encryption,
    [AesCorrect]), Argon2 ([Argon2], a function of memory, password and salt)
    and the trees and texts of Boost's JSON ([WalletTree], [WalletTreeSpec])
    are classes.  The theorems assume that only the wallet key passes the
    check of the wallet ([check_decides]), that accounts inserted or watched
    are not those of the special entries and that the cipher of a key inserted
    for the account considered is not below 2^64, where the code takes it for
    an index ([safe_op], [movable]).  The wallets are of version 3, the one
    new wallets have ([sealed]).  The blocks
    wallets make are proved for signatures that verify ([Ed25519Correct]), the
    configuration of the wallets and the work a blocking request ends with
    ([WalletConfig]); the graphics card that searches for work is [OpenCL].

    ** Threads

    A step of a thread of the node is what it does to a datagram, a posted
    function or a block of the queue.  Steps are atomic and interleave in any
    order; where the code releases a lock inside a step, the state it reads
    afterwards is taken to be the one it left.  The loop of the alarm and of
    the block processor is a sequence of such steps.

    ** Fuel

    Loops along chains of blocks take fuel; a run that exhausts it is a
    [Fault].  [enough_fuel] is four steps per stored block and eight more; the
    theorems show that this much is enough for [process] and the queries on
    every reachable ledger, and for each level of [rollback].  The node gives
    its ledger [ledger_fuel], the same number read from the tables.  The upgrade
    of an empty database needs three steps.  The loops of the caches take as
    many rounds as there are entries; the thread of the block processor takes
    at most [rounds_bound] rounds to empty its queues.  A session of the
    bootstrap takes as many steps as there are blocks, accounts, entries of
    [blocks_info] or bytes received ([enough_steps]); a connection has at most
    one event more than it has bytes.

    ** Not modelled

    Threads and locks (each operation of the store runs in one LMDB write
    transaction, the caches under one mutex), the opening of LMDB
    environments and its errors other than not-found,
    texts for diagnosis, the formatting of balances with a locale, sampling
    and logging of statistics; of the node construction, start and stop,
    configuration, logs, the parser of addresses, distributed generation of
    work, backups, [ongoing_bootstrap] and port mapping; of the bootstrap the
    initiator, the listener, sockets, the futures an attempt waits for and the
    choice of connections by their speed; of the wallet the files of backups,
    the promises blocking calls wait for, flush and the observers of the user
    interface; RPC, the search for work on a graphics card and user interfaces.  The vendored blake2
    and ed25519-donna are interfaces. *)

From stdpp Require Export base gmap list strings countable sorting.
From Stdlib Require Export ZArith Lia.
From Stdlib Require Import StrictProp.

#[export] Set Default Goal Selector "!".
Global Open Scope Z_scope.

(** ** Fixed-width unsigned integers

    [uint n] is an unsigned integer of [n] bytes.  The bound is a strict
    proposition, so two values with the same [uval] are convertible and
    concrete runs are compared by [reflexivity]. *)

Definition sIs_true (b : bool) : SProp := if b then sUnit else sEmpty.

Definition modulus (n : nat) : Z := 2 ^ (8 * Z.of_nat n).

Definition in_range (n : nat) (z : Z) : bool := (0 <=? z) && (z <? modulus n).

Record uint (n : nat) : Set := Uint { uval : Z; uval_wf : sIs_true (in_range n uval) }.
Arguments Uint {n} uval uval_wf.
Arguments uval {n} u.
Arguments uval_wf {n} u.

Lemma sIs_true_elim b : sIs_true b → b = true.
Proof. by destruct b; [|intros []]. Qed.

Lemma sIs_true_intro b : b = true → sIs_true b.
Proof. by intros ->. Qed.

Lemma modulus_pos n : 0 < modulus n.
Proof. unfold modulus. apply Z.pow_pos_nonneg; lia. Qed.

Lemma uval_range {n} (x : uint n) : 0 ≤ uval x < modulus n.
Proof.
  destruct x as [z wf]; simpl. apply sIs_true_elim in wf.
  unfold in_range in wf. lia.
Qed.

Lemma mod_in_range n z : in_range n (z mod modulus n) = true.
Proof.
  unfold in_range. pose proof (modulus_pos n).
  pose proof (Z.mod_pos_bound z (modulus n)). lia.
Qed.

(** Reduction of any integer to the width: the wrap-around of the code's
    unsigned arithmetic. *)
Definition U (n : nat) (z : Z) : uint n :=
  Uint (z mod modulus n) (sIs_true_intro _ (mod_in_range n z)).

Arguments U : simpl never.
Arguments uval : simpl never.
Arguments modulus : simpl never.

Lemma uval_U n z : uval (U n z) = z mod modulus n.
Proof. done. Qed.

Lemma uval_U_small n z : 0 ≤ z < modulus n → uval (U n z) = z.
Proof. intros. rewrite uval_U. by apply Z.mod_small. Qed.

Lemma uval_inj {n} (x y : uint n) : uval x = uval y → x = y.
Proof. destruct x as [a wa], y as [b wb]; unfold uval. by intros ->. Qed.

Lemma uval_ne {n} (x y : uint n) : x ≠ y → uval x ≠ uval y.
Proof. intros H E. by apply H, uval_inj. Qed.

Lemma U_uval {n} (x : uint n) : U n (uval x) = x.
Proof. apply uval_inj. apply uval_U_small, uval_range. Qed.

#[export] Instance uint_eq_dec n : EqDecision (uint n).
Proof.
  refine (λ x y, match decide (uval x = uval y) with
                 | left H => left (uval_inj x y H)
                 | right H => right (λ e, H (f_equal uval e))
                 end).
Defined.

#[export] Instance uint_countable n : Countable (uint n).
Proof.
  refine (inj_countable uval (λ z, Some (U n z)) _).
  intros x. by rewrite U_uval.
Defined.

#[export] Instance uint_inhabited n : Inhabited (uint n) := populate (U n 0).

(** The widths of the program.  [uint8_t], [uint32_t], [uint64_t] are the
    machine types; [u128], [u256], [u512] are the [uint128_union],
    [uint256_union] and [uint512_union] of lib/numbers.hpp. *)
Abbreviation u8 := (uint 1).
Abbreviation u16 := (uint 2).
Abbreviation u32 := (uint 4).
Abbreviation u64 := (uint 8).
Abbreviation u128 := (uint 16).
Abbreviation u256 := (uint 32).
Abbreviation u512 := (uint 64).
Abbreviation bytes := (list u8).

Definition u_add {n} (x y : uint n) : uint n := U n (uval x + uval y).
Definition u_sub {n} (x y : uint n) : uint n := U n (uval x - uval y).
Definition u_ltb {n} (x y : uint n) : bool := uval x <? uval y.
Definition u_leb {n} (x y : uint n) : bool := uval x <=? uval y.
Definition u_eqb {n} (x y : uint n) : bool := uval x =? uval y.
Definition u_xor {n} (x y : uint n) : uint n := U n (Z.lxor (uval x) (uval y)).
Definition is_zero {n} (x : uint n) : bool := uval x =? 0.
Abbreviation u_zero := (U _ 0).
Arguments u_add : simpl never.
Arguments u_sub : simpl never.
Arguments u_ltb : simpl never.
Arguments u_leb : simpl never.
Arguments u_eqb : simpl never.
Arguments u_xor : simpl never.
Arguments is_zero : simpl never.

Lemma u_eqb_spec {n} (x y : uint n) : reflect (x = y) (u_eqb x y).
Proof.
  unfold u_eqb. destruct (Z.eqb_spec (uval x) (uval y)) as [H|H]; constructor.
  - by apply uval_inj.
  - by intros ->.
Qed.

Lemma u_eqb_refl {n} (x : uint n) : u_eqb x x = true.
Proof. unfold u_eqb. apply Z.eqb_refl. Qed.

Lemma u_eqb_false {n} (x y : uint n) : u_eqb x y = false ↔ x ≠ y.
Proof. by destruct (u_eqb_spec x y). Qed.
Lemma u_eqb_true {n} (x y : uint n) : u_eqb x y = true ↔ x = y.
Proof. by destruct (u_eqb_spec x y). Qed.

Lemma u_ltb_spec {n} (x y : uint n) : reflect (uval x < uval y) (u_ltb x y).
Proof. apply iff_reflect. unfold u_ltb. lia. Qed.
Lemma u_leb_spec {n} (x y : uint n) : reflect (uval x ≤ uval y) (u_leb x y).
Proof. apply iff_reflect. unfold u_leb. lia. Qed.

Lemma uval_zero n : uval (U n 0) = 0.
Proof. apply Z.mod_0_l. pose proof (modulus_pos n). lia. Qed.

Lemma is_zero_spec {n} (x : uint n) : reflect (x = U n 0) (is_zero x).
Proof.
  unfold is_zero. destruct (Z.eqb_spec (uval x) 0) as [H|H]; constructor.
  - apply uval_inj. by rewrite uval_zero.
  - intros ->. by rewrite uval_zero in H.
Qed.

Lemma is_zero_true {n} (x : uint n) : is_zero x = true ↔ x = U n 0.
Proof. by destruct (is_zero_spec x). Qed.
Lemma is_zero_false {n} (x : uint n) : is_zero x = false ↔ x ≠ U n 0.
Proof. by destruct (is_zero_spec x). Qed.
Lemma is_zero_0 n : is_zero (U n 0) = true.
Proof. by apply is_zero_true. Qed.

(** ** Wrap-around arithmetic *)

Lemma uval_add {n} (x y : uint n) : uval (u_add x y) = (uval x + uval y) mod modulus n.
Proof. done. Qed.
Lemma uval_sub {n} (x y : uint n) : uval (u_sub x y) = (uval x - uval y) mod modulus n.
Proof. done. Qed.

Lemma uval_add_small {n} (x y : uint n) :
  uval x + uval y < modulus n → uval (u_add x y) = uval x + uval y.
Proof.
  intros. pose proof (uval_range x). pose proof (uval_range y).
  apply uval_U_small. lia.
Qed.
Lemma uval_sub_small {n} (x y : uint n) :
  uval y ≤ uval x → uval (u_sub x y) = uval x - uval y.
Proof.
  intros. pose proof (uval_range x). pose proof (uval_range y).
  apply uval_U_small. lia.
Qed.

(** Adding the negation [0 - y] is subtraction: the way the ledger writes
    a decrease of a weight. *)
Lemma u_add_neg {n} (x y : uint n) : u_add x (u_sub (U n 0) y) = u_sub x y.
Proof.
  apply uval_inj. rewrite uval_add, !uval_sub, uval_zero.
  rewrite Z.add_mod_idemp_r by (pose proof (modulus_pos n); lia).
  by rewrite Z.sub_0_l.
Qed.

Lemma u_sub_add {n} (x y : uint n) : u_sub (u_add x y) y = x.
Proof.
  apply uval_inj. rewrite uval_sub, uval_add.
  rewrite Zminus_mod_idemp_l.
  replace (uval x + uval y - uval y) with (uval x) by lia.
  apply Z.mod_small, uval_range.
Qed.

Lemma u_add_sub {n} (x y : uint n) : u_add (u_sub x y) y = x.
Proof.
  apply uval_inj. rewrite uval_add, uval_sub.
  rewrite Zplus_mod_idemp_l.
  replace (uval x - uval y + uval y) with (uval x) by lia.
  apply Z.mod_small, uval_range.
Qed.

Lemma u_add_comm {n} (x y : uint n) : u_add x y = u_add y x.
Proof. unfold u_add. f_equal. lia. Qed.

Lemma u_add_0_r {n} (x : uint n) : u_add x (U n 0) = x.
Proof.
  apply uval_inj. rewrite uval_add, uval_zero, Z.add_0_r.
  apply Z.mod_small, uval_range.
Qed.
Lemma u_sub_0_r {n} (x : uint n) : u_sub x (U n 0) = x.
Proof.
  apply uval_inj. rewrite uval_sub, uval_zero, Z.sub_0_r.
  apply Z.mod_small, uval_range.
Qed.
Lemma uval_xor {n} (x y : uint n) : uval (u_xor x y) = Z.lxor (uval x) (uval y).
Proof.
  unfold u_xor. apply uval_U_small. pose proof (uval_range x). pose proof (uval_range y).
  split; [by apply Z.lxor_nonneg; lia|].
  destruct (decide (Z.lxor (uval x) (uval y) ≤ 0)) as [|Hp].
  { pose proof (modulus_pos n). lia. }
  unfold modulus in *. apply Z.log2_lt_pow2; [lia|].
  eapply Z.le_lt_trans; [apply Z.log2_lxor; lia|].
  assert (∀ c : Z, 0 ≤ c < 2 ^ (8 * Z.of_nat n) →
            0 < 8 * Z.of_nat n → Z.log2 c < 8 * Z.of_nat n) as Hlog.
  { intros c Hc Hn. destruct (decide (c = 0)) as [->|]; [done|].
    apply Z.log2_lt_pow2; lia. }
  destruct n as [|n]; [simpl in *; rewrite ?Z.pow_0_r in *|].
  - exfalso. apply Hp. replace (uval x) with 0 by lia.
    by replace (uval y) with 0 by lia.
  - apply Z.max_lub_lt; apply Hlog; lia.
Qed.
Lemma u_xor_comm {n} (x y : uint n) : u_xor x y = u_xor y x.
Proof. apply uval_inj. rewrite !uval_xor. apply Z.lxor_comm. Qed.
Lemma u_xor_assoc {n} (x y z : uint n) : u_xor (u_xor x y) z = u_xor x (u_xor y z).
Proof. apply uval_inj. rewrite !uval_xor. apply Z.lxor_assoc. Qed.
Lemma u_xor_cancel {n} (x y : uint n) : u_xor (u_xor x y) y = x.
Proof.
  apply uval_inj. rewrite !uval_xor. by rewrite Z.lxor_assoc, Z.lxor_nilpotent, Z.lxor_0_r.
Qed.
Lemma u_xor_0_l {n} (x : uint n) : u_xor (U n 0) x = x.
Proof. apply uval_inj. by rewrite uval_xor, uval_zero. Qed.

(** ** Byte strings

    [le_bytes]/[le_val]: little-endian, the in-memory order of the machine
    integers the program writes raw; [be_bytes]/[be_val]: big-endian, the
    order of the [bytes] array of the [uintN_union]s. *)

Definition byte (z : Z) : u8 := U 1 z.

Fixpoint le_bytes (n : nat) (z : Z) : bytes :=
  match n with
  | O => []
  | S n' => byte z :: le_bytes n' (Z.shiftr z 8)
  end.

Fixpoint le_val (l : bytes) : Z :=
  match l with
  | [] => 0
  | b :: l' => uval b + 256 * le_val l'
  end.

Definition be_bytes (n : nat) (z : Z) : bytes := rev (le_bytes n z).
Definition be_val (l : bytes) : Z := le_val (rev l).

Lemma length_le_bytes n z : length (le_bytes n z) = n.
Proof. revert z. induction n; intros; simpl; auto. Qed.
Lemma length_be_bytes n z : length (be_bytes n z) = n.
Proof. unfold be_bytes. by rewrite length_rev, length_le_bytes. Qed.

Lemma modulus_S n : modulus (S n) = 256 * modulus n.
Proof.
  unfold modulus. rewrite Nat2Z.inj_succ.
  replace (8 * Z.succ (Z.of_nat n)) with (8 + 8 * Z.of_nat n) by lia.
  rewrite Z.pow_add_r by lia. done.
Qed.

Lemma modulus_1 : modulus 1 = 256.
Proof. done. Qed.

Lemma le_val_le_bytes n z : le_val (le_bytes n z) = z mod modulus n.
Proof.
  revert z. induction n as [|n IH]; intros z; simpl.
  - unfold modulus. simpl. by rewrite Z.mod_1_r.
  - rewrite IH, (modulus_S n), Z.shiftr_div_pow2 by lia.
    change (2 ^ 8) with 256. unfold byte. rewrite uval_U, modulus_1.
    rewrite Z.rem_mul_r; [done|lia|apply modulus_pos].
Qed.

Lemma le_val_range l : 0 ≤ le_val l < modulus (length l).
Proof.
  induction l as [|b l IH]; simpl.
  - unfold modulus. simpl. lia.
  - rewrite modulus_S. pose proof (uval_range b) as Hb.
    rewrite modulus_1 in Hb. lia.
Qed.

Lemma le_bytes_le_val l : le_bytes (length l) (le_val l) = l.
Proof.
  induction l as [|b l IH]; simpl; [done|].
  pose proof (uval_range b) as Hb. rewrite modulus_1 in Hb. f_equal.
  - apply uval_inj. unfold byte. rewrite uval_U, modulus_1.
    rewrite Z.mul_comm, Z_mod_plus_full. by apply Z.mod_small.
  - etrans; [|exact IH]. f_equal. rewrite Z.shiftr_div_pow2 by lia.
    change (2 ^ 8) with 256. rewrite Z.mul_comm, Z_div_plus_full by lia.
    rewrite Z.div_small by lia. lia.
Qed.

Lemma be_val_be_bytes n z : be_val (be_bytes n z) = z mod modulus n.
Proof. unfold be_val, be_bytes. by rewrite rev_involutive, le_val_le_bytes. Qed.
Lemma be_bytes_be_val l : be_bytes (length l) (be_val l) = l.
Proof.
  unfold be_val, be_bytes. rewrite <-(length_rev l), le_bytes_le_val.
  apply rev_involutive.
Qed.
Lemma be_val_range l : 0 ≤ be_val l < modulus (length l).
Proof. unfold be_val. rewrite <-(length_rev l). apply le_val_range. Qed.

Lemma le_val_app l k : le_val (l ++ k) = le_val l + modulus (length l) * le_val k.
Proof.
  induction l as [|b l IH]; simpl.
  - unfold modulus. simpl. lia.
  - rewrite IH, modulus_S. lia.
Qed.
Lemma be_val_snoc l b : be_val (l ++ [b]) = 256 * be_val l + uval b.
Proof. unfold be_val. rewrite rev_unit. simpl. lia. Qed.

(** ** Readers over byte streams

    [rai::read] fills a value of a fixed size and reports an error when the
    stream is short; a reader returns [None] for that error, the value and
    the rest of the stream otherwise. *)

Definition reader (A : Type) : Type := bytes → option (A * bytes).

Definition read_bytes (n : nat) : reader bytes := λ s,
  if decide (length s < n)%nat then None else Some (take n s, drop n s).

Definition read_be (n : nat) : reader (uint n) := λ s,
  '(b, s) ← read_bytes n s; Some (U n (be_val b), s).
Definition read_le (n : nat) : reader (uint n) := λ s,
  '(b, s) ← read_bytes n s; Some (U n (le_val b), s).

Definition write_be {n} (x : uint n) : bytes := be_bytes n (uval x).
Definition write_le {n} (x : uint n) : bytes := le_bytes n (uval x).

Lemma length_write_be {n} (x : uint n) : length (write_be x) = n.
Proof. apply length_be_bytes. Qed.
Lemma length_write_le {n} (x : uint n) : length (write_le x) = n.
Proof. apply length_le_bytes. Qed.

Lemma read_bytes_app b s : read_bytes (length b) (b ++ s) = Some (b, s).
Proof.
  unfold read_bytes. rewrite decide_False by (rewrite length_app; lia).
  by rewrite take_app_length, drop_app_length.
Qed.
Lemma read_bytes_app_n n b s : length b = n → read_bytes n (b ++ s) = Some (b, s).
Proof. intros <-. apply read_bytes_app. Qed.

Lemma read_bytes_sound n s b r :
  read_bytes n s = Some (b, r) → s = b ++ r ∧ length b = n.
Proof.
  unfold read_bytes. case_decide; [done|]. intros [= <- <-].
  split; [by rewrite take_drop|]. rewrite length_take. lia.
Qed.

Lemma read_be_write {n} (x : uint n) s : read_be n (write_be x ++ s) = Some (x, s).
Proof.
  unfold read_be. rewrite read_bytes_app_n by apply length_write_be. simpl.
  unfold write_be. rewrite be_val_be_bytes, Z.mod_small by apply uval_range.
  by rewrite U_uval.
Qed.
Lemma read_le_write {n} (x : uint n) s : read_le n (write_le x ++ s) = Some (x, s).
Proof.
  unfold read_le. rewrite read_bytes_app_n by apply length_write_le. simpl.
  unfold write_le. rewrite le_val_le_bytes, Z.mod_small by apply uval_range.
  by rewrite U_uval.
Qed.

Lemma read_be_sound n s x r : read_be n s = Some (x, r) → s = write_be x ++ r.
Proof.
  unfold read_be. destruct (read_bytes n s) as [[b r']|] eqn:E; simpl; [|done].
  intros [= <- <-]. apply read_bytes_sound in E as [-> <-]. f_equal.
  unfold write_be. rewrite uval_U_small by apply be_val_range.
  symmetry. apply be_bytes_be_val.
Qed.
Lemma read_le_sound n s x r : read_le n s = Some (x, r) → s = write_le x ++ r.
Proof.
  unfold read_le. destruct (read_bytes n s) as [[b r']|] eqn:E; simpl; [|done].
  intros [= <- <-]. apply read_bytes_sound in E as [-> <-]. f_equal.
  unfold write_le. rewrite uval_U_small by apply le_val_range.
  symmetry. apply le_bytes_le_val.
Qed.

(** Short streams are refused. *)
Lemma read_be_short n s : (length s < n)%nat → read_be n s = None.
Proof. intros. unfold read_be, read_bytes. by rewrite decide_True. Qed.
Lemma read_le_short n s : (length s < n)%nat → read_le n s = None.
Proof. intros. unfold read_le, read_bytes. by rewrite decide_True. Qed.

Lemma write_be_1 (b : u8) : write_be b = [b].
Proof.
  unfold write_be, be_bytes. simpl. f_equal. unfold byte. apply U_uval.
Qed.
Lemma read_be_1 (b : u8) s : read_be 1 (b :: s) = Some (b, s).
Proof. rewrite <-(read_be_write b s), write_be_1. done. Qed.

#[global] Opaque read_bytes read_be read_le write_be write_le le_bytes be_bytes le_val be_val.

(** ** Codecs

    What a serialisable type promises to the tables that hold it: reading
    back what was written gives the value and leaves the rest, and only
    written streams are accepted. *)
Class Codec (A : Type) := {
  encode : A → bytes;
  decode : reader A;
  decode_encode : ∀ a s, decode (encode a ++ s) = Some (a, s);
  decode_sound : ∀ s a r, decode s = Some (a, r) → s = encode a ++ r;
}.

Lemma decode_encode_nil `{Codec A} (a : A) : decode (encode a) = Some (a, []).
Proof. rewrite <-(app_nil_r (encode a)) at 1. apply decode_encode. Qed.

Lemma encode_inj `{Codec A} (a b : A) : encode a = encode b → a = b.
Proof.
  intros E. pose proof (decode_encode_nil a) as Ha.
  rewrite E, decode_encode_nil in Ha. by injection Ha.
Qed.

(** Round trips and soundness of a sequence of [read_be]/[read_le]. *)
Ltac read_written :=
  repeat first
    [ rewrite <-app_assoc | rewrite read_be_write; simpl | rewrite read_le_write; simpl ].

Ltac read_sound :=
  repeat match goal with
  | H : read_be _ _ = Some _ |- _ => apply read_be_sound in H; subst
  | H : read_le _ _ = Some _ |- _ => apply read_le_sound in H; subst
  | H : context [read_be ?n ?s] |- _ =>
      let E := fresh "E" in destruct (read_be n s) as [[? ?]|] eqn:E; simpl in H; [|done]
  | H : context [read_le ?n ?s] |- _ =>
      let E := fresh "E" in destruct (read_le n s) as [[? ?]|] eqn:E; simpl in H; [|done]
  end; simplify_eq.

#[export] Instance codec_be n : Codec (uint n) := {|
  encode := write_be; decode := read_be n;
  decode_encode := read_be_write; decode_sound := read_be_sound n;
|}.

(** ** The effect of the code: state, assertions, loops

    A stateful operation maps a state to its result and the new state, or to
    a fault: a failed [assert], or a loop that did not end within its fuel. *)

Inductive fault : Set := assertion_failed | out_of_fuel.

Inductive outcome (A : Type) : Type :=
| Done (a : A)
| Fault (e : fault).
Arguments Done {A} a.
Arguments Fault {A} e.

Definition M (S A : Type) : Type := S → outcome (A * S).

#[export] Instance M_ret S : MRet (M S) := λ A a s, Done (a, s).
#[export] Instance M_bind S : MBind (M S) := λ A B f m s,
  match m s with
  | Done (a, s') => f a s'
  | Fault e => Fault e
  end.

Definition abort {S A} : M S A := λ _, Fault assertion_failed.
Definition assert_ {S} (b : bool) : M S unit := λ s,
  if b then Done (tt, s) else Fault assertion_failed.
Definition gets {S A} (f : S → A) : M S A := λ s, Done (f s, s).
Definition modify {S} (f : S → S) : M S unit := λ s, Done (tt, f s).

(** A [while] loop: [body] returns [inl] to go on with a new loop state and
    [inr] to leave the loop. *)
Fixpoint loop {S A B} (fuel : nat) (body : A → M S (A + B)) (a : A) : M S B :=
  match fuel with
  | O => λ _, Fault out_of_fuel
  | Datatypes.S fuel' =>
      r ← body a;
      match r with
      | inl a' => loop fuel' body a'
      | inr b => mret b
      end
  end.

Lemma bind_done {S A B} (m : M S A) (f : A → M S B) s a s' :
  m s = Done (a, s') → (m ≫= f) s = f a s'.
Proof. intros H. unfold mbind, M_bind. by rewrite H. Qed.

Lemma bind_inv {S A B} (m : M S A) (f : A → M S B) s b s' :
  (m ≫= f) s = Done (b, s') → ∃ a s1, m s = Done (a, s1) ∧ f a s1 = Done (b, s').
Proof.
  unfold mbind, M_bind. destruct (m s) as [[a s1]|e]; [|done]. eauto.
Qed.

Lemma assert_inv {S} b (s : S) u s' : assert_ b s = Done (u, s') → b = true ∧ s' = s.
Proof. unfold assert_. by destruct b; intros [=]. Qed.

Lemma loop_S {S A B} n (body : A → M S (A + B)) a s :
  loop (Datatypes.S n) body a s =
    match body a s with
    | Done (inl a', s') => loop n body a' s'
    | Done (inr b, s') => Done (b, s')
    | Fault e => Fault e
    end.
Proof.
  simpl. unfold mbind, M_bind. by destruct (body a s) as [[[a'|b] s']|e].
Qed.

(** More fuel does not change a run that ended. *)
Lemma loop_mono {S A B} n k (body : A → M S (A + B)) a s b s' :
  (n ≤ k)%nat → loop n body a s = Done (b, s') → loop k body a s = Done (b, s').
Proof.
  revert k a s. induction n as [|n IH]; intros k a s Hk H; [done|].
  destruct k as [|k]; [lia|]. rewrite loop_S in H |- *.
  destruct (body a s) as [[[a'|b'] s1]|e]; try done.
  apply IH; [lia|done].
Qed.

(** ** Total correctness

    [wp m s Q]: [m] started in [s] does not fault and ends with [Q]. *)
Section wp.
Context {S : Type}.

Definition wp {A} (m : M S A) (s : S) (Q : A → S → Prop) : Prop :=
  match m s with Done (a, s') => Q a s' | Fault _ => False end.

Lemma wp_run {A} (m : M S A) s Q :
  wp m s Q ↔ ∃ a s', m s = Done (a, s') ∧ Q a s'.
Proof. unfold wp. destruct (m s) as [[a s']|e]; naive_solver. Qed.

Lemma wp_bind {A B} (m : M S A) (f : A → M S B) s Q :
  wp m s (λ a s', wp (f a) s' Q) → wp (m ≫= f) s Q.
Proof. unfold wp, mbind, M_bind. by destruct (m s) as [[a s']|e]. Qed.

Lemma wp_ret {A} (a : A) s (Q : A → S → Prop) : Q a s → wp (mret a) s Q.
Proof. done. Qed.

Lemma wp_assert b s (Q : unit → S → Prop) : b = true → Q tt s → wp (assert_ b) s Q.
Proof. intros ->. done. Qed.

Lemma wp_loop {A B} n (body : A → M S (A + B)) a s Q :
  wp (body a) s (λ r s', match r with inl a' => wp (loop n body a') s' Q | inr b => Q b s' end) →
  wp (loop (Datatypes.S n) body a) s Q.
Proof. unfold wp at 1 3. rewrite loop_S. by destruct (body a s) as [[[a'|b] s']|e]. Qed.

Lemma wp_mono {A} (m : M S A) s (Q Q' : A → S → Prop) :
  wp m s Q → (∀ a s', Q a s' → Q' a s') → wp m s Q'.
Proof. unfold wp. destruct (m s) as [[a s']|e]; auto. Qed.
End wp.

(** ** Simulation between two state spaces

    [sim R m k]: started in related states, [m] and [k] either both end with
    the same result in related states, or fault alike. *)
Section sim.
Context {S T : Type} (R : S → T → Prop).

Definition sim {A} (m : M S A) (k : M T A) : Prop := ∀ s t, R s t →
  match m s, k t with
  | Done (a, s'), Done (b, t') => a = b ∧ R s' t'
  | Fault e, Fault e' => e = e'
  | _, _ => False
  end.

Lemma sim_ret {A} (a : A) : sim (mret a) (mret a).
Proof. by intros s t H. Qed.

Lemma sim_bind {A B} (m : M S A) (k : M T A) (f : A → M S B) (g : A → M T B) :
  sim m k → (∀ a, sim (f a) (g a)) → sim (m ≫= f) (k ≫= g).
Proof.
  intros Hm Hf s t HR. unfold mbind, M_bind. specialize (Hm s t HR).
  destruct (m s) as [[a s']|e], (k t) as [[b t']|e']; try done.
  destruct Hm as [<- HR']. by apply Hf.
Qed.

Lemma sim_assert b : sim (assert_ b) (assert_ b).
Proof. intros s t H. by destruct b. Qed.

Lemma sim_abort {A} : sim (A:=A) abort abort.
Proof. by intros s t H. Qed.

Lemma sim_gets {A} (f : S → A) (g : T → A) :
  (∀ s t, R s t → f s = g t) → sim (gets f) (gets g).
Proof. intros H s t HR. split; [by apply H|done]. Qed.

Lemma sim_modify (f : S → S) (g : T → T) :
  (∀ s t, R s t → R (f s) (g t)) → sim (modify f) (modify g).
Proof. intros H s t HR. split; [done|by apply H]. Qed.

Lemma sim_loop {A B} n (f : A → M S (A + B)) (g : A → M T (A + B)) a :
  (∀ a, sim (f a) (g a)) → sim (loop n f a) (loop n g a).
Proof.
  intros H. revert a. induction n as [|n IH]; intros a.
  - by intros s t HR.
  - simpl. apply sim_bind; [done|]. intros [a'|b]; [done|apply sim_ret].
Qed.
End sim.

Create HintDb sim discriminated.
#[export] Hint Resolve sim_ret sim_assert sim_abort : sim.

(** Walks two runs of the same code over two state spaces in lockstep. *)
Ltac sim_step :=
  match goal with
  | |- sim _ (mbind _ _) (mbind _ _) => apply sim_bind; [|intros ?]
  | |- sim _ (loop _ _ _) (loop _ _ _) => apply sim_loop; intros ?
  | |- sim _ (match ?x with _ => _ end) _ => destruct x
  | |- sim _ (let '(_, _) := ?x in _) _ => destruct x
  | |- sim _ _ _ => solve [eauto with sim]
  end.
Ltac sim_solve := repeat sim_step.

(** ** Lists *)

Lemma snoc_split {A} (l k1 k2 : list A) x y :
  l ++ [x] = k1 ++ y :: k2 →
  (k2 = [] ∧ y = x ∧ k1 = l) ∨ (∃ k2', k2 = k2' ++ [x] ∧ l = k1 ++ y :: k2').
Proof.
  destruct k2 as [|z k2 _] using rev_ind.
  - intros [-> [= ->]]%app_inj_tail. by left.
  - rewrite app_comm_cons, app_assoc. intros [-> ->]%app_inj_tail. right. eauto.
Qed.

Lemma NoDup_split {A} (l1 k1 l2 k2 : list A) x :
  NoDup (l1 ++ x :: l2) → l1 ++ x :: l2 = k1 ++ x :: k2 → l1 = k1 ∧ l2 = k2.
Proof.
  revert k1. induction l1 as [|y l1 IH]; intros [|z k1] Hnd E; simplify_eq/=.
  - done.
  - apply NoDup_cons in Hnd as [Hx _]. set_solver.
  - apply NoDup_cons in Hnd as [Hx _]. set_solver.
  - apply NoDup_cons in Hnd as [_ Hnd]. by destruct (IH k1 Hnd) as [-> ->].
Qed.

(** An element that comes before another has a longer rest. *)
Lemma NoDup_before {A} (l l1 l2 k1 k2 : list A) x y :
  NoDup l → l = l1 ++ x :: l2 → l = k1 ++ y :: k2 → x ∈ k1 →
  ∃ q, l2 = q ++ y :: k2 ∧ k1 = l1 ++ x :: q.
Proof.
  intros Hnd -> E (p & q & ->)%list_elem_of_split. rewrite <-app_assoc in E. simpl in E.
  destruct (NoDup_split _ _ _ _ _ Hnd E) as [-> ->]. eauto.
Qed.

(** A split of a list with one element left out. *)
Lemma split_without {A} (l1 l2 k1 k2 : list A) h x :
  l1 ++ l2 = k1 ++ x :: k2 →
  ∃ j1 j2, l1 ++ h :: l2 = j1 ++ x :: j2 ∧ ∀ y, y ∈ j1 → y ≠ h → y ∈ k1.
Proof.
  intros [(k & -> & Ek)|(k & -> & ->)]%app_eq_inv.
  - destruct k as [|z k]; simplify_eq/=.
    + exists (k1 ++ [h]), k2. rewrite app_nil_r, <-app_assoc. split; [done|]. set_solver.
    + exists k1, (k ++ h :: l2). by rewrite <-app_assoc.
  - exists (l1 ++ h :: k), k2. rewrite <-app_assoc. split; [done|]. set_solver.
Qed.

(** ** Sums over finite maps *)
Section map_sum.
Context `{Countable K} {A : Type}.
Implicit Types (f : K → A → Z) (m : gmap K A).

Definition map_sum f m : Z := map_fold (λ k a acc, f k a + acc) 0 m.

Lemma map_sum_empty f : map_sum f ∅ = 0.
Proof. apply map_fold_empty. Qed.

Lemma map_sum_insert_new f m k a :
  m !! k = None → map_sum f (<[k:=a]> m) = f k a + map_sum f m.
Proof.
  intros Hk. unfold map_sum. rewrite map_fold_insert_L; [done| |done].
  intros. lia.
Qed.

Lemma map_sum_singleton f k a : map_sum f {[k := a]} = f k a.
Proof.
  rewrite <-insert_empty, map_sum_insert_new, map_sum_empty by apply lookup_empty. lia.
Qed.

Lemma map_sum_delete f m k a :
  m !! k = Some a → map_sum f (delete k m) = map_sum f m - f k a.
Proof.
  intros Hk. rewrite <-(insert_delete_id m k a Hk) at 2.
  rewrite map_sum_insert_new by apply lookup_delete_eq. lia.
Qed.

Lemma map_sum_insert f m k a b :
  m !! k = Some b → map_sum f (<[k:=a]> m) = map_sum f m - f k b + f k a.
Proof.
  intros Hk. rewrite <-insert_delete_eq, map_sum_insert_new by apply lookup_delete_eq.
  rewrite (map_sum_delete f m k b Hk). lia.
Qed.

Lemma map_sum_nonneg f m :
  (∀ k a, m !! k = Some a → 0 ≤ f k a) → 0 ≤ map_sum f m.
Proof.
  induction m as [|k a m Hk IH] using map_ind; intros Hf.
  - by rewrite map_sum_empty.
  - rewrite map_sum_insert_new by done.
    pose proof (Hf k a (lookup_insert_eq _ _ _)) as Hka.
    enough (0 ≤ map_sum f m) by lia. apply IH. intros k' a' Hk'.
    apply Hf. rewrite lookup_insert_ne; [done|congruence].
Qed.

Lemma map_sum_lookup_le f m k a :
  (∀ k a, m !! k = Some a → 0 ≤ f k a) → m !! k = Some a → f k a ≤ map_sum f m.
Proof.
  intros Hf Hk.
  assert (0 ≤ map_sum f (delete k m)).
  { apply map_sum_nonneg. intros k' a'. rewrite lookup_delete_Some.
    intros [_ ?]. by apply Hf. }
  rewrite (map_sum_delete f m k a Hk) in *. lia.
Qed.

Lemma map_sum_ext f g m :
  (∀ k a, m !! k = Some a → f k a = g k a) → map_sum f m = map_sum g m.
Proof.
  induction m as [|k a m Hk IH] using map_ind; intros Hf.
  - by rewrite !map_sum_empty.
  - rewrite !map_sum_insert_new by done.
    rewrite (Hf k a) by apply lookup_insert_eq. f_equal. apply IH.
    intros k' a' Hk'. apply Hf. rewrite lookup_insert_ne; [done|congruence].
Qed.

Lemma map_sum_le f g m :
  (∀ k a, m !! k = Some a → f k a ≤ g k a) → map_sum f m ≤ map_sum g m.
Proof.
  induction m as [|k a m Hk IH] using map_ind; intros Hf.
  - by rewrite !map_sum_empty.
  - rewrite !map_sum_insert_new by done.
    pose proof (Hf k a (lookup_insert_eq _ _ _)).
    enough (map_sum f m ≤ map_sum g m) by lia. apply IH.
    intros k' a' Hk'. apply Hf. rewrite lookup_insert_ne; [done|congruence].
Qed.

Lemma map_sum_add f g m : map_sum (λ k a, f k a + g k a) m = map_sum f m + map_sum g m.
Proof.
  induction m as [|k a m Hk IH] using map_ind; [by rewrite !map_sum_empty|].
  rewrite !map_sum_insert_new by done. lia.
Qed.

(** The sum is the sum over any enumeration of the entries. *)
Lemma map_sum_list f m (l : list (K * A)) : l ≡ₚ map_to_list m →
  foldr (λ e acc, f e.1 e.2 + acc) 0 l = map_sum f m.
Proof.
  intros Hl. unfold map_sum. rewrite map_fold_foldr.
  assert (foldr (λ e acc, f e.1 e.2 + acc) 0 l =
          foldr (λ e acc, f e.1 e.2 + acc) 0 (map_to_list m)) as ->.
  { induction Hl; simpl; lia. }
  clear Hl. induction (map_to_list m) as [|[] k IHk]; simpl; [done|]. by rewrite IHk.
Qed.
End map_sum.

(** Proofs use the lemmas above; concrete runs use [vm_compute], which is not
    affected. *)
#[global] Opaque U modulus is_zero u_eqb u_ltb u_leb u_add u_sub u_xor.
