(* ===== verification/Crypto.v ===== *)
(** * Cryptographic primitives, as interfaces

    The ledger and the block types use blake2b (blake2/) and ed25519
    (ed25519-donna/) through a handful of calls.  Each is a class: the
    definitions that call it take the class as an argument, and their
    theorems hold for every instance. *)

From S2P Require Import Prelude.

(** blake2b_init, blake2b_update, blake2b_final.  [blake2b_final] fills
    exactly the number of bytes it is asked for. *)
Class Blake2b := {
  blake2b_state : Type;
  blake2b_init : nat → blake2b_state;
  blake2b_update : blake2b_state → bytes → blake2b_state;
  blake2b_final : blake2b_state → nat → bytes;
  blake2b_final_length : ∀ st n, length (blake2b_final st n) = n;
}.

(** ed25519_publickey, ed25519_sign and ed25519_sign_open (which returns 0,
    here [true], for a valid signature). *)
Class Ed25519 := {
  ed25519_publickey : u256 → u256;
  ed25519_sign : bytes → u256 → u256 → u512;
  ed25519_sign_open : bytes → u256 → u512 → bool;
}.

(** The documented promise of the signature scheme. *)
Class Ed25519Correct `{Ed25519} := {
  ed25519_open_sign : ∀ m prv,
    ed25519_sign_open m (ed25519_publickey prv)
      (ed25519_sign m prv (ed25519_publickey prv)) = true;
}.

Section blake2b.
Context `{Blake2b}.

(** blake2b_update once per field, in order. *)
Definition blake2b_updates (st : blake2b_state) (fields : list bytes) : blake2b_state :=
  foldl blake2b_update st fields.

(** The 32-byte digest of the fields, read as a [uint256_union]. *)
Definition blake2b_256 (fields : list bytes) : u256 :=
  U 32 (be_val (blake2b_final (blake2b_updates (blake2b_init 32) fields) 32)).
End blake2b.

Section ed25519.
Context `{Ed25519}.

Definition sign_message (private_key public_key message : u256) : u512 :=
  ed25519_sign (write_be message) private_key public_key.

(** [true] is an error, as in the source. *)
Definition validate_message (public_key message : u256) (signature : u512) : bool :=
  negb (ed25519_sign_open (write_be message) public_key signature).

Lemma validate_sign_message `{!Ed25519Correct} prv message :
  validate_message (ed25519_publickey prv) message
    (sign_message prv (ed25519_publickey prv) message) = false.
Proof. unfold validate_message, sign_message. by rewrite ed25519_open_sign. Qed.
End ed25519.
