(* ===== verification/Blocks.v ===== *)
(** * The five block types (lib/blocks.hpp, lib/blocks.cpp)

    Data, accessors, digest, equality, predecessor rules and the binary
    serialisation of send, receive, open, change and state blocks. *)

From S2P Require Import Prelude Crypto.

(** ** Data *)

Inductive block_type : Set :=
  bt_invalid | bt_not_a_block | bt_send | bt_receive | bt_open | bt_change | bt_state.

#[export] Instance block_type_eq_dec : EqDecision block_type.
Proof. solve_decision. Defined.

Definition block_type_byte (t : block_type) : u8 :=
  byte match t with
       | bt_invalid => 0
       | bt_not_a_block => 1
       | bt_send => 2
       | bt_receive => 3
       | bt_open => 4
       | bt_change => 5
       | bt_state => 6
       end.

Definition block_type_of_byte (b : u8) : option block_type :=
  match uval b with
  | 0 => Some bt_invalid
  | 1 => Some bt_not_a_block
  | 2 => Some bt_send
  | 3 => Some bt_receive
  | 4 => Some bt_open
  | 5 => Some bt_change
  | 6 => Some bt_state
  | _ => None
  end.

Record send_hashables : Set := Send_hashables {
  sh_previous : u256;
  sh_destination : u256;
  sh_balance : u128;
}.
Record receive_hashables : Set := Receive_hashables {
  rh_previous : u256;
  rh_source : u256;
}.
Record open_hashables : Set := Open_hashables {
  oh_source : u256;
  oh_representative : u256;
  oh_account : u256;
}.
Record change_hashables : Set := Change_hashables {
  ch_previous : u256;
  ch_representative : u256;
}.
Record state_hashables : Set := State_hashables {
  th_account : u256;
  th_previous : u256;
  th_representative : u256;
  th_balance : u128;
  th_link : u256;
}.

(** A block is its hashables, a signature and a proof of work. *)
Record signed (H : Set) : Set := Signed {
  hashables : H;
  signature : u512;
  work : u64;
}.
Arguments Signed {H}.
Arguments hashables {H}.
Arguments signature {H}.
Arguments work {H}.

Abbreviation send_block := (signed send_hashables).
Abbreviation receive_block := (signed receive_hashables).
Abbreviation open_block := (signed open_hashables).
Abbreviation change_block := (signed change_hashables).
Abbreviation state_block := (signed state_hashables).

Inductive block : Set :=
| BSend (b : send_block)
| BReceive (b : receive_block)
| BOpen (b : open_block)
| BChange (b : change_block)
| BState (b : state_block).

#[export] Instance send_hashables_eq_dec : EqDecision send_hashables.
Proof. solve_decision. Defined.
#[export] Instance receive_hashables_eq_dec : EqDecision receive_hashables.
Proof. solve_decision. Defined.
#[export] Instance open_hashables_eq_dec : EqDecision open_hashables.
Proof. solve_decision. Defined.
#[export] Instance change_hashables_eq_dec : EqDecision change_hashables.
Proof. solve_decision. Defined.
#[export] Instance state_hashables_eq_dec : EqDecision state_hashables.
Proof. solve_decision. Defined.
#[export] Instance signed_eq_dec (H : Set) `{EqDecision H} : EqDecision (signed H).
Proof. solve_decision. Defined.
#[export] Instance block_eq_dec : EqDecision block.
Proof. solve_decision. Defined.

(** ** Accessors *)

Definition block_type_of (b : block) : block_type :=
  match b with
  | BSend _ => bt_send
  | BReceive _ => bt_receive
  | BOpen _ => bt_open
  | BChange _ => bt_change
  | BState _ => bt_state
  end.

Definition block_previous (b : block) : u256 :=
  match b with
  | BSend b => sh_previous (hashables b)
  | BReceive b => rh_previous (hashables b)
  | BOpen _ => U 32 0
  | BChange b => ch_previous (hashables b)
  | BState b => th_previous (hashables b)
  end.

Definition block_source (b : block) : u256 :=
  match b with
  | BSend _ => U 32 0
  | BReceive b => rh_source (hashables b)
  | BOpen b => oh_source (hashables b)
  | BChange _ => U 32 0
  | BState _ => U 32 0
  end.

(** Previous block, or the account number for a block that opens one. *)
Definition block_root (b : block) : u256 :=
  match b with
  | BSend b => sh_previous (hashables b)
  | BReceive b => rh_previous (hashables b)
  | BOpen b => oh_account (hashables b)
  | BChange b => ch_previous (hashables b)
  | BState b =>
      if negb (is_zero (th_previous (hashables b)))
      then th_previous (hashables b) else th_account (hashables b)
  end.

Definition block_representative (b : block) : u256 :=
  match b with
  | BSend _ => U 32 0
  | BReceive _ => U 32 0
  | BOpen b => oh_representative (hashables b)
  | BChange b => ch_representative (hashables b)
  | BState b => th_representative (hashables b)
  end.

Definition block_signature (b : block) : u512 :=
  match b with
  | BSend b => signature b
  | BReceive b => signature b
  | BOpen b => signature b
  | BChange b => signature b
  | BState b => signature b
  end.

Definition block_work (b : block) : u64 :=
  match b with
  | BSend b => work b
  | BReceive b => work b
  | BOpen b => work b
  | BChange b => work b
  | BState b => work b
  end.

Definition set_signature {H : Set} (s : u512) (b : signed H) : signed H :=
  Signed (hashables b) s (work b).
Definition set_work {H : Set} (w : u64) (b : signed H) : signed H :=
  Signed (hashables b) (signature b) w.

Definition signature_set (s : u512) (b : block) : block :=
  match b with
  | BSend b => BSend (set_signature s b)
  | BReceive b => BReceive (set_signature s b)
  | BOpen b => BOpen (set_signature s b)
  | BChange b => BChange (set_signature s b)
  | BState b => BState (set_signature s b)
  end.

Definition block_work_set (w : u64) (b : block) : block :=
  match b with
  | BSend b => BSend (set_work w b)
  | BReceive b => BReceive (set_work w b)
  | BOpen b => BOpen (set_work w b)
  | BChange b => BChange (set_work w b)
  | BState b => BState (set_work w b)
  end.

(** Which block may precede this one in its account's chain. *)
Definition valid_predecessor (b prev : block) : bool :=
  match b with
  | BSend _ | BReceive _ | BChange _ =>
      match block_type_of prev with
      | bt_send | bt_receive | bt_open | bt_change => true
      | _ => false
      end
  | BOpen _ => false
  | BState _ => true
  end.

(** ** Equality: first by type, then by content *)

Definition send_block_eqb (a b : send_block) : bool :=
  u_eqb (sh_destination (hashables a)) (sh_destination (hashables b))
  && u_eqb (sh_previous (hashables a)) (sh_previous (hashables b))
  && u_eqb (sh_balance (hashables a)) (sh_balance (hashables b))
  && u_eqb (work a) (work b) && u_eqb (signature a) (signature b).

Definition receive_block_eqb (a b : receive_block) : bool :=
  u_eqb (rh_previous (hashables a)) (rh_previous (hashables b))
  && u_eqb (rh_source (hashables a)) (rh_source (hashables b))
  && u_eqb (work a) (work b) && u_eqb (signature a) (signature b).

Definition open_block_eqb (a b : open_block) : bool :=
  u_eqb (oh_source (hashables a)) (oh_source (hashables b))
  && u_eqb (oh_representative (hashables a)) (oh_representative (hashables b))
  && u_eqb (oh_account (hashables a)) (oh_account (hashables b))
  && u_eqb (work a) (work b) && u_eqb (signature a) (signature b).

Definition change_block_eqb (a b : change_block) : bool :=
  u_eqb (ch_previous (hashables a)) (ch_previous (hashables b))
  && u_eqb (ch_representative (hashables a)) (ch_representative (hashables b))
  && u_eqb (work a) (work b) && u_eqb (signature a) (signature b).

Definition state_block_eqb (a b : state_block) : bool :=
  u_eqb (th_account (hashables a)) (th_account (hashables b))
  && u_eqb (th_previous (hashables a)) (th_previous (hashables b))
  && u_eqb (th_representative (hashables a)) (th_representative (hashables b))
  && u_eqb (th_balance (hashables a)) (th_balance (hashables b))
  && u_eqb (th_link (hashables a)) (th_link (hashables b))
  && u_eqb (signature a) (signature b) && u_eqb (work a) (work b).

Definition block_eqb (a b : block) : bool :=
  match a, b with
  | BSend a, BSend b => send_block_eqb a b
  | BReceive a, BReceive b => receive_block_eqb a b
  | BOpen a, BOpen b => open_block_eqb a b
  | BChange a, BChange b => change_block_eqb a b
  | BState a, BState b => state_block_eqb a b
  | _, _ => false
  end.

(** ** Digest *)

Section hash.
Context `{Blake2b}.

Definition send_hashables_hash (h : send_hashables) : list bytes :=
  [write_be (sh_previous h); write_be (sh_destination h); write_be (sh_balance h)].
Definition receive_hashables_hash (h : receive_hashables) : list bytes :=
  [write_be (rh_previous h); write_be (rh_source h)].
Definition open_hashables_hash (h : open_hashables) : list bytes :=
  [write_be (oh_source h); write_be (oh_representative h); write_be (oh_account h)].
Definition change_hashables_hash (h : change_hashables) : list bytes :=
  [write_be (ch_previous h); write_be (ch_representative h)].
Definition state_hashables_hash (h : state_hashables) : list bytes :=
  [write_be (th_account h); write_be (th_previous h); write_be (th_representative h);
   write_be (th_balance h); write_be (th_link h)].

(** The preamble of a state block is its type code as a 256-bit number. *)
Definition state_preamble : bytes := write_be (U 32 (uval (block_type_byte bt_state))).

Definition block_fields (b : block) : list bytes :=
  match b with
  | BSend b => send_hashables_hash (hashables b)
  | BReceive b => receive_hashables_hash (hashables b)
  | BOpen b => open_hashables_hash (hashables b)
  | BChange b => change_hashables_hash (hashables b)
  | BState b => state_preamble :: state_hashables_hash (hashables b)
  end.

Definition block_hash (b : block) : u256 := blake2b_256 (block_fields b).

Lemma block_hash_signature_set s b : block_hash (signature_set s b) = block_hash b.
Proof. by destruct b. Qed.
Lemma block_hash_work_set w b : block_hash (block_work_set w b) = block_hash b.
Proof. by destruct b. Qed.
End hash.

(** ** Construction: hashables, then a signature over the digest *)
Section construct.
Context `{Blake2b, Ed25519}.

Definition make_send_block (previous destination : u256) (balance : u128)
    (prv pub : u256) (w : u64) : send_block :=
  let h := Send_hashables previous destination balance in
  Signed h (sign_message prv pub (blake2b_256 (send_hashables_hash h))) w.
Definition make_receive_block (previous source prv pub : u256) (w : u64) : receive_block :=
  let h := Receive_hashables previous source in
  Signed h (sign_message prv pub (blake2b_256 (receive_hashables_hash h))) w.
(** The constructor of an open block asserts a representative. *)
Definition make_open_block (source representative account prv pub : u256) (w : u64)
    : outcome open_block :=
  let h := Open_hashables source representative account in
  let b := Signed h (sign_message prv pub (blake2b_256 (open_hashables_hash h))) w in
  if negb (is_zero representative) then Done b else Fault assertion_failed.
Definition make_change_block (previous representative prv pub : u256) (w : u64)
    : change_block :=
  let h := Change_hashables previous representative in
  Signed h (sign_message prv pub (blake2b_256 (change_hashables_hash h))) w.
Definition make_state_block (account previous representative : u256) (balance : u128)
    (link prv pub : u256) (w : u64) : state_block :=
  let h := State_hashables account previous representative balance link in
  Signed h (sign_message prv pub (blake2b_256 (state_preamble :: state_hashables_hash h))) w.
End construct.

(** ** Binary serialisation *)

Definition send_serialize (b : send_block) : bytes :=
  write_be (sh_previous (hashables b)) ++ write_be (sh_destination (hashables b))
  ++ write_be (sh_balance (hashables b)) ++ write_be (signature b) ++ write_le (work b).
Definition receive_serialize (b : receive_block) : bytes :=
  write_be (rh_previous (hashables b)) ++ write_be (rh_source (hashables b))
  ++ write_be (signature b) ++ write_le (work b).
Definition open_serialize (b : open_block) : bytes :=
  write_be (oh_source (hashables b)) ++ write_be (oh_representative (hashables b))
  ++ write_be (oh_account (hashables b)) ++ write_be (signature b) ++ write_le (work b).
Definition change_serialize (b : change_block) : bytes :=
  write_be (ch_previous (hashables b)) ++ write_be (ch_representative (hashables b))
  ++ write_be (signature b) ++ write_le (work b).
(** The work of a state block is written big-endian. *)
Definition state_serialize (b : state_block) : bytes :=
  write_be (th_account (hashables b)) ++ write_be (th_previous (hashables b))
  ++ write_be (th_representative (hashables b)) ++ write_be (th_balance (hashables b))
  ++ write_be (th_link (hashables b)) ++ write_be (signature b) ++ write_be (work b).

Definition block_serialize (b : block) : bytes :=
  match b with
  | BSend b => send_serialize b
  | BReceive b => receive_serialize b
  | BOpen b => open_serialize b
  | BChange b => change_serialize b
  | BState b => state_serialize b
  end.

(** Prefixed with an 8-bit type code. *)
Definition serialize_block (b : block) : bytes :=
  block_type_byte (block_type_of b) :: block_serialize b.

Definition read_send_hashables : reader send_hashables := λ s,
  '(previous, s) ← read_be 32 s;
  '(destination, s) ← read_be 32 s;
  '(balance, s) ← read_be 16 s;
  Some (Send_hashables previous destination balance, s).
Definition read_receive_hashables : reader receive_hashables := λ s,
  '(previous, s) ← read_be 32 s;
  '(source, s) ← read_be 32 s;
  Some (Receive_hashables previous source, s).
Definition read_open_hashables : reader open_hashables := λ s,
  '(source, s) ← read_be 32 s;
  '(representative, s) ← read_be 32 s;
  '(account, s) ← read_be 32 s;
  Some (Open_hashables source representative account, s).
Definition read_change_hashables : reader change_hashables := λ s,
  '(previous, s) ← read_be 32 s;
  '(representative, s) ← read_be 32 s;
  Some (Change_hashables previous representative, s).
Definition read_state_hashables : reader state_hashables := λ s,
  '(account, s) ← read_be 32 s;
  '(previous, s) ← read_be 32 s;
  '(representative, s) ← read_be 32 s;
  '(balance, s) ← read_be 16 s;
  '(link, s) ← read_be 32 s;
  Some (State_hashables account previous representative balance link, s).

Definition send_deserialize : reader send_block := λ s,
  '(h, s) ← read_send_hashables s;
  '(sg, s) ← read_be 64 s; '(w, s) ← read_le 8 s; Some (Signed h sg w, s).
Definition receive_deserialize : reader receive_block := λ s,
  '(h, s) ← read_receive_hashables s;
  '(sg, s) ← read_be 64 s; '(w, s) ← read_le 8 s; Some (Signed h sg w, s).
Definition open_deserialize : reader open_block := λ s,
  '(h, s) ← read_open_hashables s;
  '(sg, s) ← read_be 64 s; '(w, s) ← read_le 8 s; Some (Signed h sg w, s).
Definition change_deserialize : reader change_block := λ s,
  '(h, s) ← read_change_hashables s;
  '(sg, s) ← read_be 64 s; '(w, s) ← read_le 8 s; Some (Signed h sg w, s).
Definition state_deserialize : reader state_block := λ s,
  '(h, s) ← read_state_hashables s;
  '(sg, s) ← read_be 64 s; '(w, s) ← read_be 8 s; Some (Signed h sg w, s).

(** A block of a known type; an unknown type trips the assertion of the
    switch's default case. *)
Definition deserialize_block_typed (t : option block_type) (s : bytes)
    : outcome (option (block * bytes)) :=
  match t with
  | Some bt_receive => Done ('(b, s) ← receive_deserialize s; Some (BReceive b, s))
  | Some bt_send => Done ('(b, s) ← send_deserialize s; Some (BSend b, s))
  | Some bt_open => Done ('(b, s) ← open_deserialize s; Some (BOpen b, s))
  | Some bt_change => Done ('(b, s) ← change_deserialize s; Some (BChange b, s))
  | Some bt_state => Done ('(b, s) ← state_deserialize s; Some (BState b, s))
  | Some bt_invalid | Some bt_not_a_block | None => Fault assertion_failed
  end.

Definition deserialize_block (s : bytes) : outcome (option (block * bytes)) :=
  match read_be 1 s with
  | None => Done None
  | Some (t, s) => deserialize_block_typed (block_type_of_byte t) s
  end.

Definition send_size : nat := 32 + 32 + 16 + 64 + 8.
Definition receive_size : nat := 32 + 32 + 64 + 8.
Definition open_size : nat := 32 + 32 + 32 + 64 + 8.
Definition change_size : nat := 32 + 32 + 64 + 8.
Definition state_size : nat := 32 + 32 + 32 + 16 + 32 + 64 + 8.
Definition block_size (t : block_type) : nat :=
  match t with
  | bt_send => send_size
  | bt_receive => receive_size
  | bt_open => open_size
  | bt_change => change_size
  | bt_state => state_size
  | bt_invalid | bt_not_a_block => 0
  end.

(** ** Lemmas *)

#[local] Obligation Tactic := idtac.

Lemma send_block_eqb_spec a b : send_block_eqb a b = true ↔ a = b.
Proof.
  destruct a as [[] ? ?], b as [[] ? ?]; unfold send_block_eqb; simpl.
  rewrite !andb_true_iff, !u_eqb_true. naive_solver.
Qed.
Lemma receive_block_eqb_spec a b : receive_block_eqb a b = true ↔ a = b.
Proof.
  destruct a as [[] ? ?], b as [[] ? ?]; unfold receive_block_eqb; simpl.
  rewrite !andb_true_iff, !u_eqb_true. naive_solver.
Qed.
Lemma open_block_eqb_spec a b : open_block_eqb a b = true ↔ a = b.
Proof.
  destruct a as [[] ? ?], b as [[] ? ?]; unfold open_block_eqb; simpl.
  rewrite !andb_true_iff, !u_eqb_true. naive_solver.
Qed.
Lemma change_block_eqb_spec a b : change_block_eqb a b = true ↔ a = b.
Proof.
  destruct a as [[] ? ?], b as [[] ? ?]; unfold change_block_eqb; simpl.
  rewrite !andb_true_iff, !u_eqb_true. naive_solver.
Qed.
Lemma state_block_eqb_spec a b : state_block_eqb a b = true ↔ a = b.
Proof.
  destruct a as [[] ? ?], b as [[] ? ?]; unfold state_block_eqb; simpl.
  rewrite !andb_true_iff, !u_eqb_true. naive_solver.
Qed.

Lemma block_eqb_eq a b : block_eqb a b = true ↔ a = b.
Proof.
  destruct a, b; simpl;
    rewrite ?send_block_eqb_spec, ?receive_block_eqb_spec, ?open_block_eqb_spec,
      ?change_block_eqb_spec, ?state_block_eqb_spec; naive_solver.
Qed.

#[export] Program Instance send_codec : Codec send_block :=
  {| encode := send_serialize; decode := send_deserialize |}.
Next Obligation.
  intros [[] ? ?] s. unfold send_deserialize, read_send_hashables, send_serialize; simpl.
  by read_written.
Qed.
Next Obligation.
  intros s [[] ? ?] r. unfold send_deserialize, read_send_hashables, send_serialize; simpl.
  intros ?. read_sound. by rewrite <-!app_assoc.
Qed.

#[export] Program Instance receive_codec : Codec receive_block :=
  {| encode := receive_serialize; decode := receive_deserialize |}.
Next Obligation.
  intros [[] ? ?] s. unfold receive_deserialize, read_receive_hashables, receive_serialize; simpl.
  by read_written.
Qed.
Next Obligation.
  intros s [[] ? ?] r. unfold receive_deserialize, read_receive_hashables, receive_serialize; simpl.
  intros ?. read_sound. by rewrite <-!app_assoc.
Qed.

#[export] Program Instance open_codec : Codec open_block :=
  {| encode := open_serialize; decode := open_deserialize |}.
Next Obligation.
  intros [[] ? ?] s. unfold open_deserialize, read_open_hashables, open_serialize; simpl.
  by read_written.
Qed.
Next Obligation.
  intros s [[] ? ?] r. unfold open_deserialize, read_open_hashables, open_serialize; simpl.
  intros ?. read_sound. by rewrite <-!app_assoc.
Qed.

#[export] Program Instance change_codec : Codec change_block :=
  {| encode := change_serialize; decode := change_deserialize |}.
Next Obligation.
  intros [[] ? ?] s. unfold change_deserialize, read_change_hashables, change_serialize; simpl.
  by read_written.
Qed.
Next Obligation.
  intros s [[] ? ?] r. unfold change_deserialize, read_change_hashables, change_serialize; simpl.
  intros ?. read_sound. by rewrite <-!app_assoc.
Qed.

#[export] Program Instance state_codec : Codec state_block :=
  {| encode := state_serialize; decode := state_deserialize |}.
Next Obligation.
  intros [[] ? ?] s. unfold state_deserialize, read_state_hashables, state_serialize; simpl.
  by read_written.
Qed.
Next Obligation.
  intros s [[] ? ?] r. unfold state_deserialize, read_state_hashables, state_serialize; simpl.
  intros ?. read_sound. by rewrite <-!app_assoc.
Qed.

Lemma deserialize_typed_serialize b s :
  deserialize_block_typed (Some (block_type_of b)) (block_serialize b ++ s) =
    Done (Some (b, s)).
Proof.
  destruct b as [b|b|b|b|b]; simpl.
  - by rewrite (@decode_encode _ send_codec b s : send_deserialize (send_serialize b ++ s) = Some (b, s)).
  - by rewrite (@decode_encode _ receive_codec b s : receive_deserialize (receive_serialize b ++ s) = Some (b, s)).
  - by rewrite (@decode_encode _ open_codec b s : open_deserialize (open_serialize b ++ s) = Some (b, s)).
  - by rewrite (@decode_encode _ change_codec b s : change_deserialize (change_serialize b ++ s) = Some (b, s)).
  - by rewrite (@decode_encode _ state_codec b s : state_deserialize (state_serialize b ++ s) = Some (b, s)).
Qed.

Lemma block_type_byte_roundtrip t : block_type_of_byte (block_type_byte t) = Some t.
Proof. by destruct t; vm_compute. Qed.

Lemma deserialize_serialize b s :
  deserialize_block (serialize_block b ++ s) = Done (Some (b, s)).
Proof.
  unfold deserialize_block, serialize_block. simpl.
  rewrite read_be_1, block_type_byte_roundtrip.
  apply deserialize_typed_serialize.
Qed.

Lemma length_block_serialize b :
  length (block_serialize b) = block_size (block_type_of b).
Proof.
  destruct b; simpl;
    unfold send_serialize, receive_serialize, open_serialize, change_serialize,
      state_serialize;
    by rewrite !length_app, ?length_write_be, ?length_write_le.
Qed.
