(* ===== verification/Stats.v ===== *)
(** * Statistics counters (node/stats.hpp, node/stats.cpp)

    The counters the ledger increments: keys packed into 32 bits, and the
    detail and type-level counters updated together.  Sampling, observers
    and log sinks are not modelled. *)

From S2P Require Import Prelude.

Module stat.

Inductive type : Set :=
  traffic | error | message | block | ledger | rollback | bootstrap | vote | peering.

Inductive detail : Set :=
  all | bad_sender | insufficient_work
| send | receive | open | change | state_block
| keepalive | publish | republish_vote | confirm_req | confirm_ack
| initiate | bulk_pull | bulk_push | bulk_pull_blocks | frontier_req
| vote_valid | vote_replay | vote_invalid
| handshake.

Inductive dir : Set := dir_in | dir_out.

Definition type_code (t : type) : Z :=
  match t with
  | traffic => 0 | error => 1 | message => 2 | block => 3 | ledger => 4
  | rollback => 5 | bootstrap => 6 | vote => 7 | peering => 8
  end.

Definition detail_code (d : detail) : Z :=
  match d with
  | all => 0 | bad_sender => 1 | insufficient_work => 2
  | send => 3 | receive => 4 | open => 5 | change => 6 | state_block => 7
  | keepalive => 8 | publish => 9 | republish_vote => 10 | confirm_req => 11
  | confirm_ack => 12 | initiate => 13 | bulk_pull => 14 | bulk_push => 15
  | bulk_pull_blocks => 16 | frontier_req => 17 | vote_valid => 18
  | vote_replay => 19 | vote_invalid => 20 | handshake => 21
  end.

Definition dir_code (d : dir) : Z :=
  match d with dir_in => 0 | dir_out => 1 end.

(** [entries] of the class: the counter value of each key. *)
Abbreviation entries := (gmap u32 u64).

Definition key_of (t : type) (d : detail) (r : dir) : u32 :=
  U 4 (Z.lor (Z.lor (Z.shiftl (type_code t) 16) (Z.shiftl (detail_code d) 8)) (dir_code r)).

(** A missing entry is created with value 0. *)
Definition get_entry (key : u32) (s : entries) : u64 := default (U 8 0) (s !! key).

Definition update (key : u32) (value : u64) (s : entries) : entries :=
  <[key := u_add (get_entry key s) value]> s.

Definition no_detail_mask : Z := 0xffff00ff.

Definition add (t : type) (d : detail) (r : dir) (value : u64) (detail_only : bool)
    (s : entries) : entries :=
  let key := key_of t d r in
  let s := update key value s in
  let masked := U 4 (Z.land (uval key) no_detail_mask) in
  if negb detail_only && negb (u_eqb masked key) then update masked value s else s.

Definition inc (t : type) (d : detail) (s : entries) : entries :=
  add t d dir_in (U 8 1) false s.

Definition inc_detail_only (t : type) (d : detail) (s : entries) : entries :=
  add t d dir_in (U 8 1) false s.

Definition count (t : type) (d : detail) (r : dir) (s : entries) : u64 :=
  get_entry (key_of t d r) s.

(** ** Lemmas *)

Lemma uval_key_of t d r :
  uval (key_of t d r) = type_code t * 65536 + detail_code d * 256 + dir_code r.
Proof. destruct t, d, r; vm_compute; reflexivity. Qed.

Lemma type_code_inj t t' : type_code t = type_code t' → t = t'.
Proof. by destruct t, t'. Qed.
Lemma detail_code_inj d d' : detail_code d = detail_code d' → d = d'.
Proof. destruct d; destruct d'; first [reflexivity | discriminate]. Qed.
Lemma dir_code_inj r r' : dir_code r = dir_code r' → r = r'.
Proof. by destruct r, r'. Qed.

Lemma detail_code_range d : 0 ≤ detail_code d < 256.
Proof. by destruct d. Qed.
Lemma dir_code_range r : 0 ≤ dir_code r < 256.
Proof. by destruct r. Qed.

Lemma key_of_inj t d r t' d' r' :
  key_of t d r = key_of t' d' r' → t = t' ∧ d = d' ∧ r = r'.
Proof.
  intros E. apply (f_equal uval) in E. rewrite !uval_key_of in E.
  pose proof (detail_code_range d). pose proof (detail_code_range d').
  pose proof (dir_code_range r). pose proof (dir_code_range r').
  split_and!; [apply type_code_inj|apply detail_code_inj|apply dir_code_inj]; lia.
Qed.

Lemma mask_key_of t d r :
  U 4 (Z.land (uval (key_of t d r)) no_detail_mask) = key_of t all r.
Proof. apply uval_inj. destruct t, d, r; vm_compute; reflexivity. Qed.

Lemma add_unfold t d r v s :
  d ≠ all →
  add t d r v false s = update (key_of t all r) v (update (key_of t d r) v s).
Proof.
  intros Hd. unfold add. rewrite mask_key_of. simpl.
  destruct (u_eqb_spec (key_of t all r) (key_of t d r)) as [E|]; [|done].
  apply key_of_inj in E as (_ & E & _). by destruct Hd.
Qed.

Lemma count_update t d r k v s :
  count t d r (update k v s) =
    if decide (k = key_of t d r) then u_add (count t d r s) v else count t d r s.
Proof.
  unfold count, get_entry, update. rewrite lookup_insert. by case_decide; subst.
Qed.

End stat.

(** ** Properties of the statistics counters

    What the counters hold after any sequence of additions. *)

Import stat.

#[export] Instance type_eq_dec : EqDecision type.
Proof. solve_decision. Defined.
#[export] Instance detail_eq_dec : EqDecision detail.
Proof. solve_decision. Defined.
#[export] Instance dir_eq_dec : EqDecision dir.
Proof. solve_decision. Defined.

(** One call of [add]. *)
Record addition : Set := Addition {
  to_type : type;
  to_detail : detail;
  to_dir : dir;
  to_value : u64;
  to_detail_only : bool;
}.
Definition add_one (s : entries) (a : addition) : entries :=
  add (to_type a) (to_detail a) (to_dir a) (to_value a) (to_detail_only a) s.

(** Whether an addition counts for a counter: for its own, and for the total
    of its type unless it is for the detail only. *)
Definition counts_for (t : type) (d : detail) (r : dir) (a : addition) : bool :=
  bool_decide (to_type a = t) && bool_decide (to_dir a = r) &&
  (bool_decide (to_detail a = d) || (bool_decide (d = all) && negb (to_detail_only a))).

Definition counted (t : type) (d : detail) (r : dir) (l : list addition) : Z :=
  foldr (λ a n, if counts_for t d r a then uval (to_value a) + n else n) 0 l.

Lemma key_of_eq t d r t' d' r' : key_of t d r = key_of t' d' r' ↔ t = t' ∧ d = d' ∧ r = r'.
Proof. split; [apply key_of_inj|by intros (-> & -> & ->)]. Qed.

Lemma count_add t d r s a :
  uval (count t d r (add_one s a)) =
    (uval (count t d r s) + if counts_for t d r a then uval (to_value a) else 0) mod 2 ^ 64.
Proof.
  pose proof (uval_range (count t d r s)) as Hc. change (modulus 8) with (2 ^ 64) in Hc.
  destruct a as [t' d' r' v only]. unfold add_one, add, counts_for. simpl. rewrite mask_key_of.
  assert (u_eqb (key_of t' all r') (key_of t' d' r') = bool_decide (d' = all)) as ->.
  { destruct (u_eqb_spec (key_of t' all r') (key_of t' d' r')) as [E|E]; symmetry.
    - apply bool_decide_eq_true. by apply key_of_inj in E as (_ & -> & _).
    - apply bool_decide_eq_false. intros ->. done. }
  destruct only; simpl; rewrite ?andb_false_r, ?andb_true_r, ?orb_false_r.
  all: repeat (case_bool_decide; simpl); rewrite ?count_update; repeat case_decide;
    repeat match goal with
    | E : key_of _ _ _ = _ |- _ => apply key_of_inj in E as (? & ? & ?)
    | N : key_of _ _ _ ≠ _ |- _ => rewrite key_of_eq in N
    end; simplify_eq; try naive_solver;
    rewrite ?Z.add_0_r, ?uval_add; change (modulus 8) with (2 ^ 64); try done; by rewrite Z.mod_small.
Qed.

Lemma counted_snoc t d r l a :
  counted t d r (l ++ [a]) = counted t d r l + if counts_for t d r a then uval (to_value a) else 0.
Proof.
  unfold counted. induction l as [|b l IH]; simpl; [by destruct (counts_for t d r a); lia|].
  rewrite IH. destruct (counts_for t d r b); lia.
Qed.

(** After any sequence of additions the counter of a type,
    detail and direction holds, modulo 2^64, the sum of the values added to
    it; the counter of a type holds the sum over all its details, but for the
    additions marked for the detail only. *)
Lemma counters_exact t d r l :
  uval (count t d r (foldl add_one ∅ l)) = counted t d r l mod 2 ^ 64.
Proof.
  induction l as [|a l IH] using rev_ind; [done|].
  rewrite foldl_app. simpl. by rewrite count_add, IH, counted_snoc, Zplus_mod_idemp_l.
Qed.
