(* ===== verification/Common.v ===== *)
(** * Ledger records (common.hpp, common.cpp)

    [account_info], [pending_info], [pending_key], [block_info] and
    [block_counts] with their serialisation and equality. *)

From S2P Require Import Prelude Crypto Blocks.

#[local] Obligation Tactic := idtac.

(** ** Records *)

Record account_info : Set := Account_info {
  head : u256;
  rep_block : u256;
  open_block_hash : u256;
  balance : u128;
  modified : u64;
  block_count : u64;
}.

Definition account_info_default : account_info :=
  Account_info (U 32 0) (U 32 0) (U 32 0) (U 16 0) (U 8 0) (U 8 0).

Record pending_info : Set := Pending_info {
  source : u256;
  amount : u128;
}.
Definition pending_info_default : pending_info := Pending_info (U 32 0) (U 16 0).

(** [pending_key (account, hash)] *)
Abbreviation pending_key := (prod u256 u256).

Record block_info : Set := Block_info {
  bi_account : u256;
  bi_balance : u128;
}.
Definition block_info_default : block_info := Block_info (U 32 0) (U 16 0).

(** Entries per block table; [size_t] is 64 bits. *)
Record block_counts : Set := Block_counts {
  count_send : u64;
  count_receive : u64;
  count_open : u64;
  count_change : u64;
  count_state : u64;
}.
Definition block_counts_sum (c : block_counts) : u64 :=
  u_add (u_add (u_add (u_add (count_send c) (count_receive c)) (count_open c))
    (count_change c)) (count_state c).

#[export] Instance account_info_eq_dec : EqDecision account_info.
Proof. solve_decision. Defined.
#[export] Instance pending_info_eq_dec : EqDecision pending_info.
Proof. solve_decision. Defined.
#[export] Instance block_info_eq_dec : EqDecision block_info.
Proof. solve_decision. Defined.

Definition account_info_eqb (a b : account_info) : bool :=
  u_eqb (head a) (head b) && u_eqb (rep_block a) (rep_block b)
  && u_eqb (open_block_hash a) (open_block_hash b) && u_eqb (balance a) (balance b)
  && u_eqb (modified a) (modified b) && u_eqb (block_count a) (block_count b).
Definition pending_info_eqb (a b : pending_info) : bool :=
  u_eqb (source a) (source b) && u_eqb (amount a) (amount b).
Definition pending_key_eqb (a b : pending_key) : bool :=
  u_eqb a.1 b.1 && u_eqb a.2 b.2.
Definition block_info_eqb (a b : block_info) : bool :=
  u_eqb (bi_account a) (bi_account b) && u_eqb (bi_balance a) (bi_balance b).

(** ** Serialisation *)

Definition account_info_serialize (i : account_info) : bytes :=
  write_be (head i) ++ write_be (rep_block i) ++ write_be (open_block_hash i)
  ++ write_be (balance i) ++ write_le (modified i) ++ write_le (block_count i).
Definition account_info_deserialize : reader account_info := λ s,
  '(head, s) ← read_be 32 s;
  '(rep_block, s) ← read_be 32 s;
  '(open_block, s) ← read_be 32 s;
  '(balance, s) ← read_be 16 s;
  '(modified, s) ← read_le 8 s;
  '(block_count, s) ← read_le 8 s;
  Some (Account_info head rep_block open_block balance modified block_count, s).

Definition pending_info_serialize (i : pending_info) : bytes :=
  write_be (source i) ++ write_be (amount i).
Definition pending_info_deserialize : reader pending_info := λ s,
  '(source, s) ← read_be 32 s;
  '(amount, s) ← read_be 16 s;
  Some (Pending_info source amount, s).

Definition pending_key_serialize (k : pending_key) : bytes :=
  write_be k.1 ++ write_be k.2.
Definition pending_key_deserialize : reader pending_key := λ s,
  '(account, s) ← read_be 32 s;
  '(hash, s) ← read_be 32 s;
  Some ((account, hash), s).

Definition block_info_serialize (i : block_info) : bytes :=
  write_be (bi_account i) ++ write_be (bi_balance i).
Definition block_info_deserialize : reader block_info := λ s,
  '(account, s) ← read_be 32 s;
  '(balance, s) ← read_be 16 s;
  Some (Block_info account balance, s).

#[export] Program Instance account_info_codec : Codec account_info :=
  {| encode := account_info_serialize; decode := account_info_deserialize |}.
Next Obligation.
  intros [] s. unfold account_info_serialize, account_info_deserialize; simpl.
  by read_written.
Qed.
Next Obligation.
  intros s [] r. unfold account_info_serialize, account_info_deserialize; simpl.
  intros ?. read_sound. by rewrite <-!app_assoc.
Qed.

#[export] Program Instance pending_info_codec : Codec pending_info :=
  {| encode := pending_info_serialize; decode := pending_info_deserialize |}.
Next Obligation.
  intros [] s. unfold pending_info_serialize, pending_info_deserialize; simpl.
  by read_written.
Qed.
Next Obligation.
  intros s [] r. unfold pending_info_serialize, pending_info_deserialize; simpl.
  intros ?. read_sound. by rewrite <-!app_assoc.
Qed.

#[export] Program Instance pending_key_codec : Codec pending_key :=
  {| encode := pending_key_serialize; decode := pending_key_deserialize |}.
Next Obligation.
  intros [] s. unfold pending_key_serialize, pending_key_deserialize; simpl.
  by read_written.
Qed.
Next Obligation.
  intros s [] r. unfold pending_key_serialize, pending_key_deserialize; simpl.
  intros ?. read_sound. by rewrite <-!app_assoc.
Qed.

#[export] Program Instance block_info_codec : Codec block_info :=
  {| encode := block_info_serialize; decode := block_info_deserialize |}.
Next Obligation.
  intros [] s. unfold block_info_serialize, block_info_deserialize; simpl.
  by read_written.
Qed.
Next Obligation.
  intros s [] r. unfold block_info_serialize, block_info_deserialize; simpl.
  intros ?. read_sound. by rewrite <-!app_assoc.
Qed.

Lemma account_info_eqb_eq a b : account_info_eqb a b = true ↔ a = b.
Proof.
  destruct a, b; unfold account_info_eqb; simpl.
  rewrite !andb_true_iff, !u_eqb_true. naive_solver.
Qed.
Lemma pending_info_eqb_eq a b : pending_info_eqb a b = true ↔ a = b.
Proof.
  destruct a, b; unfold pending_info_eqb; simpl.
  rewrite !andb_true_iff, !u_eqb_true. naive_solver.
Qed.
Lemma pending_key_eqb_eq a b : pending_key_eqb a b = true ↔ a = b.
Proof.
  destruct a, b; unfold pending_key_eqb; simpl.
  rewrite !andb_true_iff, !u_eqb_true. naive_solver.
Qed.
Lemma block_info_eqb_eq a b : block_info_eqb a b = true ↔ a = b.
Proof.
  destruct a, b; unfold block_info_eqb; simpl.
  rewrite !andb_true_iff, !u_eqb_true. naive_solver.
Qed.
