(* ===== verification/Store.v ===== *)
(** * The block store as the ledger sees it (blockstore.hpp)

    [BlockStore S] is the interface of class [block_store] the ledger uses:
    a method is an operation on the store state [S] whose assertions are
    faults.  [astore] is the abstract store: one finite map per table, and
    [astore_ops] its methods.  File BlockStore models blockstore.cpp on LMDB
    tables of bytes and shows that it implements this specification. *)

From S2P Require Import Prelude Crypto Blocks Common.

Class BlockStore (S : Type) := {
  block_exists : u256 → M S bool;
  block_get : u256 → M S (option block);
  block_put : u256 → block → u256 → M S unit;
  block_successor : u256 → M S u256;
  block_del : u256 → M S unit;
  store_block_count : M S block_counts;
  frontier_get : u256 → M S u256;
  frontier_put : u256 → u256 → M S unit;
  frontier_del : u256 → M S unit;
  account_get : u256 → M S (option account_info);
  account_put : u256 → account_info → M S unit;
  account_del : u256 → M S unit;
  account_exists : u256 → M S bool;
  latest_begin : u256 → M S (list (u256 * account_info));
  pending_get : pending_key → M S (option pending_info);
  pending_put : pending_key → pending_info → M S unit;
  pending_del : pending_key → M S unit;
  pending_exists : pending_key → M S bool;
  pending_begin : pending_key → M S (list (pending_key * pending_info));
  block_info_get : u256 → M S (option block_info);
  block_info_put : u256 → block_info → M S unit;
  block_info_del : u256 → M S unit;
  representation_get : u256 → M S u128;
  representation_put : u256 → u128 → M S unit;
  checksum_get : u64 → u8 → M S (option u256);
  checksum_put : u64 → u8 → u256 → M S unit;
}.

(** [block_store::block_info_max] *)
Definition block_info_max : Z := 32.

(** ** Methods of [block_store] that only call other methods *)
Section derived.
Context {S : Type} `{BlockStore S}.

Definition block_successor_clear (hash : u256) : M S unit :=
  b ← block_get hash;
  match b with
  | Some b => block_put hash b (U 32 0)
  | None => abort
  end.

Definition representation_add (source : u256) (amount : u128) : M S unit :=
  source_block ← block_get source;
  match source_block with
  | Some b =>
      source_previous ← representation_get (block_representative b);
      representation_put (block_representative b) (u_add source_previous amount)
  | None => abort
  end.

Definition root_exists (root : u256) : M S bool :=
  b ← block_exists root;
  if b : bool then mret true else account_exists root.
End derived.

(** ** The abstract store *)

#[export] Instance block_type_countable : Countable block_type.
Proof.
  refine (inj_countable block_type_byte block_type_of_byte _).
  apply block_type_byte_roundtrip.
Defined.

Record astore : Type := Astore {
  a_blocks : gmap (block_type * u256) (block * u256);
  a_frontiers : gmap u256 u256;
  a_accounts : gmap u256 account_info;
  a_pending : gmap pending_key pending_info;
  a_info : gmap u256 block_info;
  a_rep : gmap u256 u128;
  a_checksum : gmap u64 u256;
}.

Definition astore_empty : astore := Astore ∅ ∅ ∅ ∅ ∅ ∅ ∅.

Definition set_blocks f s := Astore (f (a_blocks s)) (a_frontiers s) (a_accounts s)
  (a_pending s) (a_info s) (a_rep s) (a_checksum s).
Definition set_frontiers f s := Astore (a_blocks s) (f (a_frontiers s)) (a_accounts s)
  (a_pending s) (a_info s) (a_rep s) (a_checksum s).
Definition set_accounts f s := Astore (a_blocks s) (a_frontiers s) (f (a_accounts s))
  (a_pending s) (a_info s) (a_rep s) (a_checksum s).
Definition set_pending f s := Astore (a_blocks s) (a_frontiers s) (a_accounts s)
  (f (a_pending s)) (a_info s) (a_rep s) (a_checksum s).
Definition set_info f s := Astore (a_blocks s) (a_frontiers s) (a_accounts s)
  (a_pending s) (f (a_info s)) (a_rep s) (a_checksum s).
Definition set_rep f s := Astore (a_blocks s) (a_frontiers s) (a_accounts s)
  (a_pending s) (a_info s) (f (a_rep s)) (a_checksum s).
Definition set_checksum f s := Astore (a_blocks s) (a_frontiers s) (a_accounts s)
  (a_pending s) (a_info s) (a_rep s) (f (a_checksum s)).

(** A store just created: empty tables, the checksum set to zero. *)
Definition fresh_store : astore := set_checksum <[U 8 0 := U 32 0]> astore_empty.

(** The table in which a hash is found, in the order of the lookups. *)
Definition find_table (order : list block_type) (s : astore) (hash : u256)
    : option block_type :=
  list_find (λ t, is_Some (a_blocks s !! (t, hash))) order ≫= λ '(_, t), Some t.

Definition get_order : list block_type := [bt_send; bt_receive; bt_open; bt_change; bt_state].
Definition del_order : list block_type := [bt_state; bt_send; bt_receive; bt_open; bt_change].

(** Block and successor stored under a hash. *)
Definition a_lookup (s : astore) (hash : u256) : option (block * u256) :=
  t ← find_table get_order s hash; a_blocks s !! (t, hash).

(** The block's predecessor gets this hash as successor ([set_predecessor]). *)
Definition a_fill_value (hash previous : u256) : M astore unit := λ s,
  match find_table get_order s previous, a_lookup s previous with
  | Some t, Some (b, _) => Done (tt, set_blocks <[(t, previous) := (b, hash)]> s)
  | _, _ => Fault assertion_failed
  end.

Definition a_set_predecessor (hash : u256) (b : block) : M astore unit :=
  match b with
  | BSend _ | BReceive _ | BChange _ => a_fill_value hash (block_previous b)
  | BOpen _ => mret tt
  | BState _ =>
      if negb (is_zero (block_previous b)) then a_fill_value hash (block_previous b)
      else mret tt
  end.

Section astore_ops.
Context `{Blake2b}.

Definition a_block_put (hash : u256) (b : block) (successor : u256) : M astore unit :=
  e ← gets (λ s, bool_decide (is_Some (a_lookup s successor)));
  assert_ (is_zero successor || e);;
  modify (set_blocks <[(block_type_of b, hash) := (b, successor)]>);;
  a_set_predecessor (block_hash b) b;;
  sc ← gets (λ s, default (U 32 0) (snd <$> a_lookup s (block_previous b)));
  assert_ (is_zero (block_previous b) || u_eqb sc hash).
End astore_ops.

(** ** Cursors

    LMDB iterates a table in the order of its keys as byte strings, which is
    the numeric order of big-endian keys.  A cursor is the list of entries
    from its position on. *)

Definition hash_le (a b : u256) : Prop := uval a ≤ uval b.
Definition key_le (a b : pending_key) : Prop :=
  uval a.1 < uval b.1 ∨ (uval a.1 = uval b.1 ∧ uval a.2 ≤ uval b.2).
#[export] Instance hash_le_dec : RelDecision hash_le.
Proof. intros a b. unfold hash_le. apply _. Defined.
#[export] Instance key_le_dec : RelDecision key_le.
Proof. intros a b. unfold key_le. apply _. Defined.

Section cursor.
Context `{Countable K} {V : Type} (le : K → K → Prop) `{!RelDecision le}.

Definition entry_le (a b : K * V) : Prop := le a.1 b.1.
#[export] Instance entry_le_dec : RelDecision entry_le.
Proof. intros a b. unfold entry_le. apply _. Defined.

(** MDB_FIRST (no key) or MDB_SET_RANGE (first key not below the given one). *)
Definition cursor (from : K) (m : gmap K V) : list (K * V) :=
  merge_sort entry_le (map_to_list (filter (λ kv, le from kv.1) m)).
End cursor.

Section astore_instance.
Context `{Blake2b}.

Definition table_size (s : astore) (t : block_type) : u64 :=
  U 8 (Z.of_nat (size (filter (λ kv, kv.1.1 = t) (a_blocks s)))).

Definition a_block_del (hash : u256) : M astore unit := λ s,
  match find_table del_order s hash with
  | Some t => Done (tt, set_blocks (delete (t, hash)) s)
  | None => Fault assertion_failed
  end.

(** Deletion from a single-entry table asserts that the entry was found. *)
Definition a_del {K V} `{Countable K} (proj : astore → gmap K V)
    (set : (gmap K V → gmap K V) → astore → astore) (k : K) : M astore unit := λ s,
  if decide (is_Some (proj s !! k)) then Done (tt, set (delete k) s)
  else Fault assertion_failed.

(** [assert ((prefix & 0xff) == 0)] and the key [prefix | mask]. *)
Definition checksum_key (prefix : u64) (mask : u8) : outcome u64 :=
  if Z.land (uval prefix) 0xff =? 0
  then Done (U 8 (Z.lor (uval prefix) (uval mask))) else Fault assertion_failed.

#[export] Instance astore_ops : BlockStore astore := {|
  block_exists h := gets (λ s, bool_decide (is_Some (a_lookup s h)));
  block_get h := gets (λ s, fst <$> a_lookup s h);
  block_put := a_block_put;
  block_successor h := gets (λ s, default (U 32 0) (snd <$> a_lookup s h));
  block_del := a_block_del;
  store_block_count := gets (λ s, Block_counts (table_size s bt_send)
    (table_size s bt_receive) (table_size s bt_open) (table_size s bt_change)
    (table_size s bt_state));
  frontier_get h := gets (λ s, default (U 32 0) (a_frontiers s !! h));
  frontier_put h a := modify (set_frontiers <[h := a]>);
  frontier_del := a_del a_frontiers set_frontiers;
  account_get a := gets (λ s, a_accounts s !! a);
  account_put a i := modify (set_accounts <[a := i]>);
  account_del := a_del a_accounts set_accounts;
  account_exists a := gets (λ s, bool_decide (is_Some (a_accounts s !! a)));
  latest_begin a := gets (λ s, cursor hash_le a (a_accounts s));
  pending_get k := gets (λ s, a_pending s !! k);
  pending_put k i := modify (set_pending <[k := i]>);
  pending_del := a_del a_pending set_pending;
  pending_exists k := gets (λ s, bool_decide (is_Some (a_pending s !! k)));
  pending_begin k := gets (λ s, cursor key_le k (a_pending s));
  block_info_get h := gets (λ s, a_info s !! h);
  block_info_put h i := modify (set_info <[h := i]>);
  block_info_del := a_del a_info set_info;
  representation_get a := gets (λ s, default (U 16 0) (a_rep s !! a));
  representation_put a w := modify (set_rep <[a := w]>);
  checksum_get p m := λ s,
    match checksum_key p m with
    | Done k => Done (a_checksum s !! k, s)
    | Fault e => Fault e
    end;
  checksum_put p m h := λ s,
    match checksum_key p m with
    | Done k => Done (tt, set_checksum <[k := h]> s)
    | Fault e => Fault e
    end;
|}.
End astore_instance.
