(* ===== verification/Ledger.v ===== *)
(** * The ledger (ledger.hpp, ledger.cpp, and the visitors of common.cpp)

    Every operation of class [ledger], over any [BlockStore].  The visitors
    and the loops of the ledger follow chains of blocks, so they take fuel. *)

From S2P Require Import Prelude Crypto Blocks Common Stats Store.

(** The constants of the network the node runs on, and the random sentinel. *)
Class LedgerConstants := {
  genesis_account : u256;
  not_an_account : u256;
  genesis_account_nonzero : genesis_account ≠ U 32 0;
}.

Definition genesis_amount : u128 := U 16 (2 ^ 128 - 1).
Definition burn_account : u256 := U 32 0.

Inductive process_result : Set :=
  progress | bad_signature | old | negative_spend | fork | unreceivable
| gap_previous | gap_source | opened_burn_account | balance_mismatch | block_position.

#[export] Instance process_result_eq_dec : EqDecision process_result.
Proof. solve_decision. Defined.

(** [None] for a field the code left unassigned. *)
Record process_return : Set := Process_return {
  code : process_result;
  result_account : option u256;
  result_amount : option u128;
  pending_account : option u256;
  state_is_send : option bool;
}.
Definition return_code (c : process_result) : process_return :=
  Process_return c None None None None.

(** The ledger object: its store and statistics, the clock it reads, and the
    bootstrap weights. *)
Record ledger (S : Type) : Type := Ledger {
  store : S;
  stats : stat.entries;
  clock : nat → u64;
  bootstrap_weights : gmap u256 u128;
  bootstrap_weight_max_blocks : u64;
  check_bootstrap_weights : bool;
}.
Arguments Ledger {S}.
Arguments store {S}.
Arguments stats {S}.
Arguments clock {S}.
Arguments bootstrap_weights {S}.
Arguments bootstrap_weight_max_blocks {S}.
Arguments check_bootstrap_weights {S}.

Section env.
Context {S : Type}.

Definition set_store (l : ledger S) (s : S) : ledger S :=
  Ledger s (stats l) (clock l) (bootstrap_weights l) (bootstrap_weight_max_blocks l)
    (check_bootstrap_weights l).

(** A call of a store method. *)
Definition st {A} (m : M S A) : M (ledger S) A := λ l,
  match m (store l) with
  | Done (a, s) => Done (a, set_store l s)
  | Fault e => Fault e
  end.

Definition stats_inc (t : stat.type) (d : stat.detail) : M (ledger S) unit :=
  modify (λ l, Ledger (store l) (stat.inc t d (stats l)) (clock l)
    (bootstrap_weights l) (bootstrap_weight_max_blocks l) (check_bootstrap_weights l)).

(** Successive readings of the clock. *)
Definition seconds_since_epoch : M (ledger S) u64 := λ l,
  Done (clock l 0%nat, Ledger (store l) (stats l) (λ n, clock l (Datatypes.S n))
    (bootstrap_weights l) (bootstrap_weight_max_blocks l) (check_bootstrap_weights l)).

Definition clear_check_bootstrap_weights : M (ledger S) unit :=
  modify (λ l, Ledger (store l) (stats l) (clock l)
    (bootstrap_weights l) (bootstrap_weight_max_blocks l) false).
End env.

(** ** Visitors *)

Record amount_visitor : Set := Amount_visitor {
  av_current_amount : u256;
  av_current_balance : u256;
  av_amount : u128;
}.
Record balance_visitor : Set := Balance_visitor {
  bv_current_balance : u256;
  bv_current_amount : u256;
  bv_balance : u128;
}.
Record representative_visitor : Set := Representative_visitor {
  rv_current : u256;
  rv_result : u256;
}.

Section visitors.
Context {S : Type} `{BlockStore S, Blake2b, LedgerConstants}.

Definition amount_visit (b : block) (v : amount_visitor) : amount_visitor :=
  match b with
  | BSend b => Amount_visitor (U 32 0) (sh_previous (hashables b)) (sh_balance (hashables b))
  | BReceive b =>
      Amount_visitor (rh_source (hashables b)) (av_current_balance v) (av_amount v)
  | BOpen b =>
      if negb (u_eqb (oh_source (hashables b)) genesis_account)
      then Amount_visitor (oh_source (hashables b)) (av_current_balance v) (av_amount v)
      else Amount_visitor (U 32 0) (av_current_balance v) genesis_amount
  | BChange _ => Amount_visitor (U 32 0) (av_current_balance v) (U 16 0)
  | BState b => Amount_visitor (U 32 0) (th_previous (hashables b)) (th_balance (hashables b))
  end.

Definition balance_visit (b : block) (v : balance_visitor) : M S balance_visitor :=
  match b with
  | BSend b =>
      mret (Balance_visitor (U 32 0) (bv_current_amount v)
        (u_add (bv_balance v) (sh_balance (hashables b))))
  | BReceive r =>
      info ← block_info_get (block_hash b);
      mret match info with
      | Some i =>
          Balance_visitor (U 32 0) (bv_current_amount v) (u_add (bv_balance v) (bi_balance i))
      | None =>
          Balance_visitor (rh_previous (hashables r)) (rh_source (hashables r)) (bv_balance v)
      end
  | BOpen b => mret (Balance_visitor (U 32 0) (oh_source (hashables b)) (bv_balance v))
  | BChange c =>
      info ← block_info_get (block_hash b);
      mret match info with
      | Some i =>
          Balance_visitor (U 32 0) (bv_current_amount v) (u_add (bv_balance v) (bi_balance i))
      | None =>
          Balance_visitor (ch_previous (hashables c)) (bv_current_amount v) (bv_balance v)
      end
  | BState b =>
      mret (Balance_visitor (U 32 0) (bv_current_amount v) (th_balance (hashables b)))
  end.

(** [amount_visitor::compute] and [balance_visitor::compute] call each other. *)
Fixpoint amount_loop (fuel : nat) (block_hash : u256) (v : amount_visitor) : M S u128 :=
  match fuel with
  | O => λ _, Fault out_of_fuel
  | Datatypes.S fuel =>
      if negb (is_zero (av_current_amount v)) || negb (is_zero (av_current_balance v)) then
        if negb (is_zero (av_current_amount v)) then
          b ← block_get (av_current_amount v);
          match b with
          | Some b => amount_loop fuel block_hash (amount_visit b v)
          | None =>
              if u_eqb block_hash genesis_account
              then amount_loop fuel block_hash
                     (Amount_visitor (U 32 0) (av_current_balance v) (U 16 (2 ^ 128 - 1)))
              else abort
          end
        else
          prev ← balance_loop fuel (Balance_visitor (av_current_balance v) (U 32 0) (U 16 0));
          amount_loop fuel block_hash
            (Amount_visitor (av_current_amount v) (U 32 0)
              (if u_ltb (av_amount v) prev then u_sub prev (av_amount v)
               else u_sub (av_amount v) prev))
      else mret (av_amount v)
  end
with balance_loop (fuel : nat) (v : balance_visitor) : M S u128 :=
  match fuel with
  | O => λ _, Fault out_of_fuel
  | Datatypes.S fuel =>
      if negb (is_zero (bv_current_balance v)) || negb (is_zero (bv_current_amount v)) then
        if negb (is_zero (bv_current_amount v)) then
          source ← amount_loop fuel (bv_current_amount v)
                     (Amount_visitor (bv_current_amount v) (U 32 0) (U 16 0));
          balance_loop fuel (Balance_visitor (bv_current_balance v) (U 32 0)
            (u_add (bv_balance v) source))
        else
          b ← block_get (bv_current_balance v);
          match b with
          | Some b => v ← balance_visit b v; balance_loop fuel v
          | None => abort
          end
      else mret (bv_balance v)
  end.

Definition amount_compute (fuel : nat) (hash : u256) : M S u128 :=
  amount_loop fuel hash (Amount_visitor hash (U 32 0) (U 16 0)).
Definition balance_compute (fuel : nat) (hash : u256) : M S u128 :=
  balance_loop fuel (Balance_visitor hash (U 32 0) (U 16 0)).

Definition representative_visit (b : block) (v : representative_visitor)
    : representative_visitor :=
  match b with
  | BSend _ | BReceive _ => Representative_visitor (block_previous b) (rv_result v)
  | BOpen _ | BChange _ | BState _ => Representative_visitor (rv_current v) (block_hash b)
  end.

Definition representative_compute (fuel : nat) (hash : u256) : M S u256 :=
  loop fuel (λ v,
    if is_zero (rv_result v) then
      b ← block_get (rv_current v);
      match b with
      | Some b => mret (inl (representative_visit b v))
      | None => abort
      end
    else mret (inr (rv_result v)))
  (Representative_visitor hash (U 32 0)).
End visitors.

(** ** Queries *)

Section queries.
Context {S : Type} `{BlockStore S, Blake2b, LedgerConstants}.
Context (fuel : nat).
Abbreviation L := (ledger S).

Definition ledger_balance (hash : u256) : M L u128 := st (balance_compute fuel hash).
Definition ledger_amount (hash : u256) : M L u128 := st (amount_compute fuel hash).

Definition account_balance (account : u256) : M L u128 :=
  info ← st (account_get account);
  mret match info with Some i => balance i | None => U 16 0 end.

Definition representative_calculated (hash : u256) : M L u256 :=
  st (representative_compute fuel hash).
Definition representative (hash : u256) : M L u256 :=
  result ← representative_calculated hash;
  if is_zero result then mret result
  else e ← st (block_exists result); assert_ e;; mret result.

(** The account containing a block: follow the successors to a block of
    known owner. *)
Definition ledger_account (hash : u256) : M L u256 :=
  b ← st (block_get hash);
  match b with
  | None => abort
  | Some b =>
      result ← loop fuel (λ '(hash, b, successor),
        if negb (is_zero successor) && negb (bool_decide (block_type_of b = bt_state)) then
          info ← st (block_info_get successor);
          match info with
          | Some i => mret (inr (bi_account i))
          | None =>
              successor ← st (block_successor hash);
              if negb (is_zero successor) then
                nb ← st (block_get successor);
                match nb with
                | Some nb => mret (inl (successor, nb, successor))
                | None => abort
                end
              else mret (inl (hash, b, successor))
          end
        else
          match b with
          | BState t => mret (inr (th_account (hashables t)))
          | _ => a ← st (frontier_get hash); mret (inr a)
          end) (hash, b, U 32 1);
      assert_ (negb (is_zero result));;
      mret result
  end.

Definition latest (account : u256) : M L u256 :=
  info ← st (account_get account);
  mret match info with Some i => head i | None => U 32 0 end.

Definition latest_root (account : u256) : M L u256 :=
  info ← st (account_get account);
  mret match info with Some i => head i | None => account end.

Definition is_send (b : state_block) : M L bool :=
  if negb (is_zero (th_previous (hashables b))) then
    bal ← ledger_balance (th_previous (hashables b));
    mret (u_ltb (th_balance (hashables b)) bal)
  else mret false.

Definition block_destination (b : block) : M L u256 :=
  match b with
  | BSend b => mret (sh_destination (hashables b))
  | BState b =>
      s ← is_send b;
      mret (if s : bool then th_link (hashables b) else U 32 0)
  | _ => mret (U 32 0)
  end.

Definition ledger_block_source (b : block) : M L u256 :=
  match b with
  | BState t =>
      s ← is_send t;
      mret (if s : bool then block_source b else th_link (hashables t))
  | _ => mret (block_source b)
  end.

(** Vote weight of an account. *)
Definition weight (account : u256) : M L u128 :=
  check ← gets check_bootstrap_weights;
  if check : bool then
    blocks ← st store_block_count;
    max_blocks ← gets bootstrap_weight_max_blocks;
    if u_ltb (block_counts_sum blocks) max_blocks then
      w ← gets (λ l, bootstrap_weights l !! account);
      match w with
      | Some w => mret w
      | None => st (representation_get account)
      end
    else clear_check_bootstrap_weights;; st (representation_get account)
  else st (representation_get account).

Definition ledger_checksum : M L u256 :=
  c ← st (checksum_get (U 8 0) (U 1 0));
  match c with Some c => mret c | None => abort end.

Definition checksum_update (hash : u256) : M L unit :=
  value ← st (checksum_get (U 8 0) (U 1 0));
  match value with
  | Some v => st (checksum_put (U 8 0) (U 1 0) (u_xor v hash))
  | None => abort
  end.

Definition successor (root : u256) : M L (option block) :=
  e ← st (account_exists root);
  sc ← (if e : bool then
          info ← st (account_get root);
          match info with Some i => mret (open_block_hash i) | None => abort end
        else st (block_successor root));
  if negb (is_zero sc) then
    b ← st (block_get sc);
    assert_ (bool_decide (is_Some b));;
    mret b
  else mret None.

Definition forked_block (b : block) : M L block :=
  e ← st (block_exists (block_hash b));
  assert_ (negb e);;
  re ← st (root_exists (block_root b));
  assert_ re;;
  sc ← st (block_successor (block_root b));
  r ← st (block_get sc);
  match r with
  | Some r => mret r
  | None =>
      info ← st (account_get (block_root b));
      match info with
      | None => abort
      | Some i =>
          r ← st (block_get (open_block_hash i));
          match r with Some r => mret r | None => abort end
      end
  end.

(** The loop of [account_pending]: from the first entry of the account to
    the first entry of the next account number.  An iterator at the end of
    the table stays there. *)
Definition iterator_eqb (i n : list (pending_key * pending_info)) : bool :=
  match i, n with
  | [], [] => true
  | (k, _) :: _, (k', _) :: _ => pending_key_eqb k k'
  | _, _ => false
  end.

Definition account_pending (account : u256) : M L u128 :=
  let end_ := U 32 (uval account + 1) in
  i ← st (pending_begin (account, U 32 0));
  n ← st (pending_begin (end_, U 32 0));
  loop fuel (λ '(i, result),
    if negb (iterator_eqb i n) then
      match i with
      | (_, info) :: i => mret (inl (i, u_add result (amount info)))
      | [] => abort
      end
    else mret (inr result)) (i, U 16 0).

Definition change_latest (account hash rep_block_a : u256) (balance_a : u128)
    (block_count_a : u64) (is_state : bool) : M L unit :=
  info ← st (account_get account);
  info ← match info with
         | Some i => checksum_update (head i);; mret i
         | None =>
             b ← st (block_get hash);
             match b with
             | Some b =>
                 assert_ (is_zero (block_previous b));;
                 mret (Account_info (U 32 0) (U 32 0) hash (U 16 0) (U 8 0) (U 8 0))
             | None => abort
             end
         end;
  if negb (is_zero hash) then
    now ← seconds_since_epoch;
    st (account_put account (Account_info hash rep_block_a (open_block_hash info)
      balance_a now block_count_a));;
    (if (uval block_count_a mod block_info_max =? 0) && negb is_state
     then st (block_info_put hash (Block_info account balance_a)) else mret tt);;
    checksum_update hash
  else st (account_del account).
End queries.

(** ** Processing a block ([ledger_processor]) *)

Section process.
Context {S : Type} `{BlockStore S, Blake2b, Ed25519, LedgerConstants}.
Context (fuel : nat).
Abbreviation L := (ledger S).

Definition neg (a : u128) : u128 := u_sub (U 16 0) a.
Definition count_succ (c : u64) : u64 := u_add c (U 8 1).
Definition count_pred (c : u64) : u64 := u_sub c (U 8 1).

(** What the checks of a state block leave: the code, [result.amount] and
    [is_send]. *)
Definition state_account_checks (b : state_block) (info : option account_info)
    : M L (process_result * u128 * bool) :=
  let h := hashables b in
  match info with
  | Some info =>
      if is_zero (th_previous h) then mret (fork, th_balance h, false)
      else
        e ← st (block_exists (th_previous h));
        if e : bool then
          let is_send := u_ltb (th_balance h) (balance info) in
          let amount := if is_send then u_sub (balance info) (th_balance h)
                        else u_sub (th_balance h) (balance info) in
          mret (if u_eqb (th_previous h) (head info) then progress else fork,
                amount, is_send)
        else mret (gap_previous, th_balance h, false)
  | None =>
      if is_zero (th_previous h) then
        stats_inc stat.ledger stat.open;;
        mret (if negb (is_zero (th_link h)) then progress else gap_source,
              th_balance h, false)
      else mret (gap_previous, th_balance h, false)
  end.

Definition state_link_checks (b : state_block) (amount_a : u128) (is_send : bool)
    : M L process_result :=
  let h := hashables b in
  if negb is_send then
    if negb (is_zero (th_link h)) then
      e ← st (block_exists (th_link h));
      if e : bool then
        p ← st (pending_get (th_account h, th_link h));
        mret match p with
             | None => unreceivable
             | Some p => if u_eqb amount_a (amount p) then progress else balance_mismatch
             end
      else mret gap_source
    else mret (if is_zero amount_a then progress else balance_mismatch)
  else mret progress.

Definition state_apply (b : state_block) (hash : u256) (info : account_info)
    (amount_a : u128) (is_send : bool) : M L unit :=
  let h := hashables b in
  stats_inc stat.ledger stat.state_block;;
  st (block_put hash (BState b) (U 32 0));;
  (if negb (is_zero (rep_block info))
   then st (representation_add (rep_block info) (neg (balance info))) else mret tt);;
  st (representation_add hash (th_balance h));;
  (if is_send then
     st (pending_put (th_link h, hash) (Pending_info (th_account h) amount_a));;
     stats_inc stat.ledger stat.send
   else if negb (is_zero (th_link h)) then
     st (pending_del (th_account h, th_link h));;
     stats_inc stat.ledger stat.receive
   else mret tt);;
  change_latest (th_account h) hash hash (th_balance h) (count_succ (block_count info)) true;;
  f ← st (frontier_get (head info));
  if negb (is_zero f) then st (frontier_del (head info)) else mret tt.

Definition state_block_impl (b : state_block) : M L process_return :=
  let h := hashables b in
  let hash := block_hash (BState b) in
  existing ← st (block_exists hash);
  if existing : bool then mret (return_code old)
  else if validate_message (th_account h) hash (signature b)
  then mret (return_code bad_signature)
  else if is_zero (th_account h) then mret (return_code opened_burn_account)
  else
    info ← st (account_get (th_account h));
    r ← state_account_checks b info;
    let '(c, amount_a, is_send) := r in
    c ← (if decide (c = progress) then state_link_checks b amount_a is_send else mret c);
    if decide (c = progress) then
      state_apply b hash (default account_info_default info) amount_a is_send;;
      mret (Process_return progress (Some (th_account h)) (Some amount_a) None (Some is_send))
    else mret (Process_return c None (Some amount_a) None None).

Definition process_change_block (b : change_block) : M L process_return :=
  let h := hashables b in
  let hash := block_hash (BChange b) in
  existing ← st (block_exists hash);
  if existing : bool then mret (return_code old) else
  previous ← st (block_get (ch_previous h));
  match previous with
  | None => mret (return_code gap_previous)
  | Some previous =>
      if negb (valid_predecessor (BChange b) previous)
      then mret (return_code block_position) else
      account ← st (frontier_get (ch_previous h));
      if is_zero account then mret (return_code fork) else
      info ← st (account_get account);
      match info with
      | None => abort
      | Some info =>
          assert_ (u_eqb (head info) (ch_previous h));;
          if validate_message account hash (signature b)
          then mret (return_code bad_signature) else
          st (block_put hash (BChange b) (U 32 0));;
          bal ← ledger_balance fuel (ch_previous h);
          st (representation_add hash bal);;
          st (representation_add (rep_block info) (neg bal));;
          change_latest account hash hash (balance info) (count_succ (block_count info)) false;;
          st (frontier_del (ch_previous h));;
          st (frontier_put hash account);;
          stats_inc stat.ledger stat.change;;
          mret (Process_return progress (Some account) (Some (U 16 0)) None None)
      end
  end.

Definition process_send_block (b : send_block) : M L process_return :=
  let h := hashables b in
  let hash := block_hash (BSend b) in
  existing ← st (block_exists hash);
  if existing : bool then mret (return_code old) else
  previous ← st (block_get (sh_previous h));
  match previous with
  | None => mret (return_code gap_previous)
  | Some previous =>
      if negb (valid_predecessor (BSend b) previous)
      then mret (return_code block_position) else
      account ← st (frontier_get (sh_previous h));
      if is_zero account then mret (return_code fork) else
      if validate_message account hash (signature b)
      then mret (return_code bad_signature) else
      info ← st (account_get account);
      match info with
      | None => abort
      | Some info =>
          assert_ (u_eqb (head info) (sh_previous h));;
          if negb (u_leb (sh_balance h) (balance info))
          then mret (return_code negative_spend) else
          let amount_a := u_sub (balance info) (sh_balance h) in
          st (representation_add (rep_block info) (neg amount_a));;
          st (block_put hash (BSend b) (U 32 0));;
          change_latest account hash (rep_block info) (sh_balance h)
            (count_succ (block_count info)) false;;
          st (pending_put (sh_destination h, hash) (Pending_info account amount_a));;
          st (frontier_del (sh_previous h));;
          st (frontier_put hash account);;
          stats_inc stat.ledger stat.send;;
          mret (Process_return progress (Some account) (Some amount_a)
            (Some (sh_destination h)) None)
      end
  end.

Definition process_receive_block (b : receive_block) : M L process_return :=
  let h := hashables b in
  let hash := block_hash (BReceive b) in
  existing ← st (block_exists hash);
  if existing : bool then mret (return_code old) else
  previous ← st (block_get (rh_previous h));
  match previous with
  | None => mret (return_code gap_previous)
  | Some previous =>
      if negb (valid_predecessor (BReceive b) previous)
      then mret (return_code block_position) else
      se ← st (block_exists (rh_source h));
      if negb se then mret (return_code gap_source) else
      account ← st (frontier_get (rh_previous h));
      if is_zero account then
        pe ← st (block_exists (rh_previous h));
        mret (return_code (if pe : bool then fork else gap_previous))
      else
      if validate_message account hash (signature b)
      then mret (return_code bad_signature) else
      info ← st (account_get account);
      let info := default account_info_default info in
      if negb (u_eqb (head info) (rh_previous h)) then mret (return_code gap_previous) else
      pending ← st (pending_get (account, rh_source h));
      match pending with
      | None => mret (return_code unreceivable)
      | Some pending =>
          let new_balance := u_add (balance info) (amount pending) in
          source_info ← st (account_get (source pending));
          assert_ (bool_decide (is_Some source_info));;
          st (pending_del (account, rh_source h));;
          st (block_put hash (BReceive b) (U 32 0));;
          change_latest account hash (rep_block info) new_balance
            (count_succ (block_count info)) false;;
          st (representation_add (rep_block info) (amount pending));;
          st (frontier_del (rh_previous h));;
          st (frontier_put hash account);;
          stats_inc stat.ledger stat.receive;;
          mret (Process_return progress (Some account) (Some (amount pending)) None None)
      end
  end.

Definition process_open_block (b : open_block) : M L process_return :=
  let h := hashables b in
  let hash := block_hash (BOpen b) in
  existing ← st (block_exists hash);
  if existing : bool then mret (return_code old) else
  se ← st (block_exists (oh_source h));
  if negb se then mret (return_code gap_source) else
  if validate_message (oh_account h) hash (signature b)
  then mret (return_code bad_signature) else
  info ← st (account_get (oh_account h));
  match info with
  | Some _ => mret (return_code fork)
  | None =>
      pending ← st (pending_get (oh_account h, oh_source h));
      match pending with
      | None => mret (return_code unreceivable)
      | Some pending =>
          if u_eqb (oh_account h) burn_account
          then mret (return_code opened_burn_account) else
          source_info ← st (account_get (source pending));
          assert_ (bool_decide (is_Some source_info));;
          st (pending_del (oh_account h, oh_source h));;
          st (block_put hash (BOpen b) (U 32 0));;
          change_latest (oh_account h) hash hash (amount pending)
            (count_succ (block_count account_info_default)) false;;
          st (representation_add hash (amount pending));;
          st (frontier_put hash (oh_account h));;
          stats_inc stat.ledger stat.open;;
          mret (Process_return progress (Some (oh_account h)) (Some (amount pending)) None None)
      end
  end.

Definition process (b : block) : M L process_return :=
  match b with
  | BSend b => process_send_block b
  | BReceive b => process_receive_block b
  | BOpen b => process_open_block b
  | BChange b => process_change_block b
  | BState b => state_block_impl b
  end.
End process.

(** ** Rolling back ([rollback_visitor], [ledger::rollback]) *)

Section rollback.
Context {S : Type} `{BlockStore S, Blake2b, LedgerConstants}.
Context (fuel : nat).
Abbreviation L := (ledger S).

Definition block_info_del_if (count : u64) (hash : u256) : M L unit :=
  if uval count mod block_info_max =? 0 then st (block_info_del hash) else mret tt.

Section visitor.
(** [ledger.rollback], called again for the receiving account. *)
Context (n : nat) (rollback_rec : u256 → M L unit).

Definition rollback_send_block (b : send_block) : M L unit :=
  let h := hashables b in
  let hash := block_hash (BSend b) in
  let key := (sh_destination h, hash) in
  pending ← loop n (λ _ : unit,
    p ← st (pending_get key);
    match p with
    | None =>
        l ← latest (sh_destination h);
        rollback_rec l;;
        mret (inl tt)
    | Some p => mret (inr p)
    end) tt;
  info ← st (account_get (source pending));
  match info with
  | None => abort
  | Some info =>
      st (pending_del key);;
      rep ← representative fuel hash;
      st (representation_add rep (amount pending));;
      bal ← ledger_balance fuel (sh_previous h);
      change_latest (source pending) (sh_previous h) (rep_block info) bal
        (count_pred (block_count info)) false;;
      st (block_del hash);;
      st (frontier_del hash);;
      st (frontier_put (sh_previous h) (source pending));;
      st (block_successor_clear (sh_previous h));;
      block_info_del_if (block_count info) hash;;
      stats_inc stat.rollback stat.send
  end.

Definition rollback_receive_block (b : receive_block) : M L unit :=
  let h := hashables b in
  let hash := block_hash (BReceive b) in
  rep ← representative fuel (rh_previous h);
  amount_a ← ledger_amount fuel (rh_source h);
  destination_account ← ledger_account fuel hash;
  source_account ← ledger_account fuel (rh_source h);
  info ← st (account_get destination_account);
  match info with
  | None => abort
  | Some info =>
      hash_rep ← representative fuel hash;
      st (representation_add hash_rep (neg amount_a));;
      bal ← ledger_balance fuel (rh_previous h);
      change_latest destination_account (rh_previous h) rep bal
        (count_pred (block_count info)) false;;
      st (block_del hash);;
      st (pending_put (destination_account, rh_source h)
        (Pending_info source_account amount_a));;
      st (frontier_del hash);;
      st (frontier_put (rh_previous h) destination_account);;
      st (block_successor_clear (rh_previous h));;
      block_info_del_if (block_count info) hash;;
      stats_inc stat.rollback stat.receive
  end.

Definition rollback_open_block (b : open_block) : M L unit :=
  let h := hashables b in
  let hash := block_hash (BOpen b) in
  amount_a ← ledger_amount fuel (oh_source h);
  destination_account ← ledger_account fuel hash;
  source_account ← ledger_account fuel (oh_source h);
  hash_rep ← representative fuel hash;
  st (representation_add hash_rep (neg amount_a));;
  change_latest destination_account (U 32 0) (U 32 0) (U 16 0) (U 8 0) false;;
  st (block_del hash);;
  st (pending_put (destination_account, oh_source h) (Pending_info source_account amount_a));;
  st (frontier_del hash);;
  stats_inc stat.rollback stat.open.

Definition rollback_change_block (b : change_block) : M L unit :=
  let h := hashables b in
  let hash := block_hash (BChange b) in
  rep ← representative fuel (ch_previous h);
  account ← ledger_account fuel (ch_previous h);
  info ← st (account_get account);
  match info with
  | None => abort
  | Some info =>
      bal ← ledger_balance fuel (ch_previous h);
      st (representation_add rep bal);;
      st (representation_add hash (neg bal));;
      st (block_del hash);;
      change_latest account (ch_previous h) rep (balance info)
        (count_pred (block_count info)) false;;
      st (frontier_del hash);;
      st (frontier_put (ch_previous h) account);;
      st (block_successor_clear (ch_previous h));;
      block_info_del_if (block_count info) hash;;
      stats_inc stat.rollback stat.change
  end.

(** Undo the pending entry a state block made or consumed. *)
Definition rollback_state_link (b : state_block) (hash : u256) (bal : u128) : M L unit :=
  let h := hashables b in
  if u_ltb (th_balance h) bal then
    let key := (th_link h, hash) in
    loop n (λ _ : unit,
      e ← st (pending_exists key);
      if negb e then
        l ← latest (th_link h);
        rollback_rec l;;
        mret (inl tt)
      else mret (inr tt)) tt;;
    st (pending_del key);;
    stats_inc stat.rollback stat.send
  else if negb (is_zero (th_link h)) then
    a ← ledger_account fuel (th_link h);
    st (pending_put (th_account h, th_link h)
      (Pending_info a (u_sub (th_balance h) bal)));;
    stats_inc stat.rollback stat.receive
  else mret tt.

Definition rollback_state_block (b : state_block) : M L unit :=
  let h := hashables b in
  let hash := block_hash (BState b) in
  rep ← (if negb (is_zero (th_previous h)) then representative fuel (th_previous h)
         else mret (U 32 0));
  bal ← ledger_balance fuel (th_previous h);
  st (representation_add hash (neg (th_balance h)));;
  (if negb (is_zero rep) then st (representation_add rep bal) else mret tt);;
  rollback_state_link b hash bal;;
  info ← st (account_get (th_account h));
  match info with
  | None => abort
  | Some info =>
      change_latest (th_account h) (th_previous h) rep bal
        (count_pred (block_count info)) false;;
      previous ← st (block_get (th_previous h));
      (match previous with
       | Some previous =>
           st (block_successor_clear (th_previous h));;
           (if negb (bool_decide (block_type_of previous = bt_state))
            then st (frontier_put (th_previous h) (th_account h)) else mret tt)
       | None => stats_inc stat.rollback stat.open
       end);;
      st (block_del hash)
  end.

Definition rollback_visit (b : block) : M L unit :=
  match b with
  | BSend b => rollback_send_block b
  | BReceive b => rollback_receive_block b
  | BOpen b => rollback_open_block b
  | BChange b => rollback_change_block b
  | BState b => rollback_state_block b
  end.
End visitor.

(** Roll back blocks until [hash] does not exist. *)
Fixpoint rollback (n : nat) (hash : u256) : M L unit :=
  match n with
  | O => λ _, Fault out_of_fuel
  | Datatypes.S n =>
      e ← st (block_exists hash);
      assert_ e;;
      account_l ← ledger_account fuel hash;
      loop n (λ _ : unit,
        e ← st (block_exists hash);
        if e : bool then
          info ← st (account_get account_l);
          match info with
          | None => abort
          | Some info =>
              b ← st (block_get (head info));
              match b with
              | Some b => rollback_visit n (rollback n) b;; mret (inl tt)
              | None => abort
              end
          end
        else mret (inr tt)) tt
  end.
End rollback.

(** ** Genesis ([genesis::initialize]) *)

Section genesis.
Context {S : Type} `{BlockStore S, Blake2b, LedgerConstants}.

Definition genesis_initialize (open : open_block) (now : u64) : M S unit :=
  let hash_l := block_hash (BOpen open) in
  l ← latest_begin (U 32 0);
  assert_ (bool_decide (l = []));;
  block_put hash_l (BOpen open) (U 32 0);;
  account_put genesis_account
    (Account_info hash_l hash_l hash_l (U 16 (2 ^ 128 - 1)) now (U 8 1));;
  representation_put genesis_account (U 16 (2 ^ 128 - 1));;
  checksum_put (U 8 0) (U 1 0) hash_l;;
  frontier_put hash_l genesis_account.
End genesis.
