(* ===== verification/Votes.v ===== *)
(** * Votes (class [vote] and class [votes] of common.cpp, [ledger::tally])

    A vote names a block and carries a sequence number and a signature; the
    votes of an election are collected per representative, and the ledger
    adds up the weights behind each block. *)

From S2P Require Import Prelude Crypto Blocks Common Stats Store Ledger.

(** ** One vote *)

Record vote : Set := Vote {
  v_sequence : u64;
  v_block : block;
  v_account : u256;
  v_signature : u512;
}.

Inductive vote_code : Set := vote_code_invalid | vote_code_replay | vote_code_vote.

#[export] Instance vote_eq_dec : EqDecision vote.
Proof. solve_decision. Defined.

Definition vote_eqb (a b : vote) : bool :=
  u_eqb (v_sequence a) (v_sequence b) && block_eqb (v_block a) (v_block b)
  && u_eqb (v_account a) (v_account b) && u_eqb (v_signature a) (v_signature b).

Section vote.
Context `{Blake2b, Ed25519}.

(** Digest of the block's hash and the sequence number. *)
Definition vote_digest (sequence : u64) (b : block) : u256 :=
  blake2b_256 [write_be (block_hash b); write_le sequence].
Definition vote_hash (v : vote) : u256 := vote_digest (v_sequence v) (v_block v).

Definition make_vote (account prv : u256) (sequence : u64) (b : block) : vote :=
  Vote sequence b account (sign_message prv account (vote_digest sequence b)).

(** [true] is an error. *)
Definition vote_validate (v : vote) : bool :=
  validate_message (v_account v) (vote_hash v) (v_signature v).
End vote.

(** The block without its type code (the type is in the message header). *)
Definition vote_serialize_typed (v : vote) : bytes :=
  write_be (v_account v) ++ write_be (v_signature v) ++ write_le (v_sequence v)
  ++ block_serialize (v_block v).
Definition vote_serialize (v : vote) : bytes :=
  write_be (v_account v) ++ write_be (v_signature v) ++ write_le (v_sequence v)
  ++ serialize_block (v_block v).

(** Account, signature and sequence number. *)
Definition read_vote_head : reader (u256 * u512 * u64) := λ s,
  '(account, s) ← read_be 32 s;
  '(signature, s) ← read_be 64 s;
  '(sequence, s) ← read_le 8 s;
  Some (account, signature, sequence, s).

(** The rest of a vote, with the block read by [get]. *)
Definition read_vote (get : bytes → outcome (option (block * bytes))) (s : bytes)
    : outcome (option (vote * bytes)) :=
  match read_vote_head s with
  | None => Done None
  | Some (account, signature, sequence, s) =>
      match get s with
      | Done (Some (b, s)) => Done (Some (Vote sequence b account signature, s))
      | Done None => Done None
      | Fault e => Fault e
      end
  end.

(** The constructors [vote (error, stream)] and [vote (error, stream, type)]. *)
Definition vote_of_stream : bytes → outcome (option (vote * bytes)) := read_vote deserialize_block.
Definition vote_of_stream_typed (t : block_type) : bytes → outcome (option (vote * bytes)) :=
  read_vote (deserialize_block_typed (Some t)).
(** [vote::deserialize] reads a block of type [block_type ()]. *)
Definition vote_deserialize : bytes → outcome (option (vote * bytes)) :=
  read_vote (deserialize_block_typed (Some bt_invalid)).

(** The constructor from a table value asserts that everything could be read. *)
Definition vote_of_val (s : bytes) : outcome vote :=
  match vote_of_stream s with
  | Done (Some (v, _)) => Done v
  | Done None => Fault assertion_failed
  | Fault e => Fault e
  end.

(** ** Lemmas *)

Lemma vote_eqb_eq a b : vote_eqb a b = true ↔ a = b.
Proof.
  destruct a, b; unfold vote_eqb; simpl.
  rewrite !andb_true_iff, !u_eqb_true, block_eqb_eq. naive_solver.
Qed.

Lemma read_vote_head_app (a : u256) (sg : u512) (sq : u64) s :
  read_vote_head (write_be a ++ write_be sg ++ write_le sq ++ s) = Some (a, sg, sq, s).
Proof. unfold read_vote_head. by read_written. Qed.

Lemma read_vote_head_sound s a sg sq r : read_vote_head s = Some (a, sg, sq, r) →
  s = write_be a ++ write_be sg ++ write_le sq ++ r.
Proof. unfold read_vote_head. intros ?. by read_sound. Qed.

Lemma vote_of_stream_serialize v s : vote_of_stream (vote_serialize v ++ s) = Done (Some (v, s)).
Proof.
  destruct v as [sq b a sg]. unfold vote_of_stream, read_vote, vote_serialize; simpl.
  by rewrite <-!app_assoc, read_vote_head_app, deserialize_serialize.
Qed.

Lemma vote_of_stream_typed_serialize v s :
  vote_of_stream_typed (block_type_of (v_block v)) (vote_serialize_typed v ++ s) = Done (Some (v, s)).
Proof.
  destruct v as [sq b a sg]. unfold vote_of_stream_typed, read_vote, vote_serialize_typed.
  cbn [v_account v_signature v_sequence v_block].
  rewrite <-!app_assoc, read_vote_head_app. by rewrite (deserialize_typed_serialize b s).
Qed.

Lemma vote_of_val_serialize v : vote_of_val (vote_serialize v) = Done v.
Proof.
  unfold vote_of_val. by rewrite <-(app_nil_r (vote_serialize v)), vote_of_stream_serialize.
Qed.

(** ** The votes of an election *)

(** The iteration order of an [std::unordered_map]: some order of its entries. *)
Class Unordered := {
  iterate : ∀ {K V : Type} `{Countable K}, gmap K V → list (K * V);
  iterate_perm : ∀ {K V : Type} `{Countable K} (m : gmap K V), iterate m ≡ₚ map_to_list m;
}.

Inductive tally_result : Set := tally_vote | tally_changed | tally_confirm.

Record votes : Type := Votes {
  votes_id : u256;
  rep_votes : gmap u256 block;
}.

Definition make_votes `{LedgerConstants} (b : block) : votes :=
  Votes (block_root b) {[not_an_account := b]}.

Definition votes_vote (v : vote) (vs : votes) : tally_result * votes :=
  match rep_votes vs !! v_account v with
  | None => (tally_vote, Votes (votes_id vs) (<[v_account v := v_block v]> (rep_votes vs)))
  | Some existing =>
      if negb (block_eqb existing (v_block v))
      then (tally_changed, Votes (votes_id vs) (<[v_account v := v_block v]> (rep_votes vs)))
      else (tally_confirm, vs)
  end.

Section votes.
Context `{Unordered}.

Definition uncontested (vs : votes) : bool :=
  match iterate (rep_votes vs) with
  | [] => true
  | (_, b) :: _ => forallb (λ '(_, b'), block_eqb b' b) (iterate (rep_votes vs))
  end.
End votes.

(** ** Tally ([ledger::tally], [ledger::winner]) *)
Section tally.
Context {S : Type} `{BlockStore S, Blake2b, Unordered}.
Abbreviation L := (ledger S).

(** Vote totals, keyed by the hash of the block; the first block with the
    hash stays in the map. *)
Abbreviation totals_map := (gmap u256 (block * u128)).

Definition add_vote (totals : totals_map) (b : block) (w : u128) : totals_map :=
  match totals !! block_hash b with
  | None => <[block_hash b := (b, u_add (U 16 0) w)]> totals
  | Some (b0, t) => <[block_hash b := (b0, u_add t w)]> totals
  end.

Fixpoint tally_totals (reps : list (u256 * block)) (acc : totals_map) : M L totals_map :=
  match reps with
  | [] => mret acc
  | (account, b) :: reps => w ← weight account; tally_totals reps (add_vote acc b w)
  end.

(** Total to block; of two blocks with the same total the later one stays. *)
Definition by_total (acc : gmap u128 block) (e : u256 * (block * u128)) : gmap u128 block :=
  <[e.2.2 := e.2.1]> acc.

Definition tally (vs : votes) : M L (gmap u128 block) :=
  t ← tally_totals (iterate (rep_votes vs)) ∅;
  mret (foldl by_total ∅ (iterate t)).

(** The first entry in decreasing order of the totals; an empty tally has none. *)
Definition greatest (m : gmap u128 block) : option (u128 * block) :=
  foldl (λ acc e, match acc with
                  | Some (k, _) => if u_ltb k e.1 then Some e else acc
                  | None => Some e
                  end) None (map_to_list m).

Definition winner (vs : votes) : M L (u128 * block) :=
  t ← tally vs;
  match greatest t with
  | Some r => mret r
  | None => abort
  end.
End tally.
