(* ===== verification/Lmdb.v ===== *)
(** * LMDB, as an interface

    The store keeps its tables in LMDB, whose code is not part of the
    repository.  [Lmdb] is the part of its interface blockstore.cpp calls, on
    the state of a write transaction; [LmdbSpec] is its documented behaviour:
    a database is a map from byte strings to byte strings, kept in the
    lexicographic order of the keys, or from byte strings to sorted sets of
    byte strings when it is opened with MDB_DUPSORT.  [lmdb_map] is an
    instance by finite maps. *)

From S2P Require Import Prelude.

(** The databases of the store. *)
Inductive dbi : Set :=
  frontiers | accounts | send_blocks | receive_blocks | open_blocks | change_blocks
| state_blocks | pending_db | blocks_info | representation | checksum | vote_db | meta_db.

(** The databases with several values per key. *)
Inductive dup_dbi : Set := unchecked | sequence_db | unsynced.

#[export] Instance dbi_eq_dec : EqDecision dbi.
Proof. solve_decision. Defined.
#[export] Instance dup_dbi_eq_dec : EqDecision dup_dbi.
Proof. solve_decision. Defined.

(** Lexicographic order of byte strings, a proper prefix first. *)
Fixpoint bytes_leb (a b : bytes) : bool :=
  match a, b with
  | [], _ => true
  | _ :: _, [] => false
  | x :: a, y :: b =>
      if u_ltb x y then true else if u_ltb y x then false else bytes_leb a b
  end.
Definition bytes_le (a b : bytes) : Prop := bytes_leb a b = true.
#[export] Instance bytes_le_dec : RelDecision bytes_le.
Proof. intros a b. unfold bytes_le. apply _. Defined.

Definition key_value_le {V : Type} (a b : bytes * V) : Prop := bytes_le a.1 b.1.
#[export] Instance key_value_le_dec V : RelDecision (key_value_le (V:=V)).
Proof. intros a b. unfold key_value_le. apply _. Defined.

Class Lmdb := {
  mdb_txn : Type;
  (** [None] is MDB_NOTFOUND *)
  mdb_get : dbi → bytes → mdb_txn → option bytes;
  (** [None] is an error status *)
  mdb_put : dbi → bytes → bytes → mdb_txn → option mdb_txn;
  mdb_del : dbi → bytes → mdb_txn → option mdb_txn;
  (** entries of a cursor placed by MDB_SET_RANGE and moved by MDB_NEXT *)
  mdb_cursor : dbi → bytes → mdb_txn → list (bytes * bytes);
  mdb_entries : dbi → mdb_txn → nat;
  mdb_drop : dbi → mdb_txn → mdb_txn;
  (** the same on the MDB_DUPSORT databases; MDB_NEXT_DUP visits the values
      of the key the cursor is at *)
  dup_put : dup_dbi → bytes → bytes → mdb_txn → option mdb_txn;
  dup_del : dup_dbi → bytes → bytes → mdb_txn → option mdb_txn;
  dup_range : dup_dbi → bytes → mdb_txn → option (bytes * list bytes);
  dup_cursor : dup_dbi → mdb_txn → list (bytes * bytes);
  dup_entries : dup_dbi → mdb_txn → nat;
  dup_drop : dup_dbi → mdb_txn → mdb_txn;
}.

(** Entries of a table from a key on, in key order. *)
Definition range {V : Type} (k : bytes) (m : gmap bytes V) : list (bytes * V) :=
  merge_sort key_value_le (map_to_list (filter (λ e, bytes_le k e.1) m)).

(** Add and remove one value of a key. *)
Definition dup_add (k v : bytes) (m : gmap bytes (gset bytes)) : gmap bytes (gset bytes) :=
  <[k := {[v]} ∪ default ∅ (m !! k)]> m.
Definition dup_remove (k v : bytes) (m : gmap bytes (gset bytes)) : gmap bytes (gset bytes) :=
  let vs := default ∅ (m !! k) ∖ {[v]} in
  if decide (vs = ∅) then delete k m else <[k := vs]> m.

(** One database changed. *)
Definition upd {A B} `{EqDecision A} (f : A → B) (a : A) (b : B) : A → B :=
  λ x, if decide (x = a) then b else f x.

Class LmdbSpec `{Lmdb} := {
  (** the contents of the databases *)
  table : mdb_txn → dbi → gmap bytes bytes;
  dups : mdb_txn → dup_dbi → gmap bytes (gset bytes);
  mdb_get_spec : ∀ db k t, mdb_get db k t = table t db !! k;
  mdb_put_spec : ∀ db k v t, ∃ t', mdb_put db k v t = Some t' ∧
    (∀ x, table t' x = upd (table t) db (<[k := v]> (table t db)) x) ∧ (∀ x, dups t' x = dups t x);
  mdb_del_spec : ∀ db k t,
    if decide (is_Some (table t db !! k)) then
      ∃ t', mdb_del db k t = Some t' ∧
        (∀ x, table t' x = upd (table t) db (delete k (table t db)) x) ∧ (∀ x, dups t' x = dups t x)
    else mdb_del db k t = None;
  mdb_cursor_spec : ∀ db k t, mdb_cursor db k t = range k (table t db);
  mdb_entries_spec : ∀ db t, mdb_entries db t = size (table t db);
  mdb_drop_spec : ∀ db t, (∀ x, table (mdb_drop db t) x = upd (table t) db ∅ x) ∧
    (∀ x, dups (mdb_drop db t) x = dups t x);
  dup_put_spec : ∀ db k v t, ∃ t', dup_put db k v t = Some t' ∧ (∀ x, table t' x = table t x) ∧
    (∀ x, dups t' x = upd (dups t) db (dup_add k v (dups t db)) x);
  dup_del_spec : ∀ db k v t,
    if decide (v ∈ default ∅ (dups t db !! k)) then
      ∃ t', dup_del db k v t = Some t' ∧ (∀ x, table t' x = table t x) ∧
        (∀ x, dups t' x = upd (dups t) db (dup_remove k v (dups t db)) x)
    else dup_del db k v t = None;
  dup_range_spec : ∀ db k t,
    dup_range db k t =
      (λ e, (e.1, merge_sort bytes_le (elements e.2))) <$> List.hd_error (range k (dups t db));
  dup_cursor_spec : ∀ db t k v, (k, v) ∈ dup_cursor db t ↔ v ∈ default ∅ (dups t db !! k);
  dup_entries_spec : ∀ db t,
    dup_entries db t = foldr (λ e n, (size e.2 + n)%nat) O (map_to_list (dups t db));
  dup_drop_spec : ∀ db t, (∀ x, table (dup_drop db t) x = table t x) ∧
    (∀ x, dups (dup_drop db t) x = upd (dups t) db ∅ x);
}.

(** ** Finite maps as an instance *)

Record map_txn : Type := Map_txn {
  mt_tables : dbi → gmap bytes bytes;
  mt_dups : dup_dbi → gmap bytes (gset bytes);
}.

Definition map_txn_empty : map_txn := Map_txn (λ _, ∅) (λ _, ∅).

#[export] Instance lmdb_map : Lmdb := {|
  mdb_txn := map_txn;
  mdb_get db k t := mt_tables t db !! k;
  mdb_put db k v t :=
    Some (Map_txn (upd (mt_tables t) db (<[k := v]> (mt_tables t db))) (mt_dups t));
  mdb_del db k t :=
    if decide (is_Some (mt_tables t db !! k))
    then Some (Map_txn (upd (mt_tables t) db (delete k (mt_tables t db))) (mt_dups t))
    else None;
  mdb_cursor db k t := range k (mt_tables t db);
  mdb_entries db t := size (mt_tables t db);
  mdb_drop db t := Map_txn (upd (mt_tables t) db ∅) (mt_dups t);
  dup_put db k v t :=
    Some (Map_txn (mt_tables t) (upd (mt_dups t) db (dup_add k v (mt_dups t db))));
  dup_del db k v t :=
    if decide (v ∈ default ∅ (mt_dups t db !! k))
    then Some (Map_txn (mt_tables t) (upd (mt_dups t) db (dup_remove k v (mt_dups t db))))
    else None;
  dup_range db k t :=
    (λ e, (e.1, merge_sort bytes_le (elements e.2))) <$> List.hd_error (range k (mt_dups t db));
  dup_cursor db t :=
    mjoin ((λ e, (λ v, (e.1, v)) <$> elements e.2) <$> map_to_list (mt_dups t db));
  dup_entries db t := foldr (λ e n, (size e.2 + n)%nat) O (map_to_list (mt_dups t db));
  dup_drop db t := Map_txn (mt_tables t) (upd (mt_dups t) db ∅);
|}.

#[local] Obligation Tactic := idtac.

#[export] Program Instance lmdb_map_spec : LmdbSpec := {|
  table := mt_tables;
  dups := mt_dups;
|}.
Next Obligation. done. Qed.
Next Obligation. intros db k v t. simpl. eauto. Qed.
Next Obligation. intros db k t. simpl. case_decide; [eauto|done]. Qed.
Next Obligation. done. Qed.
Next Obligation. done. Qed.
Next Obligation. done. Qed.
Next Obligation. intros db k v t. simpl. eauto. Qed.
Next Obligation. intros db k v t. simpl. case_decide; [eauto|done]. Qed.
Next Obligation. done. Qed.
Next Obligation.
  intros db t k v. simpl. rewrite list_elem_of_join. split.
  - intros (l & Hv & Hl). apply list_elem_of_fmap in Hl as ([k' vs] & -> & Hin).
    apply list_elem_of_fmap in Hv as (v' & [= -> ->] & Hv). apply elem_of_map_to_list in Hin.
    rewrite Hin. by apply elem_of_elements.
  - destruct (mt_dups t db !! k) as [vs|] eqn:E; simpl; [|set_solver]. intros Hv.
    exists ((λ v, (k, v)) <$> elements vs). split.
    + apply list_elem_of_fmap. exists v. split; [done|]. by apply elem_of_elements.
    + apply list_elem_of_fmap. exists (k, vs). split; [done|]. by apply elem_of_map_to_list.
Qed.
Next Obligation. done. Qed.
Next Obligation. done. Qed.
