(* ===== verification/Versioning.v ===== *)
(** * Records of earlier database versions (versioning.hpp, versioning.cpp)
    and the conversions between records and table values (common.cpp)

    A value of a table is the memory image of its record; the constructor
    from an [MDB_val] asserts that the sizes agree. *)

From S2P Require Import Prelude Crypto Blocks Common.

#[local] Obligation Tactic := idtac.

(** The constructor of a packed record from a table value. *)
Definition of_val {A} `{Codec A} (v : bytes) : outcome A :=
  match decode v with
  | Some (a, []) => Done a
  | _ => Fault assertion_failed
  end.

Lemma of_val_encode `{Codec A} (a : A) : of_val (encode a) = Done a.
Proof. unfold of_val. by rewrite decode_encode_nil. Qed.

Lemma of_val_sound `{Codec A} v (a : A) : of_val v = Done a → v = encode a.
Proof.
  unfold of_val. destruct (decode v) as [[a' [|]]|] eqn:E; try done. intros [= ->].
  apply decode_sound in E. by rewrite app_nil_r in E.
Qed.

Definition account_info_val (i : account_info) : bytes := account_info_serialize i.
Definition account_info_of_val : bytes → outcome account_info := of_val.
Definition pending_info_val (i : pending_info) : bytes := pending_info_serialize i.
Definition pending_info_of_val : bytes → outcome pending_info := of_val.
Definition pending_key_val (k : pending_key) : bytes := pending_key_serialize k.
Definition pending_key_of_val : bytes → outcome pending_key := of_val.
Definition block_info_val (i : block_info) : bytes := block_info_serialize i.
Definition block_info_of_val : bytes → outcome block_info := of_val.

(** [mdb_val::uint256] *)
Definition val_uint256 (v : bytes) : outcome u256 := of_val v.

(** ** account_info_v1 *)

Record account_info_v1 : Set := Account_info_v1 {
  v1_head : u256;
  v1_rep_block : u256;
  v1_balance : u128;
  v1_modified : u64;
}.

Definition account_info_v1_default : account_info_v1 :=
  Account_info_v1 (U 32 0) (U 32 0) (U 16 0) (U 8 0).

Definition account_info_v1_serialize (i : account_info_v1) : bytes :=
  write_be (v1_head i) ++ write_be (v1_rep_block i) ++ write_be (v1_balance i)
  ++ write_le (v1_modified i).
Definition account_info_v1_deserialize : reader account_info_v1 := λ s,
  '(head, s) ← read_be 32 s;
  '(rep_block, s) ← read_be 32 s;
  '(balance, s) ← read_be 16 s;
  '(modified, s) ← read_le 8 s;
  Some (Account_info_v1 head rep_block balance modified, s).

#[export] Program Instance account_info_v1_codec : Codec account_info_v1 :=
  {| encode := account_info_v1_serialize; decode := account_info_v1_deserialize |}.
Next Obligation.
  intros [] s. unfold account_info_v1_serialize, account_info_v1_deserialize; simpl.
  by read_written.
Qed.
Next Obligation.
  intros s [] r. unfold account_info_v1_serialize, account_info_v1_deserialize; simpl.
  intros ?. read_sound. by rewrite <-!app_assoc.
Qed.

Definition account_info_v1_of_val : bytes → outcome account_info_v1 := of_val.
Definition account_info_v1_val (i : account_info_v1) : bytes := account_info_v1_serialize i.

(** ** pending_info_v3 *)

Record pending_info_v3 : Set := Pending_info_v3 {
  v3_source : u256;
  v3_amount : u128;
  v3_destination : u256;
}.

Definition pending_info_v3_default : pending_info_v3 :=
  Pending_info_v3 (U 32 0) (U 16 0) (U 32 0).

Definition pending_info_v3_eqb (a b : pending_info_v3) : bool :=
  u_eqb (v3_source a) (v3_source b) && u_eqb (v3_amount a) (v3_amount b)
  && u_eqb (v3_destination a) (v3_destination b).

Definition pending_info_v3_serialize (i : pending_info_v3) : bytes :=
  write_be (v3_source i) ++ write_be (v3_amount i) ++ write_be (v3_destination i).
Definition pending_info_v3_deserialize : reader pending_info_v3 := λ s,
  '(source, s) ← read_be 32 s;
  '(amount, s) ← read_be 16 s;
  '(destination, s) ← read_be 32 s;
  Some (Pending_info_v3 source amount destination, s).

#[export] Program Instance pending_info_v3_codec : Codec pending_info_v3 :=
  {| encode := pending_info_v3_serialize; decode := pending_info_v3_deserialize |}.
Next Obligation.
  intros [] s. unfold pending_info_v3_serialize, pending_info_v3_deserialize; simpl.
  by read_written.
Qed.
Next Obligation.
  intros s [] r. unfold pending_info_v3_serialize, pending_info_v3_deserialize; simpl.
  intros ?. read_sound. by rewrite <-!app_assoc.
Qed.

Definition pending_info_v3_of_val : bytes → outcome pending_info_v3 := of_val.
Definition pending_info_v3_val (i : pending_info_v3) : bytes := pending_info_v3_serialize i.

(** ** account_info_v5 *)

Record account_info_v5 : Set := Account_info_v5 {
  v5_head : u256;
  v5_rep_block : u256;
  v5_open_block : u256;
  v5_balance : u128;
  v5_modified : u64;
}.

Definition account_info_v5_default : account_info_v5 :=
  Account_info_v5 (U 32 0) (U 32 0) (U 32 0) (U 16 0) (U 8 0).

Definition account_info_v5_serialize (i : account_info_v5) : bytes :=
  write_be (v5_head i) ++ write_be (v5_rep_block i) ++ write_be (v5_open_block i)
  ++ write_be (v5_balance i) ++ write_le (v5_modified i).
Definition account_info_v5_deserialize : reader account_info_v5 := λ s,
  '(head, s) ← read_be 32 s;
  '(rep_block, s) ← read_be 32 s;
  '(open_block, s) ← read_be 32 s;
  '(balance, s) ← read_be 16 s;
  '(modified, s) ← read_le 8 s;
  Some (Account_info_v5 head rep_block open_block balance modified, s).

#[export] Program Instance account_info_v5_codec : Codec account_info_v5 :=
  {| encode := account_info_v5_serialize; decode := account_info_v5_deserialize |}.
Next Obligation.
  intros [] s. unfold account_info_v5_serialize, account_info_v5_deserialize; simpl.
  by read_written.
Qed.
Next Obligation.
  intros s [] r. unfold account_info_v5_serialize, account_info_v5_deserialize; simpl.
  intros ?. read_sound. by rewrite <-!app_assoc.
Qed.

Definition account_info_v5_of_val : bytes → outcome account_info_v5 := of_val.
Definition account_info_v5_val (i : account_info_v5) : bytes := account_info_v5_serialize i.

Lemma pending_info_v3_eqb_eq a b : pending_info_v3_eqb a b = true ↔ a = b.
Proof.
  destruct a, b; unfold pending_info_v3_eqb; simpl.
  rewrite !andb_true_iff, !u_eqb_true. naive_solver.
Qed.
