(* ===== verification/BlockStore.v ===== *)
(** * The block store on LMDB (blockstore.cpp)

    Every method of class [block_store], on LMDB tables of byte strings.  The
    state is the write transaction and the two caches the store keeps in
    memory.  [block_store_ops] makes it a [BlockStore] the ledger runs on;
    file StoreRefine shows that it implements the abstract store. *)

From S2P Require Import Prelude Crypto Blocks Common Stats Store Ledger Votes Lmdb Versioning.

(** ** State *)

(** [unchecked_cache] is a multimap: the blocks kept for a hash.  The mutex
    that guards the caches is held by each method that uses them. *)
Record block_store `{Lmdb} : Type := Block_store {
  txn : mdb_txn;
  unchecked_cache : gmap u256 (list block);
  vote_cache : gmap u256 vote;
}.

(** An iterator ([store_iterator]) is the list of entries from its position
    on; the empty list is the end, which all end iterators equal. *)
Abbreviation store_iterator := (list (bytes * bytes)).

Section access.
Context `{Lmdb}.
Abbreviation S := block_store.

Definition set_txn (s : S) (t : mdb_txn) : S := Block_store _ t (unchecked_cache s) (vote_cache s).
Definition set_unchecked_cache (s : S) c : S := Block_store _ (txn s) c (vote_cache s).
Definition set_vote_cache (s : S) c : S := Block_store _ (txn s) (unchecked_cache s) c.

(** A reading or conversion that may trip an assertion. *)
Definition lift {A} (o : outcome A) : M S A := λ s,
  match o with
  | Done a => Done (a, s)
  | Fault e => Fault e
  end.

(** mdb_get with [assert (status == 0 || status == MDB_NOTFOUND)]. *)
Definition db_get (db : dbi) (k : bytes) : M S (option bytes) := gets (λ s, mdb_get db k (txn s)).

(** mdb_put with [assert (status == 0)]. *)
Definition db_put (db : dbi) (k v : bytes) : M S unit := λ s,
  match mdb_put db k v (txn s) with
  | Some t => Done (tt, set_txn s t)
  | None => Fault assertion_failed
  end.

(** mdb_del: whether the key was there. *)
Definition db_try_del (db : dbi) (k : bytes) : M S bool := λ s,
  match mdb_del db k (txn s) with
  | Some t => Done (true, set_txn s t)
  | None => Done (false, s)
  end.
(** mdb_del with [assert (status == 0)]. *)
Definition db_del (db : dbi) (k : bytes) : M S unit := b ← db_try_del db k; assert_ b.

Definition db_drop (db : dbi) : M S unit := modify (λ s, set_txn s (mdb_drop db (txn s))).
Definition dup_clear (db : dup_dbi) : M S unit := modify (λ s, set_txn s (dup_drop db (txn s))).

(** MDB_SET_RANGE; MDB_FIRST is the range from the empty key. *)
Definition store_iterator_from (db : dbi) (k : bytes) : M S store_iterator :=
  gets (λ s, mdb_cursor db k (txn s)).
Definition store_iterator_first (db : dbi) : M S store_iterator := store_iterator_from db [].

(** Run [body] on each entry of an iterator. *)
Fixpoint for_each {A} (i : list A) (body : A → M S unit) : M S unit :=
  match i with
  | [] => mret tt
  | e :: i => body e;; for_each i body
  end.
End access.

(** ** Blocks *)
Section blocks.
Context `{Lmdb, Blake2b}.
Abbreviation S := block_store.

Definition block_database (t : block_type) : M S dbi :=
  match t with
  | bt_send => mret send_blocks
  | bt_receive => mret receive_blocks
  | bt_open => mret open_blocks
  | bt_change => mret change_blocks
  | bt_state => mret state_blocks
  | bt_invalid | bt_not_a_block => abort
  end.

Definition block_put_raw (db : dbi) (hash : u256) (value : bytes) : M S unit :=
  db_put db (write_be hash) value.

(** The value (empty when there is none) and the type of the table it is in
    (unassigned when there is none). *)
Definition block_get_raw (hash : u256) : M S (bytes * option block_type) :=
  v ← db_get send_blocks (write_be hash);
  match v with
  | Some v => mret (v, Some bt_send)
  | None =>
      v ← db_get receive_blocks (write_be hash);
      match v with
      | Some v => mret (v, Some bt_receive)
      | None =>
          v ← db_get open_blocks (write_be hash);
          match v with
          | Some v => mret (v, Some bt_open)
          | None =>
              v ← db_get change_blocks (write_be hash);
              match v with
              | Some v => mret (v, Some bt_change)
              | None =>
                  v ← db_get state_blocks (write_be hash);
                  match v with
                  | Some v => mret (v, Some bt_state)
                  | None => mret ([], None)
                  end
              end
          end
      end
  end.

Definition lmdb_block_exists (hash : u256) : M S bool :=
  v ← db_get send_blocks (write_be hash);
  if v is Some _ then mret true else
  v ← db_get receive_blocks (write_be hash);
  if v is Some _ then mret true else
  v ← db_get open_blocks (write_be hash);
  if v is Some _ then mret true else
  v ← db_get change_blocks (write_be hash);
  if v is Some _ then mret true else
  v ← db_get state_blocks (write_be hash);
  if v is Some _ then mret true else mret false.

(** The last bytes of the predecessor's value are its successor. *)
Definition fill_value (b : block) : M S unit :=
  let hash := block_hash b in
  r ← block_get_raw (block_previous b);
  let '(value, type) := r in
  assert_ (negb (bool_decide (value = [])));;
  let data := take (length value - 32) value ++ write_be hash in
  match type with
  | Some type => db ← block_database type; block_put_raw db (block_previous b) data
  | None => abort
  end.

(** The visitor [set_predecessor]. *)
Definition set_predecessor (b : block) : M S unit :=
  match b with
  | BSend _ | BReceive _ | BChange _ => fill_value b
  | BOpen _ => mret tt
  | BState _ => if negb (is_zero (block_previous b)) then fill_value b else mret tt
  end.

Definition lmdb_block_successor (hash : u256) : M S u256 :=
  r ← block_get_raw hash;
  let '(value, _) := r in
  if bool_decide (value = []) then mret (U 32 0)
  else
    assert_ (Nat.leb 32 (length value));;
    match read_be 32 (drop (length value - 32) value) with
    | Some (result, _) => mret result
    | None => abort
    end.

Definition lmdb_block_put (hash : u256) (b : block) (successor : u256) : M S unit :=
  e ← (if is_zero successor then mret true else lmdb_block_exists successor);
  assert_ e;;
  let vector := block_serialize b ++ write_be successor in
  db ← block_database (block_type_of b);
  block_put_raw db hash vector;;
  set_predecessor b;;
  e ← (if is_zero (block_previous b) then mret true
       else sc ← lmdb_block_successor (block_previous b); mret (u_eqb sc hash));
  assert_ e.

Definition lmdb_block_get (hash : u256) : M S (option block) :=
  r ← block_get_raw hash;
  let '(value, type) := r in
  if bool_decide (value = []) then mret None
  else
    r ← lift (deserialize_block_typed type value);
    match r with
    | Some (b, _) => mret (Some b)
    | None => abort
    end.

Definition lmdb_block_del (hash : u256) : M S unit :=
  d ← db_try_del state_blocks (write_be hash);
  if d : bool then mret tt else
  d ← db_try_del send_blocks (write_be hash);
  if d : bool then mret tt else
  d ← db_try_del receive_blocks (write_be hash);
  if d : bool then mret tt else
  d ← db_try_del open_blocks (write_be hash);
  if d : bool then mret tt else
  db_del change_blocks (write_be hash).

(** [ms_entries] is a [size_t]. *)
Definition entry_count (db : dbi) : M S u64 := gets (λ s, U 8 (Z.of_nat (mdb_entries db (txn s)))).

Definition lmdb_block_count : M S block_counts :=
  send ← entry_count send_blocks;
  receive ← entry_count receive_blocks;
  open ← entry_count open_blocks;
  change ← entry_count change_blocks;
  state ← entry_count state_blocks;
  mret (Block_counts send receive open change state).

(** A block at or after a random hash; [random] is what the random pool gave. *)
Definition block_random_in (random : u256) (db : dbi) : M S (option block) :=
  existing ← store_iterator_from db (write_be random);
  existing ← (if bool_decide (existing = []) then store_iterator_first db else mret existing);
  match existing with
  | [] => abort
  | (k, _) :: _ => h ← lift (val_uint256 k); lmdb_block_get h
  end.

(** The table is chosen by its share of the blocks; [region] is the random
    word. *)
Definition block_random (region : Z) (random : u256) : M S (option block) :=
  count ← lmdb_block_count;
  if region <? uval (count_send count) then block_random_in random send_blocks else
  let region := region - uval (count_send count) in
  if region <? uval (count_receive count) then block_random_in random receive_blocks else
  let region := region - uval (count_receive count) in
  if region <? uval (count_open count) then block_random_in random open_blocks else
  let region := region - uval (count_open count) in
  if region <? uval (count_change count) then block_random_in random change_blocks
  else block_random_in random state_blocks.
End blocks.

(** ** Frontiers, accounts, pending entries, block data, weights, checksum *)
Section tables.
Context `{Lmdb, Blake2b}.
Abbreviation S := block_store.

Definition lmdb_frontier_put (hash account : u256) : M S unit :=
  db_put frontiers (write_be hash) (write_be account).
Definition lmdb_frontier_get (hash : u256) : M S u256 :=
  value ← db_get frontiers (write_be hash);
  match value with
  | Some v => lift (val_uint256 v)
  | None => mret (U 32 0)
  end.
Definition lmdb_frontier_del (hash : u256) : M S unit := db_del frontiers (write_be hash).

Definition lmdb_account_put (account : u256) (info : account_info) : M S unit :=
  db_put accounts (write_be account) (account_info_val info).
Definition lmdb_account_get (account : u256) : M S (option account_info) :=
  value ← db_get accounts (write_be account);
  match value with
  | None => mret None
  | Some v =>
      match account_info_deserialize v with
      | Some (i, _) => mret (Some i)
      | None => abort
      end
  end.
Definition lmdb_account_del (account : u256) : M S unit := db_del accounts (write_be account).
Definition account_count : M S u64 := entry_count accounts.

Definition latest_iterator (account : u256) : M S store_iterator :=
  store_iterator_from accounts (write_be account).
Definition latest_iterator_first : M S store_iterator := store_iterator_first accounts.

Definition lmdb_account_exists (account : u256) : M S bool :=
  i ← latest_iterator account;
  match i with
  | [] => mret false
  | (k, _) :: _ => a ← lift (val_uint256 k); mret (u_eqb a account)
  end.

Definition lmdb_pending_put (key : pending_key) (info : pending_info) : M S unit :=
  db_put pending_db (pending_key_val key) (pending_info_val info).
Definition lmdb_pending_del (key : pending_key) : M S unit :=
  db_del pending_db (pending_key_val key).
Definition lmdb_pending_get (key : pending_key) : M S (option pending_info) :=
  value ← db_get pending_db (pending_key_val key);
  match value with
  | None => mret None
  | Some v =>
      assert_ (bool_decide (length v = 48%nat));;
      match pending_info_deserialize v with
      | Some (i, _) => mret (Some i)
      | None => abort
      end
  end.
Definition pending_iterator (key : pending_key) : M S store_iterator :=
  store_iterator_from pending_db (pending_key_val key).
Definition pending_iterator_first : M S store_iterator := store_iterator_first pending_db.
Definition lmdb_pending_exists (key : pending_key) : M S bool :=
  i ← pending_iterator key;
  match i with
  | [] => mret false
  | (k, _) :: _ => k ← lift (pending_key_of_val k); mret (pending_key_eqb k key)
  end.

Definition lmdb_block_info_put (hash : u256) (info : block_info) : M S unit :=
  db_put blocks_info (write_be hash) (block_info_val info).
Definition lmdb_block_info_del (hash : u256) : M S unit := db_del blocks_info (write_be hash).
Definition block_info_iterator (hash : u256) : M S store_iterator :=
  store_iterator_from blocks_info (write_be hash).
Definition block_info_exists (hash : u256) : M S bool :=
  i ← block_info_iterator hash;
  match i with
  | [] => mret false
  | (k, _) :: _ => h ← lift (val_uint256 k); mret (u_eqb h hash)
  end.
Definition lmdb_block_info_get (hash : u256) : M S (option block_info) :=
  value ← db_get blocks_info (write_be hash);
  match value with
  | None => mret None
  | Some v =>
      assert_ (bool_decide (length v = 48%nat));;
      match block_info_deserialize v with
      | Some (i, _) => mret (Some i)
      | None => abort
      end
  end.

Definition lmdb_representation_get (account : u256) : M S u128 :=
  value ← db_get representation (write_be account);
  match value with
  | Some v => match read_be 16 v with Some (rep, _) => mret rep | None => abort end
  | None => mret (U 16 0)
  end.
Definition lmdb_representation_put (account : u256) (w : u128) : M S unit :=
  db_put representation (write_be account) (write_be w).

(** [prefix | mask], written as it is in memory. *)
Definition checksum_db_key (prefix : u64) (mask : u8) : bytes :=
  write_le (U 8 (Z.lor (uval prefix) (uval mask))).
Definition lmdb_checksum_put (prefix : u64) (mask : u8) (hash : u256) : M S unit :=
  assert_ (Z.land (uval prefix) 0xff =? 0);;
  db_put checksum (checksum_db_key prefix mask) (write_be hash).
Definition lmdb_checksum_get (prefix : u64) (mask : u8) : M S (option u256) :=
  assert_ (Z.land (uval prefix) 0xff =? 0);;
  value ← db_get checksum (checksum_db_key prefix mask);
  match value with
  | Some v => match read_be 32 v with Some (h, _) => mret (Some h) | None => abort end
  | None => mret None
  end.
Definition checksum_del (prefix : u64) (mask : u8) : M S unit :=
  assert_ (Z.land (uval prefix) 0xff =? 0);;
  db_del checksum (checksum_db_key prefix mask).

Definition clear_db (db : dbi) : M S unit := db_drop db.

(** The entries of an iterator as its users read them. *)
Fixpoint read_entries {K V} (key : bytes → outcome K) (value : bytes → outcome V)
    (i : store_iterator) : M S (list (K * V)) :=
  match i with
  | [] => mret []
  | (k, v) :: i =>
      k ← lift (key k);
      v ← lift (value v);
      rest ← read_entries key value i;
      mret ((k, v) :: rest)
  end.

#[export] Instance block_store_ops : BlockStore S := {|
  block_exists := lmdb_block_exists;
  block_get := lmdb_block_get;
  block_put := lmdb_block_put;
  block_successor := lmdb_block_successor;
  block_del := lmdb_block_del;
  store_block_count := lmdb_block_count;
  frontier_get := lmdb_frontier_get;
  frontier_put := lmdb_frontier_put;
  frontier_del := lmdb_frontier_del;
  account_get := lmdb_account_get;
  account_put := lmdb_account_put;
  account_del := lmdb_account_del;
  account_exists := lmdb_account_exists;
  latest_begin a := i ← latest_iterator a; read_entries val_uint256 account_info_of_val i;
  pending_get := lmdb_pending_get;
  pending_put := lmdb_pending_put;
  pending_del := lmdb_pending_del;
  pending_exists := lmdb_pending_exists;
  pending_begin k := i ← pending_iterator k; read_entries pending_key_of_val pending_info_of_val i;
  block_info_get := lmdb_block_info_get;
  block_info_put := lmdb_block_info_put;
  block_info_del := lmdb_block_info_del;
  representation_get := lmdb_representation_get;
  representation_put := lmdb_representation_put;
  checksum_get := lmdb_checksum_get;
  checksum_put := lmdb_checksum_put;
|}.

Definition block_balance `{LedgerConstants} (fuel : nat) (hash : u256) : M S u128 :=
  balance_compute fuel hash.
End tables.

(** ** Unchecked blocks and votes: a cache in front of a table *)
Section caches.
Context `{Lmdb, Blake2b, Ed25519, Unordered}.
Abbreviation S := block_store.

Definition unchecked_clear : M S unit := dup_clear unchecked.
Definition unchecked_count : M S u64 := gets (λ s, U 8 (Z.of_nat (dup_entries unchecked (txn s)))).

Definition cached_unchecked (hash : u256) (s : S) : list block := default [] (unchecked_cache s !! hash).

(** The blocks read back; a value that is no block gives a null pointer. *)
Fixpoint read_unchecked (vs : list bytes) : M S (list (option block)) :=
  match vs with
  | [] => mret []
  | v :: vs =>
      b ← lift (deserialize_block v);
      rest ← read_unchecked vs;
      mret ((fst <$> b) :: rest)
  end.

(** First the cache, then the values of the table with this key. *)
Definition unchecked_get (hash : u256) : M S (list (option block)) :=
  cached ← gets (cached_unchecked hash);
  i ← gets (λ s, dup_range unchecked (write_be hash) (txn s));
  stored ← match i with
           | None => mret []
           | Some (k, vs) =>
               k ← lift (val_uint256 k);
               if u_eqb k hash then read_unchecked vs else mret []
           end;
  mret (map Some cached ++ stored).

(** Whether a block with the hash is in the list; a null pointer in the way
    is dereferenced. *)
Fixpoint hash_found (h : u256) (l : list (option block)) : M S bool :=
  match l with
  | [] => mret false
  | Some b :: l => if u_eqb (block_hash b) h then mret true else hash_found h l
  | None :: _ => abort
  end.

Definition unchecked_put (hash : u256) (b : block) : M S unit :=
  cached ← unchecked_get hash;
  exists_ ← hash_found (block_hash b) cached;
  if exists_ : bool then mret tt
  else modify (λ s, set_unchecked_cache s
         (<[hash := cached_unchecked hash s ++ [b]]> (unchecked_cache s))).

Definition dup_try_del (db : dup_dbi) (k v : bytes) : M S unit := λ s,
  match dup_del db k v (txn s) with
  | Some t => Done (tt, set_txn s t)
  | None => Done (tt, s)
  end.

Definition unchecked_del (hash : u256) (b : block) : M S unit :=
  modify (λ s, set_unchecked_cache s
    (alter (List.filter (λ b', negb (block_eqb b' b))) hash (unchecked_cache s)));;
  dup_try_del unchecked (write_be hash) (serialize_block b).

Definition vote_get (account : u256) : M S (option vote) :=
  value ← db_get vote_db (write_be account);
  match value with
  | Some v => v ← lift (vote_of_val v); mret (Some v)
  | None => mret None
  end.

Definition vote_current (account : u256) : M S (option vote) :=
  existing ← gets (λ s, vote_cache s !! account);
  match existing with
  | Some v => mret (Some v)
  | None => vote_get account
  end.

Definition vote_generate (account key : u256) (b : block) : M S vote :=
  current ← vote_current account;
  let sequence := u_add (match current with Some v => v_sequence v | None => U 8 0 end) (U 8 1) in
  let result := make_vote account key sequence b in
  modify (λ s, set_vote_cache s (<[account := result]> (vote_cache s)));;
  mret result.

Definition vote_max (v : vote) : M S vote :=
  current ← vote_current (v_account v);
  let result := match current with
                | Some c => if u_ltb (v_sequence v) (v_sequence c) then c else v
                | None => v
                end in
  modify (λ s, set_vote_cache s (<[v_account v := result]> (vote_cache s)));;
  mret result.

Definition dup_put_ (db : dup_dbi) (k v : bytes) : M S unit := λ s,
  match dup_put db k v (txn s) with
  | Some t => Done (tt, set_txn s t)
  | None => Fault assertion_failed
  end.

(** Write both caches to the tables and empty them. *)
Definition flush : M S unit :=
  unchecked_l ← gets unchecked_cache;
  sequence_l ← gets vote_cache;
  modify (λ s, set_vote_cache (set_unchecked_cache s ∅) ∅);;
  for_each (iterate unchecked_l) (λ '(h, bs),
    for_each bs (λ b, dup_put_ unchecked (write_be h) (serialize_block b)));;
  for_each (iterate sequence_l) (λ '(a, v), db_put vote_db (write_be a) (vote_serialize v)).
End caches.
