(* ===== verification/Upgrades.v ===== *)
(** * Opening the store and upgrading it (blockstore.cpp)

    The version of the database, the upgrade from each version to the next,
    and the constructor of [block_store].  Loops along a chain of blocks and
    over the accounts take fuel. *)

From S2P Require Import Prelude Crypto Blocks Common Stats Store Ledger Votes Lmdb Versioning.
From S2P Require Import BlockStore.

Section version.
Context `{Lmdb}.
Abbreviation S := block_store.

Definition version_key : bytes := write_be (U 32 1).

Definition version_put (version : Z) : M S unit :=
  db_put meta_db version_key (write_be (U 32 version)).

(** The upper three quarters of the number are zero. *)
Definition version_get : M S Z :=
  data ← db_get meta_db version_key;
  match data with
  | None => mret 1
  | Some v =>
      value ← lift (val_uint256 v);
      assert_ (uval value <? 2 ^ 64);;
      mret (uval value)
  end.
End version.

Section upgrades.
Context `{Lmdb, Blake2b, Ed25519, LedgerConstants}.
Context (fuel : nat).
Abbreviation S := block_store.

(** Back to the first block of a chain; a missing block is dereferenced. *)
Definition first_block (b : option block) : M S block :=
  loop fuel (λ b : option block,
    match b with
    | None => abort
    | Some b =>
        if negb (is_zero (block_previous b))
        then b' ← lmdb_block_get (block_previous b); mret (inl b')
        else mret (inr b)
    end) b.

(** Accounts gain the hash of their open block. *)
Definition upgrade_v1_to_v2 : M S unit :=
  version_put 2;;
  loop fuel (λ account : u256,
    if negb (is_zero account) then
      i ← latest_iterator account;
      match i with
      | (k, v) :: _ =>
          account ← lift (val_uint256 k);
          v1 ← lift (account_info_v1_of_val v);
          b ← lmdb_block_get (v1_head v1);
          b ← first_block b;
          db_put accounts (write_be account) (account_info_v5_val
            (Account_info_v5 (v1_head v1) (v1_rep_block v1) (block_hash b) (v1_balance v1)
              (v1_modified v1)));;
          mret (inl (u_add account (U 32 1)))
      | [] => mret (inl (U 32 0))
      end
    else mret (inr tt)) (U 32 1).

(** The representative of each account is computed again, and the weights. *)
Definition upgrade_v2_to_v3 : M S unit :=
  version_put 3;;
  db_drop representation;;
  i ← latest_iterator_first;
  for_each i (λ '(k, v),
    account_l ← lift (val_uint256 k);
    info ← lift (account_info_v5_of_val v);
    result ← representative_compute fuel (v5_head info);
    assert_ (negb (is_zero result));;
    db_put accounts (write_be account_l) (account_info_v5_val
      (Account_info_v5 (v5_head info) result (v5_open_block info) (v5_balance info)
        (v5_modified info)));;
    representation_add result (v5_balance info)).

(** Pending entries are keyed by destination and hash instead of hash. *)
Definition pending_v3_entry (e : bytes * bytes) : M S (pending_key * pending_info) :=
  hash ← lift (val_uint256 e.1);
  info ← lift (pending_info_v3_of_val e.2);
  mret ((v3_destination info, hash), Pending_info (v3_source info) (v3_amount info)).
Fixpoint collect {A} (f : bytes * bytes → M S A) (i : store_iterator) : M S (list A) :=
  match i with
  | [] => mret []
  | e :: i => a ← f e; rest ← collect f i; mret (a :: rest)
  end.
Definition upgrade_v3_to_v4 : M S unit :=
  version_put 4;;
  i ← pending_iterator_first;
  items ← collect pending_v3_entry i;
  db_drop pending_db;;
  for_each items (λ '(k, info), lmdb_pending_put k info).

(** Successors are added to blocks that lack them. *)
Definition upgrade_v4_to_v5 : M S unit :=
  version_put 5;;
  i ← latest_iterator_first;
  for_each i (λ '(_, v),
    info ← lift (account_info_v5_of_val v);
    b ← lmdb_block_get (v5_head info);
    loop fuel (λ '(b, successor),
      match b : option block with
      | Some b =>
          let hash := block_hash b in
          sc ← lmdb_block_successor hash;
          (if is_zero sc && negb (is_zero successor) then lmdb_block_put hash b successor
           else mret tt);;
          b' ← lmdb_block_get (block_previous b);
          mret (inl (b', hash))
      | None => mret (inr tt)
      end) (b, U 32 0)).

(** Accounts gain the number of their blocks. *)
Definition chain_length (head : u256) : M S u64 :=
  loop fuel (λ '(hash, block_count),
    if negb (is_zero hash) then
      b ← lmdb_block_get hash;
      match b with
      | Some b => mret (inl (block_previous b, u_add block_count (U 8 1)))
      | None => abort
      end
    else mret (inr block_count)) (head, U 8 0).
Definition account_v5_entry (e : bytes * bytes) : M S (u256 * account_info) :=
  account ← lift (val_uint256 e.1);
  info ← lift (account_info_v5_of_val e.2);
  block_count ← chain_length (v5_head info);
  mret (account, Account_info (v5_head info) (v5_rep_block info) (v5_open_block info)
    (v5_balance info) (v5_modified info) block_count).
Definition upgrade_v5_to_v6 : M S unit :=
  version_put 6;;
  i ← latest_iterator_first;
  headers ← collect account_v5_entry i;
  for_each headers (λ '(a, i), lmdb_account_put a i).

Definition upgrade_v6_to_v7 : M S unit := version_put 7;; dup_clear unchecked.

(** The table of unchecked blocks is deleted and opened again. *)
Definition upgrade_v7_to_v8 : M S unit := version_put 8;; dup_clear unchecked.

(** Sequence numbers become votes, on the genesis block and with a signature
    by a random key [junk]. *)
Definition upgrade_v8_to_v9 (open : open_block) (junk : u256) : M S unit :=
  version_put 9;;
  i ← gets (λ s : S, dup_cursor sequence_db (txn s));
  for_each i (λ '(k, v),
    match read_le 8 v with
    | Some (sequence, _) =>
        account ← lift (val_uint256 k);
        db_put vote_db k (vote_serialize (make_vote account junk sequence (BOpen open)))
    | None => abort
    end);;
  dup_clear sequence_db.

(** Account and balance of every 32nd block are cached. *)
Definition upgrade_v9_to_v10 : M S unit :=
  version_put 10;;
  i ← latest_iterator_first;
  for_each i (λ '(k, v),
    info ← lift (account_info_of_val v);
    if block_info_max <=? uval (block_count info) then
      account ← lift (val_uint256 k);
      loop fuel (λ '(hash, count),
        if negb (is_zero hash) then
          (if uval count mod block_info_max =? 0 then
             balance ← block_balance fuel hash;
             lmdb_block_info_put hash (Block_info account balance)
           else mret tt);;
          hash ← lmdb_block_successor hash;
          mret (inl (hash, u_add count (U 8 1)))
        else mret (inr tt)) (open_block_hash info, U 8 1)
    else mret tt).

Definition upgrade_v10_to_v11 : M S unit := dup_clear unsynced.

(** The upgrades from the version on, one after the other. *)
Definition do_upgrades (open : open_block) (junk : u256) : M S unit :=
  version ← version_get;
  let upgrade (v : Z) (m : M S unit) : M S unit := if version <=? v then m else mret tt in
  assert_ ((1 <=? version) && (version <=? 11));;
  upgrade 1 upgrade_v1_to_v2;;
  upgrade 2 upgrade_v2_to_v3;;
  upgrade 3 upgrade_v3_to_v4;;
  upgrade 4 upgrade_v4_to_v5;;
  upgrade 5 upgrade_v5_to_v6;;
  upgrade 6 upgrade_v6_to_v7;;
  upgrade 7 upgrade_v7_to_v8;;
  upgrade 8 (upgrade_v8_to_v9 open junk);;
  upgrade 9 upgrade_v9_to_v10;;
  upgrade 10 upgrade_v10_to_v11.

(** The constructor: [error_a] is whether a database could not be opened. *)
Definition block_store_open (error_a : bool) (open : open_block) (junk : u256) : M S unit :=
  if error_a then mret tt
  else do_upgrades open junk;; lmdb_checksum_put (U 8 0) (U 1 0) (U 32 0).
End upgrades.
