(* ===== verification/Numbers.v ===== *)
(** * Numbers and their texts (lib/numbers.hpp, lib/numbers.cpp)

    The unions of 128, 256 and 512 bits as arrays of bytes, their conversions
    to numbers, hexadecimal and decimal texts, and account texts with their check
    digits.  Reading and printing of
    multi-precision numbers is Boost's; it is a parameter. *)

From S2P Require Import Prelude Crypto.
From Stdlib Require Import Ascii.

Abbreviation text := (list ascii).
Definition lit (s : String.string) : text := String.list_ascii_of_string s.
Definition code (c : ascii) : Z := Z.of_N (N_of_ascii c).
Definition chr (z : Z) : ascii := ascii_of_N (Z.to_N z).

(** ** Bytes and numbers *)

(** The constructors from a number: the bytes from the last to the first. *)
Fixpoint union_of_number (n : nat) (number_l : Z) : bytes :=
  match n with
  | O => []
  | S n => union_of_number n (Z.shiftr number_l 8) ++ [byte (Z.land number_l 0xff)]
  end.

(** [number ()]: shift in the bytes from the first to the last. *)
Definition number (bs : bytes) : Z :=
  foldl (λ result b, Z.lor (Z.shiftl result 8) (uval b)) 0 bs.

(** The [qwords] of a union: eight bytes each, as the machine reads them. *)
Fixpoint qwords (n : nat) (bs : bytes) : list Z :=
  match n with
  | O => []
  | S n => le_val (take 8 bs) :: qwords n (drop 8 bs)
  end.
Definition of_qwords (qs : list Z) : bytes := mjoin (le_bytes 8 <$> qs).

Definition union_eqb (a b : bytes) : bool := bool_decide (a = b).
Definition union_is_zero (n : nat) (bs : bytes) : bool := forallb (λ q, q =? 0) (qwords n bs).
Definition union_ltb (a b : bytes) : bool := number a <? number b.
Definition union_xor (n : nat) (a b : bytes) : bytes :=
  of_qwords (zip_with Z.lxor (qwords n a) (qwords n b)).

(** ** Texts of numbers *)

Inductive number_base : Set := hexadecimal | decimal.

(** [stream << number] and [stream >> number] of Boost's multi-precision
    integers.  Reading gives [None] for an exception, and otherwise the value
    and whether the whole text was read. *)
Class NumberText := {
  print_number : number_base → Z → text;
  read_number : number_base → bool → Z → text → option (Z * bool);
}.

(** Integers in the streams of the standard library. *)
Definition text_digits : text := lit "0123456789abcdef".
Definition text_digit (d : Z) : ascii := nth (Z.to_nat d) text_digits zero.

(** The digits of a number, the highest first and no leading zero. *)
Fixpoint positional (fuel : nat) (b z : Z) (acc : list Z) : list Z :=
  match fuel with
  | O => acc
  | S fuel => if z <? b then z :: acc else positional fuel b (z / b) (z mod b :: acc)
  end.

(** [std::setw (width) << std::setfill ('0')] *)
Definition setw (width : nat) (t : text) : text :=
  replicate (width - length t) "0"%char ++ t.

Section texts.
Context `{NumberText}.

(** [encode_hex] of a union of [n] bytes. *)
Definition encode_hex {n} (x : uint n) : text := setw (2 * n) (print_number hexadecimal (uval x)).
Definition encode_dec {n} (x : uint n) : text := print_number decimal (uval x).

(** Read a number that must take the whole text. *)
Definition read_all (b : number_base) (checked : bool) (n : nat) (t : text) : option (uint n) :=
  match read_number b checked (8 * Z.of_nat n) t with
  | Some (z, true) => Some (U n z)
  | Some (_, false) => None
  | None => None
  end.

(** [None] is an error.  The 256-bit union refuses the empty text itself. *)
Definition decode_hex_128 (t : text) : option u128 :=
  if Nat.ltb 32 (length t) then None else read_all hexadecimal false 16 t.
Definition decode_hex_256 (t : text) : option u256 :=
  if negb (Nat.eqb (length t) 0) && Nat.leb (length t) 64
  then read_all hexadecimal false 32 t else None.
Definition decode_hex_512 (t : text) : option u512 :=
  if Nat.ltb 128 (length t) then None else read_all hexadecimal false 64 t.

(** Too long, a leading zero or a minus sign. *)
Definition bad_decimal (max : nat) (t : text) : bool :=
  Nat.ltb max (length t)
  || (Nat.ltb 1 (length t) && bool_decide (List.hd_error t = Some "0"%char))
  || bool_decide (List.hd_error t = Some "-"%char).
Definition decode_dec_128 (t : text) : option u128 :=
  if bad_decimal 39 t then None else read_all decimal true 16 t.
Definition decode_dec_256 (t : text) : option u256 :=
  if bad_decimal 78 t then None else read_all decimal false 32 t.
End texts.

(** ** Accounts *)

Definition account_lookup : text := lit "13456789abcdefghijkmnopqrstuwxyz".
Definition account_reverse : text :=
  lit "~0~1234567~~~~~~~~~~~~~~~~~~~~~~~~~~~~~~~~~~~~~~~89:;<=>?@AB~CDEFGHIJK~LMNO~~~~~".

Definition account_encode (value : Z) : outcome ascii :=
  if value <? 32 then Done (nth (Z.to_nat value) account_lookup zero) else Fault assertion_failed.

(** The difference is stored in a byte. *)
Definition account_decode (value : ascii) : outcome u8 :=
  if (0x30 <=? code value) && (code value <=? 0x7e)
  then Done (byte (code (nth (Z.to_nat (code value - 0x30)) account_reverse zero) - 0x30))
  else Fault assertion_failed.

Section accounts.
Context `{Blake2b}.

(** The five check bytes, read as a little-endian number. *)
Definition account_check (x : u256) : Z :=
  le_val (blake2b_final (blake2b_update (blake2b_init 5) (write_be x)) 5).

(** Five bits at a time, the lowest first. *)
Fixpoint encode_digits (n : nat) (number_l : Z) : outcome text :=
  match n with
  | O => Done []
  | S n =>
      match account_encode (Z.land number_l 0x1f) with
      | Done c =>
          match encode_digits n (Z.shiftr number_l 5) with
          | Done t => Done (c :: t)
          | Fault e => Fault e
          end
      | Fault e => Fault e
      end
  end.

Definition to_account (x : u256) : outcome text :=
  let number_l := Z.lor (Z.shiftl (uval x) 40) (account_check x) in
  match encode_digits 60 number_l with
  | Done t => Done (rev (t ++ lit "_mdb"))
  | Fault e => Fault e
  end.

Definition to_account_split (x : u256) : outcome text :=
  match to_account x with
  | Done t =>
      if Nat.eqb (length t) 64 then Done (take 32 t ++ chr 10 :: drop 32 t)
      else Fault assertion_failed
  | Fault e => Fault e
  end.

(** The number of a text, in 512 bits; [None] is an error. *)
Fixpoint decode_digits (number_l : Z) (t : text) : outcome (option Z) :=
  match t with
  | [] => Done (Some number_l)
  | character :: t =>
      if (code character <? 0x30) || (0x80 <=? code character) then Done None
      else
        match account_decode character with
        | Done b =>
            if uval b =? code "~"%char then Done None
            else decode_digits ((Z.shiftl number_l 5 + uval b) mod 2 ^ 512) t
        | Fault e => Fault e
        end
  end.

Definition bdm_prefix (t : text) : bool :=
  match t with
  | a :: b :: c :: d :: _ =>
      bool_decide (a = "b"%char) && bool_decide (b = "d"%char) && bool_decide (c = "m"%char)
      && (bool_decide (d = "_"%char) || bool_decide (d = "-"%char))
  | _ => false
  end.

Definition decode_account (t : text) : outcome (option u256) :=
  if Nat.ltb (length t) 5 then Done None
  else if bdm_prefix t && negb (Nat.eqb (length t) 64) then Done None
  else if bdm_prefix t then
    match drop 4 t with
    | c :: _ =>
        if bool_decide (c = "1"%char) || bool_decide (c = "3"%char) then
          match decode_digits 0 (drop 4 t) with
          | Done (Some number_l) =>
              let x := U 32 (Z.shiftr number_l 40) in
              if Z.land number_l 0xffffffffff =? account_check x then Done (Some x) else Done None
          | Done None => Done None
          | Fault e => Fault e
          end
        else Done None
    | [] => Done None
    end
  else Done None.

(** The private key of an index of a seed. *)
Definition deterministic_key (seed : u256) (index : u32) : u256 :=
  blake2b_256 [write_be seed; write_be index].
End accounts.
