(* ===== verification/BlockReaders.v ===== *)
(** * Other readers and writers of blocks (lib/blocks.cpp)

    The members [deserialize] of the block classes; [serialize_json],
    [deserialize_json], the constructors from a property tree and
    [deserialize_block_json], with the hexadecimal texts of a proof of work.
    Property trees are Boost's; they are a parameter.  What a failed reading
    leaves in the members of a block is not modelled. *)

From stdpp Require Import strings.
From S2P Require Import Prelude Crypto Blocks Numbers.
From Stdlib Require Import Ascii.
Local Open Scope Z_scope.

(** ** The members [deserialize], field by field *)

Definition send_block_deserialize : reader send_block := λ s,
  '(previous, s) ← read_be 32 s;
  '(destination, s) ← read_be 32 s;
  '(balance, s) ← read_be 16 s;
  '(sg, s) ← read_be 64 s;
  '(w, s) ← read_le 8 s;
  Some (Signed (Send_hashables previous destination balance) sg w, s).
Definition receive_block_deserialize : reader receive_block := λ s,
  '(previous, s) ← read_be 32 s;
  '(source, s) ← read_be 32 s;
  '(sg, s) ← read_be 64 s;
  '(w, s) ← read_le 8 s;
  Some (Signed (Receive_hashables previous source) sg w, s).
Definition open_block_deserialize : reader open_block := λ s,
  '(source, s) ← read_be 32 s;
  '(representative, s) ← read_be 32 s;
  '(account, s) ← read_be 32 s;
  '(sg, s) ← read_be 64 s;
  '(w, s) ← read_le 8 s;
  Some (Signed (Open_hashables source representative account) sg w, s).
Definition change_block_deserialize : reader change_block := λ s,
  '(previous, s) ← read_be 32 s;
  '(representative, s) ← read_be 32 s;
  '(sg, s) ← read_be 64 s;
  '(w, s) ← read_le 8 s;
  Some (Signed (Change_hashables previous representative) sg w, s).
(** The work is turned from big-endian. *)
Definition state_block_deserialize : reader state_block := λ s,
  '(account, s) ← read_be 32 s;
  '(previous, s) ← read_be 32 s;
  '(representative, s) ← read_be 32 s;
  '(balance, s) ← read_be 16 s;
  '(link, s) ← read_be 32 s;
  '(sg, s) ← read_be 64 s;
  '(w, s) ← read_be 8 s;
  Some (Signed (State_hashables account previous representative balance link) sg w, s).

(** ** Property trees *)

(** [boost::property_tree::ptree] with texts under the root. *)
Class PropertyTree := {
  ptree : Type;
  ptree_empty : ptree;
  (** [tree.put (key, text)] *)
  ptree_put : string → text → ptree → ptree;
  (** [tree.get<std::string> (key)]; [None] is the exception *)
  ptree_get : string → ptree → option text;
  write_json : ptree → text;
}.

(** ** Proofs of work *)

(** [stream << std::hex << std::noshowbase << std::setw (16) << std::setfill ('0') << value_a] *)
Definition to_string_hex (value : u64) : text :=
  setw 16 (map text_digit (positional 64 16 (uval value) [])).

Definition hex_value (c : ascii) : option Z :=
  let n := code c in
  if (0x30 <=? n) && (n <=? 0x39) then Some (n - 0x30)
  else if (0x61 <=? n) && (n <=? 0x66) then Some (n - 0x57)
  else if (0x41 <=? n) && (n <=? 0x46) then Some (n - 0x37)
  else None.

Definition is_space (c : ascii) : bool := (code c =? 0x20) || ((9 <=? code c) && (code c <=? 13)).

Fixpoint skip_spaces (t : text) : text :=
  match t with
  | c :: t' => if is_space c then skip_spaces t' else t
  | [] => []
  end.

(** The sign, and the prefix 0x. *)
Definition read_sign (t : text) : bool * text :=
  match t with
  | c :: t' =>
      if bool_decide (c = "-"%char) then (true, t')
      else if bool_decide (c = "+"%char) then (false, t') else (false, t)
  | [] => (false, [])
  end.
Definition skip_prefix (t : text) : text :=
  match t with
  | a :: b :: t' =>
      if bool_decide (a = "0"%char) && (bool_decide (b = "x"%char) || bool_decide (b = "X"%char))
      then t' else t
  | _ => t
  end.

Fixpoint read_hex (acc : Z) (t : text) : Z * text :=
  match t with
  | c :: t' => match hex_value c with Some d => read_hex (acc * 16 + d) t' | None => (acc, t) end
  | [] => (acc, [])
  end.

(** [stream >> number_l] of a 64-bit number in hexadecimal, for a text of at
    most 16 characters: its value and whether the stream is at its end.  From
    a text of blanks nothing is read and the variable keeps the value
    [uninitialised] it happens to have. *)
Definition stream_read_hex (uninitialised : u64) (t : text) : u64 * bool :=
  match skip_spaces t with
  | [] => (uninitialised, true)
  | t =>
      let '(negative, t) := read_sign t in
      let '(z, rest) := read_hex 0 (skip_prefix t) in
      (U 8 (if negative then - z else z), bool_decide (rest = []))
  end.

(** [None] is an error. *)
Definition from_string_hex (uninitialised : u64) (t : text) : option u64 :=
  if Nat.eqb (length t) 0 then None
  else if Nat.ltb 16 (length t) then None
  else match stream_read_hex uninitialised t with
       | (number_l, true) => Some number_l
       | (_, false) => None
       end.

(** ** Reading in steps: an error ends the rest, an assertion ends all *)

Abbreviation reading A := (outcome (option A)).

Definition rbind {A B} (m : reading A) (f : A → reading B) : reading B :=
  match m with
  | Done (Some a) => f a
  | Done None => Done None
  | Fault e => Fault e
  end.
Definition rret {A} (a : A) : reading A := Done (Some a).

Local Notation "x ⟵ m ; k" := (rbind m (λ x, k))
  (at level 20, m at level 100, k at level 200, right associativity).

Section json.
Context `{NumberText, Blake2b, PropertyTree}.
Context (uninitialised : u64).

Definition field (key : string) (tree : ptree) : reading text := Done (ptree_get key tree).
Definition hex_128 (t : text) : reading u128 := Done (decode_hex_128 t).
Definition hex_256 (t : text) : reading u256 := Done (decode_hex_256 t).
Definition hex_512 (t : text) : reading u512 := Done (decode_hex_512 t).
Definition hex_work (t : text) : reading u64 := Done (from_string_hex uninitialised t).
Definition dec_128 (t : text) : reading u128 := Done (decode_dec_128 t).

(** ** The constructors of the hashables *)

Definition json_send_hashables (tree : ptree) : reading send_hashables :=
  previous_l ⟵ field "previous" tree;
  destination_l ⟵ field "destination" tree;
  balance_l ⟵ field "balance" tree;
  previous ⟵ hex_256 previous_l;
  destination ⟵ decode_account destination_l;
  balance ⟵ hex_128 balance_l;
  rret (Send_hashables previous destination balance).

Definition json_receive_hashables (tree : ptree) : reading receive_hashables :=
  previous_l ⟵ field "previous" tree;
  source_l ⟵ field "source" tree;
  previous ⟵ hex_256 previous_l;
  source ⟵ hex_256 source_l;
  rret (Receive_hashables previous source).

Definition json_open_hashables (tree : ptree) : reading open_hashables :=
  source_l ⟵ field "source" tree;
  representative_l ⟵ field "representative" tree;
  account_l ⟵ field "account" tree;
  source ⟵ hex_256 source_l;
  representative ⟵ decode_account representative_l;
  account ⟵ decode_account account_l;
  rret (Open_hashables source representative account).

Definition json_change_hashables (tree : ptree) : reading change_hashables :=
  previous_l ⟵ field "previous" tree;
  representative_l ⟵ field "representative" tree;
  previous ⟵ hex_256 previous_l;
  representative ⟵ decode_account representative_l;
  rret (Change_hashables previous representative).

(** An account, or else a number in hexadecimal. *)
Definition json_link (link_l : text) : reading u256 :=
  match decode_account link_l with
  | Done (Some link) => Done (Some link)
  | Done None => hex_256 link_l
  | Fault e => Fault e
  end.

Definition json_state_hashables (tree : ptree) : reading state_hashables :=
  account_l ⟵ field "account" tree;
  previous_l ⟵ field "previous" tree;
  representative_l ⟵ field "representative" tree;
  balance_l ⟵ field "balance" tree;
  link_l ⟵ field "link" tree;
  account ⟵ decode_account account_l;
  previous ⟵ hex_256 previous_l;
  representative ⟵ decode_account representative_l;
  balance ⟵ dec_128 balance_l;
  link ⟵ json_link link_l;
  rret (State_hashables account previous representative balance link).

(** ** The constructors of the blocks *)

(** Send and receive blocks read the signature first. *)
Definition json_send_block (tree : ptree) : reading send_block :=
  h ⟵ json_send_hashables tree;
  signature_l ⟵ field "signature" tree;
  work_l ⟵ field "work" tree;
  s ⟵ hex_512 signature_l;
  w ⟵ hex_work work_l;
  rret (Signed h s w).

Definition json_receive_block (tree : ptree) : reading receive_block :=
  h ⟵ json_receive_hashables tree;
  signature_l ⟵ field "signature" tree;
  work_l ⟵ field "work" tree;
  s ⟵ hex_512 signature_l;
  w ⟵ hex_work work_l;
  rret (Signed h s w).

Definition json_open_block (tree : ptree) : reading open_block :=
  h ⟵ json_open_hashables tree;
  work_l ⟵ field "work" tree;
  signature_l ⟵ field "signature" tree;
  w ⟵ hex_work work_l;
  s ⟵ hex_512 signature_l;
  rret (Signed h s w).

Definition json_change_block (tree : ptree) : reading change_block :=
  h ⟵ json_change_hashables tree;
  work_l ⟵ field "work" tree;
  signature_l ⟵ field "signature" tree;
  w ⟵ hex_work work_l;
  s ⟵ hex_512 signature_l;
  rret (Signed h s w).

Definition json_state_block (tree : ptree) : reading state_block :=
  h ⟵ json_state_hashables tree;
  type_l ⟵ field "type" tree;
  signature_l ⟵ field "signature" tree;
  work_l ⟵ field "work" tree;
  if negb (bool_decide (type_l = lit "state")) then Done None
  else
    w ⟵ hex_work work_l;
    s ⟵ hex_512 signature_l;
    rret (Signed h s w).

(** A tree of an unknown type or with an error gives no block. *)
Definition deserialize_block_json (tree : ptree) : reading block :=
  type ⟵ field "type" tree;
  if bool_decide (type = lit "receive") then b ⟵ json_receive_block tree; rret (BReceive b)
  else if bool_decide (type = lit "send") then b ⟵ json_send_block tree; rret (BSend b)
  else if bool_decide (type = lit "open") then b ⟵ json_open_block tree; rret (BOpen b)
  else if bool_decide (type = lit "change") then b ⟵ json_change_block tree; rret (BChange b)
  else if bool_decide (type = lit "state") then b ⟵ json_state_block tree; rret (BState b)
  else Done None.

(** ** The members [deserialize_json] *)

(** [assert (tree_a.get<std::string> ("type") == type)] *)
Definition assert_type (type : text) (tree : ptree) : reading unit :=
  t ⟵ field "type" tree;
  if bool_decide (t = type) then rret tt else Fault assertion_failed.

Definition send_deserialize_json (tree : ptree) : reading send_block :=
  _ ⟵ assert_type (lit "send") tree;
  previous_l ⟵ field "previous" tree;
  destination_l ⟵ field "destination" tree;
  balance_l ⟵ field "balance" tree;
  work_l ⟵ field "work" tree;
  signature_l ⟵ field "signature" tree;
  previous ⟵ hex_256 previous_l;
  destination ⟵ decode_account destination_l;
  balance ⟵ hex_128 balance_l;
  w ⟵ hex_work work_l;
  s ⟵ hex_512 signature_l;
  rret (Signed (Send_hashables previous destination balance) s w).

Definition receive_deserialize_json (tree : ptree) : reading receive_block :=
  _ ⟵ assert_type (lit "receive") tree;
  previous_l ⟵ field "previous" tree;
  source_l ⟵ field "source" tree;
  work_l ⟵ field "work" tree;
  signature_l ⟵ field "signature" tree;
  previous ⟵ hex_256 previous_l;
  source ⟵ hex_256 source_l;
  w ⟵ hex_work work_l;
  s ⟵ hex_512 signature_l;
  rret (Signed (Receive_hashables previous source) s w).

(** Representative and account are read in hexadecimal. *)
Definition open_deserialize_json (tree : ptree) : reading open_block :=
  _ ⟵ assert_type (lit "open") tree;
  source_l ⟵ field "source" tree;
  representative_l ⟵ field "representative" tree;
  account_l ⟵ field "account" tree;
  work_l ⟵ field "work" tree;
  signature_l ⟵ field "signature" tree;
  source ⟵ hex_256 source_l;
  representative ⟵ hex_256 representative_l;
  account ⟵ hex_256 account_l;
  w ⟵ hex_work work_l;
  s ⟵ hex_512 signature_l;
  rret (Signed (Open_hashables source representative account) s w).

Definition change_deserialize_json (tree : ptree) : reading change_block :=
  _ ⟵ assert_type (lit "change") tree;
  previous_l ⟵ field "previous" tree;
  representative_l ⟵ field "representative" tree;
  work_l ⟵ field "work" tree;
  signature_l ⟵ field "signature" tree;
  previous ⟵ hex_256 previous_l;
  representative ⟵ hex_256 representative_l;
  w ⟵ hex_work work_l;
  s ⟵ hex_512 signature_l;
  rret (Signed (Change_hashables previous representative) s w).

Definition state_deserialize_json (tree : ptree) : reading state_block :=
  _ ⟵ assert_type (lit "state") tree;
  account_l ⟵ field "account" tree;
  previous_l ⟵ field "previous" tree;
  representative_l ⟵ field "representative" tree;
  balance_l ⟵ field "balance" tree;
  link_l ⟵ field "link" tree;
  work_l ⟵ field "work" tree;
  signature_l ⟵ field "signature" tree;
  account ⟵ decode_account account_l;
  previous ⟵ hex_256 previous_l;
  representative ⟵ decode_account representative_l;
  balance ⟵ dec_128 balance_l;
  link ⟵ json_link link_l;
  w ⟵ hex_work work_l;
  s ⟵ hex_512 signature_l;
  rret (Signed (State_hashables account previous representative balance link) s w).

(** ** Writing *)

(** The trees of [serialize_json], from the first entry put to the last. *)
Fixpoint put_all (entries : list (string * outcome text)) (tree : ptree) : outcome ptree :=
  match entries with
  | [] => Done tree
  | (key, Done t) :: entries => put_all entries (ptree_put key t tree)
  | (_, Fault e) :: _ => Fault e
  end.

Definition send_tree (b : send_block) : outcome ptree :=
  put_all
    [("type", Done (lit "send"));
     ("previous", Done (encode_hex (sh_previous (hashables b))));
     ("destination", to_account (sh_destination (hashables b)));
     ("balance", Done (encode_hex (sh_balance (hashables b))));
     ("work", Done (to_string_hex (work b)));
     ("signature", Done (encode_hex (signature b)))] ptree_empty.

Definition receive_tree (b : receive_block) : outcome ptree :=
  put_all
    [("type", Done (lit "receive"));
     ("previous", Done (encode_hex (rh_previous (hashables b))));
     ("source", Done (encode_hex (rh_source (hashables b))));
     ("work", Done (to_string_hex (work b)));
     ("signature", Done (encode_hex (signature b)))] ptree_empty.

Definition open_tree (b : open_block) : outcome ptree :=
  put_all
    [("type", Done (lit "open"));
     ("source", Done (encode_hex (oh_source (hashables b))));
     ("representative", to_account (block_representative (BOpen b)));
     ("account", to_account (oh_account (hashables b)));
     ("work", Done (to_string_hex (work b)));
     ("signature", Done (encode_hex (signature b)))] ptree_empty.

Definition change_tree (b : change_block) : outcome ptree :=
  put_all
    [("type", Done (lit "change"));
     ("previous", Done (encode_hex (ch_previous (hashables b))));
     ("representative", to_account (block_representative (BChange b)));
     ("work", Done (to_string_hex (work b)));
     ("signature", Done (encode_hex (signature b)))] ptree_empty.

Definition state_tree (b : state_block) : outcome ptree :=
  put_all
    [("type", Done (lit "state"));
     ("account", to_account (th_account (hashables b)));
     ("previous", Done (encode_hex (th_previous (hashables b))));
     ("representative", to_account (block_representative (BState b)));
     ("balance", Done (encode_dec (th_balance (hashables b))));
     ("link", Done (encode_hex (th_link (hashables b))));
     ("link_as_account", to_account (th_link (hashables b)));
     ("signature", Done (encode_hex (signature b)));
     ("work", Done (to_string_hex (work b)))] ptree_empty.

Definition block_tree (b : block) : outcome ptree :=
  match b with
  | BSend b => send_tree b
  | BReceive b => receive_tree b
  | BOpen b => open_tree b
  | BChange b => change_tree b
  | BState b => state_tree b
  end.

Definition to_json (b : block) : outcome text :=
  match block_tree b with
  | Done tree => Done (write_json tree)
  | Fault e => Fault e
  end.
End json.
