(* ===== verification/Messages.v ===== *)
(** * Messages between nodes (node/common.hpp, node/common.cpp)

    The header, the eight kinds of messages with their wire forms, and the
    parser of the messages received over UDP with its check of the proof of
    work (lib/work.cpp).  A call of the visitor is a message in the result of
    the parser. *)

From S2P Require Import Prelude Crypto Blocks Votes.

(** ** Networks and constants (config.hpp, common.hpp, lib/work.hpp) *)

Inductive badem_networks : Set := badem_test_network | badem_beta_network | badem_live_network.

Definition protocol_version : u8 := byte 0x0a.
Definition protocol_version_min : u8 := byte 0x07.

Definition magic_number (net : badem_networks) : bytes :=
  match net with
  | badem_test_network => [byte 0x42; byte 0x5a]
  | badem_beta_network => [byte 0x42; byte 0x59]
  | badem_live_network => [byte 0x42; byte 0x58]
  end.

Definition publish_threshold (net : badem_networks) : u64 :=
  match net with
  | badem_test_network => U 8 0xff00000000000000
  | _ => U 8 0xfffffe0000000000
  end.

(** ** The header *)

Inductive message_type : Set :=
  mt_invalid | mt_not_a_type | mt_keepalive | mt_publish | mt_confirm_req | mt_confirm_ack
| mt_bulk_pull | mt_bulk_push | mt_frontier_req | mt_bulk_pull_blocks.

Definition message_type_code (t : message_type) : u8 :=
  byte match t with
       | mt_invalid => 0
       | mt_not_a_type => 1
       | mt_keepalive => 2
       | mt_publish => 3
       | mt_confirm_req => 4
       | mt_confirm_ack => 5
       | mt_bulk_pull => 6
       | mt_bulk_push => 7
       | mt_frontier_req => 8
       | mt_bulk_pull_blocks => 9
       end.

(** The type is any byte, since it is read from the stream. *)
Record message_header : Set := Message_header {
  version_max : u8;
  version_using : u8;
  version_min : u8;
  header_type : u8;
  extensions : uint 2;
}.

Definition ipv4_only_position : Z := 1.
Definition block_type_mask : Z := 0x0f00.

Definition make_header (t : message_type) : message_header :=
  Message_header protocol_version protocol_version protocol_version_min (message_type_code t) (U 2 0).

Definition header_serialize (net : badem_networks) (h : message_header) : bytes :=
  magic_number net ++ write_be (version_max h) ++ write_be (version_using h) ++
  write_be (version_min h) ++ write_be (header_type h) ++ write_le (extensions h).

Definition header_deserialize (net : badem_networks) : reader message_header := λ s,
  '(magic_number_l, s) ← read_bytes 2 s;
  if negb (bool_decide (magic_number_l = magic_number net)) then None else
  '(vmax, s) ← read_be 1 s;
  '(vusing, s) ← read_be 1 s;
  '(vmin, s) ← read_be 1 s;
  '(t, s) ← read_be 1 s;
  '(extensions_l, s) ← read_le 2 s;
  Some (Message_header vmax vusing vmin t extensions_l, s).

Definition set_extensions (h : message_header) (e : Z) : message_header :=
  Message_header (version_max h) (version_using h) (version_min h) (header_type h) (U 2 e).

(** [None] is a number that is no block type. *)
Definition header_block_type (h : message_header) : option block_type :=
  block_type_of_byte (byte (Z.shiftr (Z.land (uval (extensions h)) block_type_mask) 8)).
Definition block_type_set (t : block_type) (h : message_header) : message_header :=
  set_extensions h (Z.lor (Z.land (uval (extensions h)) (Z.lxor 0xffff block_type_mask))
    (Z.shiftl (uval (block_type_byte t)) 8)).

Definition ipv4_only (h : message_header) : bool := Z.testbit (uval (extensions h)) ipv4_only_position.
Definition ipv4_only_set (value : bool) (h : message_header) : message_header :=
  set_extensions h (if value then Z.setbit (uval (extensions h)) ipv4_only_position
                    else Z.clearbit (uval (extensions h)) ipv4_only_position).

(** ** The messages *)

Inductive address : Set := address_v4 (a : u32) | address_v6 (a : u128).
Record endpoint : Set := Endpoint { ep_address : address; ep_port : uint 2 }.

Inductive message : Set :=
| Keepalive (peers : list endpoint)
| Publish (b : block)
| Confirm_req (b : block)
| Confirm_ack (v : vote)
| Frontier_req (start : u256) (age count : u32)
| Bulk_pull (start end_ : u256)
| Bulk_pull_blocks (min_hash max_hash : u256) (mode : u8) (max_count : u32)
| Bulk_push.

Definition peer_count : nat := 8.

(** The constructors of messages to be sent. *)
Definition make_keepalive : message_header * message :=
  (make_header mt_keepalive, Keepalive (replicate peer_count (Endpoint (address_v6 (U 16 0)) (U 2 0)))).
Definition make_publish (b : block) : message_header * message :=
  (block_type_set (block_type_of b) (make_header mt_publish), Publish b).
Definition make_confirm_req (b : block) : message_header * message :=
  (block_type_set (block_type_of b) (make_header mt_confirm_req), Confirm_req b).
Definition make_confirm_ack (v : vote) : message_header * message :=
  (block_type_set (block_type_of (v_block v)) (make_header mt_confirm_ack), Confirm_ack v).

(** *** Writing *)

Fixpoint peers_serialize (peers : list endpoint) : outcome bytes :=
  match peers with
  | [] => Done []
  | Endpoint (address_v6 a) p :: peers =>
      match peers_serialize peers with
      | Done s => Done (write_be a ++ write_le p ++ s)
      | Fault e => Fault e
      end
  | Endpoint (address_v4 _) _ :: _ => Fault assertion_failed
  end.

Definition is_block_type (t : option block_type) : bool :=
  match t with
  | Some bt_send | Some bt_receive | Some bt_open | Some bt_change | Some bt_state => true
  | _ => false
  end.

Definition keepalive_serialize (net : badem_networks) (h : message_header) (peers : list endpoint) : outcome bytes :=
  match peers_serialize peers with
  | Done s => Done (header_serialize net h ++ s)
  | Fault e => Fault e
  end.
Definition publish_serialize (net : badem_networks) (h : message_header) (b : block) : bytes :=
  header_serialize net h ++ block_serialize b.
Definition confirm_req_serialize (net : badem_networks) (h : message_header) (b : block) : bytes :=
  header_serialize net h ++ block_serialize b.
Definition confirm_ack_serialize (net : badem_networks) (h : message_header) (v : vote) : outcome bytes :=
  if is_block_type (header_block_type h) then Done (header_serialize net h ++ vote_serialize_typed v)
  else Fault assertion_failed.
Definition frontier_req_serialize (net : badem_networks) (h : message_header) (start : u256) (age count : u32) : bytes :=
  header_serialize net h ++ write_be start ++ write_le age ++ write_le count.
Definition bulk_pull_serialize (net : badem_networks) (h : message_header) (start end_ : u256) : bytes :=
  header_serialize net h ++ write_be start ++ write_be end_.
Definition bulk_pull_blocks_serialize (net : badem_networks) (h : message_header) (min_hash max_hash : u256)
    (mode : u8) (max_count : u32) : bytes :=
  header_serialize net h ++ write_be min_hash ++ write_be max_hash ++ write_be mode ++ write_le max_count.
Definition bulk_push_serialize (net : badem_networks) (h : message_header) : bytes := header_serialize net h.

Definition message_serialize (net : badem_networks) (h : message_header) (m : message) : outcome bytes :=
  match m with
  | Keepalive peers => keepalive_serialize net h peers
  | Publish b => Done (publish_serialize net h b)
  | Confirm_req b => Done (confirm_req_serialize net h b)
  | Confirm_ack v => confirm_ack_serialize net h v
  | Frontier_req start age count => Done (frontier_req_serialize net h start age count)
  | Bulk_pull start end_ => Done (bulk_pull_serialize net h start end_)
  | Bulk_pull_blocks min_hash max_hash mode max_count =>
      Done (bulk_pull_blocks_serialize net h min_hash max_hash mode max_count)
  | Bulk_push => Done (bulk_push_serialize net h)
  end.

(** *** Reading: the constructors from a header and a stream *)

Definition message_reader := message_header → bytes → outcome (option (message * bytes)).

(** [assert (header.type == type)] *)
Definition expecting (t : message_type) (r : bytes → outcome (option (message * bytes))) : message_reader :=
  λ h s, if u_eqb (header_type h) (message_type_code t) then r s else Fault assertion_failed.

Fixpoint read_peers (n : nat) : reader (list endpoint) := λ s,
  match n with
  | O => Some ([], s)
  | S n =>
      '(a, s) ← read_be 16 s;
      '(p, s) ← read_le 2 s;
      '(peers, s) ← read_peers n s;
      Some (Endpoint (address_v6 a) p :: peers, s)
  end.

Definition keepalive_deserialize : message_reader := expecting mt_keepalive (λ s,
  Done ('(peers, s) ← read_peers peer_count s; Some (Keepalive peers, s))).

(** A block of the type in the header. *)
Definition read_block (h : message_header) (f : block → message) (s : bytes) : outcome (option (message * bytes)) :=
  match deserialize_block_typed (header_block_type h) s with
  | Done (Some (b, s)) => Done (Some (f b, s))
  | Done None => Done None
  | Fault e => Fault e
  end.

Definition publish_deserialize : message_reader := λ h, expecting mt_publish (read_block h Publish) h.
Definition confirm_req_deserialize : message_reader := λ h, expecting mt_confirm_req (read_block h Confirm_req) h.

(** The constructor of [confirm_ack] makes the vote and asserts no type. *)
Definition confirm_ack_read : message_reader := λ h s,
  match read_vote (deserialize_block_typed (header_block_type h)) s with
  | Done (Some (v, s)) => Done (Some (Confirm_ack v, s))
  | Done None => Done None
  | Fault e => Fault e
  end.

Definition frontier_req_deserialize : message_reader := expecting mt_frontier_req (λ s,
  Done ('(start, s) ← read_be 32 s;
        '(age, s) ← read_le 4 s;
        '(count, s) ← read_le 4 s;
        Some (Frontier_req start age count, s))).
Definition bulk_pull_deserialize : message_reader := expecting mt_bulk_pull (λ s,
  Done ('(start, s) ← read_be 32 s;
        '(end_, s) ← read_be 32 s;
        Some (Bulk_pull start end_, s))).
Definition bulk_pull_blocks_deserialize : message_reader := expecting mt_bulk_pull_blocks (λ s,
  Done ('(min_hash, s) ← read_be 32 s;
        '(max_hash, s) ← read_be 32 s;
        '(mode, s) ← read_be 1 s;
        '(max_count, s) ← read_le 4 s;
        Some (Bulk_pull_blocks min_hash max_hash mode max_count, s))).
Definition bulk_push_deserialize : message_reader := expecting mt_bulk_push (λ s, Done (Some (Bulk_push, s))).

(** [confirm_ack::deserialize] reads into a vote, block type and all. *)
Definition confirm_ack_deserialize : message_reader := expecting mt_confirm_ack (λ s,
  match vote_deserialize s with
  | Done (Some (v, s)) => Done (Some (Confirm_ack v, s))
  | Done None => Done None
  | Fault e => Fault e
  end).

(** ** Proof of work (lib/work.cpp) *)
Section work.
Context `{Blake2b}.

(** The digest of eight bytes, as the machine reads it. *)
Definition work_value (root : u256) (w : u64) : u64 :=
  U 8 (le_val (blake2b_final (blake2b_update (blake2b_update (blake2b_init 8) (write_le w)) (write_be root)) 8)).

(** Whether the work is insufficient. *)
Definition work_validate (net : badem_networks) (root : u256) (w : u64) : bool :=
  u_ltb (work_value root w) (publish_threshold net).
Definition work_validate_block (net : badem_networks) (b : block) : bool :=
  work_validate net (block_root b) (block_work b).
End work.

(** ** The parser *)

Inductive parse_status : Set :=
  parse_success | insufficient_work | invalid_header | invalid_message_type
| invalid_keepalive_message | invalid_publish_message | invalid_confirm_req_message
| invalid_confirm_ack_message.

Section parser.
Context `{Blake2b}.
Context (net : badem_networks).

(** The status, and the message handed to the visitor if any. *)
Abbreviation parsed := (parse_status * option (message_header * message))%type.

(** [read (stream, junk)] fails at the end. *)
Definition at_end (s : bytes) : bool := match read_be 1 s with None => true | Some _ => false end.

(** Read a message that takes the whole stream; then check its work. *)
Definition parse_with (r : message_reader) (invalid : parse_status) (bad_work : message → bool)
    (h : message_header) (s : bytes) : outcome parsed :=
  match r h s with
  | Done (Some (incoming, s)) =>
      if at_end s then
        if negb (bad_work incoming) then Done (parse_success, Some (h, incoming))
        else Done (insufficient_work, None)
      else Done (invalid, None)
  | Done None => Done (invalid, None)
  | Fault e => Fault e
  end.

(** The block whose work counts. *)
Definition bad_work (m : message) : bool :=
  match m with
  | Publish b | Confirm_req b => work_validate_block net b
  | Confirm_ack v => work_validate_block net (v_block v)
  | _ => false
  end.

Definition deserialize_keepalive : message_header → bytes → outcome parsed :=
  parse_with keepalive_deserialize invalid_keepalive_message (λ _, false).
Definition deserialize_publish : message_header → bytes → outcome parsed :=
  parse_with publish_deserialize invalid_publish_message bad_work.
Definition deserialize_confirm_req : message_header → bytes → outcome parsed :=
  parse_with confirm_req_deserialize invalid_confirm_req_message bad_work.
Definition deserialize_confirm_ack : message_header → bytes → outcome parsed :=
  parse_with confirm_ack_read invalid_confirm_ack_message bad_work.

Definition deserialize_buffer (buffer : bytes) : outcome parsed :=
  match header_deserialize net buffer with
  | None => Done (invalid_header, None)
  | Some (h, s) =>
      if u_eqb (header_type h) (message_type_code mt_keepalive) then deserialize_keepalive h s
      else if u_eqb (header_type h) (message_type_code mt_publish) then deserialize_publish h s
      else if u_eqb (header_type h) (message_type_code mt_confirm_req) then deserialize_confirm_req h s
      else if u_eqb (header_type h) (message_type_code mt_confirm_ack) then deserialize_confirm_ack h s
      else Done (invalid_message_type, None)
  end.
End parser.
