(* ===== verification/MultiIndex.v ===== *)
(** * Containers of the node (boost::multi_index_container)

    The node keeps its caches in containers with a unique hashed key and one
    or more ordered keys.  A container is the list of its elements in the
    order of insertion (the order of a random access index); the traversal
    of an ordered and of a hashed index is what Boost documents of it: some
    arrangement of the elements, sorted by the key for an ordered one. *)

From S2P Require Import Prelude.

Class MultiIndex := {
  (** [ordered_non_unique]: the elements by increasing key *)
  by_key : ∀ {E : Type}, (E → Z) → list E → list E;
  by_key_perm : ∀ {E : Type} (key : E → Z) l, by_key key l ≡ₚ l;
  by_key_sorted : ∀ {E : Type} (key : E → Z) l,
    StronglySorted (λ x y, key x ≤ key y) (by_key key l);
  (** [hashed_unique]: the elements in some order *)
  by_hash : ∀ {E : Type}, list E → list E;
  by_hash_perm : ∀ {E : Type} (l : list E), by_hash l ≡ₚ l;
}.

Section operations.
Context {E K : Type} `{EqDecision K} (key : E → K).

(** [find] on the hashed index. *)
Definition mi_find (k : K) (l : list E) : option E :=
  List.find (λ e, bool_decide (key e = k)) l.

(** [insert]: refused when the unique key is taken; whether it was inserted. *)
Definition mi_insert (e : E) (l : list E) : list E * bool :=
  match mi_find (key e) l with
  | Some _ => (l, false)
  | None => (l ++ [e], true)
  end.

(** [erase] of the element with a key, if any. *)
Definition mi_erase (k : K) (l : list E) : list E :=
  List.filter (λ e, negb (bool_decide (key e = k))) l.

(** [modify] (or [replace]) of the element with a key; its place in the
    order of insertion stays. *)
Definition mi_modify (k : K) (f : E → E) (l : list E) : list E :=
  map (λ e, if bool_decide (key e = k) then f e else e) l.

(** ** Lemmas *)

Lemma mi_find_some k l e : mi_find k l = Some e → e ∈ l ∧ key e = k.
Proof.
  unfold mi_find. intros [Hin Hk]%List.find_some.
  by rewrite <-list_elem_of_In in Hin; apply bool_decide_eq_true in Hk.
Qed.
Lemma mi_find_none k l : mi_find k l = None ↔ k ∉ key <$> l.
Proof.
  unfold mi_find. induction l as [|e l IH]; simpl; [set_solver|].
  rewrite not_elem_of_cons. case_bool_decide as Hk; [naive_solver|]. rewrite IH. naive_solver.
Qed.
Lemma mi_find_is_some k l : is_Some (mi_find k l) ↔ k ∈ key <$> l.
Proof.
  rewrite <-not_eq_None_Some, mi_find_none. destruct (decide (k ∈ key <$> l)); tauto.
Qed.
Lemma mi_find_elem k l e : NoDup (key <$> l) → e ∈ l → key e = k → mi_find k l = Some e.
Proof.
  unfold mi_find. induction l as [|x l IH]; simpl; [set_solver|].
  intros [Hx Hn]%NoDup_cons [->|He]%elem_of_cons Hk; [by rewrite bool_decide_true|].
  rewrite bool_decide_false; [by apply IH|]. intros E'. apply Hx. rewrite E', <-Hk. by apply list_elem_of_fmap_2.
Qed.

Lemma mi_insert_key e l : key <$> (mi_insert e l).1 =
  if decide (key e ∈ key <$> l) then key <$> l else (key <$> l) ++ [key e].
Proof.
  unfold mi_insert. destruct (mi_find (key e) l) eqn:F; simpl.
  - by rewrite decide_True by (apply mi_find_is_some; eauto).
  - rewrite decide_False by (by apply mi_find_none). by rewrite fmap_app.
Qed.
Lemma mi_insert_nodup e l : NoDup (key <$> l) → NoDup (key <$> (mi_insert e l).1).
Proof.
  intros Hn. rewrite mi_insert_key. case_decide; [done|]. apply NoDup_app. split_and!; [done| |apply NoDup_singleton].
  set_solver.
Qed.
Lemma mi_insert_new e l : (mi_insert e l).2 = true ↔ key e ∉ key <$> l.
Proof. unfold mi_insert. destruct (mi_find (key e) l) eqn:F; simpl; [|by rewrite <-mi_find_none, F].
  rewrite <-mi_find_none, F. naive_solver. Qed.
Lemma elem_of_mi_insert e x l : x ∈ (mi_insert e l).1 → x = e ∨ x ∈ l.
Proof. unfold mi_insert. destruct (mi_find (key e) l); set_solver. Qed.
Lemma length_mi_insert e l : (length (mi_insert e l).1 ≤ S (length l))%nat.
Proof. unfold mi_insert. destruct (mi_find (key e) l); simpl; rewrite ?length_app; simpl; lia. Qed.

Lemma elem_of_mi_erase k x l : x ∈ mi_erase k l ↔ x ∈ l ∧ key x ≠ k.
Proof.
  unfold mi_erase. rewrite !list_elem_of_In, filter_In, negb_true_iff, bool_decide_eq_false. done.
Qed.
Lemma mi_erase_nodup k l : NoDup (key <$> l) → NoDup (key <$> mi_erase k l).
Proof.
  induction l as [|x l IH]; simpl; [done|]. intros [Hx Hn]%NoDup_cons.
  destruct (bool_decide (key x = k)); simpl; [by apply IH|]. apply NoDup_cons. split; [|by apply IH].
  intros (y & Hy & Hin)%list_elem_of_fmap. apply elem_of_mi_erase in Hin as [Hin _].
  apply Hx. rewrite Hy. by apply list_elem_of_fmap_2.
Qed.
Lemma length_mi_erase k l : (length (mi_erase k l) ≤ length l)%nat.
Proof. apply filter_length_le. Qed.
Lemma length_mi_erase_in k l : k ∈ key <$> l → (length (mi_erase k l) < length l)%nat.
Proof.
  induction l as [|x l IH]; simpl; [set_solver|]. pose proof (length_mi_erase k l) as Hle. intros Hk.
  case_bool_decide as Hx; simpl; [unfold mi_erase in *; lia|].
  apply elem_of_cons in Hk as [|Hk]; [done|]. specialize (IH Hk). unfold mi_erase in *. lia.
Qed.

Lemma length_mi_erase_one k l : NoDup (key <$> l) → k ∈ key <$> l →
  length l = S (length (mi_erase k l)).
Proof.
  unfold mi_erase. induction l as [|x l IH]; simpl; [by intros _ ?%elem_of_nil|]. intros [Hx Hd]%NoDup_cons Hk.
  case_bool_decide as Ex; simpl.
  - assert (Hall : ∀ y, y ∈ l → key y ≠ k).
    { intros y Hy Ey. apply Hx. rewrite Ex, <-Ey. by apply list_elem_of_fmap_2. }
    f_equal. clear -Hall. induction l as [|y l IH]; simpl; [done|].
    rewrite bool_decide_false by (apply Hall; by left). simpl. f_equal. apply IH. intros z Hz. apply Hall. by right.
  - f_equal. apply IH; [done|]. by apply elem_of_cons in Hk as [|].
Qed.

Lemma mi_modify_key k f l : (∀ e, key e = k → key (f e) = k) → key <$> mi_modify k f l = key <$> l.
Proof.
  intros Hf. unfold mi_modify. induction l as [|x l IH]; simpl; [done|]. f_equal; [|done].
  case_bool_decide as Hk; [by rewrite Hf|done].
Qed.
Lemma elem_of_mi_modify k f l x : x ∈ mi_modify k f l →
  ∃ e, e ∈ l ∧ ((key e = k ∧ x = f e) ∨ (key e ≠ k ∧ x = e)).
Proof.
  unfold mi_modify. intros (e & -> & He)%list_elem_of_fmap. exists e. split; [done|].
  case_bool_decide; auto.
Qed.
Lemma length_mi_modify k f l : length (mi_modify k f l) = length l.
Proof. apply length_map. Qed.
End operations.

Section traversals.
Context `{MultiIndex} {E : Type}.
Lemma elem_of_by_key (key : E → Z) l x : x ∈ by_key key l ↔ x ∈ l.
Proof. by rewrite (by_key_perm key l). Qed.
Lemma elem_of_by_hash (l : list E) x : x ∈ by_hash l ↔ x ∈ l.
Proof. by rewrite (by_hash_perm l). Qed.
Lemma length_by_key (key : E → Z) l : length (by_key key l) = length l.
Proof. by rewrite (by_key_perm key l). Qed.

(** The first element of an ordered traversal has the least key. *)
Lemma by_key_first (key : E → Z) l x r : by_key key l = x :: r → x ∈ l ∧ ∀ y, y ∈ l → key x ≤ key y.
Proof.
  intros Hx. pose proof (by_key_sorted key l) as Hs. rewrite Hx in Hs.
  apply StronglySorted_inv in Hs as [_ Hall]. rewrite Forall_forall in Hall.
  split; [by rewrite <-(elem_of_by_key key), Hx; left|].
  intros y Hy. rewrite <-(elem_of_by_key key), Hx in Hy. apply elem_of_cons in Hy as [->|Hy]; [lia|auto].
Qed.
Lemma by_key_nil (key : E → Z) l : by_key key l = [] ↔ l = [].
Proof.
  pose proof (length_by_key key l) as Hl. split; intros Hx.
  - rewrite Hx in Hl. by apply nil_length_inv.
  - subst l. by apply nil_length_inv.
Qed.
End traversals.

(** ** An instance *)

Definition index_le {E : Type} (key : E → Z) (x y : E) : Prop := key x ≤ key y.
#[export] Instance index_le_dec {E} (key : E → Z) : RelDecision (index_le key).
Proof. intros x y. unfold index_le. apply _. Defined.

#[export] Instance index_le_trans {E} (key : E → Z) : Transitive (index_le key).
Proof. intros x y z. unfold index_le. lia. Qed.
#[export] Instance index_le_total {E} (key : E → Z) : Total (index_le key).
Proof. intros x y. unfold index_le. lia. Qed.

#[export] Instance sorted_index : MultiIndex.
Proof.
  refine {|
    by_key E key l := merge_sort (index_le key) l;
    by_hash E l := l;
  |}.
  - intros E key l. apply merge_sort_Permutation.
  - intros E key l. apply (StronglySorted_merge_sort (index_le key)).
  - done.
Defined.
