(* ===== verification/Node.v ===== *)
(** * The node: its state and what it runs on (node/node.hpp)

    The objects a node owns, as one record: the ledger with its store and
    statistics, the peers, the elections, the caches, the queues of the block
    processor, the functions posted to the service and to the alarm, and
    everything that leaves the node (datagrams, calls of other subsystems).
    The functions of file Peers, NodeCaches, Elections, BlockProcessor and
    Network act on it.

    A function that holds a mutex or a transaction runs as one step; the
    steps of the threads interleave.  Clock readings and random numbers come
    from streams in the state.  Logging is left out. *)

From S2P Require Import Prelude Crypto Blocks Common Stats Store Ledger Votes Lmdb Versioning.
From S2P Require Import BlockStore Messages MultiIndex.

(** ** Endpoints *)

#[export] Instance address_eq_dec : EqDecision address.
Proof. solve_decision. Defined.
#[export] Instance endpoint_eq_dec : EqDecision endpoint.
Proof. solve_decision. Defined.
#[export] Instance address_countable : Countable address.
Proof.
  refine (inj_countable' (λ a, match a with address_v4 x => inl x | address_v6 x => inr x end)
    (λ s, match s with inl x => address_v4 x | inr x => address_v6 x end) _). by intros [].
Defined.
#[export] Instance endpoint_countable : Countable endpoint.
Proof.
  refine (inj_countable' (λ e, (ep_address e, ep_port e)) (λ p, Endpoint p.1 p.2) _). by intros [].
Defined.

(** ** Time

    [std::chrono::steady_clock], in nanoseconds. *)
Definition seconds (n : Z) : Z := n * 1000000000.
Definition milliseconds (n : Z) : Z := n * 1000000.

(** ** Records *)

Record peer_information : Set := Peer_information {
  pi_endpoint : endpoint;
  last_contact : Z;
  last_attempt : Z;
  last_bootstrap_attempt : Z;
  last_rep_request : Z;
  last_rep_response : Z;
  pi_rep_weight : u128;
  probable_rep_account : u256;
  network_version : Z;
}.
Record peer_attempt : Set := Peer_attempt { pa_endpoint : endpoint; pa_last_attempt : Z }.
Record peer_container : Set := Peer_container {
  peers : list peer_information;
  attempts : list peer_attempt;
}.

Record block_arrival_info : Set := Block_arrival_info { ba_arrival : Z; ba_hash : u256 }.
Record gap_information : Type := Gap_information {
  gi_arrival : Z;
  gi_hash : u256;
  gi_votes : votes;
}.
Record rep_last_heard_info : Set := Rep_last_heard_info { last_heard : Z; representative_ : u256 }.
Record online_reps : Set := Online_reps {
  reps : list rep_last_heard_info;
  online_stake_total : u128;
}.

Record vote_info : Set := Vote_info { vi_time : Z; vi_sequence : u64; vi_hash : u256 }.
Record election_status : Set := Election_status { es_winner : block; es_tally : u128 }.

(** What to do with a confirmed block: nothing, or pull the account again
    ([process_fork]). *)
Inductive confirmation_action : Set := no_action | requeue_action (root : u256).

Record election : Type := Election {
  el_action : confirmation_action;
  el_votes : votes;
  last_votes : gmap u256 vote_info;
  status : election_status;
  el_confirmed : bool;
}.

(** An election is shared by the roots and by the functions posted for it;
    it is named by its place in [elections], in order of creation. *)
Record conflict_info : Set := Conflict_info {
  ci_root : u256;
  ci_election : nat;
  announcements : u32;
  confirm_req_options : block * option block;
}.
Record active_transactions : Type := Active_transactions {
  roots : gmap u256 conflict_info;
  confirmed : list election_status;
  elections : list election;
}.

Record block_processor : Set := Block_processor {
  bp_blocks : list block;
  bp_forced : list block;
  bp_stopped : bool;
}.

(** Functions posted to the service, at once or by the alarm. *)
Inductive task : Set :=
| Broadcast_winner (e : nat)
| Confirmed (winner : block) (action : confirmation_action)
| Announce_votes
| Recalculate_stake
| Crawler_remove (hash : u256)
| Bootstrap_missing (hash : u256)
| Confirm_req_base (b : block) (endpoints : list peer_information) (delay : Z)
| Rep_crawl
| Store_flush
| Keepalive_ongoing
| Receive.

(** What leaves the node. *)
Inductive output : Set :=
| Sent (datagram : bytes) (to : endpoint)
| Received_next
| Bootstrap_started
| Pull_requeued (account head end_ : u256)
| Receive_async (b : block) (representative : u256) (amount : u128)
| Block_observed (b : block) (account : u256) (amount : u128) (is_state_send : bool)
| Balance_observed (account : u256) (is_pending : bool)
| Resolving (address : string) (port : Z)
| Disconnected.

(** ** Parameters *)

(** The configuration and the build. *)
Class NodeConfig := {
  badem_network : badem_networks;
  local_port : u16;
  online_weight_minimum : u128;
  online_weight_quorum : u32;
  bootstrap_fraction_numerator : u32;
  enable_voting : bool;
  vote_logging : bool;
  preconfigured_peers : list string;
}.

(** The wallets of the node: the accounts of the store in their order, what
    [wallet_store::fetch] answers for each (none when it reports an error),
    whether the password is valid, the representative. *)
Record wallet : Set := Wallet {
  w_accounts : list u256;
  w_fetch : u256 → option u256;
  w_unlocked : bool;
  w_representative : u256;
}.
Class Wallets := { wallet_items : list wallet }.

(** Every account of an unlocked wallet has a private key that can be
    fetched.  The source asserts it of the accounts that carry weight; it
    fails for an account that is only watched. *)
Class ReadableWallets `{Wallets} : Prop :=
  readable_wallets w a : w ∈ wallet_items → w_unlocked w = true → a ∈ w_accounts w → is_Some (w_fetch w a).

(** The random number generator of Crypto++. *)
Class RandomPool := {
  rng : Type;
  generate_word32 : Z → Z → rng → Z * rng;
  generate_word32_range : ∀ lo hi r, lo ≤ hi → lo ≤ (generate_word32 lo hi r).1 ≤ hi;
  generate_block : nat → rng → bytes * rng;
  generate_block_length : ∀ n r, length (generate_block n r).1 = n;
}.

(** ** State *)

Record node `{Lmdb, RandomPool} : Type := Node {
  n_ledger : ledger block_store;
  n_peers : peer_container;
  n_active : active_transactions;
  n_gap_cache : list gap_information;
  n_block_arrival : list block_arrival_info;
  n_online_reps : online_reps;
  n_rep_crawler : gset u256;
  n_block_processor : block_processor;
  n_service : list task;
  n_alarm : list (Z * task);
  n_outputs : list output;
  n_steady : nat → Z;
  n_random_pool : rng;
}.

Section access.
Context `{Lmdb, RandomPool}.
Abbreviation N := node.

Definition set_ledger (x : ledger block_store) (n : N) : N := Node _ _ x (n_peers n) (n_active n)
  (n_gap_cache n) (n_block_arrival n) (n_online_reps n) (n_rep_crawler n) (n_block_processor n)
  (n_service n) (n_alarm n) (n_outputs n) (n_steady n) (n_random_pool n).
Definition set_peers (x : peer_container) (n : N) : N := Node _ _ (n_ledger n) x (n_active n)
  (n_gap_cache n) (n_block_arrival n) (n_online_reps n) (n_rep_crawler n) (n_block_processor n)
  (n_service n) (n_alarm n) (n_outputs n) (n_steady n) (n_random_pool n).
Definition set_active (x : active_transactions) (n : N) : N := Node _ _ (n_ledger n) (n_peers n) x
  (n_gap_cache n) (n_block_arrival n) (n_online_reps n) (n_rep_crawler n) (n_block_processor n)
  (n_service n) (n_alarm n) (n_outputs n) (n_steady n) (n_random_pool n).
Definition set_gap_cache (x : list gap_information) (n : N) : N := Node _ _ (n_ledger n) (n_peers n)
  (n_active n) x (n_block_arrival n) (n_online_reps n) (n_rep_crawler n) (n_block_processor n)
  (n_service n) (n_alarm n) (n_outputs n) (n_steady n) (n_random_pool n).
Definition set_block_arrival (x : list block_arrival_info) (n : N) : N := Node _ _ (n_ledger n) (n_peers n)
  (n_active n) (n_gap_cache n) x (n_online_reps n) (n_rep_crawler n) (n_block_processor n)
  (n_service n) (n_alarm n) (n_outputs n) (n_steady n) (n_random_pool n).
Definition set_online_reps (x : online_reps) (n : N) : N := Node _ _ (n_ledger n) (n_peers n)
  (n_active n) (n_gap_cache n) (n_block_arrival n) x (n_rep_crawler n) (n_block_processor n)
  (n_service n) (n_alarm n) (n_outputs n) (n_steady n) (n_random_pool n).
Definition set_rep_crawler (x : gset u256) (n : N) : N := Node _ _ (n_ledger n) (n_peers n)
  (n_active n) (n_gap_cache n) (n_block_arrival n) (n_online_reps n) x (n_block_processor n)
  (n_service n) (n_alarm n) (n_outputs n) (n_steady n) (n_random_pool n).
Definition set_block_processor (x : block_processor) (n : N) : N := Node _ _ (n_ledger n) (n_peers n)
  (n_active n) (n_gap_cache n) (n_block_arrival n) (n_online_reps n) (n_rep_crawler n) x
  (n_service n) (n_alarm n) (n_outputs n) (n_steady n) (n_random_pool n).
Definition set_service (x : list task) (n : N) : N := Node _ _ (n_ledger n) (n_peers n)
  (n_active n) (n_gap_cache n) (n_block_arrival n) (n_online_reps n) (n_rep_crawler n)
  (n_block_processor n) x (n_alarm n) (n_outputs n) (n_steady n) (n_random_pool n).
Definition set_alarm (x : list (Z * task)) (n : N) : N := Node _ _ (n_ledger n) (n_peers n)
  (n_active n) (n_gap_cache n) (n_block_arrival n) (n_online_reps n) (n_rep_crawler n)
  (n_block_processor n) (n_service n) x (n_outputs n) (n_steady n) (n_random_pool n).
Definition set_outputs (x : list output) (n : N) : N := Node _ _ (n_ledger n) (n_peers n)
  (n_active n) (n_gap_cache n) (n_block_arrival n) (n_online_reps n) (n_rep_crawler n)
  (n_block_processor n) (n_service n) (n_alarm n) x (n_steady n) (n_random_pool n).
Definition set_steady (x : nat → Z) (n : N) : N := Node _ _ (n_ledger n) (n_peers n)
  (n_active n) (n_gap_cache n) (n_block_arrival n) (n_online_reps n) (n_rep_crawler n)
  (n_block_processor n) (n_service n) (n_alarm n) (n_outputs n) x (n_random_pool n).
Definition set_random_pool (x : rng) (n : N) : N := Node _ _ (n_ledger n) (n_peers n)
  (n_active n) (n_gap_cache n) (n_block_arrival n) (n_online_reps n) (n_rep_crawler n)
  (n_block_processor n) (n_service n) (n_alarm n) (n_outputs n) (n_steady n) x.

(** ** Calls of the parts *)

(** [std::chrono::steady_clock::now ()]. *)
Definition now : M N Z := λ n, Done (n_steady n 0%nat, set_steady (λ i, n_steady n (Datatypes.S i)) n).

Definition random_word32 (lo hi : Z) : M N Z := λ n,
  let '(w, r) := generate_word32 lo hi (n_random_pool n) in Done (w, set_random_pool r n).
Definition random_block (size : nat) : M N bytes := λ n,
  let '(b, r) := generate_block size (n_random_pool n) in Done (b, set_random_pool r n).

(** Steps that cover every chain the ledger follows: the number of stored
    blocks bounds their length. *)
Definition stored_blocks (c : block_store) : nat :=
  (mdb_entries send_blocks (txn c) + mdb_entries receive_blocks (txn c)
   + mdb_entries open_blocks (txn c) + mdb_entries change_blocks (txn c)
   + mdb_entries state_blocks (txn c))%nat.
Definition ledger_fuel (l : ledger block_store) : nat := (4 * stored_blocks (store l) + 8)%nat.

(** A call of the ledger, given enough steps. *)
Definition on_ledger {A} (m : nat → M (ledger block_store) A) : M N A := λ n,
  match m (ledger_fuel (n_ledger n)) (n_ledger n) with
  | Done (a, l) => Done (a, set_ledger l n)
  | Fault e => Fault e
  end.
(** A call of the store. *)
Definition on_store {A} (m : M block_store A) : M N A := on_ledger (λ _, st m).

(** The statistics are those of the ledger ([ledger (store, stats)]). *)
Definition on_stats (f : stat.entries → stat.entries) : M N unit :=
  on_ledger (λ _, modify (λ l, Ledger (store l) (f (stats l)) (clock l) (bootstrap_weights l)
    (bootstrap_weight_max_blocks l) (check_bootstrap_weights l))).

(** A serialisation that may trip an assertion. *)
Definition lift_outcome {A} (o : outcome A) : M N A := λ n,
  match o with
  | Done a => Done (a, n)
  | Fault e => Fault e
  end.

Definition emit (o : output) : M N unit := modify (λ n, set_outputs (n_outputs n ++ [o]) n).
(** [node::background]. *)
Definition background (t : task) : M N unit := modify (λ n, set_service (n_service n ++ [t]) n).
(** [alarm::add]. *)
Definition alarm_add (wakeup : Z) (t : task) : M N unit :=
  modify (λ n, set_alarm (n_alarm n ++ [(wakeup, t)]) n).

(** A call on each element in turn. *)
Fixpoint each {A} (l : list A) (body : A → M N unit) : M N unit :=
  match l with
  | [] => mret tt
  | a :: l => body a;; each l body
  end.
End access.
