(* ===== verification/Peers.v ===== *)
(** * Peers (class [peer_container] of node.cpp)

    The endpoints a node has heard from, with when and what it knows of the
    representative behind them, and the endpoints it has tried. *)

From S2P Require Import Prelude Crypto Blocks Common Stats Store Ledger Votes Lmdb Versioning.
From S2P Require Import BlockStore Messages MultiIndex Node.

(** ** Addresses *)

(** [address_v6::v4_mapped]. *)
Definition v4_mapped (a : Z) : Z := 0xffff * 2 ^ 32 + a.
Definition mapped_from_v4_bytes (a : Z) : Z := v4_mapped a.

(** The ranges of [reserved_address], as 128-bit numbers. *)
Definition reserved_ranges : list (Z * Z) := [
  (mapped_from_v4_bytes 0x00000000, mapped_from_v4_bytes 0x00ffffff);
  (mapped_from_v4_bytes 0xc0000200, mapped_from_v4_bytes 0xc00002ff);
  (mapped_from_v4_bytes 0xc6336400, mapped_from_v4_bytes 0xc63364ff);
  (mapped_from_v4_bytes 0xcb007100, mapped_from_v4_bytes 0xcb0071ff);
  (mapped_from_v4_bytes 0xe0000000, mapped_from_v4_bytes 0xefffffff);
  (mapped_from_v4_bytes 0xf0000000, mapped_from_v4_bytes 0xffffffff);
  (0x01000000000000000000000000000000, 0x0100000000000000ffffffffffffffff);
  (0x20010db8000000000000000000000000, 0x20010db8ffffffffffffffffffffffff);
  (0xff000000000000000000000000000000, 0xff00ffffffffffffffffffffffffffff)].

(** The ranges the live network refuses too; the first is [is_loopback]. *)
Definition live_reserved_ranges : list (Z * Z) := [
  (1, 1);
  (mapped_from_v4_bytes 0x7f000000, mapped_from_v4_bytes 0x7fffffff);
  (mapped_from_v4_bytes 0x0a000000, mapped_from_v4_bytes 0x0affffff);
  (mapped_from_v4_bytes 0xac100000, mapped_from_v4_bytes 0xac1fffff);
  (mapped_from_v4_bytes 0xc0a80000, mapped_from_v4_bytes 0xc0a8ffff);
  (mapped_from_v4_bytes 0x64400000, mapped_from_v4_bytes 0x647fffff);
  (0xfc000000000000000000000000000000, 0xfd00ffffffffffffffffffffffffffff)].

Definition in_range (a : Z) (r : Z * Z) : bool := (r.1 <=? a) && (a <=? r.2).

(** Asserts that the address is of version 6. *)
Definition reserved_address (net : badem_networks) (e : endpoint) : outcome bool :=
  match ep_address e with
  | address_v4 _ => Fault assertion_failed
  | address_v6 a =>
      Done (existsb (in_range (uval a)) reserved_ranges ||
        match net with
        | badem_live_network => existsb (in_range (uval a)) live_reserved_ranges
        | _ => false
        end)
  end.

(** An endpoint of version 4 becomes a mapped one ([contacted], [node::send_keepalive]). *)
Definition to_mapped (e : endpoint) : endpoint :=
  match ep_address e with
  | address_v4 a => Endpoint (address_v6 (U 16 (v4_mapped (uval a)))) (ep_port e)
  | address_v6 _ => e
  end.

Section peers.
Context `{NodeConfig, Lmdb, RandomPool, MultiIndex, Unordered}.
Abbreviation N := node.

(** [network::endpoint], the loopback address with the port of the socket. *)
Definition network_endpoint : endpoint := Endpoint (address_v6 (U 16 1)) local_port.
Definition self : endpoint := network_endpoint.

(** [to_v6] throws for an address of version 4. *)
Definition not_a_peer (e : endpoint) : outcome bool :=
  match ep_address e with
  | address_v4 _ => Fault assertion_failed
  | address_v6 a =>
      if is_zero a then Done true
      else match reserved_address badem_network e with
           | Done true => Done true
           | Done false => Done (bool_decide (e = self))
           | Fault f => Fault f
           end
  end.

Definition set_peer_list (l : list peer_information) : M N unit :=
  modify (λ n, set_peers (Peer_container l (attempts (n_peers n))) n).
Definition set_attempts (l : list peer_attempt) : M N unit :=
  modify (λ n, set_peers (Peer_container (peers (n_peers n)) l) n).
Definition get_peers : M N (list peer_information) := gets (λ n, peers (n_peers n)).
Definition get_attempts : M N (list peer_attempt) := gets (λ n, attempts (n_peers n)).

Definition known_peer (e : endpoint) : M N bool :=
  l ← get_peers; mret (bool_decide (is_Some (mi_find pi_endpoint e l))).

(** The constructor of [peer_information]. *)
Definition make_peer (e : endpoint) (version now_ : Z) : peer_information :=
  Peer_information e now_ now_ 0 0 0 (U 16 0) (U 32 0) version.

Definition touch_contact (t : Z) (i : peer_information) : peer_information :=
  Peer_information (pi_endpoint i) t (last_attempt i) (last_bootstrap_attempt i) (last_rep_request i)
    (last_rep_response i) (pi_rep_weight i) (probable_rep_account i) (network_version i).
Definition touch_attempt (t : Z) (i : peer_information) : peer_information :=
  Peer_information (pi_endpoint i) (last_contact i) t (last_bootstrap_attempt i) (last_rep_request i)
    (last_rep_response i) (pi_rep_weight i) (probable_rep_account i) (network_version i).
Definition touch_bootstrap (t : Z) (i : peer_information) : peer_information :=
  Peer_information (pi_endpoint i) (last_contact i) (last_attempt i) t (last_rep_request i)
    (last_rep_response i) (pi_rep_weight i) (probable_rep_account i) (network_version i).
Definition touch_request (t : Z) (i : peer_information) : peer_information :=
  Peer_information (pi_endpoint i) (last_contact i) (last_attempt i) (last_bootstrap_attempt i) t
    (last_rep_response i) (pi_rep_weight i) (probable_rep_account i) (network_version i).
Definition touch_response (t : Z) (account : u256) (weight_a : u128) (i : peer_information) : peer_information :=
  if u_ltb (pi_rep_weight i) weight_a
  then Peer_information (pi_endpoint i) (last_contact i) (last_attempt i) (last_bootstrap_attempt i)
         (last_rep_request i) t weight_a account (network_version i)
  else Peer_information (pi_endpoint i) (last_contact i) (last_attempt i) (last_bootstrap_attempt i)
         (last_rep_request i) t (pi_rep_weight i) (probable_rep_account i) (network_version i).

(** Whether the endpoint is refused or was known; a new peer is handed to
    the observer. *)
Definition peers_insert (peer_observer : endpoint → M N unit) (e : endpoint) (version : Z) : M N bool :=
  result ← lift_outcome (not_a_peer e);
  if result : bool then mret true
  else if version <? uval protocol_version_min then mret false
  else
    l ← get_peers;
    match mi_find pi_endpoint e l with
    | Some _ =>
        t ← now;
        set_peer_list (mi_modify pi_endpoint e (touch_contact t) l);;
        mret true
    | None =>
        t ← now;
        set_peer_list (mi_insert pi_endpoint (make_peer e version t) l).1;;
        peer_observer e;;
        mret false
    end.

Definition contacted (peer_observer : endpoint → M N unit) (e : endpoint) (version : Z) : M N unit :=
  peers_insert peer_observer (to_mapped e) version;;
  mret tt.

(** [true] when no keepalive should be sent; the attempt is recorded. *)
Definition reachout (e : endpoint) : M N bool :=
  error ← lift_outcome (not_a_peer e);
  if error : bool then mret true
  else
    known ← known_peer e;
    l ← get_attempts;
    t ← now;
    set_attempts (mi_insert pa_endpoint (Peer_attempt e t) l).1;;
    mret (known || bool_decide (is_Some (mi_find pa_endpoint e l))).

(** Whether the weight known of the peer grew. *)
Definition rep_response (e : endpoint) (account : u256) (weight_a : u128) : M N bool :=
  l ← get_peers;
  match mi_find pi_endpoint e l with
  | Some i =>
      t ← now;
      set_peer_list (mi_modify pi_endpoint e (touch_response t account weight_a) l);;
      mret (u_ltb (pi_rep_weight i) weight_a)
  | None => mret false
  end.

Definition rep_request (e : endpoint) : M N unit :=
  l ← get_peers;
  match mi_find pi_endpoint e l with
  | Some _ => t ← now; set_peer_list (mi_modify pi_endpoint e (touch_request t) l)
  | None => mret tt
  end.

(** The representatives in order of weight. *)
Definition representatives (count : Z) : M N (list peer_information) :=
  l ← get_peers;
  mret (take (Z.to_nat count)
    (List.filter (λ i, negb (is_zero (pi_rep_weight i))) (by_key (λ i, - uval (pi_rep_weight i)) l))).

(** The endpoints crawled next: those asked longest ago. *)
Definition rep_crawl : M N (list endpoint) :=
  l ← get_peers;
  mret (map pi_endpoint (take 10 (by_key last_rep_request l))).

(** [lower_bound] on an ordered index: the elements at or after the cutoff. *)
Fixpoint from_cutoff {E} (key : E → Z) (cutoff : Z) (l : list E) : list E :=
  match l with
  | [] => []
  | e :: r => if key e <? cutoff then from_cutoff key cutoff r else l
  end.

(** Each remaining peer is stamped with a reading of the clock. *)
Fixpoint stamp_attempts (order : list peer_information) : M N unit :=
  match order with
  | [] => mret tt
  | i :: order =>
      t ← now;
      l ← get_peers;
      set_peer_list (mi_modify pi_endpoint (pi_endpoint i) (touch_attempt t) l);;
      stamp_attempts order
  end.

Definition purge_list (cutoff : Z) : M N (list peer_information) :=
  l ← get_peers;
  let result := from_cutoff last_contact cutoff (by_key last_contact l) in
  let kept := List.filter (λ i, negb (last_contact i <? cutoff)) l in
  set_peer_list kept;;
  stamp_attempts (by_hash kept);;
  a ← get_attempts;
  set_attempts (List.filter (λ x, negb (pa_last_attempt x <? cutoff)) a);;
  (if bool_decide (result = []) then emit Disconnected else mret tt);;
  mret result.

Definition peers_size : M N Z := l ← get_peers; mret (Z.of_nat (length l)).
(** The square root, rounded up. *)
Definition size_sqrt : M N Z := s ← peers_size; mret (Z.sqrt_up s).
Definition peers_empty : M N bool := s ← peers_size; mret (s =? 0).

(** Draws with replacement: at most [tries] of them, until [count] endpoints
    are there. *)
Fixpoint random_draws (tries : nat) (count : Z) (result : gset endpoint) : M N (gset endpoint) :=
  match tries with
  | O => mret result
  | Datatypes.S tries =>
      if Z.of_nat (size result) <? count then
        l ← get_peers;
        index ← random_word32 0 (Z.of_nat (length l) - 1);
        match l !! Z.to_nat index with
        | Some i => random_draws tries count ({[pi_endpoint i]} ∪ result)
        | None => abort
        end
      else mret result
  end.
Fixpoint fill_recent (order : list peer_information) (count : Z) (result : gset endpoint) : gset endpoint :=
  match order with
  | [] => result
  | i :: order =>
      if Z.of_nat (size result) <? count then fill_recent order count ({[pi_endpoint i]} ∪ result)
      else result
  end.

Definition random_set (count : Z) : M N (gset endpoint) :=
  l ← get_peers;
  drawn ← (if bool_decide (l = []) then mret ∅ else random_draws (Z.to_nat (count * 2)) count ∅);
  mret (fill_recent (by_key last_contact l) count drawn).

(** The elements of an unordered set. *)
Definition iterate_set (s : gset endpoint) : list endpoint := map fst (iterate (gset_to_gmap tt s)).

(** Copies endpoints over the start of the array; asserts that they are of
    version 6 and fit. *)
Fixpoint fill_array (from : list endpoint) (target : list endpoint) : outcome (list endpoint) :=
  match from, target with
  | [], _ => Done target
  | e :: from, _ :: target =>
      match ep_address e, fill_array from target with
      | address_v6 _, Done t => Done (e :: t)
      | address_v6 _, Fault f => Fault f
      | address_v4 _, _ => Fault assertion_failed
      end
  | _ :: _, [] => Fault assertion_failed
  end.
Definition random_fill : M N (list endpoint) :=
  s ← random_set (Z.of_nat peer_count);
  assert_ (Nat.leb (size s) peer_count);;
  lift_outcome (fill_array (iterate_set s)
    (replicate peer_count (Endpoint (address_v6 (U 16 0)) (U 2 0)))).

Definition list_fanout : M N (list endpoint) :=
  count ← size_sqrt;
  s ← random_set count;
  mret (iterate_set s).

(** The peers with their protocol version; one entry per endpoint. *)
Definition list_version : M N (gmap endpoint Z) :=
  l ← get_peers;
  mret (list_to_map (map (λ i, (pi_endpoint i, network_version i)) (by_hash l))).

(** The peer tried longest ago of those with version 5 or more. *)
Definition bootstrap_peer : M N endpoint :=
  l ← get_peers;
  match List.find (λ i, 5 <=? network_version i) (by_key last_bootstrap_attempt l) with
  | Some i =>
      t ← now;
      set_peer_list (mi_modify pi_endpoint (pi_endpoint i) (touch_bootstrap t) l);;
      mret (pi_endpoint i)
  | None => mret (Endpoint (address_v6 (U 16 0)) (U 2 0))
  end.
End peers.
