(* ===== verification/NodeCaches.v ===== *)
(** * The caches of the node (block_arrival, gap_cache, online_reps and
    rep_crawler of node.cpp)

    Which blocks arrived in datagrams lately, which blocks are known but
    cannot be placed yet, which representatives voted lately and how much
    weight they carry, which blocks representatives were asked about. *)

From S2P Require Import Prelude Crypto Blocks Common Stats Store Ledger Votes Lmdb Versioning.
From S2P Require Import BlockStore Messages MultiIndex Node.

Section caches.
Context `{NodeConfig, Lmdb, RandomPool, MultiIndex, Unordered}.
Context `{Blake2b, Ed25519, LedgerConstants}.
Abbreviation N := node.

(** ** Blocks that arrived lately *)

Definition arrival_size_min : Z := 8 * 1024.
Definition arrival_time_min : Z := seconds 300.

(** [true] when the block had already arrived. *)
Definition block_arrival_add (hash : u256) : M N bool :=
  t ← now;
  l ← gets n_block_arrival;
  let '(l, inserted) := mi_insert ba_hash (Block_arrival_info t hash) l in
  modify (set_block_arrival l);;
  mret (negb inserted).

(** The oldest entries go while there are too many and they are too old;
    there are at most as many rounds as entries. *)
Fixpoint drop_arrivals (rounds : nat) (now_ : Z) (l : list block_arrival_info) : list block_arrival_info :=
  match rounds with
  | O => l
  | Datatypes.S rounds =>
      if arrival_size_min <? Z.of_nat (length l) then
        match by_key ba_arrival l with
        | i :: _ =>
            if ba_arrival i + arrival_time_min <? now_
            then drop_arrivals rounds now_ (mi_erase ba_hash (ba_hash i) l) else l
        | [] => l
        end
      else l
  end.
Definition block_arrival_recent (hash : u256) : M N bool :=
  t ← now;
  l ← gets n_block_arrival;
  let l := drop_arrivals (length l) t l in
  modify (set_block_arrival l);;
  mret (bool_decide (is_Some (mi_find ba_hash hash l))).

(** ** Representatives heard lately *)

Definition node_cutoff : Z := seconds 300.

Definition ledger_weight (account : u256) : M N u128 := on_ledger (λ _, weight account).

(** The representatives not heard for the cutoff go, oldest first; their
    weight is taken off, and a difference that wraps is replaced by 0. *)
Fixpoint drop_reps (order : list rep_last_heard_info) (now_ : Z) : M N unit :=
  match order with
  | [] => mret tt
  | i :: order =>
      if last_heard i + node_cutoff <? now_ then
        w ← ledger_weight (representative_ i);
        modify (λ n,
          let o := n_online_reps n in
          let total := u_sub (online_stake_total o) w in
          set_online_reps (Online_reps (mi_erase representative_ (representative_ i) (reps o))
            (if u_ltb (online_stake_total o) total then U 16 0 else total)) n);;
        drop_reps order now_
      else mret tt
  end.

Definition online_reps_vote (v : vote) : M N unit :=
  t ← now;
  o ← gets n_online_reps;
  drop_reps (by_key last_heard (reps o)) t;;
  o ← gets n_online_reps;
  let info := Rep_last_heard_info t (v_account v) in
  match mi_find representative_ (v_account v) (reps o) with
  | None =>
      w ← ledger_weight (v_account v);
      let total := u_add (online_stake_total o) w in
      modify (set_online_reps (Online_reps (mi_insert representative_ info (reps o)).1
        (if u_ltb total (online_stake_total o) then U 16 (2 ^ 128 - 1) else total)))
  | Some _ =>
      modify (set_online_reps (Online_reps (mi_modify representative_ (v_account v) (λ _, info) (reps o))
        (online_stake_total o)))
  end.

Fixpoint sum_weights (l : list rep_last_heard_info) (total : u128) : M N u128 :=
  match l with
  | [] => mret total
  | i :: l => w ← ledger_weight (representative_ i); sum_weights l (u_add total w)
  end.
Definition recalculate_stake : M N unit :=
  o ← gets n_online_reps;
  total ← sum_weights (by_key last_heard (reps o)) (U 16 0);
  modify (set_online_reps (Online_reps (reps o) total));;
  t ← now;
  alarm_add (t + seconds 300) Recalculate_stake.

Definition online_stake : M N u128 :=
  o ← gets n_online_reps;
  mret (if u_ltb (online_stake_total o) online_weight_minimum then online_weight_minimum
        else online_stake_total o).

Definition online_reps_list : M N (list u256) :=
  o ← gets n_online_reps; mret (map representative_ (by_key last_heard (reps o))).

(** [node::delta]: the margin of a quorum. *)
Definition delta : M N u128 :=
  s ← online_stake;
  mret (U 16 (uval s / 100 * uval online_weight_quorum)).

(** ** Blocks with a gap *)

Definition gap_cache_max : nat := 256.

Definition gap_cache_add (b : block) : M N unit :=
  l ← gets n_gap_cache;
  t ← now;
  match mi_find gi_hash (block_hash b) l with
  | Some _ =>
      modify (set_gap_cache (mi_modify gi_hash (block_hash b)
        (λ i, Gap_information t (gi_hash i) (gi_votes i)) l))
  | None =>
      let l := (mi_insert gi_hash (Gap_information t (block_hash b) (make_votes b)) l).1 in
      modify (set_gap_cache (if Nat.ltb gap_cache_max (length l) then
        match by_key gi_arrival l with
        | i :: _ => mi_erase gi_hash (gi_hash i) l
        | [] => l
        end else l))
  end.

Definition bootstrap_threshold : M N u128 :=
  s ← online_stake;
  mret (U 16 (uval s / 256 * uval bootstrap_fraction_numerator)).

(** The vote counts for the missing block; a block with enough weight is
    looked for after a while. *)
Definition gap_cache_vote (v : vote) : M N unit :=
  l ← gets n_gap_cache;
  let hash := block_hash (v_block v) in
  match mi_find gi_hash hash l with
  | None => mret tt
  | Some existing =>
      let vs := (votes_vote v (gi_votes existing)).2 in
      modify (set_gap_cache (mi_modify gi_hash hash
        (λ i, Gap_information (gi_arrival i) (gi_hash i) vs) l));;
      w ← on_ledger (λ _, winner vs);
      threshold ← bootstrap_threshold;
      if u_ltb threshold (fst w) then
        t ← now;
        alarm_add (t + match badem_network with
                       | badem_test_network => milliseconds 5
                       | _ => seconds 5
                       end) (Bootstrap_missing hash)
      else mret tt
  end.

Definition gap_cache_erase (hash : u256) : M N unit :=
  modify (λ n, set_gap_cache (mi_erase gi_hash hash (n_gap_cache n)) n).

(** Walks the index over hashes until an entry is young; there are at most as
    many rounds as entries. *)
Fixpoint purge_gaps (rounds : nat) (cutoff : Z) (l : list gap_information) : list gap_information :=
  match rounds with
  | O => l
  | Datatypes.S rounds =>
      match by_hash l with
      | i :: _ =>
          if gi_arrival i <? cutoff then purge_gaps rounds cutoff (mi_erase gi_hash (gi_hash i) l) else l
      | [] => l
      end
  end.
Definition gap_cache_purge_old : M N unit :=
  t ← now;
  l ← gets n_gap_cache;
  modify (set_gap_cache (purge_gaps (length l) (t - seconds 10) l)).

(** ** The crawler for representatives *)

Definition rep_crawler_add (hash : u256) : M N unit :=
  modify (λ n, set_rep_crawler ({[hash]} ∪ n_rep_crawler n) n).
Definition rep_crawler_remove (hash : u256) : M N unit :=
  modify (λ n, set_rep_crawler (n_rep_crawler n ∖ {[hash]}) n).
Definition rep_crawler_exists (hash : u256) : M N bool :=
  gets (λ n, bool_decide (hash ∈ n_rep_crawler n)).
End caches.
