(* ===== verification/Sending.v ===== *)
(** * Sending (class [network] of node.cpp)

    The messages the node builds and to whom it sends them.  [socket.async_send_to]
    is an output; its completion handlers, which count and log, are not
    modelled. *)

From S2P Require Import Prelude Crypto Blocks Common Stats Store Ledger Votes Lmdb Versioning.
From S2P Require Import BlockStore Messages MultiIndex Node Peers NodeCaches.

Section sending.
Context `{NodeConfig, Lmdb, RandomPool, MultiIndex, Unordered, Wallets}.
Context `{Blake2b, Ed25519, LedgerConstants}.
Abbreviation N := node.

(** The datagram of a message. *)
Definition serialized (m : message_header * message) : M N bytes :=
  lift_outcome (message_serialize badem_network m.1 m.2).
Definition send_buffer (datagram : bytes) (to : endpoint) : M N unit := emit (Sent datagram to).

Definition send_keepalive (to : endpoint) : M N unit :=
  assert_ (match ep_address to with address_v6 _ => true | address_v4 _ => false end);;
  filled ← random_fill;
  datagram ← serialized (make_header mt_keepalive, Keepalive filled);
  send_buffer datagram to.

(** [node::send_keepalive]. *)
Definition node_send_keepalive (to : endpoint) : M N unit := send_keepalive (to_mapped to).

Definition confirm_send (datagram : bytes) (to : endpoint) : M N unit := send_buffer datagram to.
Definition republish (datagram : bytes) (to : endpoint) : M N unit := send_buffer datagram to.

(** [wallets::foreach_representative]: the accounts of unlocked wallets that
    carry weight; the key of each is fetched, and the source asserts that
    there is one.  [acc] is what the action's closure captured by reference. *)
Fixpoint each_key {A} (pubs : list u256) (fetch : u256 → option u256) (unlocked : bool)
    (action : u256 → u256 → A → M N A) (acc : A) : M N A :=
  match pubs with
  | [] => mret acc
  | pub :: pubs =>
      w ← ledger_weight pub;
      acc ← (if negb (is_zero w) && unlocked then
               match fetch pub with
               | Some prv => action pub prv acc
               | None => abort
               end
             else mret acc);
      each_key pubs fetch unlocked action acc
  end.
Fixpoint each_wallet {A} (items : list wallet) (action : u256 → u256 → A → M N A) (acc : A) : M N A :=
  match items with
  | [] => mret acc
  | w :: items =>
      acc ← each_key (w_accounts w) (w_fetch w) (w_unlocked w) action acc;
      each_wallet items action acc
  end.
Definition foreach_representative {A} (action : u256 → u256 → A → M N A) (acc : A) : M N A :=
  each_wallet wallet_items action acc.

(** A vote of each representative of the node for the block, sent to each
    endpoint; whether there was a representative. *)
Definition confirm_block (to : list endpoint) (b : block) : M N bool :=
  if enable_voting then
    foreach_representative (λ pub prv _,
      v ← on_store (vote_generate pub prv b);
      datagram ← serialized (make_confirm_ack v);
      each to (confirm_send datagram);;
      mret true) false
  else mret false.

Definition republish_block (b : block) : M N unit :=
  to ← list_fanout;
  voted ← confirm_block to b;
  if voted : bool then mret tt
  else
    datagram ← serialized (make_publish b);
    each to (republish datagram).

Definition republish_vote (v : vote) : M N unit :=
  datagram ← serialized (make_confirm_ack v);
  to ← list_fanout;
  each to (confirm_send datagram).

Definition send_confirm_req (to : endpoint) (b : block) : M N unit :=
  datagram ← serialized (make_confirm_req b);
  on_stats (stat.add stat.message stat.confirm_req stat.dir_out (U 8 1) false);;
  send_buffer datagram to.

(** The last ten endpoints now, the rest a little later. *)
Definition broadcast_confirm_req_base (b : block) (endpoints : list peer_information) (delay : Z) : M N unit :=
  let rest := take (length endpoints - 10)%nat endpoints in
  each (rev (drop (length endpoints - 10)%nat endpoints)) (λ i, send_confirm_req (pi_endpoint i) b);;
  if bool_decide (rest = []) then mret tt
  else
    t ← now;
    alarm_add (t + milliseconds delay) (Confirm_req_base b rest (delay + 50)).

Definition broadcast_confirm_req (b : block) : M N unit :=
  l ← representatives (2 ^ 64 - 1);
  broadcast_confirm_req_base b l 0.

(** [block_store::block_random] with the numbers it draws: first the region,
    then the hash to start from.  [GenerateWord32] takes 32-bit bounds. *)
Definition store_block_random : M N (option block) :=
  count ← on_store lmdb_block_count;
  region ← random_word32 0 ((uval (block_counts_sum count) - 1) mod 2 ^ 32);
  random ← random_block 32;
  on_store (block_random region (U 32 (be_val random))).

(** Asks endpoints about a random block, to see who votes for it. *)
Definition rep_query (to : list endpoint) : M N unit :=
  b ← store_block_random;
  match b with
  | None => abort
  | Some b =>
      rep_crawler_add (block_hash b);;
      each to (λ e, rep_request e;; send_confirm_req e b);;
      t ← now;
      alarm_add (t + seconds 5) (Crawler_remove (block_hash b))
  end.
End sending.
