(* ===== verification/Elections.v ===== *)
(** * Elections (class [election], [active_transactions], [vote_processor] of
    node.cpp)

    A root (the place in a chain a block claims) has an election while it is
    active.  Votes of representatives are tallied by weight; a block that
    leads by enough is confirmed, and a block that overtakes the one in the
    ledger is forced into it. *)

From S2P Require Import Prelude Crypto Blocks Common Stats Store Ledger Votes Lmdb Versioning.
From S2P Require Import BlockStore Messages MultiIndex Node Peers NodeCaches Sending.

(** ** Votes already seen *)

(** [vote_info::operator<]: a later sequence number, or the same one and a
    greater hash. *)
Definition vote_info_lt `{Blake2b} (i : vote_info) (v : vote) : bool :=
  u_ltb (vi_sequence i) (v_sequence v) ||
  (u_eqb (vi_sequence i) (v_sequence v) && u_ltb (vi_hash i) (block_hash (v_block v))).

(** How long a representative must wait between votes, in seconds. *)
Definition vote_cooldown (weight_ supply : Z) : Z :=
  if weight_ <? supply / 100 then 15
  else if weight_ <? supply / 20 then 5
  else 1.

Section elections.
Context `{NodeConfig, Lmdb, RandomPool, MultiIndex, Unordered, Wallets}.
Context `{Blake2b, Ed25519, LedgerConstants}.
Abbreviation N := node.

(** ** One election *)

Definition make_election (b : block) (action : confirmation_action) : election :=
  Election action (make_votes b) ∅ (Election_status b (U 16 0)) false.

Definition get_election (e : nat) : M N election := λ n,
  match elections (n_active n) !! e with
  | Some x => Done (x, n)
  | None => Fault assertion_failed
  end.
Definition put_election (e : nat) (x : election) : M N unit :=
  modify (λ n, set_active (Active_transactions (roots (n_active n)) (confirmed (n_active n))
    (<[e := x]> (elections (n_active n)))) n).
Definition update_election (e : nat) (f : election → election) : M N unit :=
  x ← get_election e; put_election e (f x).

Definition set_votes (vs : votes) (x : election) : election :=
  Election (el_action x) vs (last_votes x) (status x) (el_confirmed x).
Definition set_last_vote (a : u256) (i : vote_info) (x : election) : election :=
  Election (el_action x) (el_votes x) (<[a := i]> (last_votes x)) (status x) (el_confirmed x).
Definition set_tally (w : u128) (x : election) : election :=
  Election (el_action x) (el_votes x) (last_votes x) (Election_status (es_winner (status x)) w) (el_confirmed x).
Definition set_winner (b : block) (x : election) : election :=
  Election (el_action x) (el_votes x) (last_votes x) (Election_status b (es_tally (status x))) (el_confirmed x).
Definition set_confirmed (x : election) : election :=
  Election (el_action x) (el_votes x) (last_votes x) (status x) true.

(** The totals in decreasing order ([tally_t] is an ordered map). *)
Definition total_ge (a b : u128 * block) : Prop := uval (fst b) ≤ uval (fst a).
#[export] Instance total_ge_dec : RelDecision total_ge.
Proof. intros a b. unfold total_ge. apply _. Defined.
Definition decreasing (t : gmap u128 block) : list (u128 * block) := merge_sort total_ge (map_to_list t).

(** [block_processor::force]. *)
Definition force (b : block) : M N unit :=
  modify (λ n, let p := n_block_processor n in
    set_block_processor (Block_processor (bp_blocks p) (b :: bp_forced p) (bp_stopped p)) n).

(** The first total exceeds the second by more than the margin; the sum
    wraps at 128 bits. *)
Definition have_quorum (tally_a : list (u128 * block)) : M N bool :=
  match tally_a with
  | [] => abort
  | (first, _) :: rest =>
      let second := match rest with (second, _) :: _ => second | [] => U 16 0 end in
      delta_l ← delta;
      mret (u_ltb (u_add second delta_l) first)
  end.

Definition confirm_once (e : nat) : M N unit :=
  x ← get_election e;
  if el_confirmed x then mret tt
  else
    put_election e (set_confirmed x);;
    background (Confirmed (es_winner (status x)) (el_action x)).

Definition confirm_if_quorum (e : nat) : M N unit :=
  x ← get_election e;
  t ← on_ledger (λ _, tally (el_votes x));
  let tally_l := decreasing t in
  match tally_l with
  | [] => abort
  | (top, block_l) :: _ =>
      update_election e (set_tally top);;
      let sum := foldl (λ acc i, u_add acc (fst i)) (U 16 0) tally_l in
      (if u_leb online_weight_minimum sum && negb (block_eqb block_l (es_winner (status x)))
       then force block_l;; update_election e (set_winner block_l)
       else mret tt);;
      q ← have_quorum tally_l;
      if q : bool then confirm_once e else mret tt
  end.

(** [true] when the vote is not newer than the one seen from the
    representative. *)
Definition election_vote (e : nat) (v : vote) : M N bool :=
  assert_ (negb (vote_validate v));;
  supply ← online_stake;
  weight_l ← ledger_weight (v_account v);
  if match badem_network with badem_test_network => true | _ => uval supply / 1000 <? uval weight_l end then
    let cooldown := vote_cooldown (uval weight_l) (uval supply) in
    x ← get_election e;
    r ← match last_votes x !! v_account v with
        | None => mret (true, false)
        | Some last_vote =>
            if vote_info_lt last_vote v then
              t ← now;
              mret (vi_time last_vote <=? t - seconds cooldown, false)
            else mret (false, true)
        end;
    let '(should_process, replay) := r in
    (if should_process : bool then
       t ← now;
       update_election e (set_last_vote (v_account v)
         (Vote_info t (v_sequence v) (block_hash (v_block v))));;
       republish_vote v;;
       update_election e (λ x, set_votes (votes_vote v (el_votes x)).2 x);;
       confirm_if_quorum e
     else mret tt);;
    mret (replay : bool)
  else mret false.

(** ** The active elections *)

(** Whether there was an election for the root already. *)
Definition active_start (blocks_a : block * option block) (action : confirmation_action) : M N bool :=
  a ← gets n_active;
  let root := block_root (fst blocks_a) in
  match roots a !! root with
  | Some _ => mret true
  | None =>
      modify (set_active (Active_transactions
        (<[root := Conflict_info root (length (elections a)) (U 4 0) blocks_a]> (roots a))
        (confirmed a) (elections a ++ [make_election (fst blocks_a) action])));;
      mret false
  end.

Definition active_vote (v : vote) : M N bool :=
  a ← gets n_active;
  match roots a !! block_root (v_block v) with
  | Some c => election_vote (ci_election c) v
  | None => mret false
  end.

Definition active_active (b : block) : M N bool :=
  gets (λ n, bool_decide (is_Some (roots (n_active n) !! block_root b))).

Definition set_roots (r : gmap u256 conflict_info) : M N unit :=
  modify (λ n, set_active (Active_transactions r (confirmed (n_active n)) (elections (n_active n))) n).

Definition active_erase (b : block) : M N unit :=
  a ← gets n_active;
  set_roots (delete (block_root b) (roots a)).

Definition active_stop : M N unit := set_roots ∅.

Fixpoint winners (l : list (u256 * conflict_info)) : M N (list block) :=
  match l with
  | [] => mret []
  | (_, c) :: l =>
      x ← get_election (ci_election c);
      rest ← winners l;
      mret (es_winner (status x) :: rest)
  end.
Definition list_blocks : M N (list block) :=
  a ← gets n_active; winners (iterate (roots a)).

(** ** Observers of a vote (the constructor of [node]) *)

(** A representative that answers about a block it was asked for. *)
Definition observe_representative (v : vote) (from : endpoint) : M N unit :=
  rep_weight_l ← ledger_weight (v_account v);
  supply ← online_stake;
  if uval supply / 1000 <? uval rep_weight_l then
    asked ← rep_crawler_exists (block_hash (v_block v));
    if asked : bool then
      updated ← rep_response from (v_account v) rep_weight_l;
      if updated : bool then
        blocks ← list_blocks;
        each blocks (send_confirm_req from)
      else mret tt
    else mret tt
  else mret tt.

Definition observers_vote (v : vote) (from : endpoint) : M N unit :=
  gap_cache_vote v;;
  online_reps_vote v;;
  observe_representative v from.

(** ** The vote processor *)

(** [vote_a->sequence + 10000] wraps at 64 bits.  The cases of the switch fall
    through: after the observers the best known vote may be sent back. *)
Definition vote_processor_vote (v : vote) (from : endpoint) : M N vote_code :=
  result ← (if negb (vote_validate v) then
      max_vote ← on_store (vote_max v);
      replayed ← active_vote v;
      let result := if negb replayed || u_ltb (v_sequence v) (v_sequence max_vote)
                    then vote_code_vote else vote_code_replay in
      match result with vote_code_vote => observers_vote v from | _ => mret tt end;;
      (if u_ltb (u_add (v_sequence v) (U 8 10000)) (v_sequence max_vote) then
         datagram ← serialized (make_confirm_ack max_vote);
         confirm_send datagram from
       else mret tt);;
      mret result
    else mret vote_code_invalid);
  (if vote_logging then
     on_stats (stat.inc stat.vote match result with
                                  | vote_code_invalid => stat.vote_invalid
                                  | vote_code_replay => stat.vote_replay
                                  | vote_code_vote => stat.vote_valid
                                  end)
   else mret tt);;
  mret result.

(** ** Announcing *)

(** Votes of the representatives of this node. *)
Definition compute_rep_votes (b : block) : M N unit :=
  if enable_voting then
    foreach_representative (λ pub prv _,
      v ← on_store (vote_generate pub prv b);
      vote_processor_vote v network_endpoint;;
      mret tt) tt
  else mret tt.

Definition broadcast_winner (e : nat) : M N unit :=
  x ← get_election e;
  t ← on_ledger (λ _, tally (el_votes x));
  let block_l := match decreasing t with
                 | (_, b) :: _ => b
                 | [] => es_winner (status x)
                 end in
  compute_rep_votes block_l;;
  republish_block block_l.

Definition announcement_min : Z := 4.
Definition announcement_long : Z := 20.
Definition election_history_size : Z := 2048.
Definition announce_interval : Z :=
  match badem_network with badem_test_network => milliseconds 10 | _ => milliseconds 16000 end.

(** The representatives that have not voted; those that have are swapped to
    the end and dropped. *)
Fixpoint drop_voted (rounds : nat) (j : nat) (vs : votes) (l : list peer_information) : list peer_information :=
  match rounds with
  | O => l
  | Datatypes.S rounds =>
      match l !! j with
      | None => l
      | Some i =>
          if bool_decide (is_Some (rep_votes vs !! probable_rep_account i)) then
            match last l with
            | Some b => drop_voted rounds j vs (take (length l - 1) (<[j := b]> l))
            | None => l
            end
          else drop_voted rounds (Datatypes.S j) vs l
      end
  end.

Definition confirmed_push (s : election_status) (l : list election_status) : list election_status :=
  let l := l ++ [s] in if election_history_size <? Z.of_nat (length l) then tail l else l.

(** One active root; its name when it becomes inactive. *)
Definition announce_one (c : conflict_info) : M N (option u256) :=
  x ← get_election (ci_election c);
  exists_ ← on_store (root_exists (votes_id (el_votes x)));
  inactive ← (if negb exists_ || (el_confirmed x && (announcement_min - 1 <=? uval (announcements c))) then
      (if el_confirmed x then
         modify (λ n, set_active (Active_transactions (roots (n_active n))
           (confirmed_push (status x) (confirmed (n_active n))) (elections (n_active n))) n)
       else mret tt);;
      mret (Some (votes_id (el_votes x)))
    else
      background (Broadcast_winner (ci_election c));;
      (if uval (announcements c) mod announcement_min =? 2 then
         l ← representatives (2 ^ 64 - 1);
         let l := drop_voted (length l) 0 (el_votes x) l in
         if bool_decide (l = []) then mret tt
         else
           broadcast_confirm_req_base (fst (confirm_req_options c)) l 0;;
           match snd (confirm_req_options c) with
           | Some b => broadcast_confirm_req_base b l 0
           | None => mret tt
           end
       else mret tt);;
      mret None);
  a ← gets n_active;
  set_roots (alter (λ c, Conflict_info (ci_root c) (ci_election c) (u_add (announcements c) (U 4 1))
    (confirm_req_options c)) (ci_root c) (roots a));;
  mret inactive.

Fixpoint announce_all (l : list (u256 * conflict_info)) (inactive : list u256) : M N (list u256) :=
  match l with
  | [] => mret inactive
  | (_, c) :: l =>
      i ← announce_one c;
      announce_all l (inactive ++ option_list i)
  end.
Fixpoint erase_all (inactive : list u256) : M N unit :=
  match inactive with
  | [] => mret tt
  | r :: inactive =>
      a ← gets n_active;
      assert_ (bool_decide (is_Some (roots a !! r)));;
      set_roots (delete r (roots a));;
      erase_all inactive
  end.

Definition announce_votes : M N unit :=
  a ← gets n_active;
  inactive ← announce_all (iterate (roots a)) [];
  erase_all inactive;;
  t ← now;
  alarm_add (t + announce_interval) Announce_votes.

(** [node::block_confirm]. *)
Definition block_confirm (b : block) : M N unit :=
  active_start (b, None) no_action;;
  broadcast_confirm_req b.
End elections.
