(* ===== verification/BlockProcessor.v ===== *)
(** * The block processor (class [block_processor] of node.cpp)

    Blocks wait in two queues; a thread takes them one by one, forced ones
    first, and hands them to the ledger.  A block whose predecessor or source
    is missing is kept in the store until that block arrives; an accepted
    block releases those that waited for it. *)

From S2P Require Import Prelude Crypto Blocks Common Stats Store Ledger Votes Lmdb Versioning.
From S2P Require Import BlockStore Messages MultiIndex Node Peers NodeCaches Sending Elections.

Section processor.
Context `{NodeConfig, Lmdb, RandomPool, MultiIndex, Unordered, Wallets}.
Context `{Blake2b, Ed25519, LedgerConstants}.
Abbreviation N := node.

(** ** The queues *)

Definition set_queues (blocks forced : list block) : M N unit :=
  modify (λ n, set_block_processor (Block_processor blocks forced (bp_stopped (n_block_processor n))) n).
Definition processor_stop : M N unit :=
  modify (λ n, let p := n_block_processor n in
    set_block_processor (Block_processor (bp_blocks p) (bp_forced p) true) n).

Definition processor_full : M N bool :=
  gets (λ n, 16384 <? Z.of_nat (length (bp_blocks (n_block_processor n)))).
Definition have_blocks : M N bool :=
  gets (λ n, negb (bool_decide (bp_blocks (n_block_processor n) = []))
             || negb (bool_decide (bp_forced (n_block_processor n) = []))).

(** Asserts that the work of the block is valid. *)
Definition processor_add (b : block) : M N unit :=
  if negb (work_validate badem_network (block_root b) (block_work b)) then
    p ← gets n_block_processor;
    set_queues (b :: bp_blocks p) (bp_forced p)
  else abort.

(** ** Forks *)

(** [node::process_fork]: an election between the block of the ledger and
    the one that claims its place. *)
Definition process_fork (b : block) : M N unit :=
  exists_ ← on_store (lmdb_block_exists (block_hash b));
  if exists_ : bool then mret tt
  else
    root_exists_ ← on_store (root_exists (block_root b));
    if root_exists_ : bool then
      ledger_block ← on_ledger (λ _, forked_block b);
      started ← active_start (ledger_block, Some b) (requeue_action (block_root b));
      if started : bool then mret tt else broadcast_confirm_req ledger_block
    else mret tt.

(** ** One block *)

(** Moves the blocks that waited for a hash to the queue. *)
Fixpoint requeue (hash : u256) (cached : list (option block)) : M N unit :=
  match cached with
  | [] => mret tt
  | None :: _ => abort
  | Some b :: cached =>
      on_store (unchecked_del hash b);;
      processor_add b;;
      requeue hash cached
  end.
Definition queue_unchecked (hash : u256) : M N unit :=
  cached ← on_store (unchecked_get hash);
  requeue hash cached;;
  gap_cache_erase hash.

Definition process_receive_one (b : block) : M N process_return :=
  result ← on_ledger (λ fuel, process fuel b);
  match code result with
  | progress =>
      recent ← block_arrival_recent (block_hash b);
      (if recent : bool then active_start (b, None) no_action;; mret tt else mret tt);;
      queue_unchecked (block_hash b)
  | gap_previous =>
      on_store (unchecked_put (block_previous b) b);;
      gap_cache_add b
  | gap_source =>
      source ← on_ledger (λ fuel, ledger_block_source fuel b);
      on_store (unchecked_put source b);;
      gap_cache_add b
  | old => queue_unchecked (block_hash b)
  | fork =>
      recent ← block_arrival_recent (block_hash b);
      if recent : bool then mret tt else process_fork b
  | bad_signature | negative_spend | unreceivable | opened_burn_account
  | balance_mismatch | block_position => mret tt
  end;;
  mret result.

(** ** The queue *)

(** The block in front: a forced one first. *)
Definition take_block : M N (option (block * bool)) :=
  p ← gets n_block_processor;
  match bp_forced p, bp_blocks p with
  | b :: forced, blocks => set_queues blocks forced;; mret (Some (b, true))
  | [], b :: blocks => set_queues blocks [];; mret (Some (b, false))
  | [], [] => mret None
  end.

(** A forced block takes the place of the one the ledger has. *)
Definition replace_successor (b : block) : M N unit :=
  s ← on_ledger (λ _, successor (block_root b));
  match s with
  | Some s =>
      if u_eqb (block_hash s) (block_hash b) then mret tt
      else on_ledger (λ fuel, rollback fuel fuel (block_hash s))
  | None => mret tt
  end.

(** One round of the loop: whether there was a block. *)
Definition process_next : M N bool :=
  next ← take_block;
  match next with
  | None => mret false
  | Some (b, forced) =>
      (if forced : bool then replace_successor b else mret tt);;
      process_receive_one b;;
      mret true
  end.

(** At most [count] rounds in one transaction. *)
Fixpoint process_rounds (count : nat) : M N unit :=
  match count with
  | O => mret tt
  | Datatypes.S count =>
      more ← process_next;
      if more : bool then process_rounds count else mret tt
  end.
Definition process_receive_many : M N unit := process_rounds (Z.to_nat 16384).

(** The thread, up to [calls] turns of its loop or to the point where it
    would wait. *)
Fixpoint process_blocks (calls : nat) : M N unit :=
  match calls with
  | O => mret tt
  | Datatypes.S calls =>
      p ← gets n_block_processor;
      if bp_stopped p then mret tt
      else
        more ← have_blocks;
        if more : bool then process_receive_many;; process_blocks calls else mret tt
  end.

(** ** Callers *)

(** [node::process_active]: a block that came in a datagram. *)
Definition process_active (incoming : block) : M N unit :=
  known ← block_arrival_add (block_hash incoming);
  if known : bool then mret tt else processor_add incoming.

(** [node::process]. *)
Definition node_process (b : block) : M N process_return := on_ledger (λ fuel, process fuel b).

(** ** Confirmed blocks *)

(** A wallet that has the account receives the amount. *)
Fixpoint scan_wallets (items : list wallet) (b : block) (account : u256) : M N unit :=
  match items with
  | [] => mret tt
  | w :: items =>
      (if bool_decide (account ∈ w_accounts w) then
         pending ← on_store (lmdb_pending_get (account, block_hash b));
         match pending with
         | Some p => emit (Receive_async b (w_representative w) (amount p))
         | None =>
             exists_ ← on_store (lmdb_block_exists (block_hash b));
             assert_ exists_
         end
       else mret tt);;
      scan_wallets items b account
  end.

Definition confirmed_visit (b : block) : M N unit :=
  match b with
  | BState t => scan_wallets wallet_items b (th_link (hashables t))
  | BSend s => scan_wallets wallet_items b (sh_destination (hashables s))
  | _ => mret tt
  end.

Definition process_confirmed (b : block) : M N unit :=
  exists_ ← on_store (lmdb_block_exists (block_hash b));
  if exists_ : bool then
    confirmed_visit b;;
    account ← on_ledger (λ fuel, ledger_account fuel (block_hash b));
    amount_l ← on_ledger (λ fuel, ledger_amount fuel (block_hash b));
    state ← match b with
            | BState t => s ← on_ledger (λ fuel, is_send fuel t); mret (s, th_link (hashables t))
            | BSend s => mret (false, sh_destination (hashables s))
            | _ => mret (false, U 32 0)
            end;
    emit (Block_observed b account amount_l (fst state));;
    if negb (is_zero amount_l) then
      emit (Balance_observed account false);;
      if negb (is_zero (snd state)) then emit (Balance_observed (snd state) true) else mret tt
    else mret tt
  else mret tt.

(** The confirmation action of [process_fork]: the account is pulled again
    by a running bootstrap attempt, if any. *)
Definition confirmation_run (in_progress : bool) (a : confirmation_action) : M N unit :=
  match a with
  | no_action => mret tt
  | requeue_action root =>
      if in_progress then
        account ← on_store (lmdb_frontier_get root);
        if negb (is_zero account) then emit (Pull_requeued account root root)
        else
          exists_ ← on_store (lmdb_account_exists root);
          if exists_ : bool then emit (Pull_requeued root (U 32 0) (U 32 0)) else mret tt
      else mret tt
  end.
End processor.
