(* ===== verification/Receiving.v ===== *)
(** * Receiving (network_message_visitor, [network::receive_action] and the
    functions posted to the service, of node.cpp)

    What a datagram makes the node do, from the parser to the peers, the
    block processor and the elections; and what the functions do that earlier
    steps left for later. *)

From S2P Require Import Prelude Crypto Blocks Common Stats Store Ledger Votes Lmdb Versioning.
From S2P Require Import BlockStore Messages MultiIndex Node Peers NodeCaches Sending Elections BlockProcessor.

Section receiving.
Context `{NodeConfig, Lmdb, RandomPool, MultiIndex, Unordered, Wallets}.
Context `{Blake2b, Ed25519, LedgerConstants}.
Abbreviation N := node.

(** ** Peers *)

(** [observers.endpoint]: a new peer is greeted and asked for a vote. *)
Definition peer_observer (e : endpoint) : M N unit :=
  send_keepalive e;;
  rep_query [e].

(** Keepalives to all the peers named by another peer. *)
Fixpoint merge_peers (l : list endpoint) : M N unit :=
  match l with
  | [] => mret tt
  | e :: l =>
      error ← reachout e;
      (if error : bool then mret tt else send_keepalive e);;
      merge_peers l
  end.

(** ** The visitor *)

Definition count_in (d : stat.detail) : M N unit := on_stats (stat.inc stat.message d).

(** [contacted] and then [insert]. *)
Definition heard_from (sender : endpoint) (version : Z) : M N unit :=
  contacted peer_observer sender version;;
  peers_insert peer_observer sender version;;
  mret tt.

Definition visit_message (sender : endpoint) (h : message_header) (m : message) : M N unit :=
  let version := uval (version_using h) in
  match m with
  | Keepalive l =>
      count_in stat.keepalive;;
      contacted peer_observer sender version;;
      merge_peers l
  | Publish b =>
      count_in stat.publish;;
      heard_from sender version;;
      process_active b
  | Confirm_req b =>
      count_in stat.confirm_req;;
      heard_from sender version;;
      process_active b;;
      s ← on_ledger (λ _, successor (block_root b));
      match s with
      | Some s => confirm_block [sender] s;; mret tt
      | None => mret tt
      end
  | Confirm_ack v =>
      count_in stat.confirm_ack;;
      heard_from sender version;;
      process_active (v_block v);;
      vote_processor_vote v sender;;
      mret tt
  | Bulk_pull _ _ | Bulk_pull_blocks _ _ _ _ | Bulk_push | Frontier_req _ _ _ => abort
  end.

(** [node::process_message]. *)
Definition process_message (h : message_header) (m : message) (sender : endpoint) : M N unit :=
  visit_message sender h m.

(** ** A datagram *)

(** [error] is that of the socket; [on] is false once the network stopped.
    Rearming the socket is an output. *)
Definition receive_action (error on : bool) (remote : endpoint) (buffer : bytes) : M N unit :=
  if negb error && on then
    reserved ← lift_outcome (reserved_address badem_network remote);
    (if negb reserved && negb (bool_decide (remote = network_endpoint)) then
       parsed ← lift_outcome (deserialize_buffer badem_network buffer);
       match snd parsed with
       | Some (h, m) => visit_message remote h m
       | None => mret tt
       end;;
       match fst parsed with
       | parse_success =>
           on_stats (stat.add stat.traffic stat.all stat.dir_in (U 8 (Z.of_nat (length buffer))) false)
       | insufficient_work =>
           on_stats (stat.add stat.error stat.all stat.dir_in (U 8 1) false);;
           on_stats (stat.inc_detail_only stat.error stat.insufficient_work)
       | _ => on_stats (stat.add stat.error stat.all stat.dir_in (U 8 1) false)
       end
     else on_stats (stat.inc_detail_only stat.error stat.bad_sender));;
    emit Received_next
  else if on then
    t ← now;
    alarm_add (t + seconds 5) Receive
  else mret tt.

(** ** Functions posted *)

Definition ongoing_rep_crawl (on : bool) : M N unit :=
  t ← now;
  l ← rep_crawl;
  rep_query l;;
  if on then alarm_add (t + seconds 4) Rep_crawl else mret tt.

Definition ongoing_store_flush : M N unit :=
  on_store flush;;
  t ← now;
  alarm_add (t + seconds 5) Store_flush.

(** The keepalives stop at the first peer tried within the period. *)
Definition node_period : Z := seconds 60.
Fixpoint keepalive_all (l : list peer_information) : M N unit :=
  match l with
  | [] => mret tt
  | i :: l =>
      t ← now;
      if node_period <? t - last_attempt i then
        send_keepalive (pi_endpoint i);;
        keepalive_all l
      else mret tt
  end.

(** [node::keepalive] has the name of a peer resolved; [keepalive_resolved] is
    the function called with what was found, [None] being an error. *)
Definition node_port : Z := match badem_network with badem_live_network => 2224 | _ => 54000 end.
Definition keepalive (address : string) (port : Z) : M N unit := emit (Resolving address port).
Definition keepalive_resolved (found : option (list endpoint)) : M N unit :=
  match found with
  | Some l => each l (λ e, node_send_keepalive (to_mapped e))
  | None => mret tt
  end.
Definition keepalive_preconfigured (l : list string) : M N unit := each l (λ a, keepalive a node_port).

Definition ongoing_keepalive : M N unit :=
  keepalive_preconfigured preconfigured_peers;;
  t ← now;
  l ← purge_list (t - node_cutoff);
  keepalive_all l;;
  t ← now;
  alarm_add (t + node_period) Keepalive_ongoing.

(** Whether a bootstrap attempt is running is known to the bootstrap
    initiator, whether the network is on to the network. *)
Definition run_task (in_progress on : bool) (t : task) : M N unit :=
  match t with
  | Broadcast_winner e => broadcast_winner e
  | Confirmed winner action => process_confirmed winner;; confirmation_run in_progress action
  | Announce_votes => announce_votes
  | Recalculate_stake => recalculate_stake
  | Crawler_remove hash => rep_crawler_remove hash
  | Bootstrap_missing hash =>
      exists_ ← on_store (lmdb_block_exists hash);
      if exists_ : bool then mret tt else emit Bootstrap_started
  | Confirm_req_base b endpoints delay => broadcast_confirm_req_base b endpoints delay
  | Rep_crawl => ongoing_rep_crawl on
  | Store_flush => ongoing_store_flush
  | Keepalive_ongoing => ongoing_keepalive
  | Receive => emit Received_next
  end.

(** The service runs the functions posted in turn. *)
Definition service_run (in_progress on : bool) : M N bool :=
  l ← gets n_service;
  match l with
  | [] => mret false
  | t :: l => modify (set_service l);; run_task in_progress on t;; mret true
  end.

(** One round of [alarm::run]: the earliest function is posted to the service
    when it is due; the order in which the others are kept does not matter. *)
Definition alarm_step : M N bool :=
  l ← gets n_alarm;
  match by_key fst l with
  | [] => mret false
  | (wakeup, t) :: rest =>
      now_ ← now;
      if wakeup <=? now_ then
        background t;;
        modify (set_alarm rest);;
        mret true
      else mret false
  end.
End receiving.
