(* ===== verification/BootstrapServer.v ===== *)
(** * The bootstrap server (bootstrap_server, bulk_pull_server,
    bulk_pull_blocks_server, frontier_req_server and bulk_push_server of
    bootstrap.cpp)

    What a node answers over a connection: the blocks of an account, the blocks
    of a range of hashes, the frontiers of its accounts; and what it does with
    blocks pushed to it.

    A function that ends in [async_write] returns the bytes it writes and the
    state its completion handler goes on with; a function that ends in
    [async_read] returns what it waits for. *)

From S2P Require Import Prelude Crypto Blocks Common Stats Store Ledger Votes Lmdb Versioning.
From S2P Require Import BlockStore Messages MultiIndex Node Peers NodeCaches Sending Elections BlockProcessor.

(** ** The type of the next block *)

Inductive type_action : Set :=
| read_body (t : block_type) (size : nat)
| no_more_blocks
| unknown_type.
Definition type_read (code : u8) : type_action :=
  match block_type_of_byte code with
  | Some bt_not_a_block => no_more_blocks
  | Some bt_invalid | None => unknown_type
  | Some t => read_body t (block_size t)
  end.

Section server.
Context `{NodeConfig, Lmdb, RandomPool, MultiIndex, Unordered}.
Context `{Blake2b, Ed25519, LedgerConstants}.
Abbreviation N := node.

(** All that is written, when no write fails. *)
Definition serve_step {S} (send_next : S → M N (bytes * option S)) (st : bytes * S)
    : M N (bytes * S + bytes) :=
  r ← send_next (snd st);
  mret match snd r with
       | Some srv => inl (fst st ++ fst r, srv)
       | None => inr (fst st ++ fst r)
       end.
Definition serve {S} (fuel : nat) (send_next : S → M N (bytes * option S)) (srv : S) : M N bytes :=
  loop fuel (serve_step send_next) ([], srv).

(** ** The server of pulls *)

Record bulk_pull_server : Set := Bulk_pull_server { bps_end : u256; bps_current : u256 }.

Definition set_current_end (start end_ : u256) : M N bulk_pull_server :=
  exists_ ← on_store (lmdb_block_exists end_);
  let end_ := if exists_ : bool then end_ else U 32 0 in
  info ← on_store (lmdb_account_get start);
  match info with
  | None => mret (Bulk_pull_server end_ end_)
  | Some info =>
      if negb (is_zero end_) then
        account ← on_ledger (λ fuel, ledger_account fuel end_);
        if u_eqb account start then mret (Bulk_pull_server end_ (head info))
        else mret (Bulk_pull_server end_ end_)
      else mret (Bulk_pull_server end_ (head info))
  end.

Definition bulk_pull_get_next (srv : bulk_pull_server) : M N (option block * bulk_pull_server) :=
  if u_eqb (bps_current srv) (bps_end srv) then mret (None, srv)
  else
    result ← on_store (lmdb_block_get (bps_current srv));
    match result with
    | Some b =>
        mret (Some b, Bulk_pull_server (bps_end srv)
          (if is_zero (block_previous b) then bps_end srv else block_previous b))
    | None => mret (None, Bulk_pull_server (bps_end srv) (bps_end srv))
    end.

Definition not_a_block : bytes := [block_type_byte bt_not_a_block].

Definition bulk_pull_send_next (srv : bulk_pull_server) : M N (bytes * option bulk_pull_server) :=
  r ← bulk_pull_get_next srv;
  match r with
  | (Some b, srv) => mret (serialize_block b, Some srv)
  | (None, _) => mret (not_a_block, None)
  end.

(** ** The server of ranges of blocks *)

(** The iterator has a transaction of its own: it goes through the keys that
    were there at the start. *)
Record bulk_pull_blocks_server : Set := Bulk_pull_blocks_server {
  bpb_max_hash : u256;
  bpb_mode : u8;
  bpb_max_count : u32;
  bpb_stream : list bytes;
  bpb_sent_count : u32;
  bpb_checksum : u256;
}.
Definition list_mode : Z := 0.
Definition checksum_mode : Z := 1.

Definition set_params (min_hash max_hash : u256) (mode : u8) (max_count : u32) : M N bulk_pull_blocks_server :=
  i ← on_store (block_info_iterator min_hash);
  mret (Bulk_pull_blocks_server (if u_ltb max_hash min_hash then min_hash else max_hash) mode max_count
    (map fst i) (U 4 0) (U 32 0)).

Definition bulk_pull_blocks_get_next (srv : bulk_pull_blocks_server)
    : M N (option block * bulk_pull_blocks_server) :=
  let counted := negb (is_zero (bpb_max_count srv)) in
  let out_of_bounds := counted && u_leb (bpb_max_count srv) (bpb_sent_count srv) in
  let at_ stream := Bulk_pull_blocks_server (bpb_max_hash srv) (bpb_mode srv) (bpb_max_count srv) stream
    (if counted then u_add (bpb_sent_count srv) (U 4 1) else bpb_sent_count srv) (bpb_checksum srv) in
  if out_of_bounds then mret (None, at_ (bpb_stream srv))
  else match bpb_stream srv with
       | [] => mret (None, at_ [])
       | k :: stream =>
           current ← lift_outcome (val_uint256 k);
           if u_ltb current (bpb_max_hash srv) then
             result ← on_store (lmdb_block_get current);
             mret (result, at_ stream)
           else mret (None, at_ (k :: stream))
       end.

(** After a checksum the end is written twice. *)
Definition bulk_pull_blocks_send_next (srv : bulk_pull_blocks_server)
    : M N (bytes * option bulk_pull_blocks_server) :=
  r ← bulk_pull_blocks_get_next srv;
  match r with
  | (Some b, srv) =>
      if uval (bpb_mode srv) =? list_mode then mret (serialize_block b, Some srv)
      else if uval (bpb_mode srv) =? checksum_mode then
        mret ([], Some (Bulk_pull_blocks_server (bpb_max_hash srv) (bpb_mode srv) (bpb_max_count srv)
          (bpb_stream srv) (bpb_sent_count srv) (u_xor (bpb_checksum srv) (block_hash b))))
      else mret ([], Some srv)
  | (None, srv) =>
      if uval (bpb_mode srv) =? checksum_mode
      then mret (not_a_block ++ write_be (bpb_checksum srv) ++ not_a_block, None)
      else mret (not_a_block, None)
  end.

(** ** The server of frontiers *)

(** The first account at or after a key ([latest_begin]). *)
Definition latest_from (account : u256) : M block_store (option (u256 * account_info)) :=
  i ← latest_iterator account;
  match i with
  | [] => mret None
  | (k, v) :: _ => a ← lift (val_uint256 k); info ← lift (account_info_of_val v); mret (Some (a, info))
  end.

(** [current] is zero when there are no more accounts. *)
Record frontier_req_server : Set := Frontier_req_server { frs_current : u256; frs_info : account_info }.

Definition frontier_server_next (srv : frontier_req_server) : M N frontier_req_server :=
  r ← on_store (latest_from (u_add (frs_current srv) (U 32 1)));
  match r with
  | Some (a, info) => mret (Frontier_req_server a info)
  | None => mret (Frontier_req_server (U 32 0) (frs_info srv))
  end.

Definition skip_step (age : u32) (t : u64) (srv : frontier_req_server)
    : M N (frontier_req_server + frontier_req_server) :=
  if negb (is_zero (frs_current srv)) && (uval age <=? uval (u_sub t (modified (frs_info srv))))
  then srv ← frontier_server_next srv; mret (inl srv)
  else mret (inr srv).
Definition skip_old (fuel : nat) (age : u32) (srv : frontier_req_server) : M N frontier_req_server :=
  if uval age =? 2 ^ 32 - 1 then mret srv
  else
    t ← on_ledger (λ _, seconds_since_epoch);
    loop fuel (skip_step age t) srv.

(** The count of the request is not looked at. *)
Definition make_frontier_req_server (fuel : nat) (start : u256) (age count : u32) : M N frontier_req_server :=
  srv ← frontier_server_next (Frontier_req_server (u_sub start (U 32 1))
    (Account_info (U 32 0) (U 32 0) (U 32 0) (U 16 0) (U 8 0) (U 8 0)));
  skip_old fuel age srv.

Definition frontier_send_next (srv : frontier_req_server) : M N (bytes * option frontier_req_server) :=
  if negb (is_zero (frs_current srv)) then
    let buffer := write_be (frs_current srv) ++ write_be (head (frs_info srv)) in
    srv ← frontier_server_next srv;
    mret (buffer, Some srv)
  else mret (write_be (U 32 0 : u256) ++ write_be (U 32 0 : u256), None).

(** ** The server of pushes *)

Definition block_detail (t : block_type) : stat.detail :=
  match t with
  | bt_send => stat.send
  | bt_receive => stat.receive
  | bt_open => stat.open
  | bt_change => stat.change
  | bt_state => stat.state_block
  | bt_invalid | bt_not_a_block => stat.all
  end.
Definition count_bootstrap (d : stat.detail) : M N unit := on_stats (stat.inc stat.bootstrap d).

Definition push_received_type (code : u8) : M N type_action :=
  let action := type_read code in
  match action with
  | read_body t _ => count_bootstrap (block_detail t)
  | no_more_blocks | unknown_type => mret tt
  end;;
  mret action.

(** A block read from a connection, when it is one and has enough work. *)
Definition block_received (t : block_type) (buffer : bytes) : M N (option block) :=
  r ← lift_outcome (deserialize_block_typed (Some t) buffer);
  mret match r with
       | Some (b, _) => if work_validate_block badem_network b then None else Some b
       | None => None
       end.

(** [true] when the next block is waited for. *)
Definition push_received_block (t : block_type) (buffer : bytes) : M N bool :=
  r ← block_received t buffer;
  match r with
  | Some b => process_active b;; mret true
  | None => mret false
  end.

(** All that arrives, up to the end of the pushed blocks; whether the request
    is finished and the bytes left.  A read that fails ends it. *)
Definition push_step (stream : bytes) : M N (bytes + bool * bytes) :=
  match stream with
  | [] => mret (inr (false, []))
  | code :: stream =>
      action ← push_received_type code;
      match action with
      | read_body t size =>
          if Nat.ltb (length stream) size then mret (inr (false, []))
          else
            more ← push_received_block t (take size stream);
            mret (if more : bool then inl (drop size stream) else inr (false, drop size stream))
      | no_more_blocks => mret (inr (true, stream))
      | unknown_type => mret (inr (false, stream))
      end
  end.
Definition push_receive (fuel : nat) (stream : bytes) : M N (bool * bytes) := loop fuel push_step stream.

(** ** Requests *)

Inductive header_action : Set :=
| read_request (h : message_header) (size : nat)
| push_request
| no_request.

Definition receive_header_action (buffer : bytes) : M N header_action :=
  match header_deserialize badem_network buffer with
  | None => mret no_request
  | Some (h, _) =>
      if u_eqb (header_type h) (message_type_code mt_bulk_pull) then
        count_bootstrap stat.bulk_pull;; mret (read_request h (32 + 32))
      else if u_eqb (header_type h) (message_type_code mt_bulk_pull_blocks) then
        count_bootstrap stat.bulk_pull_blocks;; mret (read_request h (32 + 32 + 1 + 4))
      else if u_eqb (header_type h) (message_type_code mt_frontier_req) then
        count_bootstrap stat.frontier_req;; mret (read_request h (32 + 4 + 4))
      else if u_eqb (header_type h) (message_type_code mt_bulk_push) then
        count_bootstrap stat.bulk_push;; mret push_request
      else mret no_request
  end.

(** [receive_bulk_pull_action], [receive_bulk_pull_blocks_action] and
    [receive_frontier_req_action]. *)
Definition receive_request_action (h : message_header) (buffer : bytes) : M N (option message) :=
  r ← lift_outcome
    (if u_eqb (header_type h) (message_type_code mt_bulk_pull) then bulk_pull_deserialize h buffer
     else if u_eqb (header_type h) (message_type_code mt_bulk_pull_blocks) then bulk_pull_blocks_deserialize h buffer
     else frontier_req_deserialize h buffer);
  mret (fst <$> r).

(** [request_response_visitor]: what is written in answer to a request, when
    no write fails; a push is read instead. *)
Definition respond (fuel : nat) (m : message) : M N bytes :=
  match m with
  | Bulk_pull start end_ => srv ← set_current_end start end_; serve fuel bulk_pull_send_next srv
  | Bulk_pull_blocks min_hash max_hash mode max_count =>
      srv ← set_params min_hash max_hash mode max_count; serve fuel bulk_pull_blocks_send_next srv
  | Frontier_req start age count =>
      srv ← make_frontier_req_server fuel start age count; serve fuel frontier_send_next srv
  | Bulk_push => mret []
  | Keepalive _ | Publish _ | Confirm_req _ | Confirm_ack _ => abort
  end.

(** ** Connections

    The requests of a connection wait in a queue and are answered one after
    the other; while one is answered the next ones are read. *)

Record connection : Set := Connection {
  cn_requests : list message;
  cn_answering : option message;
  cn_reading : bool;
  cn_stream : bytes;
  cn_written : bytes;
}.
Definition connect (stream : bytes) : connection := Connection [] None true stream [].
Definition set_requests x c := Connection x (cn_answering c) (cn_reading c) (cn_stream c) (cn_written c).
Definition set_answering x c := Connection (cn_requests c) x (cn_reading c) (cn_stream c) (cn_written c).
Definition set_reading x c := Connection (cn_requests c) (cn_answering c) x (cn_stream c) (cn_written c).
Definition set_stream x c := Connection (cn_requests c) (cn_answering c) (cn_reading c) x (cn_written c).
Definition set_written x c := Connection (cn_requests c) (cn_answering c) (cn_reading c) (cn_stream c) x.

(** The visitor asserts that the message is a request. *)
Definition is_request (m : message) : bool :=
  match m with
  | Bulk_pull _ _ | Bulk_pull_blocks _ _ _ _ | Frontier_req _ _ _ | Bulk_push => true
  | Keepalive _ | Publish _ | Confirm_req _ | Confirm_ack _ => false
  end.
Definition run_next (c : connection) : M N connection :=
  match cn_requests c with
  | [] => abort
  | m :: _ => assert_ (is_request m);; mret (set_answering (Some m) c)
  end.
Definition add_request (m : message) (c : connection) : M N connection :=
  let c' := set_requests (cn_requests c ++ [m]) c in
  if bool_decide (cn_requests c = []) then run_next c' else mret c'.
(** Popping an empty queue is undefined. *)
Definition finish_request (c : connection) : M N connection :=
  match cn_requests c with
  | [] => abort
  | _ :: requests =>
      let c' := set_answering None (set_requests requests c) in
      if bool_decide (requests = []) then mret c' else run_next c'
  end.

(** [receive] to the end of the request: a read that fails and a header that
    is none end the reading, and so does a push, whose blocks follow. *)
Definition receive_request (c : connection) : M N connection :=
  let rest := drop 8 (cn_stream c) in
  if Nat.ltb (length (cn_stream c)) 8 then mret (set_reading false c)
  else
    action ← receive_header_action (take 8 (cn_stream c));
    match action with
    | read_request h size =>
        if Nat.ltb (length rest) size then mret (set_reading false (set_stream rest c))
        else
          m ← receive_request_action h (take size rest);
          match m with
          | Some m =>
              c ← add_request m (set_stream (drop size rest) c);
              mret (set_reading true c)
          | None => mret (set_reading false (set_stream (drop size rest) c))
          end
    | push_request => add_request Bulk_push (set_reading false (set_stream rest c))
    | no_request => mret (set_reading false (set_stream rest c))
    end.

(** The request in front to the end of its answer.  Pushed blocks that break
    off leave it in the queue. *)
Definition answer_request (fuel : nat) (c : connection) : M N connection :=
  match cn_answering c with
  | None => mret c
  | Some Bulk_push =>
      r ← push_receive fuel (cn_stream c);
      let c' := set_stream (snd r) c in
      if fst r : bool then finish_request c' else mret (set_answering None c')
  | Some m =>
      answer ← respond fuel m;
      finish_request (set_written (cn_written c ++ answer) c)
  end.

(** What a connection does next: a request arrives, or one is answered. *)
Inductive connection_event : Set := Receive_request | Answer_request.
Definition enabled (ev : connection_event) (c : connection) : bool :=
  match ev with
  | Receive_request => cn_reading c
  | Answer_request => match cn_answering c with Some _ => true | None => false end
  end.
Definition connection_step (fuel : nat) (ev : connection_event) (c : connection) : M N connection :=
  match ev with
  | Receive_request => receive_request c
  | Answer_request => answer_request fuel c
  end.

(** The connection to its end, each request being answered before the next one
    is read: what is written.  There are at most as many turns as bytes
    arrive, and two. *)
Definition session_step (fuel : nat) (c : connection) : M N (connection + bytes) :=
  if enabled Answer_request c then c ← connection_step fuel Answer_request c; mret (inl c)
  else if enabled Receive_request c then c ← connection_step fuel Receive_request c; mret (inl c)
  else mret (inr (cn_written c)).
Definition session (fuel : nat) (stream : bytes) : M N bytes :=
  loop (length stream + 2) (session_step fuel) (connect stream).
End server.
