(* ===== verification/BootstrapClient.v ===== *)
(** * The bootstrap client (bootstrap_attempt, frontier_req_client,
    bulk_pull_client and bulk_push_client of bootstrap.cpp)

    A node that catches up asks for the frontiers of another one, compares
    them with its own in order of accounts, pulls the accounts that differ and
    pushes the blocks the other node lacks.

    As in the server, a function that ends in [async_write] returns the bytes
    it writes. *)

From S2P Require Import Prelude Crypto Blocks Common Stats Store Ledger Votes Lmdb Versioning.
From S2P Require Import BlockStore Messages MultiIndex Node Peers NodeCaches Sending Elections BlockProcessor BootstrapServer.

(** ** Data *)

Record pull_info : Set := Pull_info {
  pull_account : u256;
  pull_head : u256;
  pull_end : u256;
  pull_attempts : u32;
}.

(** A connection to a server. *)
Record bootstrap_client : Set := Bootstrap_client {
  bc_block_count : u64;
  bc_start_time : Z;
  bc_pending_stop : bool;
  bc_hard_stop : bool;
}.

(** [connection_frontier_request], while the connection lives, is a flag. *)
Record bootstrap_attempt : Set := Bootstrap_attempt {
  pulls : list pull_info;
  idle : list bootstrap_client;
  frontier_connection : bool;
  pulling : u32;
  total_blocks : u64;
  bulk_push_targets : list (u256 * u256);
}.

Definition set_pulls (l : list pull_info) (a : bootstrap_attempt) : bootstrap_attempt :=
  Bootstrap_attempt l (idle a) (frontier_connection a) (pulling a) (total_blocks a) (bulk_push_targets a).
Definition set_idle (l : list bootstrap_client) (a : bootstrap_attempt) : bootstrap_attempt :=
  Bootstrap_attempt (pulls a) l (frontier_connection a) (pulling a) (total_blocks a) (bulk_push_targets a).
Definition set_pulling (p : u32) (a : bootstrap_attempt) : bootstrap_attempt :=
  Bootstrap_attempt (pulls a) (idle a) (frontier_connection a) p (total_blocks a) (bulk_push_targets a).
Definition set_total_blocks (t : u64) (a : bootstrap_attempt) : bootstrap_attempt :=
  Bootstrap_attempt (pulls a) (idle a) (frontier_connection a) (pulling a) t (bulk_push_targets a).
Definition set_push_targets (l : list (u256 * u256)) (a : bootstrap_attempt) : bootstrap_attempt :=
  Bootstrap_attempt (pulls a) (idle a) (frontier_connection a) (pulling a) (total_blocks a) l.

Definition make_pull (account head end_ : u256) : pull_info := Pull_info account head end_ (U 4 0).

(** ** The attempt *)

Definition bootstrap_frontier_retry_limit : Z := 16.
Definition bulk_push_cost_limit : Z := 200.

Definition add_pull (p : pull_info) (a : bootstrap_attempt) : bootstrap_attempt := set_pulls (pulls a ++ [p]) a.
Definition pool_connection (c : bootstrap_client) (a : bootstrap_attempt) : bootstrap_attempt :=
  set_idle (c :: idle a) a.
Definition add_bulk_push_target (head end_ : u256) (a : bootstrap_attempt) : bootstrap_attempt :=
  set_push_targets (bulk_push_targets a ++ [(head, end_)]) a.

(** A pull that failed is tried again first; after sixteen times it is tried
    once more over the connection the frontiers came from, which is the second
    result, and then given up. *)
Definition requeue_pull (p : pull_info) (a : bootstrap_attempt) : bootstrap_attempt * option pull_info :=
  let attempts := u_add (pull_attempts p) (U 4 1) in
  let p := Pull_info (pull_account p) (pull_head p) (pull_end p) attempts in
  if uval attempts <? bootstrap_frontier_retry_limit then (set_pulls (p :: pulls a) a, None)
  else if uval attempts =? bootstrap_frontier_retry_limit then
    (a, if frontier_connection a
        then Some (Pull_info (pull_account p) (pull_head p) (pull_end p) (u_add attempts (U 4 1))) else None)
  else (a, None).

(** The pull taken next, when a connection is there. *)
Definition request_pull (connected : bool) (a : bootstrap_attempt) : outcome (bootstrap_attempt * option pull_info) :=
  if connected then
    match pulls a with
    | p :: l => Done (set_pulls l a, Some p)
    | [] => Fault assertion_failed
    end
  else Done (a, None).

Definition still_pulling (stopped : bool) (a : bootstrap_attempt) : bool :=
  negb stopped && (negb (bool_decide (pulls a = [])) || (0 <? uval (pulling a))).


Section client.
Context `{NodeConfig, Lmdb, RandomPool, MultiIndex, Unordered}.
Context `{Blake2b, Ed25519, LedgerConstants}.
Abbreviation N := node.

(** ** Frontiers *)

Record frontier_req_client : Set := Frontier_req_client {
  frc_current : u256;
  frc_info : account_info;
  frc_count : u32;
  frc_start_time : Z;
  frc_cost : u64;
}.

Definition frontier_client_next (c : frontier_req_client) : M N frontier_req_client :=
  r ← on_store (latest_from (u_add (frc_current c) (U 32 1)));
  match r with
  | Some (a, info) => mret (Frontier_req_client a info (frc_count c) (frc_start_time c) (frc_cost c))
  | None => mret (Frontier_req_client (U 32 0) (frc_info c) (frc_count c) (frc_start_time c) (frc_cost c))
  end.
Definition make_frontier_req_client : M N frontier_req_client :=
  frontier_client_next (Frontier_req_client (U 32 0) account_info_default (U 4 0) 0 (U 8 0)).

(** [run]: all accounts, however old. *)
Definition frontier_request : M N bytes :=
  serialized (make_header mt_frontier_req, Frontier_req (U 32 0) (U 4 (2 ^ 32 - 1)) (U 4 (2 ^ 32 - 1))).

Definition add_cost (k : Z) (c : frontier_req_client) : frontier_req_client :=
  Frontier_req_client (frc_current c) (frc_info c) (frc_count c) (frc_start_time c)
    (u_add (frc_cost c) (U 8 k)).

(** A chain the other node lacks is pushed unless that costs too much. *)
Definition unsynced (head_ end_ : u256) (c : frontier_req_client) (a : bootstrap_attempt)
    : frontier_req_client * bootstrap_attempt :=
  if uval (frc_cost c) <? bulk_push_cost_limit
  then (add_cost (if is_zero end_ then 2 else 1) c, add_bulk_push_target head_ end_ a)
  else (c, a).

(** The accounts below a bound that the other node does not have. *)
Definition unknown_step (below : u256 → bool) (st : frontier_req_client * bootstrap_attempt)
    : M N (frontier_req_client * bootstrap_attempt + frontier_req_client * bootstrap_attempt) :=
  let '(c, a) := st in
  if negb (is_zero (frc_current c)) && below (frc_current c) then
    let '(c, a) := unsynced (head (frc_info c)) (U 32 0) c a in
    c ← frontier_client_next c;
    mret (inl (c, a))
  else mret (inr (c, a)).

(** More than five seconds have passed and less than a thousand frontiers
    came in each. *)
Definition too_slow (count elapsed : Z) : bool :=
  (seconds 5 <? elapsed) && (count * seconds 1 <? 1000 * elapsed).

(** What follows a frontier: the next one, or the end with whether the
    request failed. *)
Inductive frontier_result : Set :=
| next_frontier (c : frontier_req_client) (a : bootstrap_attempt)
| frontiers_done (failed : bool) (a : bootstrap_attempt).

Definition received_frontier (fuel : nat) (conn : bootstrap_client) (account latest : u256)
    (c : frontier_req_client) (a : bootstrap_attempt) : M N frontier_result :=
  start ← (if is_zero (frc_count c) then now else mret (frc_start_time c));
  let c := Frontier_req_client (frc_current c) (frc_info c) (u_add (frc_count c) (U 4 1)) start (frc_cost c) in
  t ← now;
  if too_slow (uval (frc_count c)) (t - start) then mret (frontiers_done true a)
  else if negb (is_zero account) then
    st ← loop fuel (unknown_step (λ current, u_ltb current account)) (c, a);
    let '(c, a) := st in
    if negb (is_zero (frc_current c)) then
      if u_eqb account (frc_current c) then
        st ← (if u_eqb latest (head (frc_info c)) then mret (c, a)
              else
                exists_ ← on_store (lmdb_block_exists latest);
                mret (if exists_ : bool then unsynced (head (frc_info c)) latest c a
                      else (add_cost 5 c, add_pull (make_pull account latest (head (frc_info c))) a)));
        let '(c, a) := st in
        c ← frontier_client_next c;
        mret (next_frontier c a)
      else
        assert_ (u_ltb account (frc_current c));;
        mret (next_frontier c (add_pull (make_pull account latest (U 32 0)) a))
    else mret (next_frontier c (add_pull (make_pull account latest (U 32 0)) a))
  else
    st ← loop fuel (unknown_step (λ _, true)) (c, a);
    mret (frontiers_done false (pool_connection conn (snd st))).

(** The frontiers that arrive, up to the end of the request: whether it
    failed, or that it never ended because a read failed. *)
Definition frontier_step (fuel : nat) (conn : bootstrap_client)
    (st : bytes * (frontier_req_client * bootstrap_attempt))
    : M N (bytes * (frontier_req_client * bootstrap_attempt) + option bool * bootstrap_attempt) :=
  let '(stream, (c, a)) := st in
  match read_be 32 stream with
  | None => mret (inr (None, a))
  | Some (account, stream) =>
      match read_be 32 stream with
      | None => mret (inr (None, a))
      | Some (latest, stream) =>
          r ← received_frontier fuel conn account latest c a;
          mret match r with
               | next_frontier c a => inl (stream, (c, a))
               | frontiers_done failed a => inr (Some failed, a)
               end
      end
  end.
Definition frontier_receive (fuel : nat) (conn : bootstrap_client) (stream : bytes)
    (c : frontier_req_client) (a : bootstrap_attempt) : M N (option bool * bootstrap_attempt) :=
  loop fuel (frontier_step fuel conn) (stream, (c, a)).

(** ** Pulls *)

Record bulk_pull_client : Set := Bulk_pull_client {
  bpc_pull : pull_info;
  bpc_expected : u256;
  bpc_connection : bootstrap_client;
}.

Definition make_bulk_pull_client (conn : bootstrap_client) (p : pull_info) (a : bootstrap_attempt)
    : bulk_pull_client * bootstrap_attempt :=
  (Bulk_pull_client p (U 32 0) conn, set_pulling (u_add (pulling a) (U 4 1)) a).

Definition bulk_pull_request (c : bulk_pull_client) : M N (bytes * bulk_pull_client) :=
  let p := bpc_pull c in
  datagram ← serialized (make_header mt_bulk_pull, Bulk_pull (pull_account p) (pull_end p));
  mret (datagram, Bulk_pull_client p (pull_head p) (bpc_connection c)).

Definition pull_received_type (code : u8) (c : bulk_pull_client) (a : bootstrap_attempt)
    : type_action * bootstrap_attempt :=
  let action := type_read code in
  (action,
   match action with
   | no_more_blocks =>
       if negb (bc_pending_stop (bpc_connection c)) && u_eqb (bpc_expected c) (pull_end (bpc_pull c))
       then pool_connection (bpc_connection c) a else a
   | read_body _ _ | unknown_type => a
   end).

(** [true] when the next block is waited for. *)
Definition pull_received_block (t : block_type) (buffer : bytes) (c : bulk_pull_client) (a : bootstrap_attempt)
    : M N (bool * (bulk_pull_client * bootstrap_attempt)) :=
  r ← block_received t buffer;
  match r with
  | Some b =>
      let conn := bpc_connection c in
      start ← (if is_zero (bc_block_count conn) then now else mret (bc_start_time conn));
      let conn := Bootstrap_client (u_add (bc_block_count conn) (U 8 1)) start
        (bc_pending_stop conn) (bc_hard_stop conn) in
      let expected := if u_eqb (block_hash b) (bpc_expected c) then block_previous b else bpc_expected c in
      processor_add b;;
      mret (negb (bc_hard_stop conn),
        (Bulk_pull_client (bpc_pull c) expected conn, set_total_blocks (u_add (total_blocks a) (U 8 1)) a))
  | None => mret (false, (c, a))
  end.

Definition pull_step (st : bytes * (bulk_pull_client * bootstrap_attempt))
    : M N (bytes * (bulk_pull_client * bootstrap_attempt) + bulk_pull_client * bootstrap_attempt) :=
  let '(stream, (c, a)) := st in
  match stream with
  | [] => mret (inr (c, a))
  | code :: stream =>
      let '(action, a) := pull_received_type code c a in
      match action with
      | read_body t size =>
          if Nat.ltb (length stream) size then mret (inr (c, a))
          else
            r ← pull_received_block t (take size stream) c a;
            let '(more, st) := r in
            mret (if more : bool then inl (drop size stream, st) else inr st)
      | no_more_blocks | unknown_type => mret (inr (c, a))
      end
  end.

(** The destructor: a pull that did not end where it should is tried again
    from where it stopped. *)
Definition bulk_pull_destroy (c : bulk_pull_client) (a : bootstrap_attempt) : bootstrap_attempt * option pull_info :=
  let p := bpc_pull c in
  let '(a, again) :=
    if u_eqb (bpc_expected c) (pull_end p) then (a, None)
    else requeue_pull (Pull_info (pull_account p) (bpc_expected c) (pull_end p) (pull_attempts p)) a in
  (set_pulling (u_sub (pulling a) (U 4 1)) a, again).

(** A pull from the answer to the end: the attempt, and the pull to be tried
    over the connection of the frontiers. *)
Definition pull_receive (fuel : nat) (stream : bytes) (c : bulk_pull_client) (a : bootstrap_attempt)
    : M N (bootstrap_attempt * option pull_info) :=
  st ← loop fuel pull_step (stream, (c, a));
  mret (bulk_pull_destroy (fst st) (snd st)).

(** ** Pushes *)

(** The next block of the targets: [None] when there is none left. *)
Definition push_next_step (st : (u256 * u256) * bootstrap_attempt)
    : M N ((u256 * u256) * bootstrap_attempt + option block * ((u256 * u256) * bootstrap_attempt)) :=
  let '(target, a) := st in
  let next :=
    if is_zero (fst target) || u_eqb (fst target) (snd target) then
      match last (bulk_push_targets a) with
      | Some target => Some (target, set_push_targets (removelast (bulk_push_targets a)) a)
      | None => None
      end
    else Some (target, a) in
  match next with
  | None => mret (inr (None, (target, a)))
  | Some (target, a) =>
      r ← on_store (lmdb_block_get (fst target));
      mret match r with
           | Some b => inr (Some b, ((block_previous b, snd target), a))
           | None => inl ((U 32 0, snd target), a)
           end
  end.
Definition push_send_next (st : (u256 * u256) * bootstrap_attempt)
    : M N (bytes * option ((u256 * u256) * bootstrap_attempt)) :=
  r ← loop (length (bulk_push_targets (snd st)) + 2) push_next_step st;
  match r with
  | (Some b, st) => mret (serialize_block b, Some st)
  | (None, _) =>
      on_stats (stat.add stat.bootstrap stat.bulk_push stat.dir_out (U 8 1) false);;
      mret (not_a_block, None)
  end.
(** [start] and the blocks of all targets. *)
Definition push_run (fuel : nat) (a : bootstrap_attempt) : M N bytes :=
  request ← serialized (make_header mt_bulk_push, Bulk_push);
  blocks ← serve fuel push_send_next ((U 32 0, U 32 0), a);
  mret (request ++ blocks).
End client.
