(* ===== verification/WalletStore.v ===== *)
(** * The key store of a wallet (fan, kdf, wallet_value and wallet_store of
    wallet.cpp)

    A wallet is a table of keys and entries.  Seven keys are special: the
    version, a salt, the wallet key encrypted under the password, a check of
    it, the representative, the seed and the index of the next deterministic
    key; every other key is an account, whose entry holds its private key
    encrypted under the wallet key, or the index it is derived from, or nothing.

    The table is a finite map, iterated in the order of the keys; each
    transaction of the code is a step on it.  AES in counter mode (Crypto++)
    and Argon2 are interfaces. *)

From stdpp Require Import strings.
From S2P Require Import Prelude Crypto Numbers Store Messages Node BlockReaders.

(** ** Encryption *)

(** [CTR_Mode_ExternalCipher] on one value: text, key, counter. *)
Class Aes := {
  aes_ctr_encrypt : u256 → u256 → u128 → u256;
  aes_ctr_decrypt : u256 → u256 → u128 → u256;
}.
Class AesCorrect `{Aes} := {
  aes_decrypt_encrypt : ∀ x key iv, aes_ctr_decrypt (aes_ctr_encrypt x key iv) key iv = x;
  aes_encrypt_decrypt : ∀ x key iv, aes_ctr_encrypt (aes_ctr_decrypt x key iv) key iv = x;
}.

(** [argon2_hash] with one pass, one lane and 32 bytes of Argon2d: memory in
    kibibytes, password, salt; [None] is an error status. *)
Class Argon2 := { argon2_hash : Z → bytes → bytes → option u256 }.

(** ** Data *)

Record wallet_value : Set := Wallet_value { wv_key : u256; wv_work : u64 }.
#[export] Instance wallet_value_eq_dec : EqDecision wallet_value.
Proof. solve_decision. Defined.

Inductive key_types : Set := key_not_a_type | key_unknown | key_adhoc | key_deterministic.

(** The value is spread over several words. *)
Abbreviation fan := (list u256).

Record wallet_store `{RandomPool} : Type := Wallet_store {
  ws_entries : gmap u256 wallet_value;
  ws_password : fan;
  ws_wallet_key_mem : fan;
  ws_random_pool : rng;
}.

Definition version_special : u256 := U 32 0.
Definition salt_special : u256 := U 32 1.
Definition wallet_key_special : u256 := U 32 2.
Definition check_special : u256 := U 32 3.
Definition representative_special : u256 := U 32 4.
Definition seed_special : u256 := U 32 5.
Definition deterministic_index_special : u256 := U 32 6.
Definition special_count : Z := 7.
Definition version_current : Z := 3.

Definition fan_value (f : fan) : u256 := foldl u_xor (U 32 0) f.
Definition fan_value_set (value : u256) (f : fan) : fan :=
  match f with
  | first :: rest => u_xor (u_xor first (fan_value f)) value :: rest
  | [] => []
  end.

(** [owords[0]] of a number: its first 16 bytes. *)
Definition oword0 (x : u256) : u128 := U 16 (be_val (take 16 (write_be x))).

Definition key_type (value : wallet_value) : key_types :=
  let number := uval (wv_key value) in
  if 2 ^ 64 - 1 <? number then key_adhoc
  else if Z.shiftr number 32 =? 1 then key_deterministic
  else key_unknown.

Section wallet_store.
Context `{NodeConfig, RandomPool, Aes, Argon2, Blake2b, Ed25519}.
Abbreviation W := wallet_store.

Definition set_entries (t : gmap u256 wallet_value) (w : W) : W :=
  Wallet_store _ t (ws_password w) (ws_wallet_key_mem w) (ws_random_pool w).
Definition set_password (f : fan) (w : W) : W :=
  Wallet_store _ (ws_entries w) f (ws_wallet_key_mem w) (ws_random_pool w).
Definition set_wallet_key_mem (f : fan) (w : W) : W :=
  Wallet_store _ (ws_entries w) (ws_password w) f (ws_random_pool w).

Definition generate_256 : M W u256 := λ w,
  let '(b, r) := generate_block 32 (ws_random_pool w) in
  Done (U 32 (be_val b), Wallet_store _ (ws_entries w) (ws_password w) (ws_wallet_key_mem w) r).

(** [fan::fan]. *)
Fixpoint fan_entries (count : nat) (first : u256) : M W fan :=
  match count with
  | O => mret [first]
  | Datatypes.S count =>
      entry ← generate_256;
      rest ← fan_entries count (u_xor first entry);
      mret (entry :: rest)
  end.
Definition make_fan (key : u256) (count : nat) : M W fan := fan_entries (count - 1) key.

(** ** The table *)

Definition entry_get_raw (pub : u256) : M W wallet_value :=
  gets (λ w, default (Wallet_value (U 32 0) (U 8 0)) (ws_entries w !! pub)).
Definition entry_put_raw (pub : u256) (entry : wallet_value) : M W unit :=
  modify (λ w, set_entries (<[pub := entry]> (ws_entries w)) w).
Definition wallet_erase (pub : u256) : M W unit :=
  found ← gets (λ w, bool_decide (is_Some (ws_entries w !! pub)));
  assert_ found;;
  modify (λ w, set_entries (delete pub (ws_entries w)) w).

(** [begin (transaction, key)]: the entries from a key on. *)
Definition wallet_begin_at (key : u256) : M W (list (u256 * wallet_value)) :=
  gets (λ w, cursor hash_le key (ws_entries w)).
Definition wallet_begin : M W (list (u256 * wallet_value)) := wallet_begin_at (U 32 special_count).
Definition wallet_find (key : u256) : M W (option wallet_value) :=
  result ← wallet_begin_at key;
  mret match result with
       | (k, v) :: _ => if u_eqb k key then Some v else None
       | [] => None
       end.
Definition wallet_exists (pub : u256) : M W bool :=
  r ← wallet_find pub; mret match r with Some _ => true | None => false end.
Definition wallet_accounts : M W (list u256) := i ← wallet_begin; mret (map fst i).

(** ** Keys *)

Definition wallet_check : M W u256 := v ← entry_get_raw check_special; mret (wv_key v).
Definition wallet_salt : M W u256 := v ← entry_get_raw salt_special; mret (wv_key v).

Definition wallet_key : M W u256 :=
  wallet_l ← gets (λ w, fan_value (ws_wallet_key_mem w));
  password_l ← gets (λ w, fan_value (ws_password w));
  salt ← wallet_salt;
  mret (aes_ctr_decrypt wallet_l password_l (oword0 salt)).

Definition wallet_seed : M W u256 :=
  value ← entry_get_raw seed_special;
  password_l ← wallet_key;
  salt ← wallet_salt;
  mret (aes_ctr_decrypt (wv_key value) password_l (oword0 salt)).

Definition valid_password : M W bool :=
  wallet_key_l ← wallet_key;
  salt ← wallet_salt;
  check ← wallet_check;
  mret (u_eqb check (aes_ctr_encrypt (U 32 0) wallet_key_l (oword0 salt))).

Definition deterministic_index_get : M W u32 :=
  value ← entry_get_raw deterministic_index_special; mret (U 4 (uval (wv_key value))).
Definition deterministic_index_set (index : u32) : M W unit :=
  entry_put_raw deterministic_index_special (Wallet_value (U 32 (uval index)) (U 8 0)).

Definition store_deterministic_key (index : u32) : M W u256 :=
  valid ← valid_password;
  assert_ valid;;
  seed_l ← wallet_seed;
  mret (deterministic_key seed_l index).

(** An iterator is started again after the entry it is at was erased. *)
Definition clear_step (i : list (u256 * wallet_value)) : M W (list (u256 * wallet_value) + unit) :=
  match i with
  | [] => mret (inr tt)
  | (key, value) :: rest =>
      match key_type value with
      | key_deterministic => wallet_erase key;; i ← wallet_begin_at key; mret (inl i)
      | _ => mret (inl rest)
      end
  end.
Definition deterministic_clear (fuel : nat) : M W unit :=
  i ← wallet_begin;
  loop fuel clear_step i;;
  deterministic_index_set (U 4 0).

Definition seed_set (fuel : nat) (prv : u256) : M W unit :=
  password_l ← wallet_key;
  salt ← wallet_salt;
  entry_put_raw seed_special (Wallet_value (aes_ctr_encrypt prv password_l (oword0 salt)) (U 8 0));;
  deterministic_clear fuel.

Definition deterministic_step (st : u32 * u256) : M W (u32 * u256 + u32 * u256) :=
  let '(index, result) := st in
  existing ← wallet_exists result;
  if existing : bool then
    let index := u_add index (U 4 1) in
    prv ← store_deterministic_key index;
    mret (inl (index, ed25519_publickey prv))
  else mret (inr (index, result)).
Definition deterministic_insert (fuel : nat) : M W u256 :=
  index ← deterministic_index_get;
  prv ← store_deterministic_key index;
  st ← loop fuel deterministic_step (index, ed25519_publickey prv);
  let '(index, result) := st in
  entry_put_raw result (Wallet_value (U 32 (Z.lor (Z.shiftl 1 32) (uval index))) (U 8 0));;
  deterministic_index_set (u_add index (U 4 1));;
  mret result.

Definition insert_adhoc (prv : u256) : M W u256 :=
  valid ← valid_password;
  assert_ valid;;
  let pub := ed25519_publickey prv in
  password_l ← wallet_key;
  salt ← wallet_salt;
  entry_put_raw pub (Wallet_value (aes_ctr_encrypt prv password_l (oword0 salt)) (U 8 0));;
  mret pub.
Definition insert_watch (pub : u256) : M W unit := entry_put_raw pub (Wallet_value (U 32 0) (U 8 0)).

(** The private key of an account; [None] is an error. *)
Definition fetch (pub : u256) : M W (option u256) :=
  valid ← valid_password;
  prv ←
    (if valid : bool then
      value ← entry_get_raw pub;
      if negb (is_zero (wv_key value)) then
        match key_type value with
        | key_deterministic =>
            (* the seed is read once more by [deterministic_key] *)
            wallet_seed;;
            prv ← store_deterministic_key (U 4 (uval (wv_key value)));
            mret (Some prv)
        | key_adhoc =>
            password_l ← wallet_key;
            salt ← wallet_salt;
            mret (Some (aes_ctr_decrypt (wv_key value) password_l (oword0 salt)))
        | _ => mret None
        end
      else mret None
    else mret None);
  mret match prv with
       | Some prv => if u_eqb pub (ed25519_publickey prv) then Some prv else None
       | None => None
       end.

Definition representative_set (representative : u256) : M W unit :=
  entry_put_raw representative_special (Wallet_value representative (U 8 0)).
Definition wallet_representative : M W u256 := v ← entry_get_raw representative_special; mret (wv_key v).
Definition is_representative : M W bool := r ← wallet_representative; wallet_exists r.

(** [None] is an error. *)
Definition work_get (pub : u256) : M W (option u64) :=
  entry ← entry_get_raw pub;
  mret (if negb (is_zero (wv_key entry)) then Some (wv_work entry) else None).
Definition work_put (pub : u256) (work : u64) : M W unit :=
  entry ← entry_get_raw pub;
  assert_ (negb (is_zero (wv_key entry)));;
  entry_put_raw pub (Wallet_value (wv_key entry) work).

(** ** Passwords *)

Definition kdf_full_work : Z := 64 * 1024.
Definition kdf_test_work : Z := 8.
Definition kdf_work : Z :=
  match badem_network with badem_test_network => kdf_test_work | _ => kdf_full_work end.

Definition derive_key (password : bytes) : M W u256 :=
  salt ← wallet_salt;
  match argon2_hash kdf_work password (write_be salt) with
  | Some key => mret key
  | None => abort
  end.

Definition wallet_version : M W Z := v ← entry_get_raw version_special; mret (uval (wv_key v) mod 256).
Definition wallet_version_put (version : Z) : M W unit :=
  entry_put_raw version_special (Wallet_value (U 32 version) (U 8 0)).

(** [true] is an error. *)
Definition rekey (password : bytes) : M W bool :=
  valid ← valid_password;
  if valid : bool then
    password_new ← derive_key password;
    wallet_key_l ← wallet_key;
    modify (λ w, set_password (fan_value_set password_new (ws_password w)) w);;
    salt ← wallet_salt;
    let encrypted := aes_ctr_encrypt wallet_key_l password_new (oword0 salt) in
    modify (λ w, set_wallet_key_mem (fan_value_set encrypted (ws_wallet_key_mem w)) w);;
    entry_put_raw wallet_key_special (Wallet_value encrypted (U 8 0));;
    mret false
  else mret true.

(** ** Upgrades *)

(** A key that the wallet key does not decrypt is tried with the wallet key
    decrypted under the zero password and under the empty one. *)
Definition upgrade_entry (zero_password empty_password key : u256) : M W unit :=
  r ← fetch key;
  match r with
  | Some _ => mret tt
  | None =>
      data ← entry_get_raw key;
      salt ← wallet_salt;
      let prv := aes_ctr_decrypt (wv_key data) zero_password (oword0 salt) in
      if u_eqb (ed25519_publickey prv) key then insert_adhoc prv;; mret tt
      else
        let prv := aes_ctr_decrypt (wv_key data) empty_password (oword0 salt) in
        if u_eqb (ed25519_publickey prv) key then insert_adhoc prv;; mret tt else mret tt
  end.
Fixpoint upgrade_entries (zero_password empty_password : u256) (keys : list u256) : M W unit :=
  match keys with
  | [] => mret tt
  | key :: keys => upgrade_entry zero_password empty_password key;; upgrade_entries zero_password empty_password keys
  end.
Definition wallet_upgrade_v1_v2 : M W unit :=
  version ← wallet_version;
  assert_ (version =? 1);;
  value ← entry_get_raw wallet_key_special;
  salt ← wallet_salt;
  let zero_password := aes_ctr_decrypt (wv_key value) (U 32 0) (oword0 salt) in
  kdf ← derive_key [];
  let empty_password := aes_ctr_decrypt (wv_key value) kdf (oword0 salt) in
  keys ← wallet_accounts;
  upgrade_entries zero_password empty_password keys;;
  wallet_version_put 2.
Definition wallet_upgrade_v2_v3 (fuel : nat) : M W unit :=
  version ← wallet_version;
  assert_ (version =? 2);;
  seed ← generate_256;
  seed_set fuel seed;;
  entry_put_raw deterministic_index_special (Wallet_value (U 32 0) (U 8 0));;
  wallet_version_put 3.

(** [true] is an error.  The upgrades run in transactions of their own, so
    the caller's reads the version it began with: one step at a time. *)
Definition attempt_password (fuel : nat) (password : bytes) : M W bool :=
  password_l ← derive_key password;
  modify (λ w, set_password (fan_value_set password_l (ws_password w)) w);;
  valid ← valid_password;
  if valid : bool then
    version ← wallet_version;
    (if version =? 1 then wallet_upgrade_v1_v2 else mret tt);;
    (if version =? 2 then wallet_upgrade_v2_v3 fuel else mret tt);;
    mret false
  else mret true.

(** ** Creation *)

(** [wallet_store::wallet_store] on a table that could be opened: a new one
    is filled. *)
Definition open_wallet_store (fuel fanout : nat) (representative : u256) : M W unit :=
  password ← make_fan (U 32 0) fanout;
  modify (set_password password);;
  wallet_key_mem ← make_fan (U 32 0) fanout;
  modify (set_wallet_key_mem wallet_key_mem);;
  version ← gets (λ w, ws_entries w !! version_special);
  (match version with
   | None =>
       wallet_version_put version_current;;
       salt_l ← generate_256;
       entry_put_raw salt_special (Wallet_value salt_l (U 8 0));;
       wallet_key ← generate_256;
       modify (λ w, set_password (fan_value_set (U 32 0) (ws_password w)) w);;
       let encrypted := aes_ctr_encrypt wallet_key (U 32 0) (oword0 salt_l) in
       entry_put_raw wallet_key_special (Wallet_value encrypted (U 8 0));;
       modify (λ w, set_wallet_key_mem (fan_value_set encrypted (ws_wallet_key_mem w)) w);;
       entry_put_raw check_special (Wallet_value (aes_ctr_encrypt (U 32 0) wallet_key (oword0 salt_l)) (U 8 0));;
       entry_put_raw representative_special (Wallet_value representative (U 8 0));;
       seed ← generate_256;
       seed_set fuel seed;;
       entry_put_raw deterministic_index_special (Wallet_value (U 32 0) (U 8 0))
   | Some _ => mret tt
   end);;
  key ← entry_get_raw wallet_key_special;
  modify (λ w, set_wallet_key_mem (fan_value_set (wv_key key) (ws_wallet_key_mem w)) w).

(** ** Two wallets *)

Definition on_this {A} (m : M W A) : M (W * W) A := λ s,
  match m (fst s) with Done (a, w) => Done (a, (w, snd s)) | Fault e => Fault e end.
Definition on_other {A} (m : M W A) : M (W * W) A := λ s,
  match m (snd s) with Done (a, w) => Done (a, (fst s, w)) | Fault e => Fault e end.

(** Once a key could not be fetched no more keys are moved. *)
Fixpoint move_keys (keys : list u256) (result : bool) : M (W * W) bool :=
  match keys with
  | [] => mret result
  | key :: keys =>
      r ← on_other (fetch key);
      match r with
      | Some prv =>
          (if result then mret tt else on_this (insert_adhoc prv);; on_other (wallet_erase key));;
          move_keys keys result
      | None => move_keys keys true
      end
  end.
Definition both_valid : M (W * W) unit :=
  valid ← on_this valid_password; assert_ valid;;
  valid ← on_other valid_password; assert_ valid.
Definition wallet_move (keys : list u256) : M (W * W) bool := both_valid;; move_keys keys false.
(** A cursor whose entry is deleted by another one of its transaction goes
    on with the entry that follows, as LMDB documents it. *)
Definition wallet_import : M (W * W) bool :=
  both_valid;;
  keys ← on_other wallet_accounts;
  move_keys keys false.
End wallet_store.

(** ** Backups of a wallet (serialize_json, the constructor from a text and
    wallet::import of wallet.cpp)

    A backup is a JSON text with the entries of the table, without the proofs
    of work; it is read into a new table under a random name. *)

(** The keys under the root of a tree, in order, and the parser;
    [None] is its exception. *)
Class WalletTree `{PropertyTree} := {
  ptree_children : ptree → list string;
  read_json : text → option ptree;
}.

Section wallet_json.
Context `{NodeConfig, RandomPool, Aes, Argon2, Blake2b, Ed25519, NumberText, WalletTree}.
Abbreviation W := wallet_store.

(** [uint256_union::to_string] as the key of a tree. *)
Definition key_string (x : u256) : string := String.string_of_list_ascii (encode_hex x).

Definition put_entry (tree : ptree) (entry : u256 * wallet_value) : ptree :=
  ptree_put (key_string (fst entry)) (encode_hex (wv_key (snd entry))) tree.
Definition serialize_json : M W text :=
  entries ← wallet_begin_at (U 32 0);
  mret (write_json (foldl put_entry ptree_empty entries)).

(** [init_a]: each entry forgets the errors of those before it. *)
Fixpoint json_entries (tree : ptree) (keys : list string) (init : bool) : M W bool :=
  match keys with
  | [] => mret init
  | name :: keys =>
      init ←
        match decode_hex_256 (lit name) with
        | Some key =>
            match ptree_get name tree with
            | Some text =>
                match decode_hex_256 text with
                | Some value => entry_put_raw key (Wallet_value value (U 8 0));; mret false
                | None => mret true
                end
            | None => abort (* an exception *)
            end
        | None => mret true
        end;
      json_entries tree keys init
  end.

Definition not_found (key : u256) : M W bool := gets (λ w, bool_decide (ws_entries w !! key = None)).

(** [wallet_store::wallet_store] with the text of a backup, on a table that
    could be opened; [true] is an error. *)
Definition open_wallet_json (fanout : nat) (json : text) : M W bool :=
  password ← make_fan (U 32 0) fanout;
  modify (set_password password);;
  wallet_key_mem ← make_fan (U 32 0) fanout;
  modify (set_wallet_key_mem wallet_key_mem);;
  fresh ← not_found version_special;
  assert_ fresh;;
  let '(wallet_l, init) := match read_json json with Some tree => (tree, false) | None => (ptree_empty, true) end in
  init ← json_entries wallet_l (ptree_children wallet_l) init;
  no_version ← not_found version_special;
  no_wallet_key ← not_found wallet_key_special;
  no_salt ← not_found salt_special;
  no_check ← not_found check_special;
  no_representative ← not_found representative_special;
  modify (λ w, set_password (fan_value_set (U 32 0) (ws_password w)) w);;
  key ← entry_get_raw wallet_key_special;
  modify (λ w, set_wallet_key_mem (fan_value_set (wv_key key) (ws_wallet_key_mem w)) w);;
  mret (init || no_version || no_wallet_key || no_salt || no_check || no_representative).

Definition set_wallet_pool (r : rng) (w : W) : W :=
  Wallet_store _ (ws_entries w) (ws_password w) (ws_wallet_key_mem w) r.

(** [wallet::import]: the keys of a backup, by way of a wallet in a table
    with a random name, new and dropped at the end; [true] is an error. *)
Definition import_backup (fuel : nat) (json : text) (password : bytes) : M W bool :=
  id ← generate_256;
  pool ← gets ws_random_pool;
  match open_wallet_json 1 json (Wallet_store _ ∅ [] [] pool) with
  | Fault e => λ _, Fault e
  | Done (error, temp) =>
      match (if error : bool then Done (true, temp) else attempt_password fuel password temp) with
      | Fault e => λ _, Fault e
      | Done (error, temp) =>
          modify (set_wallet_pool (ws_random_pool temp));;
          if error : bool then mret true
          else λ w,
            match wallet_import (w, temp) with
            | Done (error, (w, _)) => Done (error, w)
            | Fault e => Fault e
            end
      end
  end.
End wallet_json.
