(* ===== verification/WalletActions.v ===== *)
(** * What wallets do in the node (wallet and wallets of wallet.cpp)

    A wallet makes state blocks that send, receive or change the
    representative, signed with its keys, and gives them to the node.  The
    requests of all wallets wait in one queue, the greatest amount first; a
    thread takes them one by one.

    The state is the node, its wallets by number, the queue, the table of send
    numbers, the functions posted to the service, and what the callbacks were
    given.  Waiting for other threads (flush, the promises of the blocking
    calls) is left out; the observers of the user interface too. *)

From S2P Require Import Prelude Crypto Blocks Common Stats Store Ledger Votes Lmdb Versioning.
From S2P Require Import BlockStore Messages MultiIndex Node Peers NodeCaches Sending Elections.
From S2P Require Import BlockProcessor WalletStore.

(** The configuration, and the work a blocking request for a root ends with. *)
Class WalletConfig := {
  receive_minimum : u128;
  password_fanout : nat;
  preconfigured_representatives : list u256;
  work_generate_blocking : u256 → u64;
}.

(** A request, of the wallet whose number comes first. *)
Inductive wallet_action : Set :=
| Receive_action (wallet : u256) (send : block) (representative : u256) (amount : u128) (generate_work : bool)
| Change_action (wallet source representative : u256) (generate_work : bool)
| Send_action (wallet source account : u256) (amount : u128) (generate_work : bool) (id : option bytes)
| Work_action (wallet account root : u256).

(** Functions posted to the service. *)
Inductive wallet_task : Set :=
| Search_pending (wallet : u256)
| Enter_initial_password (wallet : u256).

Record wallets `{Lmdb, RandomPool} : Type := Wallets_state {
  ww_node : node;
  ww_items : gmap u256 wallet_store;
  ww_actions : list (u128 * wallet_action);
  ww_send_action_ids : gmap bytes u256;
  ww_background : list wallet_task;
  ww_callbacks : list (option block);
}.

Definition generate_priority : u128 := U 16 (2 ^ 128 - 1).
Definition high_priority : u128 := U 16 (2 ^ 128 - 2).
(** LMDB refuses empty keys and keys of more than 511 bytes. *)
Definition key_size_ok (key : bytes) : bool := Nat.ltb 0 (length key) && Nat.leb (length key) 511.

Section actions.
Context `{NodeConfig, Lmdb, RandomPool, MultiIndex, Unordered, Wallets, WalletConfig}.
Context `{Blake2b, Ed25519, LedgerConstants, Aes, Argon2}.
Abbreviation WW := wallets.

Definition set_node (n : node) (s : WW) : WW := Wallets_state _ _ n (ww_items s) (ww_actions s)
  (ww_send_action_ids s) (ww_background s) (ww_callbacks s).
Definition set_items (i : gmap u256 wallet_store) (s : WW) : WW := Wallets_state _ _ (ww_node s) i (ww_actions s)
  (ww_send_action_ids s) (ww_background s) (ww_callbacks s).
Definition set_actions (a : list (u128 * wallet_action)) (s : WW) : WW := Wallets_state _ _ (ww_node s) (ww_items s) a
  (ww_send_action_ids s) (ww_background s) (ww_callbacks s).
Definition set_send_action_ids (t : gmap bytes u256) (s : WW) : WW := Wallets_state _ _ (ww_node s) (ww_items s)
  (ww_actions s) t (ww_background s) (ww_callbacks s).
Definition set_background (b : list wallet_task) (s : WW) : WW := Wallets_state _ _ (ww_node s) (ww_items s)
  (ww_actions s) (ww_send_action_ids s) b (ww_callbacks s).
Definition set_callbacks (c : list (option block)) (s : WW) : WW := Wallets_state _ _ (ww_node s) (ww_items s)
  (ww_actions s) (ww_send_action_ids s) (ww_background s) c.

Definition on_node {A} (m : M node A) : M WW A := λ s,
  match m (ww_node s) with Done (a, n) => Done (a, set_node n s) | Fault e => Fault e end.
(** A call of the store of a wallet, with the random numbers of the node; the
    wallet must not have been destroyed. *)
Definition on_wallet {A} (id : u256) (m : M wallet_store A) : M WW A := λ s,
  match ww_items s !! id with
  | Some w =>
      match m (set_wallet_pool (n_random_pool (ww_node s)) w) with
      | Done (a, w') =>
          Done (a, set_node (set_random_pool (ws_random_pool w') (ww_node s))
            (set_items (<[id := set_wallet_pool (ws_random_pool w) w']> (ww_items s)) s))
      | Fault e => Fault e
      end
  | None => Fault assertion_failed
  end.
Definition post (t : wallet_task) : M WW unit := modify (λ s, set_background (ww_background s ++ [t]) s).

(** A wallet as the loop over representatives sees it. *)
Definition node_wallet (w : wallet_store) : wallet := Wallet
  match wallet_accounts w with Done (l, _) => l | Fault _ => [] end
  (λ a, match fetch a w with Done (prv, _) => prv | Fault _ => None end)
  match valid_password w with Done (valid, _) => valid | Fault _ => false end
  match wallet_representative w with Done (r, _) => r | Fault _ => U 32 0 end.

(** ** The queue *)

(** [multimap::insert] under the order of [std::greater]: behind the entries
    with the same amount. *)
Fixpoint insert_action (amount : u128) (a : wallet_action) (l : list (u128 * wallet_action)) : list (u128 * wallet_action) :=
  match l with
  | [] => [(amount, a)]
  | (k, b) :: l => if u_leb amount k then (k, b) :: insert_action amount a l else (amount, a) :: (k, b) :: l
  end.
Definition queue_wallet_action (amount : u128) (a : wallet_action) : M WW unit :=
  modify (λ s, set_actions (insert_action amount a (ww_actions s)) s).

Definition change_async (id source representative : u256) (generate_work : bool) : M WW unit :=
  queue_wallet_action high_priority (Change_action id source representative generate_work).
Definition receive_async (id : u256) (b : block) (representative : u256) (amount : u128) (generate_work : bool) : M WW unit :=
  queue_wallet_action amount (Receive_action id b representative amount generate_work).
Definition send_async (id source account : u256) (amount : u128) (generate_work : bool) (send_id : option bytes) : M WW unit :=
  queue_wallet_action high_priority (Send_action id source account amount generate_work send_id).
Definition work_ensure (id account hash : u256) : M WW unit :=
  queue_wallet_action generate_priority (Work_action id account hash).

(** ** Work *)

Definition work_update (id account root : u256) (work : u64) : M WW unit :=
  assert_ (negb (work_validate badem_network root work));;
  existing ← on_wallet id (wallet_exists account);
  assert_ existing;;
  latest ← on_node (on_ledger (λ _, latest_root account));
  if u_eqb latest root then on_wallet id (work_put account work) else mret tt.
Definition work_cache_blocking (id account root : u256) : M WW unit :=
  let work := work_generate_blocking root in
  existing ← on_wallet id (wallet_exists account);
  if existing : bool then work_update id account root work else mret tt.

(** The end of the three actions: work for a block whose cached work is no
    longer valid, the node, and work for the block to come. *)
Definition with_work (b : block) : block :=
  if work_validate badem_network (block_root b) (block_work b)
  then block_work_set (work_generate_blocking (block_root b)) b else b.
Definition publish_block (id account : u256) (b : block) (generate_work : bool) : M WW block :=
  let b := with_work b in
  on_node (process_active b);;
  (if generate_work then work_ensure id account (block_hash b) else mret tt);;
  mret b.

(** The cached work of an account, zero if it has none. *)
Definition cached_work (id account : u256) : M WW u64 :=
  work ← on_wallet id (work_get account); mret (default (U 8 0) work).

(** ** The actions; [None] is no block *)

Definition wallet_receive_action (id : u256) (send : block) (representative : u256) (amount_a : u128) (generate_work : bool)
    : M WW (option block) :=
  let hash := block_hash send in
  if negb (u_leb receive_minimum amount_a) then mret None
  else
    exists_ ← on_node (on_store (lmdb_block_exists hash));
    if negb exists_ then mret None
    else
      account ← on_node (on_ledger (λ fuel, block_destination fuel send));
      pending_info ← on_node (on_store (lmdb_pending_get (account, hash)));
      match pending_info with
      | None => mret None
      | Some pending_info =>
          prv ← on_wallet id (fetch account);
          match prv with
          | None => mret None
          | Some prv =>
              work ← cached_work id account;
              info ← on_node (on_store (lmdb_account_get account));
              b ←
                match info with
                | Some info =>
                    rep_block_ ← on_node (on_store (lmdb_block_get (rep_block info)));
                    match rep_block_ with
                    | Some rep_block_ =>
                        mret (make_state_block account (head info) (block_representative rep_block_)
                          (u_add (balance info) (amount pending_info)) hash prv account work)
                    | None => abort
                    end
                | None => mret (make_state_block account (U 32 0) representative (amount pending_info) hash prv account work)
                end;
              b ← publish_block id account (BState b) generate_work;
              mret (Some b)
          end
      end.

Definition wallet_change_action (id source representative : u256) (generate_work : bool) : M WW (option block) :=
  valid ← on_wallet id valid_password;
  if negb valid then mret None
  else
    existing ← on_wallet id (wallet_exists source);
    latest_ ← on_node (on_ledger (λ _, latest source));
    if existing && negb (is_zero latest_) then
      info ← on_node (on_store (lmdb_account_get source));
      match info with
      | None => abort
      | Some info =>
          prv ← on_wallet id (fetch source);
          match prv with
          | None => abort
          | Some prv =>
              work ← cached_work id source;
              b ← publish_block id source
                (BState (make_state_block source (head info) representative (balance info) (U 32 0) prv source work))
                generate_work;
              mret (Some b)
          end
      end
    else mret None.

(** A send with a number that is known: its block is republished; and whether
    LMDB reported an error. *)
Definition known_send (send_id : option bytes) : M WW (option block * bool) :=
  match send_id with
  | None => mret (None, false)
  | Some key =>
      if Nat.eqb (length key) 0 then mret (None, true)
      else
        found ← gets (λ s, ww_send_action_ids s !! key);
        match found with
        | None => mret (None, false)
        | Some hash =>
            b ← on_node (on_store (lmdb_block_get hash));
            match b with
            | Some b => on_node (republish_block b);; mret (Some b, false)
            | None => mret (None, false)
            end
        end
  end.

(** A new block, recorded under its number. *)
Definition new_send (id source account : u256) (amount_a : u128) (send_id : option bytes) : M WW (option block) :=
  valid ← on_wallet id valid_password;
  if negb valid then mret None
  else
    existing ← on_wallet id (wallet_exists source);
    if negb existing then mret None
    else
      balance_ ← on_node (on_ledger (λ _, account_balance source));
      if negb (is_zero balance_) && u_leb amount_a balance_ then
        info ← on_node (on_store (lmdb_account_get source));
        prv ← on_wallet id (fetch source);
        match info, prv with
        | Some info, Some prv =>
            rep_block_ ← on_node (on_store (lmdb_block_get (rep_block info)));
            match rep_block_ with
            | None => abort
            | Some rep_block_ =>
                work ← cached_work id source;
                let b := BState (make_state_block source (head info) (block_representative rep_block_)
                  (u_sub balance_ amount_a) account prv source work) in
                match send_id with
                | None => mret (Some b)
                | Some key =>
                    if key_size_ok key then
                      modify (λ s, set_send_action_ids (<[key := block_hash b]> (ww_send_action_ids s)) s);;
                      mret (Some b)
                    else mret None
                end
            end
        | _, _ => abort
        end
      else mret None.

Definition wallet_send_action (id source account : u256) (amount_a : u128) (generate_work : bool) (send_id : option bytes)
    : M WW (option block) :=
  known ← known_send send_id;
  match known with
  | (Some b, _) => mret (Some b)
  | (None, true) => mret None
  | (None, false) =>
      made ← new_send id source account amount_a send_id;
      match made with
      | Some b => b ← publish_block id source b generate_work; mret (Some b)
      | None => mret None
      end
  end.

(** ** The thread *)

Definition callback (b : option block) : M WW unit := modify (λ s, set_callbacks (ww_callbacks s ++ [b]) s).
Definition run_action (a : wallet_action) : M WW unit :=
  match a with
  | Receive_action id send representative amount_a generate_work =>
      b ← wallet_receive_action id send representative amount_a generate_work; callback b
  | Change_action id source representative generate_work =>
      b ← wallet_change_action id source representative generate_work; callback b
  | Send_action id source account amount_a generate_work send_id =>
      b ← wallet_send_action id source account amount_a generate_work send_id; callback b
  | Work_action id account root => work_cache_blocking id account root
  end.
(** One round of [do_wallet_actions]: whether there was an action. *)
Definition do_wallet_actions : M WW bool :=
  actions ← gets ww_actions;
  match actions with
  | [] => mret false
  | (_, current) :: rest => modify (set_actions rest);; run_action current;; mret true
  end.

(** ** Pending blocks *)

(** The loop of [search_pending] over the pending blocks of an account, from
    its first one up to the first one of the next account number. *)
Fixpoint pending_scan (i n : list (pending_key * pending_info)) : M WW unit :=
  if iterator_eqb i n then mret tt
  else
    match i with
    | [] => abort
    | (_, pending) :: i =>
        (if u_leb receive_minimum (amount pending) then
           info ← on_node (on_store (lmdb_account_get (source pending)));
           match info with
           | None => abort
           | Some info =>
               b ← on_node (on_store (lmdb_block_get (head info)));
               match b with Some b => on_node (block_confirm b) | None => abort end
           end
         else mret tt);;
        pending_scan i n
    end.
Definition pending_range (account : u256) : M WW (list (pending_key * pending_info) * list (pending_key * pending_info)) :=
  i ← on_node (on_store (pending_begin (account, U 32 0)));
  n ← on_node (on_store (pending_begin (U 32 (uval account + 1), U 32 0)));
  mret (i, n).
Fixpoint search_accounts (l : list (u256 * wallet_value)) : M WW unit :=
  match l with
  | [] => mret tt
  | (account, value) :: l =>
      (if negb (is_zero (wv_key value)) then
         '(i, n) ← pending_range account;
         pending_scan i n
       else mret tt);;
      search_accounts l
  end.
(** [true] is an error. *)
Definition wallet_search_pending (id : u256) : M WW bool :=
  valid ← on_wallet id valid_password;
  if negb valid then mret true
  else
    l ← on_wallet id wallet_begin;
    search_accounts l;;
    mret false.

(** ** Keys *)

Definition wallet_deterministic_insert (id : u256) (fuel : nat) (generate_work : bool) : M WW u256 :=
  valid ← on_wallet id valid_password;
  if valid : bool then
    key ← on_wallet id (deterministic_insert fuel);
    (if generate_work then work_ensure id key key else mret tt);;
    mret key
  else mret (U 32 0).
Definition wallet_insert_adhoc (id prv : u256) (generate_work : bool) : M WW u256 :=
  valid ← on_wallet id valid_password;
  if valid : bool then
    key ← on_wallet id (insert_adhoc prv);
    (if generate_work then
       root ← on_node (on_ledger (λ _, latest_root key));
       work_ensure id key root
     else mret tt);;
    mret key
  else mret (U 32 0).

(** The search of [change_seed] for the last account of the seed in use: the
    index, the bound and the last index found. *)
Definition seed_step (id : u256) (st : u32 * u32 * u32) : M WW (u32 * u32 * u32 + u32) :=
  let '(i, n, count) := st in
  if negb (u_ltb i n) then mret (inr count)
  else
    prv ← on_wallet id (store_deterministic_key i);
    let pub := ed25519_publickey prv in
    latest_ ← on_node (on_ledger (λ _, latest pub));
    found ←
      (if negb (is_zero latest_) then mret true
       else '(ii, nn) ← pending_range pub; mret (negb (iterator_eqb ii nn)));
    let further := U 4 (uval i + 64 + uval i / 64) in
    mret (inl (u_add i (U 4 1), if found : bool then further else n, if found : bool then i else count)).
Fixpoint insert_accounts (id : u256) (fuel : nat) (i : Z) (count : nat) (account : u256) : M WW u256 :=
  match count with
  | O => mret account
  | Datatypes.S count =>
      account ← wallet_deterministic_insert id fuel (i <? 4);
      insert_accounts id fuel (i + 1) count account
  end.
Definition change_seed (id : u256) (fuel : nat) (prv : u256) : M WW u256 :=
  on_wallet id (seed_set fuel prv);;
  account ← wallet_deterministic_insert id fuel true;
  count ← loop fuel (seed_step id) (U 4 1, U 4 64, U 4 0);
  insert_accounts id fuel 0 (Z.to_nat (uval count)) account.

(** ** Passwords *)

Definition enter_password (id : u256) (fuel : nat) (password : bytes) : M WW bool :=
  result ← on_wallet id (attempt_password fuel password);
  (if negb result then post (Search_pending id) else mret tt);;
  mret result.
(** A new wallet has a zero key. *)
Definition enter_initial_password (id : u256) (fuel : nat) : M WW unit :=
  password_l ← on_wallet id (gets (λ w, fan_value (ws_password w)));
  if is_zero password_l then
    valid ← on_wallet id valid_password;
    (if valid : bool then on_wallet id (rekey []);; mret tt else mret tt);;
    enter_password id fuel [];;
    mret tt
  else mret tt.
Definition run_background (fuel : nat) : M WW bool :=
  l ← gets ww_background;
  match l with
  | [] => mret false
  | t :: l =>
      modify (set_background l);;
      match t with
      | Search_pending id => wallet_search_pending id;; mret true
      | Enter_initial_password id => enter_initial_password id fuel;; mret true
      end
  end.

(** ** The wallets of the node *)

Definition random_representative : M node u256 :=
  assert_ (Nat.ltb 0 (length preconfigured_representatives));;
  index ← random_word32 0 (Z.of_nat (length preconfigured_representatives) - 1);
  match preconfigured_representatives !! Z.to_nat index with Some r => mret r | None => abort end.

Definition wallets_open (id : u256) : M WW (option wallet_store) := gets (λ s, ww_items s !! id).
(** The table is new. *)
Definition wallets_create (id : u256) (fuel : nat) : M WW unit :=
  existing ← wallets_open id;
  assert_ (bool_decide (existing = None));;
  representative ← on_node random_representative;
  pool ← on_node (gets n_random_pool);
  match open_wallet_store fuel password_fanout representative (Wallet_store _ ∅ [] [] pool) with
  | Fault e => λ _, Fault e
  | Done (_, w) =>
      on_node (modify (set_random_pool (ws_random_pool w)));;
      modify (λ s, set_items (<[id := w]> (ww_items s)) s);;
      post (Enter_initial_password id)
  end.
Definition wallets_destroy (id : u256) : M WW unit :=
  existing ← wallets_open id;
  assert_ (negb (bool_decide (existing = None)));;
  modify (λ s, set_items (delete id (ww_items s)) s).
Definition wallets_search_pending (id : u256) : M WW bool :=
  existing ← wallets_open id;
  match existing with Some _ => wallet_search_pending id | None => mret true end.
Fixpoint search_each (ids : list u256) : M WW unit :=
  match ids with [] => mret tt | id :: ids => wallet_search_pending id;; search_each ids end.
Definition search_pending_all : M WW unit :=
  ids ← gets (λ s, map fst (iterate (ww_items s)));
  search_each ids.
Fixpoint exists_in (ids : list u256) (account : u256) : M WW bool :=
  match ids with
  | [] => mret false
  | id :: ids => result ← on_wallet id (wallet_exists account); if result : bool then mret true else exists_in ids account
  end.
Definition wallets_exists (account : u256) : M WW bool :=
  ids ← gets (λ s, map fst (iterate (ww_items s)));
  exists_in ids account.
End actions.
