(* ===== verification/Concrete.v ===== *)
(** * Concrete instances

    Small executable instances of the interfaces (a polynomial digest, a
    signature scheme by equation, the constants of the test network) and a
    ledger run on them, for the witnesses of the theorems. *)

From S2P Require Import Prelude Crypto Blocks Common Stats Store Ledger.

#[local] Obligation Tactic := idtac.

(** A digest by a polynomial over the fed bytes. *)
Definition poly_step (acc : Z) (b : u8) : Z := Z.land (acc * 263 + uval b + 1) 0x7fffffffffffffffffffffffffffffff.

#[export] Program Instance poly_hash : Blake2b := {|
  blake2b_state := Z;
  blake2b_init n := Z.of_nat n;
  blake2b_update st l := foldl poly_step st l;
  blake2b_final st n := be_bytes n st;
|}.
Next Obligation. intros st n. apply length_be_bytes. Qed.

(** A signature is the sum of the public key and the message. *)
Definition toy_sign (m : bytes) (pub : u256) : u512 := U 64 (be_val m + uval pub).

#[export] Instance toy_ed25519 : Ed25519 := {|
  ed25519_publickey prv := prv;
  ed25519_sign m _ pub := toy_sign m pub;
  ed25519_sign_open m pub sg := u_eqb sg (toy_sign m pub);
|}.

#[export] Instance toy_ed25519_correct : Ed25519Correct.
Proof. constructor. intros m prv. simpl. apply u_eqb_refl. Qed.

(** Public key of the test network (common.cpp, test_public_key_data). *)
Definition test_account : u256 :=
  U 32 0xB0311EA55708D6A53C75CDBF88300259C6D018522FE3D4D0A242E431F9E8B6D0.

Lemma test_account_nonzero : test_account ≠ U 32 0.
Proof. apply is_zero_false. vm_compute. reflexivity. Qed.

#[export] Instance test_constants : LedgerConstants := {|
  genesis_account := test_account;
  not_an_account := U 32 (2 ^ 255 + 12345);
  genesis_account_nonzero := test_account_nonzero;
|}.

Definition test_open : open_block :=
  Signed (Open_hashables test_account test_account test_account) (U 64 0) (U 8 0).

Definition run_genesis : outcome (unit * astore) :=
  genesis_initialize test_open (U 8 1500) fresh_store.

Definition genesis_store : astore :=
  match run_genesis with Done (_, s) => s | Fault _ => astore_empty end.

Definition genesis_ledger : ledger astore :=
  Ledger genesis_store ∅ (λ n, U 8 (1600 + Z.of_nat n)) ∅ (U 8 0) true.

(** Process a list of blocks and collect the result codes. *)
Fixpoint process_all (fuel : nat) (bs : list block) (l : ledger astore)
    : list (outcome process_result) * ledger astore :=
  match bs with
  | [] => ([], l)
  | b :: bs =>
      match process fuel b l with
      | Done (r, l') => let '(cs, l'') := process_all fuel bs l' in (Done (code r) :: cs, l'')
      | Fault e => ([Fault e], l)
      end
  end.

Definition key1 : u256 := U 32 1001.
Definition key2 : u256 := U 32 1002.

(** genesis sends 100 to key1, key1 opens, changes representative, sends 30 to
    key2 with a state block, key2 opens with a state block. *)
Definition send1 : send_block :=
  make_send_block (block_hash (BOpen test_open)) key1 (U 16 (2 ^ 128 - 101))
    test_account test_account (U 8 0).
Definition open1 : open_block :=
  let h := Open_hashables (block_hash (BSend send1)) key2 key1 in
  Signed h (sign_message key1 key1 (block_hash (BOpen (Signed h (U 64 0) (U 8 0))))) (U 8 0).
Definition change1 : change_block :=
  make_change_block (block_hash (BOpen open1)) key1 key1 key1 (U 8 0).
Definition state1 : state_block :=
  make_state_block key1 (block_hash (BChange change1)) key1 (U 16 70) key2 key1 key1 (U 8 0).
Definition state2 : state_block :=
  make_state_block key2 (U 32 0) key1 (U 16 30) (block_hash (BState state1)) key2 key2 (U 8 0).
Definition send2 : send_block :=
  make_send_block (block_hash (BSend send1)) test_account (U 16 (2 ^ 128 - 111))
    test_account test_account (U 8 0).
Definition receive2 : receive_block :=
  make_receive_block (block_hash (BSend send2)) (block_hash (BSend send2))
    test_account test_account (U 8 0).

Definition sample_blocks : list block :=
  [BSend send1; BOpen open1; BChange change1; BState state1; BState state2;
   BSend send2; BReceive receive2].

Definition sample_run := process_all 100 sample_blocks genesis_ledger.
