(* ===== verification/StoreLemmas.v ===== *)
(** * Lemmas on the abstract store

    How each method of [astore_ops] changes the lookups, with the well-formed
    block tables under which a hash names at most one block. *)

From S2P Require Import Prelude Crypto Blocks Common Store.

Section lookup.
Implicit Types (s : astore) (h : u256) (t : block_type).

Lemma find_table_Some order s h t :
  find_table order s h = Some t →
    t ∈ order ∧ is_Some (a_blocks s !! (t, h)).
Proof.
  unfold find_table. destruct (list_find _ order) as [[i t']|] eqn:E; [|done].
  simpl. intros [= ->]. apply list_find_Some in E as (Hi & Hs & _).
  split; [by eapply list_elem_of_lookup_2|done].
Qed.

Lemma find_table_None order s h :
  find_table order s h = None → ∀ t, t ∈ order → a_blocks s !! (t, h) = None.
Proof.
  unfold find_table. destruct (list_find _ order) as [[i t']|] eqn:E; [done|].
  apply list_find_None in E. rewrite Forall_forall in E.
  intros _ t Ht. apply E in Ht. by apply eq_None_not_Some.
Qed.

Lemma a_lookup_Some s h v :
  a_lookup s h = Some v → ∃ t, t ∈ get_order ∧ a_blocks s !! (t, h) = Some v
    ∧ find_table get_order s h = Some t.
Proof.
  unfold a_lookup. destruct (find_table get_order s h) as [t|] eqn:E; [|done].
  simpl. intros Hv. apply find_table_Some in E as E'. naive_solver.
Qed.

Lemma a_lookup_None s h :
  a_lookup s h = None → ∀ t, t ∈ get_order → a_blocks s !! (t, h) = None.
Proof.
  unfold a_lookup. destruct (find_table get_order s h) as [t|] eqn:E; simpl.
  - intros Hn. apply find_table_Some in E as [_ [v Hv]]. congruence.
  - intros _. by apply find_table_None.
Qed.

(** The lookup of a hash only reads the entries of that hash. *)
Lemma find_table_ext order s s' h :
  (∀ t, t ∈ order → a_blocks s !! (t, h) = a_blocks s' !! (t, h)) →
  find_table order s h = find_table order s' h.
Proof.
  intros E. unfold find_table. f_equal.
  induction order as [|t order IH]; [done|]. simpl.
  assert (a_blocks s !! (t, h) = a_blocks s' !! (t, h)) as Et by (apply E; set_solver).
  rewrite IH by (intros; apply E; set_solver).
  destruct (decide (is_Some (a_blocks s !! (t, h)))) as [H|H],
    (decide (is_Some (a_blocks s' !! (t, h)))) as [H'|H']; try done;
    by rewrite Et in H.
Qed.

Lemma a_lookup_ext s s' h :
  (∀ t, t ∈ get_order → a_blocks s !! (t, h) = a_blocks s' !! (t, h)) →
  a_lookup s h = a_lookup s' h.
Proof.
  intros E. unfold a_lookup. rewrite (find_table_ext _ s s' h E).
  destruct (find_table get_order s' h) as [t|] eqn:F; [|done]. simpl.
  apply find_table_Some in F as [Ht _]. by apply E.
Qed.

Lemma a_lookup_insert_ne s t h h' v :
  h ≠ h' → a_lookup (set_blocks <[(t, h) := v]> s) h' = a_lookup s h'.
Proof.
  intros Hne. apply a_lookup_ext. intros t' _. simpl.
  apply lookup_insert_ne. congruence.
Qed.

(** An insertion into the only table that may hold the hash. *)
Lemma a_lookup_insert s t h v :
  t ∈ get_order → (∀ t', t' ≠ t → t' ∈ get_order → a_blocks s !! (t', h) = None) →
  a_lookup (set_blocks <[(t, h) := v]> s) h = Some v.
Proof.
  intros Ht Hn. set (s' := set_blocks _ s).
  assert (Hsome : a_blocks s' !! (t, h) = Some v) by apply lookup_insert_eq.
  destruct (a_lookup s' h) as [w|] eqn:E.
  - apply a_lookup_Some in E as (t' & Ht' & Hw & _).
    destruct (decide (t' = t)) as [->|Hne]; [congruence|].
    subst s'. simpl in Hw. rewrite lookup_insert_ne in Hw by congruence.
    by rewrite Hn in Hw.
  - by rewrite (a_lookup_None s' h E t Ht) in Hsome.
Qed.
End lookup.

(** ** Well-formed block tables *)

Definition tables_wf `{Blake2b} (s : astore) : Prop :=
  (∀ t h b sc, a_blocks s !! (t, h) = Some (b, sc) → block_type_of b = t ∧ block_hash b = h) ∧
  (∀ t t' h, is_Some (a_blocks s !! (t, h)) → is_Some (a_blocks s !! (t', h)) → t = t').

Lemma block_type_of_order b : block_type_of b ∈ get_order.
Proof. destruct b; simpl; set_solver. Qed.

Section wf.
Context `{Blake2b}.
Implicit Types (s : astore) (h : u256).

Lemma wf_lookup s h b sc :
  tables_wf s → a_lookup s h = Some (b, sc) ↔ a_blocks s !! (block_type_of b, h) = Some (b, sc).
Proof.
  intros [Hwf1 Hwf2]. split.
  - intros (t & _ & Hb & _)%a_lookup_Some. apply Hwf1 in Hb as Hb'.
    destruct Hb' as [-> _]. done.
  - intros Hb. destruct (a_lookup s h) as [v|] eqn:E.
    + apply a_lookup_Some in E as (t & _ & Hv & _).
      assert (t = block_type_of b) as -> by (eapply Hwf2; eauto). congruence.
    + by rewrite (a_lookup_None s h E _ (block_type_of_order b)) in Hb.
Qed.

Lemma wf_lookup_hash s h b sc : tables_wf s → a_lookup s h = Some (b, sc) → block_hash b = h.
Proof. intros Hwf Hl. apply (wf_lookup s h b sc Hwf) in Hl. by apply Hwf in Hl as [_ ?]. Qed.

Lemma wf_find_table s h b sc :
  tables_wf s → a_lookup s h = Some (b, sc) → find_table get_order s h = Some (block_type_of b).
Proof.
  intros Hwf Hl. pose proof Hl as (t & _ & Ht & Hf)%a_lookup_Some.
  apply (wf_lookup s h b sc Hwf) in Hl.
  rewrite Hf. f_equal. eapply Hwf; eauto.
Qed.

Lemma wf_table_None s h : tables_wf s → a_lookup s h = None → ∀ t, a_blocks s !! (t, h) = None.
Proof.
  intros [Hwf _] Hn t. destruct (a_blocks s !! (t, h)) as [[b sc]|] eqn:E; [|done].
  apply Hwf in E as E'. destruct E' as [<- _].
  rewrite <-E. apply a_lookup_None; [done|apply block_type_of_order].
Qed.

Lemma wf_find_del s h b sc :
  tables_wf s → a_lookup s h = Some (b, sc) → find_table del_order s h = Some (block_type_of b).
Proof.
  intros Hwf Hl. apply (wf_lookup s h b sc Hwf) in Hl.
  destruct (find_table del_order s h) as [t|] eqn:E.
  - apply find_table_Some in E as [_ Ht]. f_equal. eapply Hwf; eauto.
  - rewrite (find_table_None _ _ _ E (block_type_of b)) in Hl; [done|].
    destruct b; simpl; set_solver.
Qed.

(** Inserting a block under its hash, new or replacing one of its type. *)
Lemma wf_insert s h b sc :
  tables_wf s → block_hash b = h →
  (∀ b' sc', a_lookup s h = Some (b', sc') → block_type_of b' = block_type_of b) →
  tables_wf (set_blocks <[(block_type_of b, h) := (b, sc)]> s).
Proof.
  intros Hwf Hh Htype.
  assert (Hother : ∀ t, is_Some (a_blocks s !! (t, h)) → t = block_type_of b).
  { intros t [[b' sc'] Hb']. apply Hwf in Hb' as Hb2. destruct Hb2 as [<- _].
    eapply Htype. by apply (wf_lookup s h b' sc' Hwf). }
  split; simpl.
  - intros t h' b' sc'. rewrite lookup_insert_Some.
    intros [[[= <- <-] [= <- <-]]|[_ Hb]]; [done|]. by eapply Hwf.
  - intros t t' h'. rewrite !lookup_insert_is_Some.
    intros [E|[_ Ht]] [E'|[_ Ht']]; simplify_eq; try done.
    + symmetry. by apply Hother.
    + by apply Hother.
    + by eapply Hwf.
Qed.

Lemma wf_lookup_insert s h b sc h' :
  tables_wf s → (∀ b' sc', a_lookup s h = Some (b', sc') → block_type_of b' = block_type_of b) →
  a_lookup (set_blocks <[(block_type_of b, h) := (b, sc)]> s) h' =
    if decide (h' = h) then Some (b, sc) else a_lookup s h'.
Proof.
  intros Hwf Htype. case_decide as E; [subst h'|by rewrite a_lookup_insert_ne by done].
  apply a_lookup_insert; [apply block_type_of_order|].
  intros t Hne _. destruct (a_blocks s !! (t, h)) as [[b' sc']|] eqn:E; [|done].
  apply Hwf in E as E'. destruct E' as [<- _]. destruct Hne. eapply Htype.
  by apply (wf_lookup s h b' sc' Hwf).
Qed.
End wf.

(** ** Writing a block *)

(** Whether [set_predecessor] writes the predecessor of the block. *)
Definition links (b : block) : bool :=
  match b with
  | BSend _ | BReceive _ | BChange _ => true
  | BOpen _ => false
  | BState _ => negb (is_zero (block_previous b))
  end.

Definition link_prev (h p : u256) (s : astore) : astore :=
  match a_lookup s p with
  | Some (pb, _) => set_blocks <[(block_type_of pb, p) := (pb, h)]> s
  | None => s
  end.

(** The store after [block_put hash b 0]. *)
Definition put_block (h : u256) (b : block) (s : astore) : astore :=
  let s1 := set_blocks <[(block_type_of b, h) := (b, U 32 0)]> s in
  if links b then link_prev h (block_previous b) s1 else s1.

(** What one block adds to the lookups. *)
Definition put_lookup (h : u256) (b : block) (f : u256 → option (block * u256)) (x : u256)
    : option (block * u256) :=
  if decide (x = h) then Some (b, U 32 0)
  else if decide (links b = true ∧ x = block_previous b)
  then (λ v, (v.1, h)) <$> f x else f x.

Section put.
Context `{Blake2b}.
Implicit Types (s : astore) (h : u256).

Definition put_pre (s : astore) (h : u256) (b : block) : Prop :=
  block_hash b = h ∧ a_lookup s h = None ∧
  (links b = true → is_Some (a_lookup s (block_previous b))) ∧
  (links b = false → block_previous b = U 32 0).

Lemma put_block_other s h b :
  let s' := put_block h b s in
  a_frontiers s' = a_frontiers s ∧ a_accounts s' = a_accounts s ∧
  a_pending s' = a_pending s ∧ a_info s' = a_info s ∧ a_rep s' = a_rep s ∧
  a_checksum s' = a_checksum s.
Proof.
  unfold put_block, link_prev. destruct (links b); [|done].
  by destruct (a_lookup _ _) as [[pb sc]|].
Qed.

(** The intermediate store, after the block and before its predecessor. *)
Lemma put_first s h b x :
  tables_wf s → put_pre s h b →
  a_lookup (set_blocks <[(block_type_of b, h) := (b, U 32 0)]> s) x =
    if decide (x = h) then Some (b, U 32 0) else a_lookup s x.
Proof.
  intros Hwf (_ & Hn & _). apply wf_lookup_insert; [done|]. intros b' sc'. by rewrite Hn.
Qed.

Lemma put_first_wf s h b :
  tables_wf s → put_pre s h b →
  tables_wf (set_blocks <[(block_type_of b, h) := (b, U 32 0)]> s).
Proof.
  intros Hwf (Hh & Hn & _). apply wf_insert; [done..|]. intros b' sc'. by rewrite Hn.
Qed.

Lemma put_prev_ne s h b : put_pre s h b → links b = true → block_previous b ≠ h.
Proof. intros (_ & Hn & Hp & _) Hl E. apply Hp in Hl as [v Hv]. congruence. Qed.

Lemma put_block_lookup s h b x :
  tables_wf s → put_pre s h b →
  a_lookup (put_block h b s) x = put_lookup h b (a_lookup s) x.
Proof.
  intros Hwf Hpre. pose proof (put_first s h b) as Hf.
  unfold put_block, put_lookup. destruct (links b) eqn:Hl.
  - pose proof (put_prev_ne s h b Hpre Hl) as Hne.
    pose proof Hpre as (Hh & Hn & Hp & _). destruct (Hp Hl) as [[pb sc] Hpb].
    unfold link_prev. rewrite Hf, decide_False, Hpb by done.
    rewrite wf_lookup_insert; [|by apply put_first_wf|].
    + rewrite Hf by done. destruct (decide (x = block_previous b)) as [->|Hx].
      * rewrite decide_False by done. rewrite decide_True by done.
        by rewrite Hpb.
      * case_decide; [done|]. rewrite decide_False by naive_solver. done.
    + intros b' sc'. rewrite Hf, decide_False, Hpb by done. naive_solver.
  - rewrite Hf by done. case_decide; [done|]. rewrite decide_False by naive_solver. done.
Qed.

Lemma put_block_wf s h b :
  tables_wf s → put_pre s h b → tables_wf (put_block h b s).
Proof.
  intros Hwf Hpre. pose proof (put_first_wf s h b Hwf Hpre) as Hwf1.
  unfold put_block. destruct (links b) eqn:Hl; [|done].
  unfold link_prev. destruct (a_lookup _ (block_previous b)) as [[pb sc]|] eqn:E; [|done].
  apply wf_insert; [done| |].
  - by eapply wf_lookup_hash.
  - intros b' sc' E'. rewrite E in E'. by simplify_eq.
Qed.

Lemma put_block_size s h b :
  tables_wf s → put_pre s h b →
  size (a_blocks (put_block h b s)) = Datatypes.S (size (a_blocks s)).
Proof.
  intros Hwf Hpre. pose proof (put_first_wf s h b Hwf Hpre) as Hwf1.
  assert (size (a_blocks (set_blocks <[(block_type_of b, h) := (b, U 32 0)]> s))
    = Datatypes.S (size (a_blocks s))) as Hs.
  { simpl. apply map_size_insert_None. destruct Hpre as (_ & Hn & _).
    by apply wf_table_None. }
  unfold put_block. destruct (links b) eqn:Hl; [|done].
  unfold link_prev. destruct (a_lookup _ (block_previous b)) as [[pb sc]|] eqn:E; [|done].
  rewrite <-Hs. apply (wf_lookup _ _ _ _ Hwf1) in E.
  simpl. simpl in E. apply map_size_insert_Some. rewrite E. done.
Qed.

Lemma a_block_put_run s h b :
  tables_wf s → put_pre s h b →
  a_block_put h b (U 32 0) s = Done (tt, put_block h b s).
Proof.
  intros Hwf Hpre. pose proof Hpre as (Hh & Hn & Hp & Hz).
  unfold a_block_put, mbind, M_bind, gets, modify, assert_. rewrite is_zero_0. simpl.
  set (s1 := set_blocks _ s).
  assert (Hset : a_set_predecessor (block_hash b) b s1 = Done (tt, put_block h b s)).
  { unfold put_block. fold s1.
    assert (Hlink : links b = true →
      a_fill_value (block_hash b) (block_previous b) s1 =
        Done (tt, link_prev h (block_previous b) s1)).
    { intros Hl. destruct (Hp Hl) as [[pb sc] Hpb].
      assert (a_lookup s1 (block_previous b) = Some (pb, sc)) as Hpb1.
      { unfold s1. rewrite put_first by done.
        rewrite decide_False by (by eapply put_prev_ne). done. }
      unfold a_fill_value, link_prev. rewrite Hpb1, Hh.
      rewrite (wf_find_table s1 _ pb sc); [done| |done].
      by apply put_first_wf. }
    destruct b as [b|b|b|b|b]; simpl in *; try (by apply Hlink); [done|].
    destruct (negb _) eqn:E; [by apply Hlink|done]. }
  rewrite Hset. rewrite put_block_lookup by done. unfold put_lookup.
  destruct (links b) eqn:Hl.
  - rewrite decide_False by (by eapply put_prev_ne).
    rewrite decide_True by done. destruct (Hp eq_refl) as [[pb sc] ->]. simpl.
    by rewrite u_eqb_refl, orb_true_r.
  - by rewrite (Hz eq_refl), is_zero_0.
Qed.
End put.

(** ** Removing a block *)

Section del.
Context `{Blake2b}.
Implicit Types (s : astore) (h : u256).

Lemma wf_delete s k : tables_wf s → tables_wf (set_blocks (delete k) s).
Proof.
  intros [Hwf1 Hwf2]. split; simpl.
  - intros t h b sc [_ E]%lookup_delete_Some. by eapply Hwf1.
  - intros t t' h. rewrite !lookup_delete_is_Some. intros [_ ?] [_ ?]. by eapply Hwf2.
Qed.

Lemma wf_lookup_delete s h b sc x :
  tables_wf s → a_lookup s h = Some (b, sc) →
  a_lookup (set_blocks (delete (block_type_of b, h)) s) x =
    if decide (x = h) then None else a_lookup s x.
Proof.
  intros Hwf E. pose proof (wf_delete s (block_type_of b, h) Hwf) as Hwf'.
  apply option_eq. intros [b' sc']. rewrite (wf_lookup _ _ _ _ Hwf'). simpl.
  rewrite lookup_delete_Some. case_decide as Hx.
  - subst x. split; [|done]. intros [Hne E'].
    rewrite (wf_lookup _ _ _ _ Hwf) in E. destruct Hne. f_equal.
    destruct Hwf as [_ Hwf2]. eapply Hwf2; eauto.
  - rewrite (wf_lookup _ _ _ _ Hwf). naive_solver.
Qed.

(** [block_successor_clear] on a block whose predecessor points to it. *)
Definition clear_block (p : u256) (pb : block) (s : astore) : astore :=
  set_blocks <[(block_type_of pb, p) := (pb, U 32 0)]> s.

Lemma clear_run s p pb sc :
  tables_wf s → a_lookup s p = Some (pb, sc) →
  (links pb = true → block_previous pb ≠ p ∧ ∃ ppb, a_lookup s (block_previous pb) = Some (ppb, p)) →
  (links pb = false → block_previous pb = U 32 0) →
  block_successor_clear p s = Done (tt, clear_block p pb s).
Proof.
  intros Hwf E Hl Hn. unfold block_successor_clear, mbind, M_bind. simpl.
  unfold gets. rewrite E. simpl. unfold a_block_put, mbind, M_bind, gets, modify, assert_.
  rewrite is_zero_0. simpl. fold (clear_block p pb s). set (s1 := clear_block p pb s).
  assert (Hty : ∀ b' sc', a_lookup s p = Some (b', sc') → block_type_of b' = block_type_of pb).
  { intros b' sc'. rewrite E. naive_solver. }
  assert (Hh : block_hash pb = p) by by eapply wf_lookup_hash.
  assert (Hwf1 : tables_wf s1) by by apply wf_insert.
  assert (Hlook : ∀ x, a_lookup s1 x = if decide (x = p) then Some (pb, U 32 0) else a_lookup s x).
  { intros x. by apply wf_lookup_insert. }
  assert (Hfill : links pb = true → a_fill_value (block_hash pb) (block_previous pb) s1 = Done (tt, s1)).
  { intros Hlk. destruct (Hl Hlk) as (Hne & ppb & Epp).
    assert (E1 : a_lookup s1 (block_previous pb) = Some (ppb, p)).
    { by rewrite Hlook, decide_False. }
    unfold a_fill_value. rewrite E1, (wf_find_table _ _ _ _ Hwf1 E1), Hh.
    apply (wf_lookup _ _ _ _ Hwf1) in E1. f_equal. f_equal. unfold set_blocks.
    rewrite insert_id by done. by destruct s1. }
  assert (Hset : a_set_predecessor (block_hash pb) pb s1 = Done (tt, s1)).
  { destruct pb; simpl in *; try (by apply Hfill); [done|].
    destruct (negb _) eqn:Ez; [by apply Hfill|done]. }
  rewrite Hset. destruct (links pb) eqn:Hlk.
  - destruct (Hl eq_refl) as (Hne & ppb & Epp). rewrite Hlook, decide_False, Epp by done. simpl.
    by rewrite u_eqb_refl, orb_true_r.
  - by rewrite (Hn eq_refl), is_zero_0.
Qed.

(** The store without a block, its predecessor being the last block again. *)
Definition del_block (h : u256) (b : block) (s : astore) : astore :=
  let s1 := set_blocks (delete (block_type_of b, h)) s in
  if links b then
    match a_lookup s (block_previous b) with
    | Some (pb, _) => clear_block (block_previous b) pb s1
    | None => s1
    end
  else s1.

Lemma del_block_wf s h b sc : tables_wf s → a_lookup s h = Some (b, sc) →
  (links b = true → block_previous b ≠ h) → tables_wf (del_block h b s).
Proof.
  intros Hwf E Hne. unfold del_block. destruct (links b); [|by apply wf_delete].
  destruct (a_lookup s (block_previous b)) as [[pb psc]|] eqn:Ep; [|by apply wf_delete].
  apply wf_insert; [by apply wf_delete|by eapply wf_lookup_hash|].
  intros b' sc'. rewrite (wf_lookup_delete _ _ _ _ _ Hwf E), decide_False by auto.
  rewrite Ep. naive_solver.
Qed.

Lemma del_block_lookup s h b sc x : tables_wf s → a_lookup s h = Some (b, sc) →
  (links b = true → block_previous b ≠ h) →
  a_lookup (del_block h b s) x =
    if decide (x = h) then None
    else if decide (links b = true ∧ x = block_previous b)
    then (λ v, (v.1, U 32 0)) <$> a_lookup s x else a_lookup s x.
Proof.
  intros Hwf E Hne. unfold del_block. pose proof (wf_lookup_delete _ _ _ _ x Hwf E) as Hd.
  destruct (links b).
  - destruct (a_lookup s (block_previous b)) as [[pb psc]|] eqn:Ep.
    + unfold clear_block. rewrite wf_lookup_insert; [|by apply wf_delete|].
      * rewrite Hd. destruct (decide (x = block_previous b)) as [->|Hx].
        -- rewrite decide_False by auto. rewrite decide_True, Ep by done. done.
        -- case_decide; [done|]. by rewrite decide_False by naive_solver.
      * intros b' sc'. rewrite (wf_lookup_delete _ _ _ _ _ Hwf E), decide_False by auto.
        rewrite Ep. naive_solver.
    + rewrite Hd. case_decide; [done|]. case_decide as Hp; [|done].
      destruct Hp as [_ ->]. by rewrite Ep.
  - rewrite Hd. case_decide; [done|]. by rewrite decide_False by naive_solver.
Qed.

Lemma del_block_size s h b sc : tables_wf s → a_lookup s h = Some (b, sc) →
  (links b = true → block_previous b ≠ h) →
  size (a_blocks s) = Datatypes.S (size (a_blocks (del_block h b s))).
Proof.
  intros Hwf E Hne. apply (wf_lookup _ _ _ _ Hwf) in E as E'.
  assert (Hs : size (a_blocks s) = Datatypes.S (size (delete (block_type_of b, h) (a_blocks s)))).
  { rewrite <-(insert_delete_id _ _ _ E') at 1. rewrite map_size_insert_None; [done|].
    apply lookup_delete_eq. }
  unfold del_block. destruct (links b); [|done].
  destruct (a_lookup s (block_previous b)) as [[pb psc]|] eqn:Ep; [|done].
  rewrite Hs. f_equal. simpl. symmetry. apply map_size_insert_Some.
  apply (wf_lookup _ _ _ _ Hwf) in Ep. rewrite lookup_delete_ne; [by rewrite Ep|].
  intros [= _ Eq]. symmetry in Eq. by apply Hne.
Qed.
End del.
