(* ===== verification/LedgerInv.v ===== *)
(** * The ledger invariant

    What a consistent ledger is, on the abstract store.  Each block carries
    ghost data ([meta]): the account it belongs to, the balance after it, its
    height, the block that set its representative and the block that opened
    its account.  [Inv] relates the tables of the store to that data. *)

From S2P Require Import Prelude Crypto Blocks Common Stats Store Ledger StoreLemmas.

Record meta : Set := Meta {
  m_owner : u256;
  m_balance : u128;
  m_height : Z;
  m_rep : u256;
  m_open : u256;
}.

Definition legacy (b : block) : bool := negb (bool_decide (block_type_of b = bt_state)).

Section defs.
Context `{LedgerConstants}.
Implicit Types (g : gmap u256 meta) (b : block) (h : u256).

(** Balance before a block: that of its predecessor, 0 for a first block. *)
Definition prev_balance g b : Z :=
  if is_zero (block_previous b) then 0
  else match g !! block_previous b with Some m => uval (m_balance m) | None => 0 end.

(** Whether a block takes funds out of its account. *)
Definition sends g b : bool :=
  match b with
  | BSend _ => true
  | BState t => uval (th_balance (hashables t)) <? prev_balance g b
  | _ => false
  end.

(** The account a sending block sends to. *)
Definition destination b : u256 :=
  match b with
  | BSend b => sh_destination (hashables b)
  | BState t => th_link (hashables t)
  | _ => U 32 0
  end.

(** The sending block a block receives from. *)
Definition receives g b : option u256 :=
  match b with
  | BReceive r => Some (rh_source (hashables r))
  | BOpen o =>
      if u_eqb (oh_source (hashables o)) genesis_account then None
      else Some (oh_source (hashables o))
  | BState t =>
      if sends g b then None
      else if is_zero (th_link (hashables t)) then None else Some (th_link (hashables t))
  | _ => None
  end.

Definition sent_amount g b (m : meta) : Z := prev_balance g b - uval (m_balance m).

Section view.
Context (look : u256 → option (block * u256)) (g : gmap u256 meta).

(** The predecessor of a block that has one. *)
Definition follows h b (m : meta) : Prop :=
  if links b then
    ∃ pb pm, look (block_previous b) = Some (pb, h) ∧ g !! block_previous b = Some pm ∧
      valid_predecessor b pb = true ∧ m_owner m = m_owner pm ∧
      m_height m = m_height pm + 1 ∧ m_open m = m_open pm ∧
      (match b with BSend _ | BReceive _ => m_rep m = m_rep pm | _ => m_rep m = h end)
  else block_previous b = U 32 0 ∧ m_height m = 1 ∧ m_open m = h ∧ m_rep m = h.

(** The fields a block states itself. *)
Definition states b (m : meta) : Prop :=
  match b with
  | BSend b => m_balance m = sh_balance (hashables b)
  | BOpen b => m_owner m = oh_account (hashables b)
  | BState b => m_owner m = th_account (hashables b) ∧ m_balance m = th_balance (hashables b)
  | _ => True
  end.

(** Where the balance of a block comes from. *)
Definition balanced b (m : meta) : Prop :=
  if sends g b then uval (m_balance m) ≤ prev_balance g b
  else match receives g b with
       | Some src => ∃ sb ssc sm, look src = Some (sb, ssc) ∧ g !! src = Some sm ∧
           sends g sb = true ∧ destination sb = m_owner m ∧
           uval (m_balance m) = prev_balance g b + sent_amount g sb sm
       | None => match b with
                 | BOpen _ => m_balance m = genesis_amount
                 | _ => uval (m_balance m) = prev_balance g b
                 end
       end.

Definition block_ok h b (m : meta) : Prop :=
  h ≠ U 32 0 ∧ h ≠ U 32 1 ∧ h ≠ genesis_account ∧ m_owner m ≠ U 32 0 ∧
  follows h b m ∧ states b m ∧ balanced b m.
End view.

(** The account of the representative an account info names. *)
Definition rep_account (look : u256 → option (block * u256)) (i : account_info) : u256 :=
  match look (rep_block i) with Some (b, _) => block_representative b | None => U 32 0 end.

Definition weight_of (look : u256 → option (block * u256)) (accounts : gmap u256 account_info)
    (r : u256) : Z :=
  map_sum (λ _ i, if decide (rep_account look i = r) then uval (balance i) else 0) accounts.

(** Funds held by accounts, and funds sent and not received. *)
Definition held (s : astore) : Z := map_sum (λ _ i, uval (balance i)) (a_accounts s).
Definition in_flight (s : astore) : Z := map_sum (λ _ p, uval (amount p)) (a_pending s).
End defs.

(** ** The checksum: the heads of all accounts, combined by exclusive or *)

Definition xor_heads (accounts : gmap u256 account_info) : u256 :=
  map_fold (λ _ i acc, u_xor (head i) acc) (U 32 0) accounts.

Definition sum_ok (s : astore) : Prop :=
  a_checksum s !! U 8 0 = Some (xor_heads (a_accounts s)).

(** The checksum after [change_latest]. *)
Definition next_sum (s : astore) (a h : u256) : u256 :=
  let c := default (U 32 0) (a_checksum s !! U 8 0) in
  u_xor (match a_accounts s !! a with Some i => u_xor c (head i) | None => c end) h.

Lemma xor_insert_new m a i : m !! a = None →
  xor_heads (<[a := i]> m) = u_xor (head i) (xor_heads m).
Proof.
  intros Ha. unfold xor_heads. rewrite map_fold_insert_L; [done| |done].
  intros j1 j2 z1 z2 y _ _ _. by rewrite <-!u_xor_assoc, (u_xor_comm (head z1)).
Qed.
Lemma xor_delete m a i : m !! a = Some i →
  xor_heads (delete a m) = u_xor (xor_heads m) (head i).
Proof.
  intros Ha. rewrite <-(insert_delete_id _ _ _ Ha) at 2.
  rewrite xor_insert_new by apply lookup_delete_eq.
  by rewrite (u_xor_comm (head i)), u_xor_cancel.
Qed.
Lemma xor_insert m a i j : m !! a = Some j →
  xor_heads (<[a := i]> m) = u_xor (u_xor (xor_heads m) (head j)) (head i).
Proof.
  intros Ha. rewrite <-insert_delete_eq, xor_insert_new by apply lookup_delete_eq.
  by rewrite (xor_delete _ _ _ Ha), u_xor_comm.
Qed.

(** The genesis block. *)
Definition genesis_open `{LedgerConstants} (b : block) : bool :=
  match b with
  | BOpen o => u_eqb (oh_source (hashables o)) genesis_account
  | _ => false
  end.

(** [delta] is what the weights lack or exceed while a rollback is under way;
    it is zero between the operations of the ledger. *)
Record InvD `{Blake2b, LedgerConstants} (delta : u256 → Z) (s : astore) (g : gmap u256 meta)
    (hist : list u256) : Prop := {
  inv_wf : tables_wf s;
  inv_dom : ∀ h, is_Some (a_lookup s h) ↔ is_Some (g !! h);
  (** the blocks in an order in which they were accepted *)
  inv_nodup : NoDup hist;
  inv_hist : ∀ h, h ∈ hist ↔ is_Some (g !! h);
  inv_size : length hist = size (a_blocks s);
  inv_order : ∀ l1 h l2 b sc, hist = l1 ++ h :: l2 → a_lookup s h = Some (b, sc) →
    (links b = true → block_previous b ∈ l1) ∧
    (∀ src, receives g b = Some src → src ∈ l1);
  (** each block is consistent with its predecessor and its source *)
  inv_block : ∀ h b sc m, a_lookup s h = Some (b, sc) → g !! h = Some m →
    block_ok (a_lookup s) g h b m;
  inv_meta : ∀ h m, g !! h = Some m →
    is_Some (g !! m_rep m) ∧ is_Some (g !! m_open m) ∧ is_Some (a_accounts s !! m_owner m);
  (** a block without successor is the head of its account *)
  inv_succ : ∀ h b sc m, a_lookup s h = Some (b, sc) → g !! h = Some m →
    (sc = U 32 0 ∧ ∃ i, a_accounts s !! m_owner m = Some i ∧ head i = h) ∨
    (∃ b' sc', a_lookup s sc = Some (b', sc') ∧ links b' = true ∧ block_previous b' = h);
  inv_account : ∀ a i, a_accounts s !! a = Some i →
    ∃ b m, a_lookup s (head i) = Some (b, U 32 0) ∧ g !! head i = Some m ∧
      m_owner m = a ∧ balance i = m_balance m ∧ rep_block i = m_rep m ∧
      open_block_hash i = m_open m ∧ block_count i = U 8 (m_height m);
  inv_frontier : ∀ h a, a_frontiers s !! h = Some a ↔
    ∃ i b sc, a_accounts s !! a = Some i ∧ head i = h ∧
      a_lookup s h = Some (b, sc) ∧ legacy b = true;
  (** pending entries are sends nobody received; a send is received at most once *)
  inv_pending : ∀ d h p, a_pending s !! (d, h) = Some p →
    ∃ b sc m, a_lookup s h = Some (b, sc) ∧ g !! h = Some m ∧ sends g b = true ∧
      destination b = d ∧ source p = m_owner m ∧ uval (amount p) = sent_amount g b m;
  inv_received : ∀ h b sc src, a_lookup s h = Some (b, sc) → receives g b = Some src →
    ∀ d, a_pending s !! (d, src) = None;
  inv_once : ∀ h h' b b' sc sc' src, a_lookup s h = Some (b, sc) →
    a_lookup s h' = Some (b', sc') → receives g b = Some src → receives g b' = Some src → h = h';
  inv_complete : ∀ h b sc, a_lookup s h = Some (b, sc) → sends g b = true →
    is_Some (a_pending s !! (destination b, h)) ∨
    ∃ h' b' sc', a_lookup s h' = Some (b', sc') ∧ receives g b' = Some h;
  (** weights, supply, cached block data, checksum *)
  inv_weight : ∀ r, uval (default (U 16 0) (a_rep s !! r)) =
    (weight_of (a_lookup s) (a_accounts s) r + delta r) mod 2 ^ 128;
  inv_supply : held s + in_flight s = 2 ^ 128 - 1;
  inv_info : ∀ h i m, a_info s !! h = Some i → g !! h = Some m →
    bi_account i = m_owner m ∧ bi_balance i = m_balance m;
  inv_cached : ∀ h b sc m, a_lookup s h = Some (b, sc) → g !! h = Some m → legacy b = true →
    m_height m mod block_info_max = 0 → is_Some (a_info s !! h);
  inv_info_one : a_info s !! U 32 1 = None;
  (** the genesis block is the first block *)
  inv_genesis : ∃ h0 b0 sc0 rest, hist = h0 :: rest ∧ a_lookup s h0 = Some (b0, sc0) ∧
    genesis_open b0 = true ∧
    ∀ h b sc, a_lookup s h = Some (b, sc) → genesis_open b = true → h = h0;
  inv_checksum : sum_ok s;
}.

Abbreviation Inv := (InvD (λ _, 0)).
Arguments inv_wf {_ _ _}.
Arguments inv_dom {_ _ _}.
Arguments inv_nodup {_ _ _}.
Arguments inv_hist {_ _ _}.
Arguments inv_size {_ _ _}.
Arguments inv_order {_ _ _}.
Arguments inv_block {_ _ _}.
Arguments inv_meta {_ _ _}.
Arguments inv_succ {_ _ _}.
Arguments inv_account {_ _ _}.
Arguments inv_frontier {_ _ _}.
Arguments inv_pending {_ _ _}.
Arguments inv_received {_ _ _}.
Arguments inv_once {_ _ _}.
Arguments inv_complete {_ _ _}.
Arguments inv_weight {_ _ _}.
Arguments inv_supply {_ _ _}.
Arguments inv_info {_ _ _}.
Arguments inv_cached {_ _ _}.
Arguments inv_info_one {_ _ _}.
Arguments inv_genesis {_ _ _}.
Arguments inv_checksum {_ _ _}.

(** A ledger is valid when some ghost data makes its store consistent. *)
Definition valid `{Blake2b, LedgerConstants} (l : ledger astore) : Prop :=
  ∃ g hist, Inv (store l) g hist.

(** Fuel that covers every chain the visitors follow: two steps per block of
    the ledger and a constant. *)
Definition enough_fuel (l : ledger astore) : nat :=
  (4 * size (a_blocks (store l)) + 8)%nat.
