(* ===== verification/Visitors.v ===== *)
(** * Correctness of the visitors

    On a consistent store the balance, amount and representative visitors
    end within the fuel and compute the ghost data of the block. *)

From S2P Require Import Prelude Crypto Blocks Common Stats Store Ledger StoreLemmas LedgerInv.

Section visitors.
Context `{Blake2b, LedgerConstants}.
Context (s : astore) (g : gmap u256 meta) (hist : list u256).
Context {delta : u256 → Z}.
Hypothesis HI : InvD delta s g hist.

Lemma block_get_run h b sc :
  a_lookup s h = Some (b, sc) → block_get (S:=astore) h s = Done (Some b, s).
Proof. intros E. simpl. unfold gets. by rewrite E. Qed.

Lemma meta_block h m : g !! h = Some m → ∃ b sc, a_lookup s h = Some (b, sc).
Proof.
  intros Hm. destruct (inv_dom _ _ _ HI h) as [_ Hd].
  destruct Hd as [[b sc] E]; eauto.
Qed.

Lemma hist_split h : is_Some (g !! h) → ∃ l1 l2, hist = l1 ++ h :: l2.
Proof. intros Hh. apply (inv_hist _ _ _ HI) in Hh. by apply list_elem_of_split. Qed.

Lemma hist_rank l1 h l2 d :
  hist = l1 ++ h :: l2 → d ∈ l1 →
  ∃ k1 k2, hist = k1 ++ d :: k2 ∧ (length k1 < length l1)%nat ∧ is_Some (g !! d).
Proof.
  intros E (k1 & k2 & ->)%list_elem_of_split. exists k1, (k2 ++ h :: l2). split_and!.
  - by rewrite E, <-app_assoc.
  - rewrite length_app. simpl. lia.
  - apply (inv_hist _ _ _ HI). rewrite E. set_solver.
Qed.

Lemma genesis_not_block : a_lookup s genesis_account = None.
Proof.
  destruct (a_lookup s genesis_account) as [[b sc]|] eqn:E; [|done].
  destruct (inv_dom _ _ _ HI genesis_account) as [[m Hm] _]; [by rewrite E|].
  destruct (inv_block _ _ _ HI _ _ _ _ E Hm) as (_ & _ & ? & _). done.
Qed.

(** A loop whose pointers are zero returns what it accumulated. *)
Lemma balance_loop_done n acc :
  (1 ≤ n)%nat → balance_loop n (Balance_visitor (U 32 0) (U 32 0) acc) s = Done (acc, s).
Proof. destruct n; [lia|]. intros _. simpl. by rewrite is_zero_0. Qed.
Lemma amount_loop_done n h acc :
  (1 ≤ n)%nat → amount_loop n h (Amount_visitor (U 32 0) (U 32 0) acc) s = Done (acc, s).
Proof. destruct n; [lia|]. intros _. simpl. by rewrite is_zero_0. Qed.

(** What a visit of a block leaves in the balance visitor, given the cached
    data of the block. *)
Definition balance_visited (i : option block_info) (b : block) (h : u256) (acc : u128)
    : balance_visitor :=
  let z := U 32 0 in
  match b, i with
  | BSend b, _ => Balance_visitor z z (u_add acc (sh_balance (hashables b)))
  | BReceive _, Some i | BChange _, Some i => Balance_visitor z z (u_add acc (bi_balance i))
  | BReceive r, None => Balance_visitor (rh_previous (hashables r)) (rh_source (hashables r)) acc
  | BChange c, None => Balance_visitor (ch_previous (hashables c)) z acc
  | BOpen b, _ => Balance_visitor z (oh_source (hashables b)) acc
  | BState b, _ => Balance_visitor z z (th_balance (hashables b))
  end.

(** One step of a loop at a block. *)
Lemma balance_loop_block n h b sc acc :
  h ≠ U 32 0 → a_lookup s h = Some (b, sc) →
  balance_loop (Datatypes.S n) (Balance_visitor h (U 32 0) acc) s =
    balance_loop n (balance_visited (a_info s !! block_hash b) b h acc) s.
Proof.
  intros Hh E. apply is_zero_false in Hh. simpl. rewrite Hh, is_zero_0. simpl.
  unfold mbind at 1, M_bind at 1, gets. rewrite E. simpl. unfold mbind, M_bind.
  destruct b; simpl; try done; unfold mbind, M_bind, gets;
    by destruct (a_info s !! _).
Qed.
Lemma balance_loop_amount n cb src acc a :
  src ≠ U 32 0 → amount_loop n src (Amount_visitor src (U 32 0) (U 16 0)) s = Done (a, s) →
  balance_loop (Datatypes.S n) (Balance_visitor cb src acc) s =
    balance_loop n (Balance_visitor cb (U 32 0) (u_add acc a)) s.
Proof.
  intros Hh E. apply is_zero_false in Hh. simpl. rewrite Hh, orb_true_r. simpl.
  unfold mbind, M_bind. by rewrite E.
Qed.
Lemma amount_loop_block n h0 h b sc v :
  h ≠ U 32 0 → a_lookup s h = Some (b, sc) → av_current_amount v = h →
  amount_loop (Datatypes.S n) h0 v s = amount_loop n h0 (amount_visit b v) s.
Proof.
  intros Hh E <-. apply is_zero_false in Hh. simpl. rewrite Hh. simpl.
  unfold mbind at 1, M_bind at 1, gets. by rewrite E.
Qed.

Lemma amount_loop_balance n h0 p bal prev :
  p ≠ U 32 0 → balance_loop n (Balance_visitor p (U 32 0) (U 16 0)) s = Done (prev, s) →
  uval bal ≤ uval prev → (1 ≤ n)%nat →
  amount_loop (Datatypes.S n) h0 (Amount_visitor (U 32 0) p bal) s = Done (u_sub prev bal, s).
Proof.
  intros Hp E Hle Hn. apply is_zero_false in Hp. simpl. rewrite is_zero_0, Hp. simpl.
  unfold mbind, M_bind. rewrite E.
  replace (if u_ltb bal prev then u_sub prev bal else u_sub bal prev) with (u_sub prev bal).
  { by apply amount_loop_done. }
  destruct (u_ltb_spec bal prev); [done|].
  replace bal with prev by (apply uval_inj; lia). done.
Qed.

(** The genesis account as a source stands for the initial supply. *)
Lemma amount_genesis n :
  (2 ≤ n)%nat →
  amount_loop n genesis_account (Amount_visitor genesis_account (U 32 0) (U 16 0)) s
    = Done (genesis_amount, s).
Proof.
  intros Hn. destruct n as [|n]; [lia|].
  pose proof genesis_account_nonzero as Hg. apply is_zero_false in Hg. simpl.
  rewrite Hg. simpl. unfold mbind, M_bind, gets. rewrite genesis_not_block. simpl.
  rewrite u_eqb_refl. by apply amount_loop_done; lia.
Qed.

Definition balance_ok (l1 : list u256) : Prop := ∀ h l2 b sc m acc fuel,
  hist = l1 ++ h :: l2 → a_lookup s h = Some (b, sc) → g !! h = Some m →
  (legacy b = true ∨ acc = U 16 0) → (2 * length l1 + 4 ≤ fuel)%nat →
  balance_loop fuel (Balance_visitor h (U 32 0) acc) s = Done (u_add acc (m_balance m), s).

Definition amount_ok (l1 : list u256) : Prop := ∀ h l2 b sc m h0 a0 fuel,
  hist = l1 ++ h :: l2 → a_lookup s h = Some (b, sc) → g !! h = Some m →
  sends g b = true → (2 * length l1 + 4 ≤ fuel)%nat →
  amount_loop fuel h0 (Amount_visitor h (U 32 0) a0) s =
    Done (U 16 (sent_amount g b m), s).

Lemma sub_sent p m : uval (m_balance m) ≤ uval p →
  u_sub p (m_balance m) = U 16 (uval p - uval (m_balance m)).
Proof.
  intros. apply uval_inj. rewrite uval_sub_small by done. symmetry.
  apply uval_U_small. pose proof (uval_range p). pose proof (uval_range (m_balance m)). lia.
Qed.

(** A sending block reads the balance of its predecessor. *)
Lemma amount_step l1 :
  (∀ k1, (length k1 < length l1)%nat → balance_ok k1) → amount_ok l1.
Proof.
  intros IH h l2 b sc m h0 a0 fuel Eh Eb Em Hs Hf.
  destruct (inv_block _ _ _ HI _ _ _ _ Eb Em) as (Hh & _ & _ & _ & Hfol & Hst & Hbal).
  destruct (inv_order _ _ _ HI _ _ _ _ _ Eh Eb) as [Hprev _].
  unfold balanced in Hbal. rewrite Hs in Hbal. unfold sent_amount.
  destruct fuel as [|[|fuel]]; [lia..|].
  rewrite (amount_loop_block _ _ h b sc) by done.
  assert (∃ bal, amount_visit b (Amount_visitor h (U 32 0) a0) =
    Amount_visitor (U 32 0) (block_previous b) bal ∧ bal = m_balance m) as (bal & -> & ->).
  { destruct b as [b|b|b|b|b]; try done; simpl in *; [by eauto|]. destruct Hst. eauto. }
  assert (links b = true) as Hl.
  { destruct b as [b|b|b|b|b]; try done. simpl in *. unfold prev_balance in Hs.
    simpl in Hs. destruct (is_zero _); [|done].
    pose proof (uval_range (th_balance (hashables b))). lia. }
  unfold follows in Hfol. rewrite Hl in Hfol.
  destruct Hfol as (pb & pm & Epb & Epm & _).
  destruct (hist_rank _ _ _ _ Eh (Hprev Hl)) as (k1 & k2 & Ek & Hlt & _).
  destruct (inv_block _ _ _ HI _ _ _ _ Epb Epm) as (Hp & _).
  unfold prev_balance in *. apply is_zero_false in Hp as Hp'. rewrite Hp', Epm in Hbal |- *.
  rewrite (amount_loop_balance _ _ _ _ (m_balance pm)); [|done| |done|lia].
  - by rewrite sub_sent.
  - rewrite (IH k1 Hlt _ k2 pb h pm) by (done || lia || auto).
    by rewrite u_add_comm, u_add_0_r.
Qed.

Lemma add_received acc a p m :
  uval (m_balance m) = uval p + a →
  u_add (u_add acc (U 16 a)) p = u_add acc (m_balance m).
Proof.
  intros E. apply uval_inj. rewrite !uval_add, uval_U.
  rewrite Zplus_mod_idemp_r, Zplus_mod_idemp_l. f_equal. lia.
Qed.

(** The cached balance of a block is its balance. *)
Lemma cached_balance h b sc m i :
  a_lookup s h = Some (b, sc) → g !! h = Some m → a_info s !! block_hash b = Some i →
  bi_balance i = m_balance m.
Proof.
  intros Eb Em Ei. rewrite (wf_lookup_hash _ _ _ _ (inv_wf _ _ _ HI) Eb) in Ei.
  by destruct (inv_info _ _ _ HI _ _ _ Ei Em).
Qed.

(** The source of a receiving block, visited for its amount. *)
Lemma source_amount l1 h l2 b sc src sb ssc sm fuel :
  (∀ k1, (length k1 < length l1)%nat → amount_ok k1) →
  hist = l1 ++ h :: l2 → a_lookup s h = Some (b, sc) → receives g b = Some src →
  a_lookup s src = Some (sb, ssc) → g !! src = Some sm → sends g sb = true →
  (2 * length l1 + 2 ≤ fuel)%nat →
  amount_loop fuel src (Amount_visitor src (U 32 0) (U 16 0)) s =
    Done (U 16 (sent_amount g sb sm), s).
Proof.
  intros IH Eh Eb Er Esb Esm Hs Hf.
  destruct (inv_order _ _ _ HI _ _ _ _ _ Eh Eb) as [_ Hsrc].
  destruct (hist_rank _ _ _ _ Eh (Hsrc _ Er)) as (k1 & k2 & Ek & Hlt & _).
  eapply (IH k1 Hlt _ k2); [done..|lia].
Qed.

(** The predecessor of a receive or change block, visited for its balance. *)
Lemma previous_balance l1 h l2 b sc m acc fuel :
  (∀ k1, (length k1 < length l1)%nat → balance_ok k1) →
  hist = l1 ++ h :: l2 → a_lookup s h = Some (b, sc) → g !! h = Some m →
  match b with BReceive _ | BChange _ => True | _ => False end →
  (2 * length l1 + 2 ≤ fuel)%nat →
  ∃ p, balance_loop fuel (Balance_visitor (block_previous b) (U 32 0) acc) s =
    Done (u_add acc p, s) ∧ uval p = prev_balance g b.
Proof.
  intros IH Eh Eb Em Hk Hf.
  destruct (inv_block _ _ _ HI _ _ _ _ Eb Em) as (_ & _ & _ & _ & Hfol & _ & _).
  destruct (inv_order _ _ _ HI _ _ _ _ _ Eh Eb) as [Hprev _].
  assert (links b = true) as Hl by (by destruct b).
  unfold follows in Hfol. rewrite Hl in Hfol.
  destruct Hfol as (pb & pm & Epb & Epm & Hv & _).
  destruct (hist_rank _ _ _ _ Eh (Hprev Hl)) as (k1 & k2 & Ek & Hlt & _).
  destruct (inv_block _ _ _ HI _ _ _ _ Epb Epm) as (Hp & _).
  exists (m_balance pm). split.
  - eapply (IH k1 Hlt _ k2); [done..| |lia].
    left. unfold legacy. by destruct b, pb.
  - unfold prev_balance. apply is_zero_false in Hp. by rewrite Hp, Epm.
Qed.

Lemma receive_balance h b sc m src :
  a_lookup s h = Some (b, sc) → g !! h = Some m → receives g b = Some src →
  ∃ sb ssc sm, a_lookup s src = Some (sb, ssc) ∧ g !! src = Some sm ∧
    sends g sb = true ∧ uval (m_balance m) = prev_balance g b + sent_amount g sb sm.
Proof.
  intros Eb Em Er.
  destruct (inv_block _ _ _ HI _ _ _ _ Eb Em) as (_ & _ & _ & _ & _ & _ & Hbal).
  assert (sends g b = false) as Hs.
  { destruct b; simpl in Er |- *; try done. by destruct (_ <? _). }
  unfold balanced in Hbal. rewrite Hs, Er in Hbal. naive_solver.
Qed.

(** The receiving account is the one the source sends to. *)
Lemma receive_owner h b sc m src sb ssc :
  a_lookup s h = Some (b, sc) → g !! h = Some m → receives g b = Some src →
  a_lookup s src = Some (sb, ssc) → destination sb = m_owner m.
Proof.
  intros Eb Em Er Esb.
  destruct (inv_block _ _ _ HI _ _ _ _ Eb Em) as (_ & _ & _ & _ & _ & _ & Hbal).
  assert (sends g b = false) as Hs.
  { destruct b; simpl in Er |- *; try done. by destruct (_ <? _). }
  unfold balanced in Hbal. rewrite Hs, Er in Hbal.
  destruct Hbal as (sb' & ? & ? & Esb' & _ & _ & Hd & _). rewrite Esb in Esb'. congruence.
Qed.

Lemma send_amount_nonneg h b sc m :
  a_lookup s h = Some (b, sc) → g !! h = Some m → sends g b = true → 0 ≤ sent_amount g b m.
Proof.
  intros Eb Em Hs.
  destruct (inv_block _ _ _ HI _ _ _ _ Eb Em) as (_ & _ & _ & _ & _ & _ & Hbal).
  unfold balanced in Hbal. rewrite Hs in Hbal. unfold sent_amount. lia.
Qed.

Lemma source_nonzero src : is_Some (g !! src) → src ≠ U 32 0.
Proof.
  intros [m Hm]. destruct (meta_block _ _ Hm) as (b & sc & Eb).
  by destruct (inv_block _ _ _ HI _ _ _ _ Eb Hm).
Qed.

Lemma balance_step l1 :
  (∀ k1, (length k1 < length l1)%nat → balance_ok k1) →
  (∀ k1, (length k1 < length l1)%nat → amount_ok k1) → balance_ok l1.
Proof.
  intros IHb IHa h l2 b sc m acc fuel Eh Eb Em Hacc Hf.
  destruct (inv_block _ _ _ HI _ _ _ _ Eb Em) as (Hh & _ & _ & _ & Hfol & Hst & Hbal).
  pose proof (λ i, cached_balance h b sc m i Eb Em) as Hinfo.
  destruct fuel as [|[|fuel]]; [lia..|].
  rewrite (balance_loop_block _ h b sc) by done.
  destruct b as [b|b|b|b|b]; unfold balance_visited.
  - (* send *) simpl in Hst. rewrite Hst. by apply balance_loop_done; lia.
  - (* receive *)
    destruct (a_info s !! _) as [i|] eqn:Ei.
    { rewrite (Hinfo i) by done. by apply balance_loop_done; lia. }
    set (src := rh_source (hashables b)).
    destruct (receive_balance h (BReceive b) sc m src Eb Em eq_refl)
      as (sb & ssc & sm & Esb & Esm & Hs & Hsum).
    assert (src ≠ U 32 0) as Hsrc by (apply source_nonzero; eauto).
    rewrite (balance_loop_amount _ _ _ _ (U 16 (sent_amount g sb sm))); [|done|].
    2: { eapply (source_amount l1 h l2 (BReceive b)); eauto; lia. }
    destruct (previous_balance l1 h l2 (BReceive b) sc m
      (u_add acc (U 16 (sent_amount g sb sm))) fuel) as (p & Hp & Ep); [done..|lia|].
    cbn [block_previous] in Hp. rewrite Hp. f_equal. f_equal. apply add_received. lia.
  - (* open *)
    unfold balanced in Hbal. simpl in Hbal. destruct (u_eqb_spec
      (oh_source (hashables b)) genesis_account) as [Eg|Eg].
    + rewrite Eg, (balance_loop_amount _ _ _ _ genesis_amount);
        [|apply genesis_account_nonzero|apply amount_genesis; lia].
      rewrite Hbal. by apply balance_loop_done; lia.
    + destruct Hbal as (sb & ssc & sm & Esb & Esm & Hs & _ & Hsum).
      assert (oh_source (hashables b) ≠ U 32 0) as Hsrc by (apply source_nonzero; eauto).
      rewrite (balance_loop_amount _ _ _ _ (U 16 (sent_amount g sb sm))); [|done|].
      2: { eapply (source_amount l1 h l2 (BOpen b)); eauto; [|lia]. simpl.
           destruct (u_eqb_spec (oh_source (hashables b)) genesis_account); done. }
      rewrite balance_loop_done by lia. f_equal. f_equal.
      unfold prev_balance in Hsum. simpl in Hsum. rewrite is_zero_0 in Hsum.
      rewrite <-(add_received acc (sent_amount g sb sm) (U 16 0)).
      * by rewrite u_add_0_r.
      * rewrite uval_zero. lia.
  - (* change *)
    destruct (a_info s !! _) as [i|] eqn:Ei.
    { rewrite (Hinfo i) by done. by apply balance_loop_done; lia. }
    destruct (previous_balance l1 h l2 (BChange b) sc m acc (Datatypes.S fuel))
      as (p & Hp & Ep); [done..|lia|].
    cbn [block_previous] in Hp. rewrite Hp. f_equal. f_equal. f_equal.
    unfold balanced in Hbal. simpl in Hbal. apply uval_inj. lia.
  - (* state *)
    destruct Hacc as [Hacc|Hacc]; [done|]. subst acc. destruct Hst as [_ Hst]. rewrite Hst.
    rewrite balance_loop_done by lia. by rewrite u_add_comm, u_add_0_r.
Qed.

Lemma visitors_ok l1 : balance_ok l1 ∧ amount_ok l1.
Proof.
  remember (length l1) as n eqn:E. revert l1 E.
  induction n as [n IH] using lt_wf_ind; intros l1 ->.
  split.
  - apply balance_step; intros k1 Hk; by eapply IH.
  - apply amount_step; intros k1 Hk; by eapply IH.
Qed.

Lemma hist_le_size l1 h l2 : hist = l1 ++ h :: l2 → (length l1 < size (a_blocks s))%nat.
Proof. intros E. rewrite <-(inv_size _ _ _ HI), E, length_app. simpl. lia. Qed.

Lemma balance_compute_correct fuel h m :
  g !! h = Some m → (2 * size (a_blocks s) + 4 ≤ fuel)%nat →
  balance_compute fuel h s = Done (m_balance m, s).
Proof.
  intros Em Hf. destruct (meta_block h m Em) as (b & sc & Eb).
  destruct (hist_split h) as (l1 & l2 & El); [eauto|].
  pose proof (hist_le_size _ _ _ El). unfold balance_compute.
  rewrite (proj1 (visitors_ok l1) h l2 b sc m) by (done || lia || auto).
  by rewrite u_add_comm, u_add_0_r.
Qed.

Lemma amount_compute_correct fuel h b sc m :
  a_lookup s h = Some (b, sc) → g !! h = Some m → sends g b = true →
  (2 * size (a_blocks s) + 4 ≤ fuel)%nat →
  amount_compute fuel h s = Done (U 16 (sent_amount g b m), s).
Proof.
  intros Eb Em Hs Hf. destruct (hist_split h) as (l1 & l2 & El); [eauto|].
  pose proof (hist_le_size _ _ _ El). unfold amount_compute.
  by rewrite (proj2 (visitors_ok l1) h l2 b sc m) by (done || lia).
Qed.

(** The representative visitor walks back to the block that set it. *)
Definition rep_body (v : representative_visitor) : M astore (representative_visitor + u256) :=
  if is_zero (rv_result v) then
    b ← block_get (rv_current v);
    match b with
    | Some b => mret (inl (representative_visit b v))
    | None => abort
    end
  else mret (inr (rv_result v)).

Lemma rep_body_done r h : r ≠ U 32 0 →
  rep_body (Representative_visitor h r) s = Done (inr r, s).
Proof. intros Hr. unfold rep_body. simpl. apply is_zero_false in Hr. by rewrite Hr. Qed.

Lemma rep_body_block h b sc : a_lookup s h = Some (b, sc) →
  rep_body (Representative_visitor h (U 32 0)) s =
    Done (inl (representative_visit b (Representative_visitor h (U 32 0))), s).
Proof.
  intros E. unfold rep_body, mbind, M_bind. cbn [rv_result rv_current].
  rewrite is_zero_0, (block_get_run h b sc E). done.
Qed.

Lemma rep_loop_correct l1 h l2 m fuel :
  hist = l1 ++ h :: l2 → g !! h = Some m → (length l1 + 2 ≤ fuel)%nat →
  loop fuel rep_body (Representative_visitor h (U 32 0)) s = Done (m_rep m, s).
Proof.
  remember (length l1) as n eqn:En. revert l1 h l2 m fuel En.
  induction n as [n IH] using lt_wf_ind; intros l1 h l2 m fuel -> Eh Em Hf.
  destruct (meta_block h m Em) as (b & sc & Eb).
  pose proof (wf_lookup_hash _ _ _ _ (inv_wf _ _ _ HI) Eb) as Hh.
  destruct (inv_block _ _ _ HI _ _ _ _ Eb Em) as (Hz & _ & _ & _ & Hfol & _ & _).
  destruct (inv_order _ _ _ HI _ _ _ _ _ Eh Eb) as [Hprev _].
  destruct fuel as [|fuel]; [lia|]. rewrite loop_S, (rep_body_block h b sc Eb).
  unfold follows in Hfol.
  assert (Hset : representative_visit b (Representative_visitor h (U 32 0)) =
    Representative_visitor h h → m_rep m = h →
    loop fuel rep_body (representative_visit b (Representative_visitor h (U 32 0))) s =
      Done (m_rep m, s)).
  { intros -> ->. destruct fuel as [|fuel]; [lia|]. by rewrite loop_S, rep_body_done. }
  assert (Hstep : links b = true →
    representative_visit b (Representative_visitor h (U 32 0)) =
      Representative_visitor (block_previous b) (U 32 0) →
    (∃ pm, g !! block_previous b = Some pm ∧ m_rep m = m_rep pm) →
    loop fuel rep_body (representative_visit b (Representative_visitor h (U 32 0))) s =
      Done (m_rep m, s)).
  { intros Hl -> (pm & Epm & ->).
    destruct (hist_rank _ _ _ _ Eh (Hprev Hl)) as (k1 & k2 & Ek & Hlt & _).
    eapply IH; [exact Hlt|done..|lia]. }
  destruct b as [b|b|b|b|b]; simpl links in Hfol.
  - apply Hstep; [done..|]. naive_solver.
  - apply Hstep; [done..|]. naive_solver.
  - apply Hset; [by simpl; rewrite Hh|]. naive_solver.
  - apply Hset; [by simpl; rewrite Hh|]. naive_solver.
  - apply Hset; [by simpl; rewrite Hh|]. destruct (negb _); naive_solver.
Qed.

Lemma representative_compute_correct fuel h m :
  g !! h = Some m → (size (a_blocks s) + 2 ≤ fuel)%nat →
  representative_compute fuel h s = Done (m_rep m, s).
Proof.
  intros Em Hf. destruct (hist_split h) as (l1 & l2 & El); [eauto|].
  pose proof (hist_le_size _ _ _ El). unfold representative_compute.
  apply (rep_loop_correct l1 h l2 m); [done..|lia].
Qed.
End visitors.
