(* ===== verification/Extend.v ===== *)
(** * Extending the ledger by one block

    [extends] says how the tables change when a block is put at the end of
    an account's chain (or opens the account).  It is what the five block
    handlers have in common, and it preserves the invariant. *)

From S2P Require Import Prelude Crypto Blocks Common Stats Store Ledger StoreLemmas LedgerInv.
From S2P Require Import Visitors.

Section extends.
Context `{Blake2b, LedgerConstants}.

(** The part of an account in the weight of a representative. *)
Definition share (look : u256 → option (block * u256)) (oi : option account_info) (r : u256) : Z :=
  match oi with
  | Some i => if decide (rep_account look i = r) then uval (balance i) else 0
  | None => 0
  end.

Definition pending_step (g : gmap u256 meta) (s s' : astore) (a h : u256) (b : block)
    (m : meta) : Prop :=
  if sends g b then
    ∃ p, a_pending s' = <[(destination b, h) := p]> (a_pending s) ∧ source p = a ∧
      uval (amount p) = sent_amount g b m
  else match receives g b with
       | Some src => is_Some (a_pending s !! (a, src)) ∧
           a_pending s' = delete (a, src) (a_pending s)
       | None => a_pending s' = a_pending s ∧ block_type_of b ≠ bt_open
       end.

Record extends (s s' : astore) (g : gmap u256 meta) (a h : u256) (b : block) (m : meta)
    (i' : account_info) : Prop := {
  e_wf : tables_wf s';
  e_look : ∀ x, a_lookup s' x = put_lookup h b (a_lookup s) x;
  e_size : size (a_blocks s') = S (size (a_blocks s));
  e_fresh : a_lookup s h = None;
  e_owner : m_owner m = a;
  e_block : block_ok (a_lookup s') (<[h := m]> g) h b m;
  e_old : match a_accounts s !! a with
          | Some i => links b = true ∧ block_previous b = head i
          | None => links b = false
          end;
  e_accounts : a_accounts s' = <[a := i']> (a_accounts s);
  e_new : head i' = h ∧ balance i' = m_balance m ∧ rep_block i' = m_rep m ∧
    open_block_hash i' = m_open m ∧ block_count i' = U 8 (m_height m);
  e_frontier : ∀ x c, a_frontiers s' !! x = Some c ↔
    (x = h ∧ c = a ∧ legacy b = true) ∨
    (x ≠ h ∧ ¬ (links b = true ∧ x = block_previous b) ∧ a_frontiers s !! x = Some c);
  e_pending : pending_step (<[h := m]> g) s s' a h b m;
  e_weight : ∀ r, uval (default (U 16 0) (a_rep s' !! r)) =
    (uval (default (U 16 0) (a_rep s !! r)) - share (a_lookup s) (a_accounts s !! a) r
      + share (a_lookup s') (Some i') r) mod 2 ^ 128;
  e_info : a_info s' =
    if (m_height m mod block_info_max =? 0) && legacy b
    then <[h := Block_info a (m_balance m)]> (a_info s) else a_info s;
  (** data cached under the digest of a new block describes the block *)
  e_stale : ∀ i, a_info s !! h = Some i → bi_account i = a ∧ bi_balance i = m_balance m;
  e_genesis : genesis_open b = false;
  e_checksum : sum_ok s';
}.
End extends.

Section preserve.
Context `{Blake2b, LedgerConstants}.
Context (s s' : astore) (g : gmap u256 meta) (hist : list u256).
Context (a h : u256) (b : block) (m : meta) (i' : account_info).
Hypothesis HI : Inv s g hist.
Hypothesis HE : extends s s' g a h b m i'.

Local Abbreviation look := (a_lookup s).
Local Abbreviation look' := (a_lookup s').
Local Abbreviation g' := (<[h := m]> g).

Lemma fresh_meta : g !! h = None.
Proof.
  destruct (g !! h) as [m0|] eqn:E; [|done].
  destruct (inv_dom _ _ _ HI h) as [_ Hd]. destruct Hd as [v Hv]; [by rewrite E|].
  by rewrite (e_fresh _ _ _ _ _ _ _ _ HE) in Hv.
Qed.

Lemma look_h : look' h = Some (b, U 32 0).
Proof. rewrite (e_look _ _ _ _ _ _ _ _ HE). unfold put_lookup. by rewrite decide_True. Qed.

Lemma look_old x b0 sc0 :
  look x = Some (b0, sc0) → x ≠ h ∧ ∃ sc1, look' x = Some (b0, sc1) ∧
    ((¬ (links b = true ∧ x = block_previous b) ∧ sc1 = sc0) ∨
     (links b = true ∧ x = block_previous b ∧ sc1 = h)).
Proof.
  intros E. assert (x ≠ h) as Hne.
  { intros ->. by rewrite (e_fresh _ _ _ _ _ _ _ _ HE) in E. }
  split; [done|]. rewrite (e_look _ _ _ _ _ _ _ _ HE). unfold put_lookup.
  rewrite decide_False by done. rewrite E. case_decide; simpl; naive_solver.
Qed.

Lemma look_new x b0 sc1 :
  look' x = Some (b0, sc1) →
  (x = h ∧ b0 = b ∧ sc1 = U 32 0) ∨ (x ≠ h ∧ ∃ sc0, look x = Some (b0, sc0)).
Proof.
  rewrite (e_look _ _ _ _ _ _ _ _ HE). unfold put_lookup. case_decide; [naive_solver|].
  case_decide; [|by eauto]. intros ([b1 sc0] & E & Eq)%fmap_Some. simplify_eq/=. eauto.
Qed.

Lemma look_block x b0 sc1 : x ≠ h → look' x = Some (b0, sc1) → ∃ sc0, look x = Some (b0, sc0).
Proof. intros Hne [(? & _)|(_ & E)]%look_new; [done|exact E]. Qed.

Lemma meta_old x m0 : g !! x = Some m0 → g' !! x = Some m0.
Proof.
  intros E. rewrite lookup_insert_ne; [done|]. intros <-. by rewrite fresh_meta in E.
Qed.

Lemma block_meta x b0 sc0 : look x = Some (b0, sc0) → ∃ m0, g !! x = Some m0.
Proof. intros E. apply (inv_dom _ _ _ HI). by rewrite E. Qed.

(** The predecessor of an old block is not the new block. *)
Lemma old_previous x b0 sc0 : look x = Some (b0, sc0) → block_previous b0 ≠ h.
Proof.
  intros E. destruct (block_meta _ _ _ E) as [m0 Em].
  destruct (inv_block _ _ _ HI _ _ _ _ E Em) as (_ & _ & _ & _ & Hf & _).
  unfold follows in Hf. destruct (links b0).
  - destruct Hf as (pb & pm & Epb & _). intros Eq. rewrite Eq in Epb.
    by rewrite (e_fresh _ _ _ _ _ _ _ _ HE) in Epb.
  - destruct Hf as [-> _].
    destruct (e_block _ _ _ _ _ _ _ _ HE) as (Hh & _). congruence.
Qed.

(** Old blocks keep their ghost data. *)
Lemma old_prev_balance x b0 sc0 :
  look x = Some (b0, sc0) → prev_balance g' b0 = prev_balance g b0.
Proof.
  intros E. unfold prev_balance. destruct (is_zero _); [done|].
  rewrite lookup_insert_ne; [done|]. apply not_eq_sym. by eapply old_previous.
Qed.
Lemma old_sends x b0 sc0 : look x = Some (b0, sc0) → sends g' b0 = sends g b0.
Proof. intros E. destruct b0; try done. simpl. by rewrite (old_prev_balance _ _ _ E). Qed.
Lemma old_receives x b0 sc0 : look x = Some (b0, sc0) → receives g' b0 = receives g b0.
Proof.
  intros E. destruct b0; try done. unfold receives. by rewrite (old_sends _ _ _ E).
Qed.
Lemma old_sent x b0 sc0 m0 :
  look x = Some (b0, sc0) → sent_amount g' b0 m0 = sent_amount g b0 m0.
Proof. intros E. unfold sent_amount. by rewrite (old_prev_balance _ _ _ E). Qed.

(** An old block has at most one successor, so only a head gets a new one. *)
Lemma follows_old x b0 sc0 m0 :
  look x = Some (b0, sc0) → follows look g x b0 m0 → follows look' g' x b0 m0.
Proof.
  intros E. unfold follows. destruct (links b0) eqn:Hl0; [|done].
  intros (pb & pm & Epb & Epm & Hrest). exists pb, pm.
  split; [|split; [by apply meta_old|done]].
  destruct (look_old _ _ _ Epb) as (Hne & sc1 & E1 & [[_ ->]|(Hl & Heq & ->)]); [done|].
  exfalso. pose proof (e_old _ _ _ _ _ _ _ _ HE) as Hold.
  destruct (a_accounts s !! a) as [i|] eqn:Ei; [|congruence].
  destruct Hold as [_ Hhead].
  destruct (inv_account _ _ _ HI _ _ Ei) as (hb & hm & Eh & _).
  rewrite Heq, Hhead, Eh in Epb. simplify_eq.
  destruct (block_meta _ _ _ E) as [m1 Em1].
  by destruct (inv_block _ _ _ HI _ _ _ _ E Em1).
Qed.

Lemma balanced_old x b0 sc0 m0 :
  look x = Some (b0, sc0) → balanced look g b0 m0 → balanced look' g' b0 m0.
Proof.
  intros E. unfold balanced.
  rewrite (old_sends _ _ _ E), (old_receives _ _ _ E), (old_prev_balance _ _ _ E).
  destruct (sends g b0); [done|]. destruct (receives g b0) as [src|]; [|done].
  intros (sb & ssc & sm & Esb & Esm & Hs & Hd & Hsum).
  destruct (look_old _ _ _ Esb) as (Hne & sc1 & E1 & _).
  exists sb, sc1, sm. rewrite (old_sends _ _ _ Esb), (old_sent _ _ _ _ Esb).
  split_and!; try done. by apply meta_old.
Qed.

Lemma new_meta x : is_Some (g' !! x) ↔ x = h ∨ is_Some (g !! x).
Proof. rewrite lookup_insert_is_Some. destruct (decide (x = h)); naive_solver. Qed.

Lemma new_look x : is_Some (look' x) ↔ x = h ∨ is_Some (look x).
Proof.
  split.
  - intros [[b0 sc1] E]. apply look_new in E as [(? & _)|(_ & ? & E)]; eauto.
  - intros [->|[[b0 sc0] E]]; [rewrite look_h; eauto|].
    destruct (look_old _ _ _ E) as (_ & sc1 & E1 & _). eauto.
Qed.

Lemma new_previous : links b = true →
  block_previous b ≠ h ∧ ∃ pb pm, look (block_previous b) = Some (pb, U 32 0) ∧
    g !! block_previous b = Some pm ∧ m_owner m = m_owner pm.
Proof.
  intros Hl. destruct (e_block _ _ _ _ _ _ _ _ HE) as (Hz & _ & _ & _ & Hf & _).
  unfold follows in Hf. rewrite Hl in Hf. destruct Hf as (pb & pm & Epb & Epm & _ & Ho & _).
  assert (block_previous b ≠ h) as Hne.
  { intros Eq. rewrite Eq, look_h in Epb. simplify_eq. }
  split; [done|]. rewrite lookup_insert_ne in Epm by done.
  pose proof (e_old _ _ _ _ _ _ _ _ HE) as Hold.
  destruct (a_accounts s !! a) as [i|] eqn:Ei; [|congruence].
  destruct Hold as [_ Hhead]. destruct (inv_account _ _ _ HI _ _ Ei) as (hb & hm & Eh & _).
  rewrite Hhead in *. eauto.
Qed.

Lemma new_source src : receives g' b = Some src →
  src ≠ h ∧ sends g' b = false ∧ ∃ sb ssc sm, look src = Some (sb, ssc) ∧ g !! src = Some sm ∧
    sends g sb = true ∧ destination sb = a ∧
    uval (m_balance m) = prev_balance g' b + sent_amount g sb sm.
Proof.
  intros Er. assert (sends g' b = false) as Hs.
  { destruct b; simpl in Er |- *; try done. by destruct (_ <? _). }
  destruct (e_block _ _ _ _ _ _ _ _ HE) as (_ & _ & _ & _ & _ & _ & Hb).
  unfold balanced in Hb. rewrite Hs, Er in Hb.
  destruct Hb as (sb & ssc & sm & Esb & Esm & Hss & Hd & Hsum).
  assert (src ≠ h) as Hne by (intros ->; rewrite look_h in Esb; congruence).
  destruct (look_block _ _ _ Hne Esb) as [sc0 E0].
  rewrite lookup_insert_ne in Esm by done.
  rewrite (old_sends _ _ _ E0) in Hss. rewrite (old_sent _ _ _ _ E0) in Hsum.
  rewrite (e_owner _ _ _ _ _ _ _ _ HE) in Hd. naive_solver.
Qed.

Lemma fresh_hist : h ∉ hist.
Proof. rewrite (inv_hist _ _ _ HI), fresh_meta. by intros [? ?]. Qed.

Lemma ext_order l1 x l2 b0 sc0 :
  hist ++ [h] = l1 ++ x :: l2 → look' x = Some (b0, sc0) →
  (links b0 = true → block_previous b0 ∈ l1) ∧
  (∀ src, receives g' b0 = Some src → src ∈ l1).
Proof.
  intros [(-> & -> & ->)|(k2 & -> & Eh)]%snoc_split E.
  - rewrite look_h in E. injection E as <- <-. split.
    + intros Hl. destruct (new_previous Hl) as (_ & _ & pm & _ & Epm & _).
      apply (inv_hist _ _ _ HI). eauto.
    + intros src (_ & _ & _ & _ & sm & _ & Esm & _)%new_source.
      apply (inv_hist _ _ _ HI). eauto.
  - assert (x ≠ h) as Hne.
    { intros ->. apply fresh_hist. rewrite Eh. set_solver. }
    destruct (look_block _ _ _ Hne E) as [sc1 E1].
    rewrite (old_receives _ _ _ E1). by eapply (inv_order _ _ _ HI).
Qed.

Lemma ext_block x b0 sc0 m0 :
  look' x = Some (b0, sc0) → g' !! x = Some m0 → block_ok look' g' x b0 m0.
Proof.
  intros E Em. destruct (decide (x = h)) as [->|Hne].
  - rewrite look_h in E. rewrite lookup_insert_eq in Em.
    injection E as <- <-. injection Em as <-.
    apply (e_block _ _ _ _ _ _ _ _ HE).
  - destruct (look_block _ _ _ Hne E) as [sc1 E1]. rewrite lookup_insert_ne in Em by done.
    destruct (inv_block _ _ _ HI _ _ _ _ E1 Em) as (? & ? & ? & ? & Hf & ? & Hb).
    split_and!; try done; [by eapply follows_old|by eapply balanced_old].
Qed.

Lemma new_account_owner : is_Some (a_accounts s' !! a).
Proof. rewrite (e_accounts _ _ _ _ _ _ _ _ HE). rewrite lookup_insert_eq. eauto. Qed.

Lemma ext_meta x m0 : g' !! x = Some m0 →
  is_Some (g' !! m_rep m0) ∧ is_Some (g' !! m_open m0) ∧ is_Some (a_accounts s' !! m_owner m0).
Proof.
  intros Em. destruct (decide (x = h)) as [->|Hne].
  - rewrite lookup_insert_eq in Em. injection Em as <-.
    rewrite (e_owner _ _ _ _ _ _ _ _ HE). split_and!; [| |apply new_account_owner].
    all: apply new_meta.
    all: destruct (e_block _ _ _ _ _ _ _ _ HE) as (_ & _ & _ & _ & Hf & _);
      unfold follows in Hf; destruct (links b) eqn:Hl.
    all: try (destruct Hf as (_ & _ & Ho & Hr); auto; fail).
    all: destruct (new_previous Hl) as (Hp & _ & pm & _ & Epm & _);
      destruct Hf as (pb & pm' & _ & Epm' & _ & _ & _ & Ho & Hr);
      rewrite lookup_insert_ne in Epm' by done; rewrite Epm in Epm'; simplify_eq;
      destruct (inv_meta _ _ _ HI _ _ Epm) as (? & ? & _).
    + destruct b; rewrite Hr; auto.
    + rewrite Ho. auto.
  - rewrite lookup_insert_ne in Em by done.
    destruct (inv_meta _ _ _ HI _ _ Em) as (? & ? & ?).
    rewrite !new_meta, (e_accounts _ _ _ _ _ _ _ _ HE), lookup_insert_is_Some'. auto.
Qed.

(** Another account does not own the predecessor. *)
Lemma other_head c i : c ≠ a → a_accounts s !! c = Some i →
  a_accounts s' !! c = Some i ∧ head i ≠ h ∧ ¬ (links b = true ∧ head i = block_previous b).
Proof.
  intros Hne Ei. destruct (inv_account _ _ _ HI _ _ Ei) as (b0 & m0 & E0 & Em0 & Ho & _).
  split_and!.
  - by rewrite (e_accounts _ _ _ _ _ _ _ _ HE), lookup_insert_ne.
  - by destruct (look_old _ _ _ E0).
  - intros [Hl Eq]. destruct (new_previous Hl) as (_ & pb & pm & _ & Epm & Hom).
    rewrite <-Eq, Em0 in Epm. injection Epm as ->.
    pose proof (e_owner _ _ _ _ _ _ _ _ HE). congruence.
Qed.

(** The account of the new block, before. *)
Lemma own_head i : a_accounts s !! a = Some i → links b = true ∧ block_previous b = head i.
Proof. intros E. pose proof (e_old _ _ _ _ _ _ _ _ HE) as Hold. by rewrite E in Hold. Qed.

Lemma own_new : a_accounts s' !! a = Some i' ∧ head i' = h.
Proof.
  rewrite (e_accounts _ _ _ _ _ _ _ _ HE), lookup_insert_eq.
  split; [done|]. apply (e_new _ _ _ _ _ _ _ _ HE).
Qed.

Lemma ext_succ x b0 sc1 m0 : look' x = Some (b0, sc1) → g' !! x = Some m0 →
  (sc1 = U 32 0 ∧ ∃ i, a_accounts s' !! m_owner m0 = Some i ∧ head i = x) ∨
  (∃ b' sc', look' sc1 = Some (b', sc') ∧ links b' = true ∧ block_previous b' = x).
Proof.
  intros E Em. destruct (decide (x = h)) as [->|Hne].
  - rewrite look_h in E. injection E as <- <-. rewrite lookup_insert_eq in Em.
    injection Em as <-. left. split; [done|]. exists i'.
    rewrite (e_owner _ _ _ _ _ _ _ _ HE). apply own_new.
  - destruct (look_block _ _ _ Hne E) as [sc0 E0]. rewrite lookup_insert_ne in Em by done.
    destruct (look_old _ _ _ E0) as (_ & sc2 & E2 & Hsc). rewrite E in E2. simplify_eq.
    destruct Hsc as [[Hnp ->]|(Hl & -> & ->)].
    2: { right. rewrite look_h. eauto. }
    destruct (inv_succ _ _ _ HI _ _ _ _ E0 Em) as [[-> (i & Ei & Hi)]|(b1 & sc' & E1 & Hb1)].
    + left. split; [done|]. exists i. split; [|done].
      destruct (decide (m_owner m0 = a)) as [Eq|Hna].
      * rewrite Eq in Ei. destruct (own_head i Ei). destruct Hnp. split; congruence.
      * by apply other_head.
    + right. destruct (look_old _ _ _ E1) as (_ & sc3 & E3 & _). naive_solver.
Qed.

Lemma ext_account c i : a_accounts s' !! c = Some i →
  ∃ b0 m0, look' (head i) = Some (b0, U 32 0) ∧ g' !! head i = Some m0 ∧
    m_owner m0 = c ∧ balance i = m_balance m0 ∧ rep_block i = m_rep m0 ∧
    open_block_hash i = m_open m0 ∧ block_count i = U 8 (m_height m0).
Proof.
  destruct (decide (c = a)) as [->|Hne].
  - destruct own_new as [-> Hh]. intros [= <-]. rewrite Hh. exists b, m.
    rewrite look_h, lookup_insert_eq. split_and!; try done;
      try apply (e_owner _ _ _ _ _ _ _ _ HE); apply (e_new _ _ _ _ _ _ _ _ HE).
  - rewrite (e_accounts _ _ _ _ _ _ _ _ HE), lookup_insert_ne by done. intros Ei.
    destruct (other_head c i Hne Ei) as (_ & _ & Hnp).
    destruct (inv_account _ _ _ HI _ _ Ei) as (b0 & m0 & E0 & Em0 & Hrest).
    exists b0, m0. destruct (look_old _ _ _ E0) as (_ & sc1 & E1 & [[_ ->]|(? & ? & _)]);
      [|by destruct Hnp]. split; [done|]. split; [by apply meta_old|done].
Qed.

Lemma ext_frontier x c : a_frontiers s' !! x = Some c ↔
  ∃ i b0 sc0, a_accounts s' !! c = Some i ∧ head i = x ∧ look' x = Some (b0, sc0) ∧
    legacy b0 = true.
Proof.
  rewrite (e_frontier _ _ _ _ _ _ _ _ HE). split.
  - intros [(-> & -> & Hleg)|(Hx & Hnp & Hf)].
    + exists i', b, (U 32 0). rewrite look_h. by destruct own_new.
    + apply (inv_frontier _ _ _ HI) in Hf as (i & b0 & sc0 & Ei & Hi & E0 & Hleg).
      destruct (look_old _ _ _ E0) as (_ & sc1 & E1 & _).
      exists i, b0, sc1. split_and!; try done.
      apply other_head; [|done]. intros ->. destruct (own_head i Ei).
      destruct Hnp. split; congruence.
  - intros (i & b0 & sc0 & Ei & Hi & E0 & Hleg).
    destruct (decide (c = a)) as [->|Hne].
    + destruct own_new as [Enew Hh]. rewrite Enew in Ei. injection Ei as <-.
      rewrite Hh in Hi. subst x. rewrite look_h in E0. injection E0 as <- <-. by left.
    + right. rewrite (e_accounts _ _ _ _ _ _ _ _ HE), lookup_insert_ne in Ei by done.
      destruct (other_head c i Hne Ei) as (_ & Hh & Hnp). subst x. split_and!; [done..|].
      apply (inv_frontier _ _ _ HI). destruct (look_block _ _ _ Hh E0) as [sc1 E1].
      naive_solver.
Qed.

(** ** Pending entries *)

Lemma pending_hash d x p : a_pending s !! (d, x) = Some p → x ≠ h.
Proof.
  intros E. destruct (inv_pending _ _ _ HI _ _ _ E) as (b0 & sc0 & m0 & E0 & _).
  by destruct (look_old _ _ _ E0).
Qed.

Lemma pending_old d x p : a_pending s' !! (d, x) = Some p → x ≠ h →
  a_pending s !! (d, x) = Some p.
Proof.
  pose proof (e_pending _ _ _ _ _ _ _ _ HE) as HP. unfold pending_step in HP.
  intros E Hx. destruct (sends g' b).
  - destruct HP as (q & HP & _). rewrite HP, lookup_insert_ne in E; congruence.
  - destruct (receives g' b) as [src|].
    + destruct HP as [_ HP]. rewrite HP in E. by apply lookup_delete_Some in E as [_ E].
    + destruct HP as [HP _]. by rewrite HP in E.
Qed.

Lemma ext_pending d x p : a_pending s' !! (d, x) = Some p →
  ∃ b0 sc0 m0, look' x = Some (b0, sc0) ∧ g' !! x = Some m0 ∧ sends g' b0 = true ∧
    destination b0 = d ∧ source p = m_owner m0 ∧ uval (amount p) = sent_amount g' b0 m0.
Proof.
  intros E. destruct (decide (x = h)) as [->|Hx].
  - pose proof (e_pending _ _ _ _ _ _ _ _ HE) as HP. unfold pending_step in HP.
    assert (∀ q, a_pending s !! (d, h) ≠ Some q) as Hno
      by (intros q Hq; by apply pending_hash in Hq).
    destruct (sends g' b) eqn:Hs.
    + destruct HP as (q & HP & Hsrc & Ham). rewrite HP in E.
      apply lookup_insert_Some in E as [[[= <-] <-]|[_ E]]; [|by destruct (Hno p)].
      exists b, (U 32 0), m. rewrite look_h, lookup_insert_eq.
      rewrite (e_owner _ _ _ _ _ _ _ _ HE). done.
    + destruct (receives g' b) as [src|].
      * destruct HP as [_ HP]. rewrite HP in E. apply lookup_delete_Some in E as [_ E].
        by destruct (Hno p).
      * destruct HP as [HP _]. rewrite HP in E. by destruct (Hno p).
  - apply pending_old in E; [|done].
    destruct (inv_pending _ _ _ HI _ _ _ E) as (b0 & sc0 & m0 & E0 & Em0 & Hs & Hrest).
    destruct (look_old _ _ _ E0) as (_ & sc1 & E1 & _). exists b0, sc1, m0.
    rewrite (old_sends _ _ _ E0), (old_sent _ _ _ _ E0). split_and!; try done; try naive_solver.
    by apply meta_old.
Qed.

(** The entry consumed by a receiving block. *)
Lemma consumed src : receives g' b = Some src →
  is_Some (a_pending s !! (a, src)) ∧ a_pending s' = delete (a, src) (a_pending s).
Proof.
  intros Er. pose proof (e_pending _ _ _ _ _ _ _ _ HE) as HP. unfold pending_step in HP.
  destruct (new_source src Er) as (_ & Hs & _). by rewrite Hs, Er in HP.
Qed.

Lemma ext_received x b0 sc0 src : look' x = Some (b0, sc0) → receives g' b0 = Some src →
  ∀ d, a_pending s' !! (d, src) = None.
Proof.
  intros E Er d. destruct (a_pending s' !! (d, src)) as [p|] eqn:Ep; [exfalso|done].
  destruct (decide (x = h)) as [->|Hx].
  - rewrite look_h in E. injection E as <- <-.
    destruct (new_source src Er) as (Hne & _ & sb & ssc & sm & Esb & _ & _ & Hd & _).
    pose proof (pending_old _ _ _ Ep Hne) as Eo.
    destruct (inv_pending _ _ _ HI _ _ _ Eo) as (sb' & ? & ? & Esb' & _ & _ & Hd' & _).
    rewrite Esb in Esb'. injection Esb' as <- <-. rewrite Hd in Hd'. subst d.
    destruct (consumed src Er) as [_ Hc]. rewrite Hc in Ep.
    by rewrite lookup_delete_eq in Ep.
  - destruct (look_block _ _ _ Hx E) as [sc1 E1]. rewrite (old_receives _ _ _ E1) in Er.
    destruct (block_meta _ _ _ E1) as [m0 Em0].
    destruct (receive_balance s g hist HI _ _ _ _ _ E1 Em0 Er) as (sb & ssc & sm & Esb & _).
    destruct (look_old _ _ _ Esb) as [Hne _].
    pose proof (pending_old _ _ _ Ep Hne) as Eo.
    by rewrite (inv_received _ _ _ HI _ _ _ _ E1 Er d) in Eo.
Qed.

Lemma received_twice x b0 sc0 src : look x = Some (b0, sc0) → receives g b0 = Some src →
  receives g' b = Some src → False.
Proof.
  intros E Er Erb. destruct (consumed src Erb) as [[p Hp] _].
  by rewrite (inv_received _ _ _ HI _ _ _ _ E Er) in Hp.
Qed.

Lemma ext_once x x' b0 b1 sc0 sc1 src :
  look' x = Some (b0, sc0) → look' x' = Some (b1, sc1) →
  receives g' b0 = Some src → receives g' b1 = Some src → x = x'.
Proof.
  intros E E' Er Er'.
  destruct (decide (x = h)) as [->|Hx], (decide (x' = h)) as [->|Hx']; [done|..].
  - rewrite look_h in E. injection E as <- <-. destruct (look_block _ _ _ Hx' E') as [sc E1].
    rewrite (old_receives _ _ _ E1) in Er'. destruct (received_twice _ _ _ _ E1 Er' Er).
  - rewrite look_h in E'. injection E' as <- <-. destruct (look_block _ _ _ Hx E) as [sc E1].
    rewrite (old_receives _ _ _ E1) in Er. destruct (received_twice _ _ _ _ E1 Er Er').
  - destruct (look_block _ _ _ Hx E) as [sc E1], (look_block _ _ _ Hx' E') as [sc' E1'].
    rewrite (old_receives _ _ _ E1) in Er. rewrite (old_receives _ _ _ E1') in Er'.
    by eapply (inv_once _ _ _ HI).
Qed.

Lemma ext_complete x b0 sc0 : look' x = Some (b0, sc0) → sends g' b0 = true →
  is_Some (a_pending s' !! (destination b0, x)) ∨
  ∃ h' b' sc', look' h' = Some (b', sc') ∧ receives g' b' = Some x.
Proof.
  intros E Hs. pose proof (e_pending _ _ _ _ _ _ _ _ HE) as HP. unfold pending_step in HP.
  destruct (decide (x = h)) as [->|Hx].
  - rewrite look_h in E. injection E as <- <-. rewrite Hs in HP.
    destruct HP as (p & -> & _). left. rewrite lookup_insert_eq. eauto.
  - destruct (look_block _ _ _ Hx E) as [sc1 E1]. rewrite (old_sends _ _ _ E1) in Hs.
    destruct (inv_complete _ _ _ HI _ _ _ E1 Hs) as [Hp|(h' & b' & sc' & E' & Er')].
    2: { right. destruct (look_old _ _ _ E') as (_ & sc2 & E2 & _).
         exists h', b', sc2. by rewrite (old_receives _ _ _ E'). }
    destruct (sends g' b) eqn:Hsb.
    { destruct HP as (p & -> & _). left. rewrite lookup_insert_ne by congruence. done. }
    destruct (receives g' b) as [src|] eqn:Er.
    + destruct HP as [_ ->]. destruct (decide ((a, src) = (destination b0, x))) as [Eq|Hne].
      * right. exists h, b, (U 32 0). rewrite look_h, Er. split; congruence.
      * left. by rewrite lookup_delete_ne.
    + destruct HP as [-> _]. by left.
Qed.

(** ** Sums *)

Definition old_balance : Z :=
  match a_accounts s !! a with Some i => uval (balance i) | None => 0 end.

Lemma new_prev_balance : prev_balance g' b = old_balance.
Proof.
  unfold prev_balance, old_balance. pose proof (e_old _ _ _ _ _ _ _ _ HE) as Hold.
  destruct (a_accounts s !! a) as [i|] eqn:Ei.
  - destruct Hold as [Hl Hp].
    destruct (inv_account _ _ _ HI _ _ Ei) as (hb & hm & Eh & Emh & _ & -> & _).
    destruct (inv_block _ _ _ HI _ _ _ _ Eh Emh) as (Hz & _).
    destruct (new_previous Hl) as (Hne & _).
    rewrite Hp in *. apply is_zero_false in Hz. rewrite Hz.
    by rewrite lookup_insert_ne, Emh by done.
  - destruct (e_block _ _ _ _ _ _ _ _ HE) as (_ & _ & _ & _ & Hf & _).
    unfold follows in Hf. rewrite Hold in Hf. destruct Hf as [-> _]. by rewrite is_zero_0.
Qed.

Lemma ext_held : held s' = held s - old_balance + uval (m_balance m).
Proof.
  unfold held, old_balance. rewrite (e_accounts _ _ _ _ _ _ _ _ HE).
  destruct (e_new _ _ _ _ _ _ _ _ HE) as (_ & <- & _).
  destruct (a_accounts s !! a) as [i|] eqn:Ei.
  - by rewrite (map_sum_insert _ _ _ _ i).
  - rewrite map_sum_insert_new by done. lia.
Qed.

Lemma ext_in_flight : in_flight s' = in_flight s + old_balance - uval (m_balance m).
Proof.
  pose proof (e_pending _ _ _ _ _ _ _ _ HE) as HP. unfold pending_step in HP.
  unfold in_flight. rewrite <-new_prev_balance. destruct (sends g' b) eqn:Hs.
  - destruct HP as (p & -> & _ & Ham). rewrite map_sum_insert_new.
    + unfold sent_amount in Ham. lia.
    + destruct (a_pending s !! _) as [q|] eqn:Eq; [|done]. by apply pending_hash in Eq.
  - destruct (receives g' b) as [src|] eqn:Er.
    + destruct HP as [[p Hp] ->]. rewrite (map_sum_delete _ _ _ p Hp).
      destruct (new_source src Er) as (_ & _ & sb & ssc & sm & Esb & Esm & _ & _ & Hsum).
      destruct (inv_pending _ _ _ HI _ _ _ Hp) as (sb' & ? & sm' & Esb' & Esm' & _ & _ & _ & Ham).
      rewrite Esb in Esb'. rewrite Esm in Esm'. injection Esb' as <- <-.
      injection Esm' as <-. lia.
    + destruct HP as [-> Hno].
      destruct (e_block _ _ _ _ _ _ _ _ HE) as (_ & _ & _ & _ & _ & _ & Hb).
      unfold balanced in Hb. rewrite Hs, Er in Hb. destruct b; simpl in Hno; try done; lia.
Qed.

Lemma ext_supply : held s' + in_flight s' = 2 ^ 128 - 1.
Proof. rewrite ext_held, ext_in_flight. pose proof (inv_supply _ _ _ HI). lia. Qed.

Lemma old_rep_account c i : a_accounts s !! c = Some i →
  rep_account look' i = rep_account look i.
Proof.
  intros Ei. destruct (inv_account _ _ _ HI _ _ Ei) as (hb & hm & _ & Emh & _ & _ & Hr & _).
  destruct (inv_meta _ _ _ HI _ _ Emh) as (Hrep & _). rewrite <-Hr in Hrep.
  apply (inv_dom _ _ _ HI) in Hrep as [[rb rsc] Erb]. unfold rep_account. rewrite Erb.
  by destruct (look_old _ _ _ Erb) as (_ & sc1 & -> & _).
Qed.

Lemma ext_weight_of r : weight_of look' (a_accounts s') r =
  weight_of look (a_accounts s) r - share look (a_accounts s !! a) r + share look' (Some i') r.
Proof.
  unfold weight_of. rewrite (e_accounts _ _ _ _ _ _ _ _ HE).
  assert (Hext : map_sum (λ _ i, if decide (rep_account look' i = r) then uval (balance i) else 0)
      (a_accounts s) =
    map_sum (λ _ i, if decide (rep_account look i = r) then uval (balance i) else 0)
      (a_accounts s)).
  { apply map_sum_ext. intros c i Ei. by rewrite (old_rep_account c i Ei). }
  unfold share. destruct (a_accounts s !! a) as [i|] eqn:Ei.
  - rewrite (map_sum_insert _ _ _ _ i Ei), Hext. by rewrite (old_rep_account a i Ei).
  - rewrite map_sum_insert_new by done. rewrite Hext. lia.
Qed.

Lemma weight_bounds lk acc r : 0 ≤ weight_of lk acc r ≤ map_sum (λ _ i, uval (balance i)) acc.
Proof.
  unfold weight_of. split.
  - apply map_sum_nonneg. intros k i _. pose proof (uval_range (balance i)). case_decide; lia.
  - apply map_sum_le. intros k i _. pose proof (uval_range (balance i)). case_decide; lia.
Qed.

Lemma in_flight_nonneg st : 0 ≤ in_flight st.
Proof. apply map_sum_nonneg. intros k p _. apply uval_range. Qed.

Lemma ext_weight r :
  uval (default (U 16 0) (a_rep s' !! r)) = (weight_of look' (a_accounts s') r + 0) mod 2 ^ 128.
Proof.
  rewrite (e_weight _ _ _ _ _ _ _ _ HE), (inv_weight _ _ _ HI), ext_weight_of.
  set (w := weight_of look (a_accounts s) r). set (x := share look _ r). set (y := share look' _ r).
  rewrite !Z.add_0_r, <-(Zplus_mod_idemp_l (w mod _ - x)), Zminus_mod_idemp_l.
  by rewrite Zplus_mod_idemp_l.
Qed.

Lemma ext_info x i m0 : a_info s' !! x = Some i → g' !! x = Some m0 →
  bi_account i = m_owner m0 ∧ bi_balance i = m_balance m0.
Proof.
  intros Ei Em. rewrite (e_info _ _ _ _ _ _ _ _ HE) in Ei.
  pose proof (e_owner _ _ _ _ _ _ _ _ HE) as Ho.
  destruct (decide (x = h)) as [->|Hne].
  - rewrite lookup_insert_eq in Em. simplify_eq.
    destruct (_ && _); [rewrite lookup_insert_eq in Ei; by simplify_eq|].
    by apply (e_stale _ _ _ _ _ _ _ _ HE).
  - rewrite lookup_insert_ne in Em by done. eapply (inv_info _ _ _ HI); [|done].
    destruct (_ && _); [by rewrite lookup_insert_ne in Ei|done].
Qed.

Lemma ext_cached x b0 sc0 m0 : look' x = Some (b0, sc0) → g' !! x = Some m0 →
  legacy b0 = true → m_height m0 mod block_info_max = 0 → is_Some (a_info s' !! x).
Proof.
  intros Eb Em Hl Hm. rewrite (e_info _ _ _ _ _ _ _ _ HE).
  destruct (decide (x = h)) as [->|Hne].
  - rewrite look_h in Eb. rewrite lookup_insert_eq in Em. simplify_eq.
    rewrite Hl, Hm. simpl. rewrite lookup_insert_eq. eauto.
  - rewrite lookup_insert_ne in Em by done. apply look_block in Eb as [sc1 Eb]; [|done].
    pose proof (inv_cached _ _ _ HI _ _ _ _ Eb Em Hl Hm).
    destruct (_ && _); [by rewrite lookup_insert_ne|done].
Qed.

Lemma ext_genesis : ∃ h0 b1 sc1 rest, hist ++ [h] = h0 :: rest ∧ look' h0 = Some (b1, sc1) ∧
  genesis_open b1 = true ∧
  ∀ x b0 sc0, look' x = Some (b0, sc0) → genesis_open b0 = true → x = h0.
Proof.
  destruct (inv_genesis _ _ _ HI) as (h0 & b1 & sc1 & rest & Eh & E1 & Hb1 & Hg).
  destruct (look_old _ _ _ E1) as (_ & sc2 & E2 & _).
  exists h0, b1, sc2, (rest ++ [h]). rewrite Eh. split_and!; [done..|].
  intros x b0 sc0 [(_ & -> & _)|(_ & sc & E)]%look_new Hb; [|by eapply Hg].
  by rewrite (e_genesis _ _ _ _ _ _ _ _ HE) in Hb.
Qed.

Lemma extends_inv : Inv s' g' (hist ++ [h]).
Proof.
  constructor.
  - apply (e_wf _ _ _ _ _ _ _ _ HE).
  - intros x. rewrite new_look, new_meta. by rewrite (inv_dom _ _ _ HI x).
  - apply NoDup_app. split_and!; [apply (inv_nodup _ _ _ HI)| |apply NoDup_singleton].
    intros x Hx ->%list_elem_of_singleton. by apply fresh_hist.
  - intros x. rewrite elem_of_app, list_elem_of_singleton, new_meta, (inv_hist _ _ _ HI).
    naive_solver.
  - rewrite length_app, (inv_size _ _ _ HI), (e_size _ _ _ _ _ _ _ _ HE). simpl. lia.
  - apply ext_order.
  - apply ext_block.
  - apply ext_meta.
  - apply ext_succ.
  - apply ext_account.
  - apply ext_frontier.
  - apply ext_pending.
  - apply ext_received.
  - apply ext_once.
  - apply ext_complete.
  - apply ext_weight.
  - apply ext_supply.
  - apply ext_info.
  - apply ext_cached.
  - rewrite (e_info _ _ _ _ _ _ _ _ HE). pose proof (inv_info_one _ _ _ HI) as H1.
    destruct (_ && _); [|done]. rewrite lookup_insert_ne; [done|].
    apply (e_block _ _ _ _ _ _ _ _ HE).
  - apply ext_genesis.
  - apply (e_checksum _ _ _ _ _ _ _ _ HE).
Qed.
End preserve.
