(* ===== verification/ProcessLemmas.v ===== *)
(** * Running the ledger on the abstract store

    Weakest-precondition rules for the store calls and for [change_latest],
    in the form the block handlers use them. *)

From S2P Require Import Prelude Crypto Blocks Common Stats Store Ledger StoreLemmas LedgerInv.
From S2P Require Import Visitors Extend.

Lemma set_store_store {S} (l : ledger S) : set_store l (store l) = l.
Proof. by destruct l. Qed.

(** The store after the account table, block info and checksum updates of
    [change_latest]. *)
Definition latest_store (s : astore) (a h rep : u256) (bal : u128) (cnt : u64)
    (is_state : bool) (now : u64) (ck : u256) : astore :=
  let op := match a_accounts s !! a with Some i => open_block_hash i | None => h end in
  let s1 := set_accounts <[a := Account_info h rep op bal now cnt]> s in
  let s2 := if (uval cnt mod block_info_max =? 0) && negb is_state
            then set_info <[h := Block_info a bal]> s1 else s1 in
  set_checksum <[U 8 0 := ck]> s2.

Section rules.
Context `{Blake2b, LedgerConstants}.
Implicit Types (l : ledger astore) (h : u256).

Lemma wp_st_read {A} (f : astore → A) l (Q : A → ledger astore → Prop) :
  Q (f (store l)) l → wp (st (gets f)) l Q.
Proof. unfold wp, st, gets. by rewrite set_store_store. Qed.

Lemma wp_st_write (f : astore → astore) l (Q : unit → ledger astore → Prop) :
  Q tt (set_store l (f (store l))) → wp (st (modify f)) l Q.
Proof. done. Qed.

Lemma wp_st {A} (m : M astore A) l a s (Q : A → ledger astore → Prop) :
  m (store l) = Done (a, s) → Q a (set_store l s) → wp (st m) l Q.
Proof. unfold wp, st. by intros ->. Qed.

Lemma wp_st_keep {A} (m : M astore A) l a (Q : A → ledger astore → Prop) :
  m (store l) = Done (a, store l) → Q a l → wp (st m) l Q.
Proof. unfold wp, st. intros ->. by rewrite set_store_store. Qed.

Lemma wp_block_put l h b (Q : unit → ledger astore → Prop) :
  tables_wf (store l) → put_pre (store l) h b →
  Q tt (set_store l (put_block h b (store l))) →
  wp (st (block_put h b (U 32 0))) l Q.
Proof. intros Hwf Hp. eapply wp_st. by apply a_block_put_run. Qed.

Lemma wp_del {K V} `{Countable K} (proj : astore → gmap K V) set (k : K) l
    (Q : unit → ledger astore → Prop) :
  is_Some (proj (store l) !! k) → Q tt (set_store l (set (delete k) (store l))) →
  wp (st (a_del proj set k)) l Q.
Proof. intros Hs. eapply wp_st. unfold a_del. by rewrite decide_True. Qed.

Definition add_rep (b : block) (w : u128) (s : astore) : astore :=
  set_rep <[block_representative b :=
    u_add (default (U 16 0) (a_rep s !! block_representative b)) w]> s.

Lemma wp_representation_add l h b sc w (Q : unit → ledger astore → Prop) :
  a_lookup (store l) h = Some (b, sc) → Q tt (set_store l (add_rep b w (store l))) →
  wp (st (representation_add h w)) l Q.
Proof.
  intros E. eapply wp_st. unfold representation_add, mbind, M_bind. simpl. unfold gets.
  by rewrite E.
Qed.

Lemma wp_stats t d l (Q : unit → ledger astore → Prop) :
  (∀ l', store l' = store l → Q tt l') → wp (stats_inc t d) l Q.
Proof. intros HQ. by apply HQ. Qed.

Lemma checksum_key_0 : checksum_key (U 8 0) (U 1 0) = Done (U 8 0).
Proof. unfold checksum_key. rewrite !uval_zero. done. Qed.

Lemma wp_checksum_update l h (Q : unit → ledger astore → Prop) :
  is_Some (a_checksum (store l) !! U 8 0) →
  (∀ ck, ck = u_xor (default (U 32 0) (a_checksum (store l) !! U 8 0)) h →
    Q tt (set_store l (set_checksum <[U 8 0 := ck]> (store l)))) →
  wp (checksum_update h) l Q.
Proof.
  intros [c Hc] HQ. unfold checksum_update. apply wp_bind. eapply wp_st_keep.
  { simpl. rewrite checksum_key_0. done. }
  rewrite Hc in *. eapply wp_st; [|by apply HQ]. simpl. by rewrite checksum_key_0.
Qed.

Lemma wp_change_latest l a h rep bal cnt is_state (Q : unit → ledger astore → Prop) :
  h ≠ U 32 0 → is_Some (a_checksum (store l) !! U 8 0) →
  match a_accounts (store l) !! a with
  | Some _ => True
  | None => ∃ b sc, a_lookup (store l) h = Some (b, sc) ∧ block_previous b = U 32 0
  end →
  (∀ l' now ck, ck = next_sum (store l) a h → store l' = latest_store (store l) a h rep bal cnt is_state now ck → Q tt l') →
  wp (change_latest a h rep bal cnt is_state) l Q.
Proof.
  intros Hh Hck Hold HQ. unfold change_latest. apply wp_bind. apply wp_st_read.
  apply wp_bind. set (acc := a_accounts (store l) !! a) in *.
  set (op := match acc with Some i => open_block_hash i | None => h end).
  (* after reading the account: same tables up to the checksum *)
  enough (Htail : ∀ l1 i, open_block_hash i = op →
    (∃ ck, store l1 = set_checksum <[U 8 0 := ck]> (store l)) ∨ store l1 = store l →
    u_xor (default (U 32 0) (a_checksum (store l1) !! U 8 0)) h = next_sum (store l) a h →
    wp (if negb (is_zero h) then
          now ← seconds_since_epoch;
          st (account_put a (Account_info h rep (open_block_hash i) bal now cnt));;
          (if (uval cnt mod block_info_max =? 0) && negb is_state
           then st (block_info_put h (Block_info a bal)) else mret tt);;
          checksum_update h
        else st (account_del a)) l1 Q).
  { destruct acc as [i|] eqn:Eacc.
    - apply wp_bind. apply wp_checksum_update; [done|]. intros ck Hck1. apply wp_ret.
      apply Htail; [done|left; eauto|]. simpl. rewrite lookup_insert_eq. simpl.
      unfold next_sum. fold acc. by rewrite Eacc, Hck1.
    - destruct Hold as (b & sc & Eb & Hb). apply wp_bind. apply wp_st_read. rewrite Eb.
      apply wp_bind. apply wp_assert; [by apply is_zero_true|]. apply wp_ret.
      apply Htail; [done|by right|]. unfold next_sum. fold acc. by rewrite Eacc. }
  intros l1 i Hi Hl1 Hsum. apply is_zero_false in Hh. rewrite Hh. simpl negb.
  apply wp_bind. unfold wp at 1, seconds_since_epoch. set (now := clock l1 0%nat).
  set (l2 := Ledger _ _ _ _ _ _). apply wp_bind. apply wp_st_write. apply wp_bind.
  rewrite Hi.
  assert (Hck2 : is_Some (a_checksum (store l1) !! U 8 0)).
  { destruct Hl1 as [[ck ->]| ->]; [|done]. simpl. rewrite lookup_insert_eq. eauto. }
  destruct ((uval cnt mod block_info_max =? 0) && negb is_state) eqn:Ec.
  - apply wp_st_write. apply wp_checksum_update; [done|]. intros ck Eck.
    eapply (HQ _ now ck); [by rewrite Eck, <-Hsum|].
    unfold latest_store. rewrite Ec. fold acc op.
    destruct Hl1 as [[ck' Hl1]|Hl1]; simpl; rewrite Hl1; [|done].
    unfold set_checksum, set_info, set_accounts. simpl. by rewrite insert_insert_eq.
  - apply wp_ret. apply wp_checksum_update; [done|]. intros ck Eck.
    eapply (HQ _ now ck); [by rewrite Eck, <-Hsum|].
    unfold latest_store. rewrite Ec. fold acc op.
    destruct Hl1 as [[ck' Hl1]|Hl1]; simpl; rewrite Hl1; [|done].
    unfold set_checksum, set_info, set_accounts. simpl. by rewrite insert_insert_eq.
Qed.
End rules.

(** ** Visitors on an extended store

    The visitors only read the blocks and the cached block data, so a run on
    one store is a run on any store that agrees on the blocks it has. *)

Definition agree `{LedgerConstants} (s s' : astore) : Prop :=
  (∀ x, fst <$> a_lookup s' x = fst <$> a_lookup s x ∨
    (a_lookup s x = None ∧ x ≠ genesis_account)) ∧
  a_lookup s genesis_account = None ∧ a_info s' = a_info s.

Section frame.
Context `{Blake2b, LedgerConstants}.
Context (s s' : astore).
Hypothesis HA : agree s s'.

Lemma block_get_agree x b : block_get x s = Done (Some b, s) → block_get x s' = Done (Some b, s').
Proof.
  destruct HA as [HA1 _]. simpl. unfold gets. intros [= E].
  destruct (HA1 x) as [E'|[E' _]]; [by rewrite E', E|]. by rewrite E' in E.
Qed.

Lemma balance_visit_agree b v v' : balance_visit b v s = Done (v', s) →
  balance_visit b v s' = Done (v', s').
Proof.
  destruct HA as (_ & _ & HA2). destruct b; simpl; unfold mbind, M_bind, gets, mret, M_ret;
    rewrite ?HA2; intros [= <-]; done.
Qed.

Lemma balance_visit_state b v : ∃ v', balance_visit b v s = Done (v', s).
Proof. destruct b; simpl; unfold mbind, M_bind, gets, mret, M_ret; eauto. Qed.

Lemma visitors_agree n :
  (∀ v r s1, balance_loop n v s = Done (r, s1) →
    s1 = s ∧ balance_loop n v s' = Done (r, s')) ∧
  (∀ h v r s1, (h = genesis_account → av_current_amount v = U 32 0 ∨
      av_current_amount v = genesis_account) →
    amount_loop n h v s = Done (r, s1) → s1 = s ∧ amount_loop n h v s' = Done (r, s')).
Proof.
  induction n as [|n [IHb IHa]]; [done|]. split.
  - intros v r s1. simpl. destruct (negb _ || _) eqn:E1; [|by intros [= <- <-]].
    destruct (negb (is_zero (bv_current_amount v))) eqn:E2.
    + intros (a & s2 & Ea & Eb)%bind_inv.
      apply IHa in Ea as [-> Ea]; [|by right]. apply IHb in Eb as [-> Eb].
      split; [done|]. by rewrite (bind_done _ _ _ _ _ Ea).
    + intros (ob & s2 & Eg & Eb)%bind_inv. pose proof Eg as Eg'. injection Eg as <- <-.
      destruct (fst <$> _) as [b|]; [|done]. apply block_get_agree in Eg'.
      rewrite (bind_done _ _ _ _ _ Eg'). apply bind_inv in Eb as (v' & s2 & Ev & Eb).
      destruct (balance_visit_state b v) as [v2 Ev2]. rewrite Ev2 in Ev. injection Ev as <- <-.
      apply IHb in Eb as [-> Eb]. split; [done|].
      by rewrite (bind_done _ _ _ _ _ (balance_visit_agree _ _ _ Ev2)).
  - intros h v r s1 Hh. simpl. destruct (negb _ || _) eqn:E1; [|by intros [= <- <-]].
    destruct (negb (is_zero (av_current_amount v))) eqn:E2.
    + intros (ob & s2 & Eg & Eb)%bind_inv. pose proof Eg as Eg'. injection Eg as <- <-.
      apply negb_true_iff, is_zero_false in E2.
      destruct (fst <$> _) as [b|] eqn:Ef.
      * apply block_get_agree in Eg'. rewrite (bind_done _ _ _ _ _ Eg').
        apply IHa in Eb; [done|]. intros ->.
        destruct (Hh eq_refl) as [?|E]; [done|].
        destruct HA as (_ & HG & _). by rewrite E, HG in Ef.
      * destruct (u_eqb h genesis_account) eqn:Eh; [|done].
        apply u_eqb_true in Eh. destruct (Hh Eh) as [?|E]; [done|].
        apply IHa in Eb as [-> Eb]; [|by left]. split; [done|]. unfold mbind, M_bind. simpl.
        destruct HA as (HA1 & HG & _). unfold gets.
        destruct (HA1 (av_current_amount v)) as [->|[_ ?]]; [|done].
        by rewrite Ef.
    + intros (p & s2 & Ep & Eb)%bind_inv. apply IHb in Ep as [-> Ep].
      apply IHa in Eb as [-> Eb]; [|by left; apply negb_false_iff, is_zero_true in E2].
      split; [done|]. by rewrite (bind_done _ _ _ _ _ Ep).
Qed.

Lemma balance_compute_agree n h r : balance_compute n h s = Done (r, s) →
  balance_compute n h s' = Done (r, s').
Proof. intros E. by apply (proj1 (visitors_agree n)) in E as [_ E]. Qed.

Lemma amount_compute_agree n h r : amount_compute n h s = Done (r, s) →
  amount_compute n h s' = Done (r, s').
Proof. intros E. apply (proj2 (visitors_agree n)) in E as [_ E]; [done|simpl; auto]. Qed.

End frame.
