(* ===== verification/Commit.v ===== *)
(** * Committing a block

    The end all block handlers share: the block is stored after the head of
    its account (or opens it), the account, frontier, pending and weight
    tables are updated, and the ledger invariant is kept. *)

From S2P Require Import Prelude Crypto Blocks Common Stats Store Ledger StoreLemmas LedgerInv.
From S2P Require Import Visitors Extend ProcessLemmas.

(** Digests the ledger's sentinels exclude: 0 (no block), 1 (the initial
    successor of [ledger::account]) and the genesis account (the source of
    the genesis block). *)
Definition hash_ok `{Blake2b, LedgerConstants} (b : block) : Prop :=
  block_hash b ≠ U 32 0 ∧ block_hash b ≠ U 32 1 ∧ block_hash b ≠ genesis_account.

(** A block rolled back may have left an entry in the cached block data; an
    entry under the digest of a new block must be that of the same state
    block, that is, the digest collides with no block rolled back. *)
Definition info_ok `{Blake2b} (s : astore) (b : block) : Prop :=
  a_lookup s (block_hash b) = None →
  ∀ i, a_info s !! block_hash b = Some i →
  match b with
  | BState t => bi_account i = th_account (hashables t) ∧ bi_balance i = th_balance (hashables t)
  | _ => False
  end.

(** What the ledger assumes of the digest of a block it is given. *)
Definition digest_ok `{Blake2b, LedgerConstants} (s : astore) (b : block) : Prop :=
  hash_ok b ∧ info_ok s b.

Section common.
Context `{Blake2b, Ed25519, LedgerConstants}.

Lemma lookup_blocks_eq s s' x : a_blocks s = a_blocks s' → a_lookup s x = a_lookup s' x.
Proof. intros E. apply a_lookup_ext. by rewrite E. Qed.

Lemma tables_wf_eq s s' : a_blocks s = a_blocks s' → tables_wf s → tables_wf s'.
Proof. unfold tables_wf. by intros ->. Qed.

Lemma modulus_16 : modulus 16 = 2 ^ 128.
Proof. vm_compute. reflexivity. Qed.

(** Weights modulo 2^128. *)
Lemma add_rep_weight b w s r :
  uval (default (U 16 0) (a_rep (add_rep b w s) !! r)) =
    (uval (default (U 16 0) (a_rep s !! r)) +
      if decide (block_representative b = r) then uval w else 0) mod 2 ^ 128.
Proof.
  unfold add_rep. simpl. rewrite lookup_insert. case_decide; simpl.
  - subst. by rewrite uval_add, modulus_16.
  - rewrite Z.add_0_r. symmetry. apply Z.mod_small. rewrite <-modulus_16. apply uval_range.
Qed.

Lemma neg_mod x (a : u128) : (x + uval (neg a)) mod 2 ^ 128 = (x - uval a) mod 2 ^ 128.
Proof.
  unfold neg. rewrite uval_sub, uval_zero, modulus_16.
  rewrite Zplus_mod_idemp_r. f_equal; lia.
Qed.

Lemma share_known look i b sc r : look (rep_block i) = Some (b, sc) →
  share look (Some i) r = if decide (block_representative b = r) then uval (balance i) else 0.
Proof. intros E. unfold share, rep_account. by rewrite E. Qed.

(** Tables of the intermediate stores. *)
Lemma put_frontiers h b s : a_frontiers (put_block h b s) = a_frontiers s.
Proof. apply put_block_other. Qed.
Lemma put_accounts h b s : a_accounts (put_block h b s) = a_accounts s.
Proof. apply put_block_other. Qed.
Lemma put_pending h b s : a_pending (put_block h b s) = a_pending s.
Proof. apply put_block_other. Qed.
Lemma put_info h b s : a_info (put_block h b s) = a_info s.
Proof. apply put_block_other. Qed.
Lemma put_rep h b s : a_rep (put_block h b s) = a_rep s.
Proof. apply put_block_other. Qed.
Lemma put_checksum h b s : a_checksum (put_block h b s) = a_checksum s.
Proof. apply put_block_other. Qed.

Lemma add_rep_frontiers b w s : a_frontiers (add_rep b w s) = a_frontiers s.
Proof. done. Qed.
Lemma add_rep_accounts b w s : a_accounts (add_rep b w s) = a_accounts s.
Proof. done. Qed.
Lemma add_rep_pending b w s : a_pending (add_rep b w s) = a_pending s.
Proof. done. Qed.
Lemma add_rep_info b w s : a_info (add_rep b w s) = a_info s.
Proof. done. Qed.
Lemma add_rep_checksum b w s : a_checksum (add_rep b w s) = a_checksum s.
Proof. done. Qed.
Lemma add_rep_blocks b w s : a_blocks (add_rep b w s) = a_blocks s.
Proof. done. Qed.

Section latest.
Context (s : astore) (a h rep : u256) (bal : u128) (cnt : u64) (is_state : bool).
Context (now : u64) (ck : u256).
Local Abbreviation s' := (latest_store s a h rep bal cnt is_state now ck).
Lemma latest_frontiers : a_frontiers s' = a_frontiers s.
Proof. unfold latest_store. by destruct (_ && _). Qed.
Lemma latest_blocks : a_blocks s' = a_blocks s.
Proof. unfold latest_store. by destruct (_ && _). Qed.
Lemma latest_pending : a_pending s' = a_pending s.
Proof. unfold latest_store. by destruct (_ && _). Qed.
Lemma latest_rep : a_rep s' = a_rep s.
Proof. unfold latest_store. by destruct (_ && _). Qed.
Lemma latest_accounts : a_accounts s' =
  <[a := Account_info h rep
    match a_accounts s !! a with Some i => open_block_hash i | None => h end
    bal now cnt]> (a_accounts s).
Proof. unfold latest_store. by destruct (_ && _). Qed.
Lemma latest_info : a_info s' =
  if (uval cnt mod block_info_max =? 0) && negb is_state
  then <[h := Block_info a bal]> (a_info s) else a_info s.
Proof. unfold latest_store. by destruct (_ && _). Qed.
Lemma latest_checksum : sum_ok s → ck = next_sum s a h →
  a_checksum s' !! U 8 0 = Some (xor_heads (a_accounts s')).
Proof.
  intros Hs Hck. rewrite latest_accounts. unfold latest_store. simpl.
  rewrite lookup_insert_eq, Hck. f_equal. unfold next_sum. rewrite Hs. simpl.
  destruct (a_accounts s !! a) as [i|] eqn:E.
  - by rewrite (xor_insert _ _ _ _ E).
  - by rewrite (xor_insert_new _ _ _ E), u_xor_comm.
Qed.
Lemma latest_lookup x : a_lookup s' x = a_lookup s x.
Proof. apply lookup_blocks_eq, latest_blocks. Qed.
End latest.

Lemma has_sum {delta} s g hist : InvD delta s g hist → is_Some (a_checksum s !! U 8 0).
Proof. intros HI. rewrite (inv_checksum _ _ _ HI). eauto. Qed.

Lemma put_blocks_eq h b s s' : a_blocks s = a_blocks s' →
  a_blocks (put_block h b s) = a_blocks (put_block h b s').
Proof.
  intros E. unfold put_block. destruct (links b); [|by simpl; rewrite E].
  unfold link_prev. rewrite (lookup_blocks_eq _
    (set_blocks <[(block_type_of b, h):=(b, U 32 0)]> s')) by (simpl; by rewrite E).
  destruct (a_lookup _ _) as [[pb sc]|]; simpl; by rewrite E.
Qed.

Lemma put_pre_eq h b s s' : a_blocks s = a_blocks s' → put_pre s h b → put_pre s' h b.
Proof.
  intros E (? & ? & Hp & ?). unfold put_pre. rewrite !(lookup_blocks_eq s' s) by done. done.
Qed.
End common.

Section intro.
Context `{Blake2b, LedgerConstants}.
Context (s s' : astore) (g : gmap u256 meta) (hist : list u256).
Context (a : u256) (b : block) (m : meta) (i' : account_info).
Hypothesis HI : Inv s g hist.
Local Abbreviation h := (block_hash b).
Hypothesis Hpre : put_pre s h b.
Hypothesis Hblocks : a_blocks s' = a_blocks (put_block h b s).

Lemma look_after x : a_lookup s' x = put_lookup h b (a_lookup s) x.
Proof.
  rewrite (lookup_blocks_eq _ _ x Hblocks).
  apply put_block_lookup; [apply (inv_wf _ _ _ HI)|done].
Qed.

Lemma look_after_h : a_lookup s' h = Some (b, U 32 0).
Proof. rewrite look_after. unfold put_lookup. by rewrite decide_True. Qed.

Lemma look_after_prev pb sc : links b = true → a_lookup s (block_previous b) = Some (pb, sc) →
  a_lookup s' (block_previous b) = Some (pb, h).
Proof.
  intros Hl E. rewrite look_after. unfold put_lookup.
  rewrite decide_False, decide_True, E by (done || by eapply put_prev_ne). done.
Qed.

Lemma look_after_block x b0 sc : a_lookup s x = Some (b0, sc) →
  ∃ sc', a_lookup s' x = Some (b0, sc').
Proof.
  intros E. rewrite look_after. unfold put_lookup. rewrite decide_False.
  - rewrite E. case_decide; simpl; eauto.
  - intros ->. destruct Hpre as (_ & Hn & _). congruence.
Qed.

Lemma fresh_hash : g !! h = None.
Proof.
  destruct Hpre as (_ & Hn & _). destruct (g !! h) eqn:E; [|done].
  destruct (inv_dom _ _ _ HI h) as [_ Hd]. rewrite Hn in Hd. destruct Hd as [? ?]; eauto.
  done.
Qed.

(** The conditions a handler has to establish, the rest comes from
    [block_put]. *)
Lemma extends_intro :
  m_owner m = a →
  block_ok (a_lookup s') (<[h := m]> g) h b m →
  match a_accounts s !! a with
  | Some i => links b = true ∧ block_previous b = head i
  | None => links b = false
  end →
  a_accounts s' = <[a := i']> (a_accounts s) →
  (head i' = h ∧ balance i' = m_balance m ∧ rep_block i' = m_rep m ∧
    open_block_hash i' = m_open m ∧ block_count i' = U 8 (m_height m)) →
  (∀ x c, a_frontiers s' !! x = Some c ↔
    (x = h ∧ c = a ∧ legacy b = true) ∨
    (x ≠ h ∧ ¬ (links b = true ∧ x = block_previous b) ∧ a_frontiers s !! x = Some c)) →
  pending_step (<[h := m]> g) s s' a h b m →
  (∀ r, uval (default (U 16 0) (a_rep s' !! r)) =
    (uval (default (U 16 0) (a_rep s !! r)) - share (a_lookup s) (a_accounts s !! a) r
      + share (a_lookup s') (Some i') r) mod 2 ^ 128) →
  (a_info s' = if (m_height m mod block_info_max =? 0) && legacy b
    then <[h := Block_info a (m_balance m)]> (a_info s) else a_info s) →
  (∀ i, a_info s !! h = Some i → bi_account i = a ∧ bi_balance i = m_balance m) →
  genesis_open b = false →
  sum_ok s' →
  Inv s' (<[h := m]> g) (hist ++ [h]).
Proof.
  intros. apply (extends_inv s s' g hist a h b m i' HI). constructor; try done.
  - eapply tables_wf_eq; [symmetry; exact Hblocks|].
    apply put_block_wf; [apply (inv_wf _ _ _ HI)|done].
  - apply look_after.
  - rewrite Hblocks. apply put_block_size; [apply (inv_wf _ _ _ HI)|done].
  - apply Hpre.
Qed.
End intro.

Create Rewrite HintDb tables.
#[export] Hint Rewrite @add_rep_frontiers @add_rep_accounts @add_rep_pending @add_rep_info
  @add_rep_checksum @add_rep_blocks @put_frontiers @put_accounts @put_pending @put_info @put_rep @put_checksum
  @latest_frontiers @latest_blocks @latest_pending @latest_rep @latest_accounts @latest_info @latest_lookup
  : tables.

(** Compute a table of an updated store. *)
Ltac project := cbn [store set_store set_blocks set_frontiers set_accounts set_pending set_info
  set_rep set_checksum a_blocks a_frontiers a_accounts a_pending a_info a_rep a_checksum].
Ltac project_in E := cbn [store set_store set_blocks set_frontiers set_accounts set_pending set_info
  set_rep set_checksum a_blocks a_frontiers a_accounts a_pending a_info a_rep a_checksum] in E.
Ltac tables := repeat (progress (project; autorewrite with tables)); project.

(** ** From the tables after a handler to the invariant *)

Section handlers.
Context `{Blake2b, Ed25519, LedgerConstants}.
Implicit Types (l : ledger astore) (g : gmap u256 meta) (hist : list u256).

Section frontier.
Context (s : astore) (g : gmap u256 meta) (hist : list u256).
Context {delta : u256 → Z}.
Hypothesis HI : InvD delta s g hist.

(** What the ledger knows of the head of an account. *)
Record at_head (a p : u256) (i : account_info) (pb : block) (pm : meta) : Prop := {
  hd_account : a_accounts s !! a = Some i;
  hd_head : head i = p;
  hd_block : a_lookup s p = Some (pb, U 32 0);
  hd_meta : g !! p = Some pm;
  hd_owner : m_owner pm = a;
  hd_balance : balance i = m_balance pm;
  hd_rep : rep_block i = m_rep pm;
  hd_open : open_block_hash i = m_open pm;
  hd_count : block_count i = U 8 (m_height pm);
  hd_nonzero : p ≠ U 32 0 ∧ a ≠ U 32 0;
  hd_rep_block : ∃ rb sc, a_lookup s (rep_block i) = Some (rb, sc);
}.

Lemma account_head a i : a_accounts s !! a = Some i →
  ∃ pb pm, at_head a (head i) i pb pm.
Proof.
  intros E. destruct (inv_account _ _ _ HI _ _ E) as (b & m & Eb & Em & Ho & Hb & Hr & Hop & Hc).
  exists b, m. destruct (inv_block _ _ _ HI _ _ _ _ Eb Em) as (? & _ & _ & ? & _).
  constructor; try done; [split; [done|congruence]|].
  destruct (inv_meta _ _ _ HI _ _ Em) as ([rm Erm] & _).
  rewrite Hr. exact (meta_block _ _ _ HI _ _ Erm).
Qed.

Lemma frontier_head p : default (U 32 0) (a_frontiers s !! p) ≠ U 32 0 →
  ∃ a i pb pm, a_frontiers s !! p = Some a ∧ at_head a p i pb pm ∧ legacy pb = true.
Proof.
  destruct (a_frontiers s !! p) as [a|] eqn:E; [|done]. intros _.
  pose proof (proj1 (inv_frontier _ _ _ HI p a) E) as (i & b & sc & Ei & <- & Eb & Hl).
  destruct (account_head _ _ Ei) as (pb & pm & Hd). exists a, i, pb, pm.
  split_and!; [done..|]. pose proof (hd_block _ _ _ _ _ Hd) as Eb'. by simplify_eq.
Qed.
End frontier.

(** The account info after a block at the head. *)
Lemma count_succ_height z : count_succ (U 8 z) = U 8 (z + 1).
Proof. unfold count_succ. apply uval_inj. rewrite uval_add, !uval_U. by rewrite <-Zplus_mod. Qed.

Lemma count_mod z : uval (U 8 z) mod block_info_max = z mod block_info_max.
Proof.
  rewrite uval_U. replace (modulus 8) with (2 ^ 59 * block_info_max) by (vm_compute; done).
  unfold block_info_max. rewrite Z.mul_comm, Z.rem_mul_r by lia.
  rewrite Z.mul_comm, Z_mod_plus_full. apply Z.mod_mod. lia.
Qed.

Lemma frontier_step (fr fr' : gmap u256 u256) (h p a : u256) (b : block) :
  legacy b = true → links b = true → block_previous b = p → h ≠ p →
  fr' = <[h := a]> (delete p fr) →
  ∀ x c, fr' !! x = Some c ↔
    (x = h ∧ c = a ∧ legacy b = true) ∨
    (x ≠ h ∧ ¬ (links b = true ∧ x = block_previous b) ∧ fr !! x = Some c).
Proof.
  intros Hlg Hl Hp Hne -> x c. rewrite lookup_insert_Some, lookup_delete_Some. naive_solver.
Qed.

(** *** Committing a block

    The common end of the handlers: a block is put after the head of an
    account, or opens it, and moves funds to or from the pending table. *)
Definition sends_from (prev : Z) (b : block) : bool :=
  match b with
  | BSend _ => true
  | BState t => uval (th_balance (hashables t)) <? prev
  | _ => false
  end.
Definition receives_from (prev : Z) (b : block) : option u256 :=
  match b with
  | BReceive r => Some (rh_source (hashables r))
  | BOpen o =>
      if u_eqb (oh_source (hashables o)) genesis_account then None
      else Some (oh_source (hashables o))
  | BState t =>
      if sends_from prev b then None
      else if is_zero (th_link (hashables t)) then None else Some (th_link (hashables t))
  | _ => None
  end.

Definition moves (s s' : astore) (a h : u256) (b : block) (prev : Z) (bal : u128) : Prop :=
  if sends_from prev b then
    uval bal ≤ prev ∧ ∃ q, a_pending s' = <[(destination b, h) := q]> (a_pending s) ∧
      source q = a ∧ uval (amount q) = prev - uval bal
  else match receives_from prev b with
       | Some src => ∃ q, a_pending s !! (a, src) = Some q ∧
           uval bal = prev + uval (amount q) ∧ a_pending s' = delete (a, src) (a_pending s)
       | None => a_pending s' = a_pending s ∧ uval bal = prev ∧ block_type_of b ≠ bt_open
       end.

(** When the ledger accepts a block [b] of account [a] that leaves it the
    balance [bal]: the block is new and signed by the account, it follows
    the head of the account or opens it, and its funds are its account's
    own or those of a pending send. *)
Definition balance_before (s : astore) (a : u256) : Z :=
  match a_accounts s !! a with Some i => uval (balance i) | None => 0 end.

Record accepts (s : astore) (b : block) (a : u256) (bal : u128) : Prop := {
  ac_fresh : a_lookup s (block_hash b) = None;
  ac_owner : a ≠ U 32 0;
  ac_signed : validate_message a (block_hash b) (block_signature b) = false;
  ac_position :
    match a_accounts s !! a with
    | Some i => links b = true ∧ block_previous b = head i ∧
        ∀ pb sc, a_lookup s (head i) = Some (pb, sc) → valid_predecessor b pb = true
    | None => links b = false ∧ block_previous b = U 32 0
    end;
  ac_states :
    match b with
    | BSend b => bal = sh_balance (hashables b)
    | BOpen b => a = oh_account (hashables b)
    | BState b => a = th_account (hashables b) ∧ bal = th_balance (hashables b)
    | _ => True
    end;
  ac_funds :
    if sends_from (balance_before s a) b then uval bal ≤ balance_before s a
    else match receives_from (balance_before s a) b with
         | Some src => ∃ q, a_pending s !! (a, src) = Some q ∧
             uval bal = balance_before s a + uval (amount q)
         | None => uval bal = balance_before s a ∧ links b = true
         end;
}.

(** What accepting it changes in blocks, accounts and pending entries. *)
Record effect (s s' : astore) (b : block) (a : u256) (bal : u128) : Prop := {
  ef_blocks : ∀ x, a_lookup s' x = put_lookup (block_hash b) b (a_lookup s) x;
  ef_account : ∃ i', a_accounts s' = <[a := i']> (a_accounts s) ∧
    head i' = block_hash b ∧ balance i' = bal;
  ef_pending : moves s s' a (block_hash b) b (balance_before s a) bal;
}.

(** What processing a block does: the ledger is extended by the block, and
    the result names its account and the amount moved; or the block is
    rejected and the store is unchanged. *)
Definition processed l g hist (b : block) (r : process_return) (l' : ledger astore) : Prop :=
  if decide (code r = progress) then
    ∃ m w, Inv (store l') (<[block_hash b := m]> g) (hist ++ [block_hash b]) ∧
      accepts (store l) b (m_owner m) (m_balance m) ∧
      effect (store l) (store l') b (m_owner m) (m_balance m) ∧
      result_account r = Some (m_owner m) ∧ result_amount r = Some w ∧
      uval w = Z.abs (balance_before (store l) (m_owner m) - uval (m_balance m))
  else store l' = store l.

Lemma processed_reject l g hist b c l' : c ≠ progress → store l' = store l →
  processed l g hist b (return_code c) l'.
Proof. intros. unfold processed. simpl. by rewrite decide_False. Qed.

Section commit.
Context (s s' : astore) (g : gmap u256 meta) (hist : list u256).
Context (a : u256) (b : block) (bal : u128) (now : u64).
Hypothesis HI : Inv s g hist.
Local Abbreviation h := (block_hash b).
Local Abbreviation o := (a_accounts s !! a).
Hypothesis Hdig : digest_ok s b.
Let Hok : hash_ok b := proj1 Hdig.
Hypothesis Hfresh : a_lookup s h = None.
Hypothesis Ha : a ≠ U 32 0.
Hypothesis Hold :
  match o with
  | Some i => links b = true ∧ block_previous b = head i ∧
      ∀ pb sc, a_lookup s (head i) = Some (pb, sc) → valid_predecessor b pb = true
  | None => links b = false ∧ block_previous b = U 32 0
  end.
Hypothesis Hstates : ∀ m, m_owner m = a → m_balance m = bal → states b m.
Local Abbreviation prev := (match o with Some i => uval (balance i) | None => 0 end).

Definition new_rep : u256 :=
  match b, o with BSend _, Some i | BReceive _, Some i => rep_block i | _, _ => h end.
Definition new_open : u256 :=
  match o with Some i => open_block_hash i | None => h end.
Definition new_info : account_info :=
  Account_info h new_rep new_open bal now
    (count_succ (block_count (default account_info_default o))).
Definition next_meta : meta :=
  Meta a bal
    (match o with
     | Some i => match g !! head i with Some pm => m_height pm + 1 | None => 1 end
     | None => 1 end)
    new_rep new_open.
Local Abbreviation m := next_meta.
Local Abbreviation g' := (<[h := m]> g).

Lemma commit_pre : put_pre s h b.
Proof.
  unfold put_pre. destruct o as [i|] eqn:Eo.
  - destruct Hold as (Hl & Hp & _). rewrite Hl, Hp.
    destruct (account_head _ _ _ HI _ _ Eo) as (pb & pm & Hd).
    rewrite (hd_block _ _ _ _ _ _ _ Hd). done.
  - destruct Hold as (Hl & Hp). by rewrite Hl.
Qed.

Lemma commit_prev : prev_balance g' b = prev.
Proof.
  unfold prev_balance. destruct o as [i|] eqn:Eo.
  - destruct Hold as (Hl & Hp & _).
    destruct (account_head _ _ _ HI _ _ Eo) as (pb & pm & Hd).
    rewrite Hp, (proj2 (is_zero_false _)) by apply Hd.
    rewrite lookup_insert_ne, (hd_meta _ _ _ _ _ _ _ Hd), (hd_balance _ _ _ _ _ _ _ Hd); [done|].
    intros E. rewrite E, (hd_block _ _ _ _ _ _ _ Hd) in Hfresh. done.
  - destruct Hold as (_ & ->). by rewrite is_zero_0.
Qed.

Lemma commit_sends : sends g' b = sends_from prev b.
Proof. rewrite <-commit_prev. by destruct b. Qed.
Lemma commit_receives : receives g' b = receives_from prev b.
Proof. rewrite <-commit_prev. by destruct b. Qed.

Hypothesis Hblocks : a_blocks s' = a_blocks (put_block h b s).

Lemma commit_follows : follows (a_lookup s') g' h b m.
Proof.
  pose proof commit_pre as Hpre. unfold follows. destruct o as [i|] eqn:Eo.
  - destruct Hold as (Hl & Hp & Hv). rewrite Hl.
    destruct (account_head _ _ _ HI _ _ Eo) as (pb & pm & Hd).
    pose proof (hd_block _ _ _ _ _ _ _ Hd) as Epb.
    exists pb, pm. rewrite <-Hp in Epb. split_and!.
    + by eapply (look_after_prev s s' g hist b HI Hpre Hblocks).
    + rewrite lookup_insert_ne, Hp; [apply Hd|]. intros E. by rewrite E, Epb in Hfresh.
    + rewrite Hp in Epb. by eapply Hv.
    + by rewrite (hd_owner _ _ _ _ _ _ _ Hd).
    + unfold m. rewrite Eo. simpl. by rewrite (hd_meta _ _ _ _ _ _ _ Hd).
    + unfold m, new_open. rewrite Eo. simpl. apply Hd.
    + unfold m, new_rep. rewrite Eo. destruct b; simpl; try done; apply Hd.
  - destruct Hold as (Hl & Hp). rewrite Hl. split_and!; [done|..];
      unfold m, new_open, new_rep; rewrite Eo; [done..|]. by destruct b.
Qed.

Hypothesis Hmoves : moves s s' a h b prev bal.

Lemma commit_balanced : balanced (a_lookup s') g' b m.
Proof.
  unfold balanced. rewrite commit_sends, commit_receives, commit_prev.
  pose proof commit_pre as Hpre. pose proof Hmoves as Hmv.
  unfold moves in Hmv. destruct (sends_from prev b) eqn:Es; [apply Hmv|].
  destruct (receives_from prev b) as [src|] eqn:Er.
  - destruct Hmv as (q & Eq & Hb & _).
    destruct (inv_pending _ _ _ HI _ _ _ Eq) as (sb & ssc & sm & Esb & Esm & Hs & Hd & _ & Hamt).
    destruct (look_after_block s s' g hist b HI Hpre Hblocks _ _ _ Esb) as [ssc' Esb'].
    assert (Hsp : prev_balance g' sb = prev_balance g sb).
    { unfold prev_balance. destruct (is_zero _); [done|]. rewrite lookup_insert_ne; [done|].
      intros E. destruct (inv_block _ _ _ HI _ _ _ _ Esb Esm) as (_ & _ & _ & _ & Hf & _).
      unfold follows in Hf. destruct (links sb).
      - destruct Hf as (x & y & Ex & _). rewrite <-E, Hfresh in Ex. done.
      - destruct Hf as (Ez & _). destruct Hok as (Hz & _). congruence. }
    exists sb, ssc', sm. split_and!; [done| | |done|].
    + rewrite lookup_insert_ne; [done|]. intros E. by rewrite <-E, Hfresh in Esb.
    + destruct sb; try done. simpl in *. by rewrite Hsp.
    + unfold sent_amount in *. rewrite Hsp. simpl. lia.
  - destruct Hmv as (_ & Hb & Ho). by destruct b.
Qed.

Lemma commit_pending : pending_step g' s s' a h b m.
Proof.
  unfold pending_step. rewrite commit_sends, commit_receives. unfold sent_amount.
  rewrite commit_prev. unfold moves in Hmoves. destruct (sends_from prev b); [apply Hmoves|].
  destruct (receives_from prev b) as [src|]; [|naive_solver].
  destruct Hmoves as (q & Eq & _ & E). by rewrite Eq.
Qed.

Lemma commit_count :
  count_succ (block_count (default account_info_default o)) = U 8 (m_height m).
Proof.
  unfold m. destruct o as [i|] eqn:Eo; simpl.
  - destruct (account_head _ _ _ HI _ _ Eo) as (pb & pm & Hd).
    rewrite (hd_meta _ _ _ _ _ _ _ Hd), (hd_count _ _ _ _ _ _ _ Hd).
    apply count_succ_height.
  - apply count_succ_height.
Qed.

Lemma commit_stale i : a_info s !! h = Some i → bi_account i = a ∧ bi_balance i = bal.
Proof.
  intros Ei. pose proof (proj2 Hdig Hfresh i Ei) as Hi.
  pose proof (Hstates m eq_refl eq_refl) as Hs. destruct b; try done.
  destruct Hs as [Ho Hb], Hi as [-> ->]. by rewrite <-Ho, <-Hb.
Qed.

Lemma commit_genesis : genesis_open b = false.
Proof.
  unfold moves in Hmoves. destruct b; try done. simpl in *.
  destruct (u_eqb _ _); [|done]. by destruct Hmoves as (_ & _ & ?).
Qed.

Lemma commit_inv :
  a_accounts s' = <[a := new_info]> (a_accounts s) →
  (∀ x c, a_frontiers s' !! x = Some c ↔
    (x = h ∧ c = a ∧ legacy b = true) ∨
    (x ≠ h ∧ ¬ (links b = true ∧ x = block_previous b) ∧ a_frontiers s !! x = Some c)) →
  (∀ r, uval (default (U 16 0) (a_rep s' !! r)) =
    (uval (default (U 16 0) (a_rep s !! r)) - share (a_lookup s) o r
      + share (a_lookup s') (Some new_info) r) mod 2 ^ 128) →
  (a_info s' = if (uval (count_succ (block_count (default account_info_default o)))
      mod block_info_max =? 0) && legacy b
    then <[h := Block_info a bal]> (a_info s) else a_info s) →
  sum_ok s' →
  Inv s' g' (hist ++ [h]).
Proof.
  intros Hacc Hfr Hw Hinfo Hck.
  apply (extends_intro s s' g hist a b m new_info); try done.
  - apply commit_pre.
  - destruct Hok as (? & ? & ?). split_and!; [done..|apply commit_follows| |apply commit_balanced].
    by apply Hstates.
  - destruct o as [i|]; [by destruct Hold as (? & ? & _)|by destruct Hold].
  - split_and!; [done..|]. apply commit_count.
  - apply commit_pending.
  - by rewrite Hinfo, commit_count, count_mod.
  - apply commit_stale.
  - apply commit_genesis.
Qed.

Lemma commit_accepts :
  validate_message a h (block_signature b) = false →
  (links b = false → is_Some (receives_from prev b)) → accepts s b a bal.
Proof.
  intros Hsig Hop. pose proof (Hstates m eq_refl eq_refl) as Hst.
  constructor; try done.
  unfold moves in Hmoves. unfold balance_before.
  destruct (sends_from prev b); [apply Hmoves|].
  destruct (receives_from prev b) as [src|] eqn:Er.
  - destruct Hmoves as (q & ? & ? & _). eauto.
  - split; [by destruct Hmoves as (_ & ? & _)|]. destruct (links b); [done|].
    by destruct (Hop eq_refl).
Qed.

Lemma commit_effect : a_accounts s' = <[a := new_info]> (a_accounts s) → effect s s' b a bal.
Proof.
  intros Hacc. constructor; [|by eexists|done].
  by apply (look_after s s' g hist b HI commit_pre).
Qed.

Lemma commit_processed l l' r w :
  store l = s → store l' = s' → validate_message a h (block_signature b) = false →
  (links b = false → is_Some (receives_from prev b)) →
  a_accounts s' = <[a := new_info]> (a_accounts s) →
  (∀ x c, a_frontiers s' !! x = Some c ↔
    (x = h ∧ c = a ∧ legacy b = true) ∨
    (x ≠ h ∧ ¬ (links b = true ∧ x = block_previous b) ∧ a_frontiers s !! x = Some c)) →
  (∀ r, uval (default (U 16 0) (a_rep s' !! r)) =
    (uval (default (U 16 0) (a_rep s !! r)) - share (a_lookup s) o r
      + share (a_lookup s') (Some new_info) r) mod 2 ^ 128) →
  (a_info s' = if (uval (count_succ (block_count (default account_info_default o)))
      mod block_info_max =? 0) && legacy b
    then <[h := Block_info a bal]> (a_info s) else a_info s) →
  sum_ok s' →
  code r = progress → result_account r = Some a → result_amount r = Some w →
  uval w = Z.abs (prev - uval bal) →
  processed l g hist b r l'.
Proof.
  intros El El' ? ? ? ? ? ? ? Hc ? ? ?. unfold processed. rewrite decide_True by done.
  exists m, w. rewrite El, El'. split; [by apply commit_inv|].
  split; [by apply commit_accepts|]. split; [by apply commit_effect|]. done.
Qed.
End commit.

Lemma put_agree {delta} s g hist h b : InvD delta s g hist → put_pre s h b → h ≠ genesis_account →
  agree s (put_block h b s).
Proof.
  intros HI Hpre Hg. split_and!; [|apply (genesis_not_block _ _ _ HI)|by tables].
  intros x. rewrite put_block_lookup; [|apply HI|done]. unfold put_lookup.
  case_decide; [subst x; right; by destruct Hpre as (_ & ? & _)|left].
  case_decide; [|done]. by destruct (a_lookup s x) as [[? ?]|].
Qed.

(** A weight moved from one representative to another, in either order. *)
Lemma move_mod x (P Q : Prop) `{Decision P, Decision Q} (a b : u128) :
  ((x + (if decide Q then uval b else 0)) mod 2 ^ 128
    + (if decide P then uval (neg a) else 0)) mod 2 ^ 128 =
  (x - (if decide P then uval a else 0) + (if decide Q then uval b else 0)) mod 2 ^ 128.
Proof.
  rewrite Zplus_mod_idemp_l. destruct (decide P); [rewrite neg_mod|]; f_equal; lia.
Qed.

(** A block that follows the head of an account. *)
Lemma after_head s g a p i pb pm b :
  at_head s g a p i pb pm → links b = true → block_previous b = p →
  valid_predecessor b pb = true →
  match a_accounts s !! a with
  | Some i => links b = true ∧ block_previous b = head i ∧
      ∀ pb sc, a_lookup s (head i) = Some (pb, sc) → valid_predecessor b pb = true
  | None => links b = false ∧ block_previous b = U 32 0
  end.
Proof.
  intros Hd Hl Hp Hv. rewrite (hd_account _ _ _ _ _ _ _ Hd).
  split_and!; [done|by rewrite (hd_head _ _ _ _ _ _ _ Hd)|].
  intros pb' sc. rewrite (hd_head _ _ _ _ _ _ _ Hd), (hd_block _ _ _ _ _ _ _ Hd). naive_solver.
Qed.

(** Funds held and in flight never exceed the supply. *)
Lemma held_pending_bound {delta} s g hist a i k q : InvD delta s g hist →
  a_accounts s !! a = Some i → a_pending s !! k = Some q →
  uval (balance i) + uval (amount q) < modulus 16.
Proof.
  intros HI Ei Eq. pose proof (inv_supply _ _ _ HI) as Hs. unfold held, in_flight in Hs.
  rewrite modulus_16.
  pose proof (map_sum_lookup_le (λ _ i, uval (balance i)) _ _ _
    (λ _ i _, proj1 (uval_range (balance i))) Ei).
  pose proof (map_sum_lookup_le (λ _ p, uval (amount p)) _ _ _
    (λ _ p _, proj1 (uval_range (amount p))) Eq). simpl in *. lia.
Qed.

(** *** The weights after a block *)
Section weights.
Context (s s' : astore) (g : gmap u256 meta) (hist : list u256).
Context (a : u256) (b : block) (bal : u128) (now : u64).
Hypothesis HI : Inv s g hist.
Hypothesis Hpre : put_pre s (block_hash b) b.
Hypothesis Hblocks : a_blocks s' = a_blocks (put_block (block_hash b) b s).
Local Abbreviation new := (new_info s a b bal now).

(** The representative stays: its weight changes by the amount. *)
Lemma weight_kept i rb rsc (w : u128) :
  a_accounts s !! a = Some i → new_rep s a b = rep_block i →
  a_lookup s (rep_block i) = Some (rb, rsc) →
  a_rep s' = a_rep (add_rep rb w s) →
  (∀ x, (x + uval w) mod 2 ^ 128 = (x - uval (balance i) + uval bal) mod 2 ^ 128) →
  ∀ r, uval (default (U 16 0) (a_rep s' !! r)) =
    (uval (default (U 16 0) (a_rep s !! r)) - share (a_lookup s) (Some i) r
      + share (a_lookup s') (Some new) r) mod 2 ^ 128.
Proof.
  intros Ei Er Erb Hrep Hw r. rewrite (share_known _ _ _ _ _ Erb).
  destruct (look_after_block _ _ _ _ _ HI Hpre Hblocks _ _ _ Erb) as [rsc' Erb'].
  erewrite share_known; [|simpl; rewrite Er; exact Erb'].
  rewrite Hrep, add_rep_weight. cbn [balance new_info].
  case_decide; [done|f_equal; lia].
Qed.

(** The block sets a new representative: the old balance leaves one weight,
    the new balance enters another. *)
Lemma weight_moved :
  new_rep s a b = block_hash b →
  (∀ r, uval (default (U 16 0) (a_rep s' !! r)) =
    (uval (default (U 16 0) (a_rep s !! r)) - share (a_lookup s) (a_accounts s !! a) r
      + (if decide (block_representative b = r) then uval bal else 0)) mod 2 ^ 128) →
  ∀ r, uval (default (U 16 0) (a_rep s' !! r)) =
    (uval (default (U 16 0) (a_rep s !! r)) - share (a_lookup s) (a_accounts s !! a) r
      + share (a_lookup s') (Some new) r) mod 2 ^ 128.
Proof.
  intros Er Hw r. rewrite Hw. f_equal. f_equal. erewrite share_known; [done|].
  simpl. rewrite Er. by apply (look_after_h s s' g hist b HI Hpre).
Qed.
End weights.
End handlers.

(** ** Stepping through a handler *)

Ltac tidy := cbn [fmap option_fmap option_map fst snd negb default id from_option].
Ltac read := apply wp_bind; apply wp_st_read; tidy.
Ltac write := apply wp_bind; apply wp_st_write.
Ltac reject := apply wp_ret; by apply processed_reject.
(** Run [change_latest] for an account whose info is known. *)
Ltac latest_head Hd := apply wp_bind; apply wp_change_latest;
  [done
  |tables; auto
  |tables; by rewrite (hd_account _ _ _ _ _ _ _ Hd)
  |intros ?l1 ?now ?ck ?Hsum ?Hl1].
(** The checksum after [change_latest], [H] being the equation of the new sum. *)
Ltac checksum HI H := unfold sum_ok; project; apply latest_checksum;
  [unfold sum_ok; tables; apply HI|exact H].
