(* ===== verification/Process.v ===== *)
(** * Processing preserves the ledger invariant

    Each block handler, run on a consistent store with enough fuel, ends
    without tripping an assertion; it either rejects the block and leaves the
    store as it was, or extends the ledger by the block. *)

From S2P Require Import Prelude Crypto Blocks Common Stats Store Ledger StoreLemmas LedgerInv.
From S2P Require Import Visitors Extend ProcessLemmas Commit.

Section handlers.
Context `{Blake2b, Ed25519, LedgerConstants}.
Implicit Types (l : ledger astore) (g : gmap u256 meta) (hist : list u256).

Lemma process_send_ok b l g hist :
  Inv (store l) g hist → digest_ok (store l) (BSend b) →
  wp (process_send_block b) l (processed l g hist (BSend b)).
Proof.
  intros HI Hok. pose proof Hok as [(Hh0 & Hh1 & Hhg) _]. unfold process_send_block.
  set (h := block_hash (BSend b)) in *. set (p := sh_previous (hashables b)).
  read. case_bool_decide as Hex; [reject|]. apply eq_None_not_Some in Hex. read.
  destruct (a_lookup (store l) p) as [[pb psc]|] eqn:Epb; tidy; [|reject].
  destruct (valid_predecessor (BSend b) pb) eqn:Hvp; tidy; [|reject].
  read. destruct (is_zero _) eqn:Ez; [reject|]. apply is_zero_false in Ez.
  destruct (frontier_head _ _ _ HI _ Ez) as (a & i & pb' & pm & Efr & Hd & Hlg).
  rewrite Efr. tidy. destruct (validate_message _ _ _) eqn:Hsig; [reject|]. read.
  rewrite (hd_account _ _ _ _ _ _ _ Hd). apply wp_bind.
  apply wp_assert; [apply u_eqb_true, Hd|].
  destruct (u_leb_spec (sh_balance (hashables b)) (balance i)) as [Hle|_]; tidy; [|reject].
  set (amt := u_sub (balance i) (sh_balance (hashables b))).
  destruct (hd_rep_block _ _ _ _ _ _ _ Hd) as (rb & rsc & Erb).
  apply wp_bind. eapply wp_representation_add; [exact Erb|].
  rewrite (hd_block _ _ _ _ _ _ _ Hd) in Epb. injection Epb as -> <-.
  pose proof (after_head _ _ _ _ _ _ _ (BSend b) Hd eq_refl eq_refl Hvp) as Hold.
  pose proof (commit_pre _ _ _ _ _ HI Hex Hold) as Hpre.
  apply wp_bind. apply wp_block_put; [by apply (tables_wf_eq (store l)), HI|done|].
  pose proof (has_sum _ _ _ HI) as Hck0.
  latest_head Hd. write. apply wp_bind. apply wp_del.
  { project. rewrite Hl1. tables. by rewrite Efr. }
  write. apply wp_bind, wp_stats. intros l2 Hl2. apply wp_ret.
  assert (Hamt : uval amt = uval (balance i) - uval (sh_balance (hashables b))).
  { by apply uval_sub_small. }
  pose proof (hd_account _ _ _ _ _ _ _ Hd) as Ei. rewrite Ei in Hold.
  project_in Hl2; rewrite Hl1 in Hl2; project_in Hl2.
  assert (Hblocks : a_blocks (store l2) = a_blocks (put_block h (BSend b) (store l))).
  { rewrite Hl2. tables. by apply put_blocks_eq. }
  eapply (commit_processed (store l) (store l2) g hist a (BSend b) (sh_balance (hashables b)) now
    HI Hok Hex); rewrite ?Ei; try done.
  - apply Hd.
  - split; [done|]. rewrite Hl2. tables. simpl. eauto.
  - rewrite Hl2. tables. unfold new_info, new_rep, new_open. by rewrite Ei.
  - eapply frontier_step; try done; [|rewrite Hl2; by tables].
    intros E. change (h = p) in E. by rewrite E, (hd_block _ _ _ _ _ _ _ Hd) in Hex.
  - eapply (weight_kept _ _ _ _ _ _ _ _ HI Hpre Hblocks); try done.
    + unfold new_rep. by rewrite Ei.
    + rewrite Hl2. by tables.
    + intros x. rewrite neg_mod. f_equal. lia.
  - rewrite Hl2. by tables.
  - rewrite Hl2. checksum HI Hsum.
  - lia.
Qed.

Lemma process_receive_ok b l g hist :
  Inv (store l) g hist → digest_ok (store l) (BReceive b) →
  wp (process_receive_block b) l (processed l g hist (BReceive b)).
Proof.
  intros HI Hok. pose proof Hok as [(Hh0 & Hh1 & Hhg) _]. unfold process_receive_block.
  set (h := block_hash (BReceive b)) in *. set (p := rh_previous (hashables b)).
  read. case_bool_decide as Hex; [reject|]. apply eq_None_not_Some in Hex. read.
  destruct (a_lookup (store l) p) as [[pb psc]|] eqn:Epb; tidy; [|reject].
  destruct (valid_predecessor (BReceive b) pb) eqn:Hvp; tidy; [|reject].
  read. case_bool_decide as Hsrc; tidy; [|reject].
  read. destruct (is_zero _) eqn:Ez.
  { read. apply wp_ret. apply processed_reject; [|done]. by case_bool_decide. }
  apply is_zero_false in Ez.
  destruct (frontier_head _ _ _ HI _ Ez) as (a & i & pb' & pm & Efr & Hd & Hlg).
  rewrite Efr. tidy. destruct (validate_message _ _ _) eqn:Hsig; [reject|]. read.
  pose proof (hd_account _ _ _ _ _ _ _ Hd) as Ei. rewrite Ei. tidy.
  destruct (u_eqb _ _) eqn:Ehd; tidy; [clear Ehd|reject]. read.
  destruct (a_pending (store l) !! _) as [q|] eqn:Eq; [|reject]. read.
  destruct (inv_pending _ _ _ HI _ _ _ Eq) as (sb & ssc & sm & Esb & Esm & _ & _ & Hso & _).
  destruct (inv_meta _ _ _ HI _ _ Esm) as (_ & _ & Hacc). rewrite <-Hso in Hacc.
  apply wp_bind, wp_assert; [by apply bool_decide_eq_true|].
  apply wp_bind, wp_del; [by rewrite Eq|].
  rewrite (hd_block _ _ _ _ _ _ _ Hd) in Epb. injection Epb as -> <-.
  pose proof (after_head _ _ _ _ _ _ _ (BReceive b) Hd eq_refl eq_refl Hvp) as Hold.
  pose proof (commit_pre _ _ _ _ _ HI Hex Hold) as Hpre.
  apply wp_bind. apply wp_block_put; [by apply (tables_wf_eq (store l)), HI|done|].
  pose proof (has_sum _ _ _ HI) as Hck0. latest_head Hd.
  destruct (hd_rep_block _ _ _ _ _ _ _ Hd) as (rb & rsc & Erb).
  project_in Hl1.
  assert (Hb1 : a_blocks (store l1) = a_blocks (put_block h (BReceive b) (store l))).
  { rewrite Hl1. tables. by apply put_blocks_eq. }
  destruct (look_after_block _ _ _ _ _ HI Hpre Hb1 _ _ _ Erb) as [rsc' Erb'].
  apply wp_bind. eapply wp_representation_add; [exact Erb'|].
  apply wp_bind. apply wp_del.
  { project. rewrite Hl1. tables. by rewrite Efr. }
  write. apply wp_bind, wp_stats. intros l2 Hl2. apply wp_ret.
  project_in Hl2; rewrite Hl1 in Hl2; project_in Hl2.
  assert (Hblocks : a_blocks (store l2) = a_blocks (put_block h (BReceive b) (store l))).
  { rewrite Hl2. tables. by apply put_blocks_eq. }
  set (bal := u_add (balance i) (amount q)) in *.
  assert (Hbal : uval bal = uval (balance i) + uval (amount q)).
  { apply uval_add_small. by eapply held_pending_bound. }
  eapply (commit_processed (store l) (store l2) g hist a (BReceive b) bal now
    HI Hok Hex); rewrite ?Ei; try done.
  - apply Hd.
  - by rewrite Ei in Hold.
  - simpl. exists q. split_and!; [done..|]. rewrite Hl2. by tables.
  - rewrite Hl2. tables. unfold new_info, new_rep, new_open. by rewrite Ei.
  - eapply frontier_step; try done; [|rewrite Hl2; by tables].
    intros E. change (h = p) in E. by rewrite E, (hd_block _ _ _ _ _ _ _ Hd) in Hex.
  - eapply (weight_kept _ _ _ _ _ _ _ _ HI Hpre Hblocks); try done.
    + unfold new_rep. by rewrite Ei.
    + rewrite Hl2. unfold add_rep. by tables.
    + intros x. f_equal. lia.
  - rewrite Hl2. by tables.
  - rewrite Hl2. checksum HI Hsum.
  - pose proof (uval_range (amount q)). lia.
Qed.

Lemma process_change_ok fuel b l g hist :
  Inv (store l) g hist → digest_ok (store l) (BChange b) → (enough_fuel l ≤ fuel)%nat →
  wp (process_change_block fuel b) l (processed l g hist (BChange b)).
Proof.
  intros HI Hok Hfuel. pose proof Hok as [(Hh0 & Hh1 & Hhg) _]. unfold process_change_block.
  set (h := block_hash (BChange b)) in *. set (p := ch_previous (hashables b)).
  read. case_bool_decide as Hex; [reject|]. apply eq_None_not_Some in Hex. read.
  destruct (a_lookup (store l) p) as [[pb psc]|] eqn:Epb; tidy; [|reject].
  destruct (valid_predecessor (BChange b) pb) eqn:Hvp; tidy; [|reject].
  read. destruct (is_zero _) eqn:Ez; [reject|]. apply is_zero_false in Ez.
  destruct (frontier_head _ _ _ HI _ Ez) as (a & i & pb' & pm & Efr & Hd & Hlg).
  rewrite Efr. tidy. read.
  pose proof (hd_account _ _ _ _ _ _ _ Hd) as Ei. rewrite Ei. apply wp_bind.
  apply wp_assert; [apply u_eqb_true, Hd|].
  destruct (validate_message _ _ _) eqn:Hsig; [reject|].
  rewrite (hd_block _ _ _ _ _ _ _ Hd) in Epb. injection Epb as -> <-.
  pose proof (after_head _ _ _ _ _ _ _ (BChange b) Hd eq_refl eq_refl Hvp) as Hold.
  pose proof (commit_pre _ _ _ _ _ HI Hex Hold) as Hpre.
  apply wp_bind. apply wp_block_put; [apply HI|done|].
  pose proof (look_after_h (store l) (put_block h (BChange b) (store l)) _ _ _ HI Hpre eq_refl) as Eh.
  destruct (hd_rep_block _ _ _ _ _ _ _ Hd) as (rb & rsc & Erb).
  destruct (look_after_block (store l) (put_block h (BChange b) (store l)) _ _ _ HI Hpre eq_refl _ _ _ Erb) as [rsc' Erb'].
  apply wp_bind. unfold ledger_balance. eapply wp_st_keep.
  { apply (balance_compute_agree (store l)); [by eapply put_agree|].
    apply (balance_compute_correct _ _ _ HI); [apply Hd|]. unfold enough_fuel in Hfuel. lia. }
  rewrite <-(hd_balance _ _ _ _ _ _ _ Hd).
  apply wp_bind. eapply wp_representation_add; [exact Eh|].
  apply wp_bind. eapply wp_representation_add; [exact Erb'|].
  pose proof (has_sum _ _ _ HI) as Hck0. latest_head Hd. project_in Hl1.
  apply wp_bind. apply wp_del.
  { project. rewrite Hl1. tables. by rewrite Efr. }
  write. apply wp_bind, wp_stats. intros l2 Hl2. apply wp_ret.
  project_in Hl2; rewrite Hl1 in Hl2; project_in Hl2.
  assert (Hblocks : a_blocks (store l2) = a_blocks (put_block h (BChange b) (store l)))
    by (rewrite Hl2; by tables).
  eapply (commit_processed (store l) (store l2) g hist a (BChange b) (balance i) now
    HI Hok Hex); rewrite ?Ei; try done.
  - apply Hd.
  - by rewrite Ei in Hold.
  - simpl. split_and!; [|done..]. rewrite Hl2. by tables.
  - rewrite Hl2. tables. unfold new_info, new_rep, new_open. by rewrite Ei.
  - eapply frontier_step; try done; [|rewrite Hl2; by tables].
    intros E. change (h = p) in E. by rewrite E, (hd_block _ _ _ _ _ _ _ Hd) in Hex.
  - rewrite <-Ei. eapply (weight_moved _ _ _ _ _ _ _ _ HI Hpre Hblocks); [done|].
    intros r. rewrite Ei, (share_known _ _ _ _ _ Erb), Hl2. tables.
    rewrite !add_rep_weight. tables. apply move_mod.
  - rewrite Hl2. by tables.
  - rewrite Hl2. checksum HI Hsum.
  - rewrite Z.sub_diag. apply uval_zero.
Qed.

(** Pending entries name a sender that has an account. *)
Lemma pending_source {delta} s g hist k q : InvD delta s g hist → a_pending s !! k = Some q →
  is_Some (a_accounts s !! source q) ∧ is_Some (a_lookup s k.2).
Proof.
  destruct k as [d x]. intros HI Eq.
  destruct (inv_pending _ _ _ HI _ _ _ Eq) as (sb & ssc & sm & Esb & Esm & _ & _ & Hso & _).
  destruct (inv_meta _ _ _ HI _ _ Esm) as (_ & _ & Hacc). rewrite Hso. simpl. by rewrite Esb.
Qed.

Lemma process_open_ok b l g hist :
  Inv (store l) g hist → digest_ok (store l) (BOpen b) →
  wp (process_open_block b) l (processed l g hist (BOpen b)).
Proof.
  intros HI Hok. pose proof Hok as [(Hh0 & Hh1 & Hhg) _]. unfold process_open_block.
  set (h := block_hash (BOpen b)) in *. set (a := oh_account (hashables b)).
  read. case_bool_decide as Hex; [reject|]. apply eq_None_not_Some in Hex.
  read. case_bool_decide as Hsrc; tidy; [|reject].
  destruct (validate_message _ _ _) eqn:Hsig; [reject|]. read.
  destruct (a_accounts (store l) !! a) as [i|] eqn:Ea; [reject|]. read.
  destruct (a_pending (store l) !! _) as [q|] eqn:Eq; [|reject].
  destruct (u_eqb a burn_account) eqn:Hburn; [reject|]. apply u_eqb_false in Hburn.
  read. destruct (pending_source _ _ _ _ _ HI Eq) as [Hacc _].
  apply wp_bind, wp_assert; [by apply bool_decide_eq_true|].
  apply wp_bind, wp_del; [by rewrite Eq|].
  assert (Hold : links (BOpen b) = false ∧ block_previous (BOpen b) = U 32 0) by done.
  assert (Hpre : put_pre (store l) h (BOpen b)) by done.
  apply wp_bind. apply wp_block_put; [by apply (tables_wf_eq (store l)), HI|done|].
  set (s1 := put_block _ _ _).
  assert (Hb1 : a_blocks s1 = a_blocks (put_block h (BOpen b) (store l))) by by apply put_blocks_eq.
  pose proof (look_after_h _ _ _ _ _ HI Hpre Hb1) as Eh.
  assert (Ha1 : a_accounts s1 = a_accounts (store l)) by (unfold s1; by tables).
  apply wp_bind. apply wp_change_latest; [done| | |].
  { project. unfold s1. tables. by eapply has_sum. }
  { project. rewrite Ha1, Ea. eauto. }
  intros l1 now ck Hsum Hl1. project_in Hl1.
  apply wp_bind. eapply wp_representation_add.
  { rewrite Hl1, latest_lookup. exact Eh. }
  write. apply wp_bind, wp_stats. intros l2 Hl2. apply wp_ret.
  project_in Hl2; rewrite Hl1 in Hl2; project_in Hl2.
  assert (Hblocks : a_blocks (store l2) = a_blocks (put_block h (BOpen b) (store l)))
    by (rewrite Hl2; by tables).
  assert (Hng : u_eqb (oh_source (hashables b)) genesis_account = false).
  { apply u_eqb_false. intros E. rewrite E, (genesis_not_block _ _ _ HI) in Hsrc.
    by destruct Hsrc. }
  eapply (commit_processed (store l) (store l2) g hist a (BOpen b) (amount q) now
    HI Hok Hex); rewrite ?Ea; try done.
  - simpl. unfold moves. simpl. rewrite Hng. exists q. split_and!; [done..|].
    rewrite Hl2. tables. unfold s1. by tables.
  - intros _. simpl. rewrite Hng. eauto.
  - rewrite Hl2. tables. rewrite Ha1. unfold new_info, new_rep, new_open. by rewrite Ea.
  - intros x c. rewrite Hl2. tables. unfold s1. tables. rewrite lookup_insert_Some. naive_solver.
  - change (share (a_lookup (store l)) None) with (share (a_lookup (store l)) None).
    rewrite <-Ea. eapply (weight_moved _ _ _ _ _ _ _ _ HI Hpre Hblocks); [done|].
    intros r. rewrite Ea, Hl2. tables. rewrite add_rep_weight. unfold s1. tables. simpl.
    f_equal. lia.
  - rewrite Hl2. tables. unfold s1. by tables.
  - rewrite Hl2. checksum HI Hsum.
  - pose proof (uval_range (amount q)). lia.
Qed.

(** *** State blocks *)
Definition account_checked (b : state_block) (o : option account_info)
    (r : process_result * u128 * bool) : Prop :=
  let h := hashables b in
  let '(c, amt, is_send) := r in
  c = progress →
  is_send = sends_from (match o with Some i => uval (balance i) | None => 0 end) (BState b) ∧
  match o with
  | Some i => th_previous h ≠ U 32 0 ∧ th_previous h = head i ∧
      uval amt = Z.abs (uval (balance i) - uval (th_balance h))
  | None => th_previous h = U 32 0 ∧ th_link h ≠ U 32 0 ∧ amt = th_balance h
  end.

Lemma wp_state_account_checks b o l (Q : _ → ledger astore → Prop) :
  (∀ r l', store l' = store l → account_checked b o r → Q r l') →
  wp (state_account_checks b o) l Q.
Proof.
  intros HQ. unfold state_account_checks. destruct o as [i|].
  - destruct (is_zero _) eqn:Ez; [apply wp_ret; by apply HQ|]. apply is_zero_false in Ez. read.
    case_bool_decide; [|apply wp_ret; by apply HQ]. apply wp_ret. apply HQ; [done|].
    unfold account_checked. destruct (u_eqb _ _) eqn:Eh; [|done]. apply u_eqb_true in Eh.
    intros _. destruct (u_ltb_spec (th_balance (hashables b)) (balance i)).
    + split_and!; [simpl; lia|done..|]. rewrite uval_sub_small; lia.
    + split_and!; [simpl; lia|done..|]. rewrite uval_sub_small; lia.
  - destruct (is_zero (th_previous _)) eqn:Ez; [|apply wp_ret; by apply HQ].
    apply is_zero_true in Ez. apply wp_bind, wp_stats. intros l' Hl'. apply wp_ret.
    apply HQ; [done|]. unfold account_checked. destruct (is_zero (th_link _)) eqn:El; [done|].
    apply is_zero_false in El. simpl. intros _. split_and!; try done.
    pose proof (uval_range (th_balance (hashables b))). lia.
Qed.

Definition link_checked (s : astore) (b : state_block) (amt : u128) (is_send : bool) : Prop :=
  let h := hashables b in
  if is_send then True
  else if is_zero (th_link h) then amt = U 16 0
  else ∃ q, a_pending s !! (th_account h, th_link h) = Some q ∧ amt = amount q.

Lemma wp_state_link_checks b amt is_send l (Q : process_result → ledger astore → Prop) :
  (∀ c, (c = progress → link_checked (store l) b amt is_send) → Q c l) →
  wp (state_link_checks b amt is_send) l Q.
Proof.
  intros HQ. unfold state_link_checks, link_checked in *. destruct is_send; simpl.
  { apply wp_ret. by apply HQ. }
  destruct (is_zero (th_link _)); simpl.
  { apply wp_ret. apply HQ. destruct (is_zero amt) eqn:Ea; [|done].
    intros _. by apply is_zero_true in Ea. }
  read. case_bool_decide; [|apply wp_ret; by apply HQ]. read. apply wp_ret. apply HQ.
  destruct (a_pending _ !! _) as [q|]; [|done]. destruct (u_eqb _ _) eqn:E; [|done].
  apply u_eqb_true in E. intros _. by exists q.
Qed.

(** The tables after [state_apply]. *)
Record state_applied (s s' : astore) (b : state_block) (o : option account_info) (amt : u128)
    (is_send : bool) (now : u64) : Prop := {
  sa_blocks : a_blocks s' = a_blocks (put_block (block_hash (BState b)) (BState b) s);
  sa_accounts : a_accounts s' =
    <[th_account (hashables b) :=
      new_info s (th_account (hashables b)) (BState b) (th_balance (hashables b)) now]>
      (a_accounts s);
  sa_frontiers : a_frontiers s' = match o with
    | Some i => delete (head i) (a_frontiers s) | None => a_frontiers s end;
  sa_pending : a_pending s' =
    if is_send then <[(th_link (hashables b), block_hash (BState b)) :=
      Pending_info (th_account (hashables b)) amt]> (a_pending s)
    else if is_zero (th_link (hashables b)) then a_pending s
    else delete (th_account (hashables b), th_link (hashables b)) (a_pending s);
  sa_rep : ∀ r, uval (default (U 16 0) (a_rep s' !! r)) =
    (uval (default (U 16 0) (a_rep s !! r)) - share (a_lookup s) o r
      + (if decide (block_representative (BState b) = r)
         then uval (th_balance (hashables b)) else 0)) mod 2 ^ 128;
  sa_info : a_info s' = a_info s;
  sa_checksum : sum_ok s';
}.

Lemma frontier_zero {delta} s g hist : InvD delta s g hist → a_frontiers s !! U 32 0 = None.
Proof.
  intros HI. destruct (_ !! _) as [a|] eqn:E; [|done].
  apply (inv_frontier _ _ _ HI) in E as (i & b & sc & Ei & Eh & _).
  destruct (account_head _ _ _ HI _ _ Ei) as (pb & pm & Hd).
  destruct (hd_nonzero _ _ _ _ _ _ _ Hd) as [? _]. congruence.
Qed.

(** Take the old balance from the old representative, if there is one. *)
Definition drop_rep (s : astore) (o : option account_info) (s1 : astore) : astore :=
  match o with
  | Some i => match a_lookup s (rep_block i) with
              | Some (rb, _) => add_rep rb (neg (balance i)) s1
              | None => s1
              end
  | None => s1
  end.

Lemma drop_rep_weight s o s1 r :
  match o with Some i => is_Some (a_lookup s (rep_block i)) | None => True end →
  uval (default (U 16 0) (a_rep (drop_rep s o s1) !! r)) =
    (uval (default (U 16 0) (a_rep s1 !! r)) - share (a_lookup s) o r) mod 2 ^ 128.
Proof.
  intros Ho. unfold drop_rep. destruct o as [i|].
  - destruct Ho as [[rb sc] E]. rewrite E, (share_known _ _ _ _ _ E), add_rep_weight.
    case_decide; [apply neg_mod|f_equal; lia].
  - simpl. rewrite Z.sub_0_r. symmetry. apply Z.mod_small. rewrite <-modulus_16. apply uval_range.
Qed.

Lemma drop_rep_other s o s1 :
  let s2 := drop_rep s o s1 in
  a_blocks s2 = a_blocks s1 ∧ a_frontiers s2 = a_frontiers s1 ∧ a_accounts s2 = a_accounts s1 ∧
  a_pending s2 = a_pending s1 ∧ a_info s2 = a_info s1 ∧ a_checksum s2 = a_checksum s1.
Proof. unfold drop_rep. destruct o; [|done]. by destruct (a_lookup _ _) as [[rb ?]|]. Qed.

Lemma wp_drop_rep l l1 g hist o a (Q : unit → ledger astore → Prop) :
  Inv (store l) g hist → o = a_accounts (store l) !! a →
  (∀ x b sc, a_lookup (store l) x = Some (b, sc) → ∃ sc', a_lookup (store l1) x = Some (b, sc')) →
  Q tt (set_store l1 (drop_rep (store l) o (store l1))) →
  wp (if negb (is_zero (rep_block (default account_info_default o)))
      then st (representation_add (rep_block (default account_info_default o))
        (neg (balance (default account_info_default o)))) else mret tt) l1 Q.
Proof.
  intros HI Eo Hl HQ. unfold drop_rep in HQ. destruct o as [i|]; simpl.
  - destruct (account_head _ _ _ HI _ _ (eq_sym Eo)) as (pb & pm & Hd).
    destruct (hd_rep_block _ _ _ _ _ _ _ Hd) as (rb & sc & Erb). rewrite Erb in HQ.
    rewrite (proj2 (is_zero_false _)).
    + destruct (Hl _ _ _ Erb) as [sc' E]. by eapply wp_representation_add.
    + apply (source_nonzero _ _ _ HI), (inv_dom _ _ _ HI). by rewrite Erb.
  - rewrite is_zero_0. apply wp_ret. by rewrite set_store_store in HQ.
Qed.

(** The pending entry a state block makes or consumes. *)
Definition move_pending (b : state_block) (amt : u128) (is_send : bool) (s : astore) : astore :=
  if is_send then set_pending <[(th_link (hashables b), block_hash (BState b)) :=
    Pending_info (th_account (hashables b)) amt]> s
  else if is_zero (th_link (hashables b)) then s
  else set_pending (delete (th_account (hashables b), th_link (hashables b))) s.

Lemma move_pending_other b amt is_send s :
  let s2 := move_pending b amt is_send s in
  a_blocks s2 = a_blocks s ∧ a_frontiers s2 = a_frontiers s ∧ a_accounts s2 = a_accounts s ∧
  a_rep s2 = a_rep s ∧ a_info s2 = a_info s ∧ a_checksum s2 = a_checksum s.
Proof. unfold move_pending. destruct is_send; [done|]. by destruct (is_zero _). Qed.

Lemma wp_move_pending b amt is_send l (Q : unit → ledger astore → Prop) :
  link_checked (store l) b amt is_send →
  (∀ l', store l' = move_pending b amt is_send (store l) → Q tt l') →
  wp (if is_send then
        st (pending_put (th_link (hashables b), block_hash (BState b))
          (Pending_info (th_account (hashables b)) amt));;
        stats_inc stat.ledger stat.send
      else if negb (is_zero (th_link (hashables b))) then
        st (pending_del (th_account (hashables b), th_link (hashables b)));;
        stats_inc stat.ledger stat.receive
      else mret tt) l Q.
Proof.
  unfold link_checked, move_pending. intros Hl HQ. destruct is_send.
  { write. apply wp_stats. intros l' El. by apply HQ. }
  destruct (is_zero (th_link _)); simpl; [apply wp_ret; by apply HQ|].
  destruct Hl as (q & Eq & _). apply wp_bind, wp_del; [by rewrite Eq|].
  apply wp_stats. intros l' El. by apply HQ.
Qed.

(** Delete the frontier of the old head, if it has one. *)
Lemma wp_drop_frontier l x fr (Q : unit → ledger astore → Prop) :
  a_frontiers (store l) = fr → (∀ a, fr !! x = Some a → a ≠ U 32 0) →
  (∀ l', store l' = set_frontiers (λ _, delete x fr) (store l) → Q tt l') →
  wp (f ← st (frontier_get x);
      if negb (is_zero f) then st (frontier_del x) else mret tt) l Q.
Proof.
  intros <- Hnz HQ. read. destruct (a_frontiers (store l) !! x) as [a|] eqn:E; tidy.
  - rewrite (proj2 (is_zero_false _)) by by eapply Hnz. simpl. apply wp_del; [by rewrite E|].
    by apply HQ.
  - rewrite is_zero_0. apply wp_ret. apply HQ. rewrite delete_id by done. by destruct (store l).
Qed.

Lemma wp_state_apply b l g hist amt is_send (Q : unit → ledger astore → Prop) :
  let h := hashables b in
  let o := a_accounts (store l) !! th_account h in
  Inv (store l) g hist → digest_ok (store l) (BState b) → put_pre (store l) (block_hash (BState b)) (BState b) →
  (o = None → th_previous h = U 32 0) →
  link_checked (store l) b amt is_send →
  (∀ l' now, state_applied (store l) (store l') b o amt is_send now → Q tt l') →
  wp (state_apply b (block_hash (BState b)) (default account_info_default o) amt is_send) l Q.
Proof.
  intros h o HI Hok Hpre Hnone Hlink HQ. pose proof Hok as [(Hh0 & _) _]. unfold state_apply. fold h.
  set (hash := block_hash (BState b)) in *.
  apply wp_bind, wp_stats. intros l0 El0. rewrite <-El0 in HI, Hpre, HQ, Hlink, Hok.
  assert (Ho : a_accounts (store l0) !! th_account h = o) by (unfold o; by rewrite El0).
  clearbody o. clear El0 l.
  apply wp_bind, wp_block_put; [apply HI|done|].
  apply wp_bind. eapply wp_drop_rep; [exact HI|by rewrite Ho| |].
  { intros. by eapply (look_after_block (store l0) _ _ _ _ HI Hpre eq_refl). }
  project. set (s1 := put_block _ _ _). set (s2 := drop_rep _ _ _).
  destruct (drop_rep_other (store l0) o s1) as (D1 & D2 & D3 & D4 & D5 & D6). fold s2 in D1, D2, D3, D4, D5, D6.
  assert (Eh : a_lookup s2 hash = Some (BState b, U 32 0)).
  { by apply (look_after_h (store l0) _ _ _ _ HI Hpre). }
  apply wp_bind. eapply wp_representation_add; [exact Eh|]. project.
  apply wp_bind, wp_move_pending.
  { unfold link_checked. project. tables. rewrite D4. unfold s1. by tables. }
  intros l1 Hl1. project_in Hl1.
  match type of Hl1 with _ = move_pending _ _ _ ?s =>
    destruct (move_pending_other b amt is_send s) as (M1 & M2 & M3 & M4 & M5 & M6) end.
  rewrite <-Hl1 in M1, M2, M3, M4, M5, M6.
  apply wp_bind, wp_change_latest; [done| | |].
  { rewrite M6. tables. rewrite D6. unfold s1. tables. by eapply has_sum. }
  { rewrite M3. tables. rewrite D3. unfold s1. tables. rewrite Ho. destruct o as [i|]; [done|].
    exists (BState b), (U 32 0). split; [|by apply Hnone].
    rewrite <-Eh. by apply lookup_blocks_eq. }
  intros l2 now ck Hsum Hl2. eapply wp_drop_frontier; [done| |].
  { rewrite Hl2. tables. rewrite M2. tables. rewrite D2. unfold s1. tables. intros a Ea.
    apply (inv_frontier _ _ _ HI) in Ea as (j & ? & ? & Ej & _).
    destruct (account_head _ _ _ HI _ _ Ej) as (pb & pm & Hd). apply Hd. }
  intros l3 Hl3. apply (HQ l3 now). rewrite Hl2 in Hl3. rewrite Hl3. clear Hl2 Hl3 HQ. constructor.
  - tables. rewrite M1. tables. by rewrite D1.
  - tables. unfold new_info, new_open, new_rep. fold h hash.
    rewrite M3. tables. rewrite D3. unfold s1. tables. by rewrite Ho.
  - tables. rewrite M2. tables. rewrite D2. unfold s1. tables. destruct o as [i|]; [done|].
    apply delete_id. by eapply frontier_zero.
  - tables. rewrite Hl1. unfold move_pending. destruct is_send; [|destruct (is_zero _)];
      tables; rewrite D4; unfold s1; by tables.
  - intros r. tables. rewrite M4, add_rep_weight. unfold s2. rewrite drop_rep_weight.
    + rewrite Zplus_mod_idemp_l. unfold s1. by tables.
    + destruct o as [i|]; [|done]. destruct (account_head _ _ _ HI _ _ Ho) as (pb & pm & Hd).
      destruct (hd_rep_block _ _ _ _ _ _ _ Hd) as (rb & sc & ->). done.
  - tables. rewrite andb_false_r, M5. tables. rewrite D5. unfold s1. by tables.
  - unfold sum_ok. project. apply latest_checksum; [|exact Hsum]. unfold sum_ok.
    rewrite M6, M3. tables. rewrite D6, D3. unfold s1. tables. apply HI.
Qed.

Lemma process_state_ok b l g hist :
  Inv (store l) g hist → digest_ok (store l) (BState b) →
  wp (state_block_impl b) l (processed l g hist (BState b)).
Proof.
  intros HI Hok. unfold state_block_impl. set (h := hashables b).
  read. case_bool_decide as Hex; [reject|]. apply eq_None_not_Some in Hex.
  destruct (validate_message _ _ _) eqn:Hsig; [reject|].
  destruct (is_zero (th_account h)) eqn:Ha; [reject|]. apply is_zero_false in Ha. read.
  apply wp_bind, wp_state_account_checks. intros [[c amt] is_send] l1 El1 Hc.
  rewrite <-El1. apply wp_bind. destruct (decide (c = progress)) as [Hp|Hp]; simpl; cycle 1.
  { apply wp_ret. rewrite decide_False by done. apply wp_ret. unfold processed.
    by rewrite decide_False. }
  apply wp_state_link_checks. intros c' Hlink. destruct (decide (c' = progress)) as [Hp'|Hp'];
    cycle 1.
  { apply wp_ret. unfold processed. by rewrite decide_False. }
  specialize (Hc Hp). specialize (Hlink Hp'). destruct Hc as [Hs Ho]. fold h in Ho.
  assert (Hold : match a_accounts (store l) !! th_account h with
    | Some i => links (BState b) = true ∧ block_previous (BState b) = head i ∧
        ∀ pb sc, a_lookup (store l) (head i) = Some (pb, sc) →
          valid_predecessor (BState b) pb = true
    | None => links (BState b) = false ∧ block_previous (BState b) = U 32 0
    end).
  { destruct (a_accounts (store l) !! _).
    - destruct Ho as (Hz & Hh & _). split_and!; [|done..]. simpl.
      by rewrite (proj2 (is_zero_false _)).
    - destruct Ho as (Hz & _). split; [|done]. simpl. unfold h in Hz. by rewrite Hz, is_zero_0. }
  pose proof (commit_pre _ _ _ _ _ HI Hex Hold) as Hpre.
  rewrite <-El1 in HI, Hex, Hpre, Hold, Ho, Hs, Hok.
  apply wp_bind. eapply (wp_state_apply b l1 g hist); [done..| |done|].
  { fold h. intros E. rewrite E in Ho. apply Ho. }
  intros l2 now Hsa. apply wp_ret. destruct Hsa. fold h in sa_pending0.
  eapply (commit_processed (store l1) (store l2) g hist (th_account h) (BState b) (th_balance h)
    now HI Hok Hex Ha Hold); try done.
  - unfold moves, receives_from. rewrite <-Hs. unfold link_checked in Hlink. fold h in Hlink |- *.
    pose proof (uval_range (th_balance h)) as Hr. destruct is_send.
    + simpl in Hs. fold h in Hs. destruct (a_accounts (store l1) !! _) as [i|]; [|lia].
      destruct Ho as (_ & _ & Hamt). split; [lia|]. eexists. split; [exact sa_pending0|].
      split; [done|]. simpl. lia.
    + simpl in Hs. fold h in Hs. destruct (is_zero (th_link h)) eqn:El.
      * destruct (a_accounts (store l1) !! _) as [i|].
        -- destruct Ho as (_ & _ & Hamt). rewrite Hlink, uval_zero in Hamt.
           split_and!; [done|lia|done].
        -- destruct Ho as (_ & Hz & _). by apply is_zero_true in El.
      * destruct Hlink as (q & Eq & ->). exists q. split_and!; [done| |done].
        destruct (a_accounts (store l1) !! _) as [i|].
        -- destruct Ho as (_ & _ & Hamt). lia.
        -- destruct Ho as (_ & _ & ->). lia.
  - destruct (a_accounts (store l1) !! _) as [i|]; [destruct Hold as [-> _]; done|].
    intros _. destruct Ho as (_ & Hz & _). apply is_zero_false in Hz. unfold receives_from.
    rewrite <-Hs. destruct is_send; [|fold h; rewrite Hz; eauto].
    simpl in Hs. pose proof (uval_range (th_balance (hashables b))). lia.
  - intros x c0. rewrite sa_frontiers0.
    destruct (a_accounts (store l1) !! _) as [i|].
    + destruct Hold as (-> & -> & _). rewrite lookup_delete_Some. split; [|naive_solver].
      intros [Hne E]. right. split_and!; [|naive_solver|done]. intros ->.
      apply (inv_frontier _ _ _ HI) in E as (? & ? & ? & _ & _ & E & _). by rewrite Hex in E.
    + destruct Hold as (-> & _). split; [|naive_solver]. intros E. right.
      split_and!; [|naive_solver|done]. intros ->.
      apply (inv_frontier _ _ _ HI) in E as (? & ? & ? & _ & _ & E & _). by rewrite Hex in E.
  - eapply (weight_moved _ _ _ _ _ _ _ _ HI Hpre); done.
  - rewrite andb_false_r. apply sa_info0.
  - simpl. destruct (a_accounts (store l1) !! _) as [i|].
    + apply Ho.
    + destruct Ho as (_ & _ & ->). pose proof (uval_range (th_balance h)). lia.
Qed.

(** Every kind of block. *)
Lemma process_ok fuel b l g hist :
  Inv (store l) g hist → digest_ok (store l) b → (enough_fuel l ≤ fuel)%nat →
  wp (process fuel b) l (processed l g hist b).
Proof.
  intros HI Hok Hf. destruct b.
  - by apply process_send_ok.
  - by apply process_receive_ok.
  - by apply process_open_ok.
  - by apply process_change_ok.
  - by apply process_state_ok.
Qed.
End handlers.
