(* ===== verification/Accounts.v ===== *)
(** * The owner of a block

    [ledger::account] follows the successors of a block to one whose account
    is known.  On a consistent store it ends and returns the owner. *)

From S2P Require Import Prelude Crypto Blocks Common Stats Store Ledger StoreLemmas LedgerInv.
From S2P Require Import Visitors Extend ProcessLemmas Commit.

Section accounts.
Context `{Blake2b, LedgerConstants}.
Context (l : ledger astore) (g : gmap u256 meta) (hist : list u256).
Context {delta : u256 → Z}.
Hypothesis HI : InvD delta (store l) g hist.
Local Abbreviation s := (store l).

(** A successor block has the same owner and comes later. *)
Lemma successor_block x b sc m :
  a_lookup s x = Some (b, sc) → g !! x = Some m → sc ≠ U 32 0 →
  ∃ b' sc' m', a_lookup s sc = Some (b', sc') ∧ g !! sc = Some m' ∧ m_owner m' = m_owner m ∧
    links b' = true ∧ block_previous b' = x.
Proof.
  intros Eb Em Hsc.
  destruct (inv_succ _ _ _ HI _ _ _ _ Eb Em) as [[? _]|(b' & sc' & Eb' & Hl & Hp)]; [done|].
  destruct (inv_dom _ _ _ HI sc) as [[m' Em'] _]; [by rewrite Eb'|].
  exists b', sc', m'. split_and!; try done.
  destruct (inv_block _ _ _ HI _ _ _ _ Eb' Em') as (_ & _ & _ & _ & Hf & _).
  unfold follows in Hf. rewrite Hl, Hp in Hf. destruct Hf as (? & pm & _ & Epm & _ & -> & _).
  by simplify_eq.
Qed.

Lemma head_frontier x b m :
  a_lookup s x = Some (b, U 32 0) → g !! x = Some m → legacy b = true →
  a_frontiers s !! x = Some (m_owner m).
Proof.
  intros Eb Em Hl. destruct (inv_succ _ _ _ HI _ _ _ _ Eb Em) as [(_ & i & Ei & Hh)|Hs].
  - apply (inv_frontier _ _ _ HI). exists i, b, (U 32 0). done.
  - destruct Hs as (b' & sc' & E & _). destruct (inv_dom _ _ _ HI (U 32 0)) as [[m' Em'] _].
    { by rewrite E. }
    by destruct (inv_block _ _ _ HI _ _ _ _ E Em') as (? & _).
Qed.

Definition account_body : u256 * block * u256 → M (ledger astore) (u256 * block * u256 + u256) :=
  λ '(hash, b, successor),
        if negb (is_zero successor) && negb (bool_decide (block_type_of b = bt_state)) then
          info ← st (block_info_get successor);
          match info with
          | Some i => mret (inr (bi_account i))
          | None =>
              successor ← st (block_successor hash);
              if negb (is_zero successor) then
                nb ← st (block_get successor);
                match nb with
                | Some nb => mret (inl (successor, nb, successor))
                | None => abort
                end
              else mret (inl (hash, b, successor))
          end
        else
          match b with
          | BState t => mret (inr (th_account (hashables t)))
          | _ => a ← st (frontier_get hash); mret (inr a)
          end.

Lemma account_body_end x b sc m n (Q : u256 → ledger astore → Prop) :
  a_lookup s x = Some (b, sc) → g !! x = Some m → legacy b = false ∨ sc = U 32 0 →
  Q (m_owner m) l → wp (loop (S n) account_body (x, b, U 32 0)) l Q.
Proof.
  intros Eb Em Hb HQ. apply wp_loop. unfold account_body. rewrite is_zero_0. simpl.
  destruct (legacy b) eqn:El.
  - destruct Hb as [?| ->]; [done|]. pose proof (head_frontier _ _ _ Eb Em El) as Hf.
    destruct b; try done; read; rewrite Hf; by apply wp_ret.
  - destruct b; try done. apply wp_ret.
    destruct (inv_block _ _ _ HI _ _ _ _ Eb Em) as (_ & _ & _ & _ & _ & [Ho _] & _).
    by rewrite <-Ho.
Qed.

Lemma account_loop_ok n l1 x l2 b sc m s0 (Q : u256 → ledger astore → Prop) :
  hist = l1 ++ x :: l2 → (length l2 < n)%nat → a_lookup s x = Some (b, sc) → g !! x = Some m →
  s0 = U 32 1 ∨ s0 = x → Q (m_owner m) l →
  wp (loop (S n) account_body (x, b, s0)) l Q.
Proof.
  revert l1 x l2 b sc m s0. induction n as [|n IH]; [lia|].
  intros l1 x l2 b sc m s0 El Hn Eb Em Hs0 HQ.
  pose proof (inv_block _ _ _ HI _ _ _ _ Eb Em) as (Hx0 & _ & _ & Ho0 & _ & Hst & _).
  assert (Hnz : is_zero s0 = false).
  { apply is_zero_false. destruct Hs0 as [-> | ->]; [|done].
    intros E%(f_equal uval). revert E. vm_compute. done. }
  apply wp_loop. unfold account_body at 1. rewrite Hnz. simpl.
  destruct (bool_decide _) eqn:Ety; simpl.
  { apply bool_decide_eq_true in Ety. destruct b; try done. apply wp_ret.
    destruct Hst as [<- _]. done. }
  assert (Hlg : legacy b = true) by (unfold legacy; by rewrite Ety).
  read. destruct (a_info s !! s0) as [i|] eqn:Ei.
  { apply wp_ret. destruct Hs0 as [-> | ->]; [by rewrite (inv_info_one _ _ _ HI) in Ei|].
    by destruct (inv_info _ _ _ HI _ _ _ Ei Em) as [-> _]. }
  read. rewrite Eb. tidy. destruct (is_zero sc) eqn:Esc; simpl.
  { apply is_zero_true in Esc as ->. apply wp_ret.
    by eapply account_body_end; auto. }
  apply is_zero_false in Esc.
  destruct (successor_block _ _ _ _ Eb Em Esc) as (b' & sc' & m' & Eb' & Em' & Ho & Hl & Hp).
  read. rewrite Eb'. tidy. apply wp_ret.
  destruct (hist_split _ _ _ HI sc) as (k1 & k2 & Ek); [eauto|].
  destruct (inv_order _ _ _ HI _ _ _ _ _ Ek Eb') as [Hpre _]. specialize (Hpre Hl).
  rewrite Hp in Hpre.
  destruct (NoDup_before _ _ _ _ _ _ _ (inv_nodup _ _ _ HI) El Ek Hpre) as (q & -> & _).
  rewrite length_app in Hn. simpl in Hn.
  eapply (IH k1 sc k2 b' sc' m'); try done; [lia|by right|by rewrite Ho].
Qed.

Lemma wp_ledger_account fuel x m (Q : u256 → ledger astore → Prop) :
  g !! x = Some m → (size (a_blocks s) + 2 ≤ fuel)%nat → Q (m_owner m) l →
  wp (ledger_account fuel x) l Q.
Proof.
  intros Em Hf HQ. destruct (meta_block _ _ _ HI _ _ Em) as (b & sc & Eb).
  destruct (hist_split _ _ _ HI x) as (l1 & l2 & El); [eauto|].
  pose proof (inv_size _ _ _ HI) as Hsz. rewrite El, length_app in Hsz. simpl in Hsz.
  unfold ledger_account. read. rewrite Eb. tidy. apply wp_bind.
  destruct fuel as [|fuel]; [lia|].
  eapply (account_loop_ok fuel l1 x l2 b sc m); [done|lia|done|done|by left|].
  apply wp_bind, wp_assert; [|by apply wp_ret].
  apply negb_true_iff, is_zero_false. apply (inv_block _ _ _ HI _ _ _ _ Eb Em).
Qed.
End accounts.
