(* ===== verification/Retract.v ===== *)
(** * Removing the last block of an account

    [retracts] says how the tables change when the head block of an account
    is rolled back.  It is what the rollback visitor does for each kind of
    block, and it preserves the invariant: nothing that stays refers to the
    removed block. *)

From S2P Require Import Prelude Crypto Blocks Common Stats Store Ledger StoreLemmas LedgerInv.
From S2P Require Import Visitors Extend ProcessLemmas Commit Accounts.

(** The lookups without a block. *)
Definition del_lookup (h : u256) (b : block) (f : u256 → option (block * u256)) (x : u256)
    : option (block * u256) :=
  if decide (x = h) then None
  else if decide (links b = true ∧ x = block_previous b)
  then (λ v, (v.1, U 32 0)) <$> f x else f x.

Section retracts.
Context `{Blake2b, LedgerConstants}.

(** A head block whose amount, if it sends, nobody received. *)
Record removable (s : astore) (g : gmap u256 meta) (a h : u256) (b : block) (m : meta)
    (i : account_info) : Prop := {
  rm_block : a_lookup s h = Some (b, U 32 0);
  rm_meta : g !! h = Some m;
  rm_owner : m_owner m = a;
  rm_account : a_accounts s !! a = Some i;
  rm_head : head i = h;
  rm_sends : sends g b = true → is_Some (a_pending s !! (destination b, h));
  rm_genesis : genesis_open b = false;
}.

Definition pending_back (g : gmap u256 meta) (s s' : astore) (a h : u256) (b : block) : Prop :=
  if sends g b then a_pending s' = delete (destination b, h) (a_pending s)
  else match receives g b with
       | Some src => ∃ q sb sc sm, a_lookup s src = Some (sb, sc) ∧ g !! src = Some sm ∧
           source q = m_owner sm ∧ uval (amount q) = sent_amount g sb sm ∧
           a_pending s' = <[(a, src) := q]> (a_pending s)
       | None => a_pending s' = a_pending s
       end.

(** [ant] is what the weights already anticipate of the removal. *)
Record retracts (ant : u256 → Z) (s s' : astore) (g : gmap u256 meta) (a h : u256) (b : block) (m : meta)
    (i : account_info) : Prop := {
  r_wf : tables_wf s';
  r_look : ∀ x, a_lookup s' x = del_lookup h b (a_lookup s) x;
  r_size : size (a_blocks s) = S (size (a_blocks s'));
  r_accounts :
    if links b then ∃ i' pm, g !! block_previous b = Some pm ∧
      a_accounts s' = <[a := i']> (a_accounts s) ∧ head i' = block_previous b ∧
      balance i' = m_balance pm ∧ rep_block i' = m_rep pm ∧
      open_block_hash i' = m_open pm ∧ block_count i' = U 8 (m_height pm)
    else a_accounts s' = delete a (a_accounts s);
  r_frontier : ∀ x c, a_frontiers s' !! x = Some c ↔
    (c = a ∧ links b = true ∧ x = block_previous b ∧
      ∃ pb sc, a_lookup s x = Some (pb, sc) ∧ legacy pb = true) ∨
    (x ≠ h ∧ a_frontiers s !! x = Some c);
  r_pending : pending_back g s s' a h b;
  r_weight : ∀ r, uval (default (U 16 0) (a_rep s' !! r)) =
    (uval (default (U 16 0) (a_rep s !! r)) - share (a_lookup s) (Some i) r
      + share (a_lookup s') (a_accounts s' !! a) r + ant r) mod 2 ^ 128;
  (** the cached data of other blocks stays or is that of the predecessor *)
  r_info : ∀ x j, a_info s' !! x = Some j → a_info s !! x = Some j ∨
    (links b = true ∧ x = block_previous b ∧
      ∃ pm, g !! x = Some pm ∧ bi_account j = a ∧ bi_balance j = m_balance pm);
  r_cached : ∀ x, x ≠ h → is_Some (a_info s !! x) → is_Some (a_info s' !! x);
  r_checksum : sum_ok s';
}.
End retracts.

Section heads.
Context `{Blake2b, LedgerConstants} {delta : u256 → Z}.
Context (s : astore) (g : gmap u256 meta) (hist : list u256).
Hypothesis HI : InvD delta s g hist.

Lemma head_not_previous h b m x b0 sc0 :
  a_lookup s h = Some (b, U 32 0) → g !! h = Some m →
  a_lookup s x = Some (b0, sc0) → block_previous b0 ≠ h.
Proof.
  intros Eh Em E. destruct (inv_dom _ _ _ HI x) as [[m0 Em0] _]; [by rewrite E|].
  destruct (inv_block _ _ _ HI _ _ _ _ E Em0) as (Hx & _ & _ & _ & Hf & _).
  unfold follows in Hf. destruct (links b0).
  - destruct Hf as (pb & pm & Epb & _). intros Eq. rewrite Eq, Eh in Epb. congruence.
  - destruct Hf as [-> _]. by destruct (inv_block _ _ _ HI _ _ _ _ Eh Em) as (? & _).
Qed.

(** The head of an account is the last of its blocks. *)
Lemma head_after n : ∀ k1 x k2 m j, hist = k1 ++ x :: k2 → length k2 = n → g !! x = Some m →
  a_accounts s !! m_owner m = Some j → head j ∈ x :: k2.
Proof.
  induction n as [n IH] using (well_founded_induction lt_wf).
  intros k1 x k2 m j Ek Hn Em Ej. destruct (meta_block _ _ _ HI _ _ Em) as (b & sc & E).
  destruct (inv_succ _ _ _ HI _ _ _ _ E Em) as [(_ & j' & Ej' & <-)|(b1 & sc1 & E1 & Hl1 & Hp)].
  { rewrite Ej in Ej'. injection Ej' as <-. set_solver. }
  destruct (inv_dom _ _ _ HI sc) as [[m1 Em1] _]; [by rewrite E1|].
  destruct (hist_split _ _ _ HI sc) as (j1 & j2 & Es); [eauto|].
  destruct (inv_order _ _ _ HI _ _ _ _ _ Es E1) as [Hin _]. specialize (Hin Hl1).
  rewrite Hp in Hin.
  destruct (NoDup_before _ _ _ _ _ _ _ (inv_nodup _ _ _ HI) Ek Es Hin) as (q & -> & _).
  destruct (inv_block _ _ _ HI _ _ _ _ E1 Em1) as (_ & _ & _ & _ & Hf & _).
  unfold follows in Hf. rewrite Hl1, Hp in Hf. destruct Hf as (? & pm & _ & Epm & _ & Ho1 & _).
  rewrite Em in Epm. injection Epm as <-. rewrite <-Ho1 in Ej.
  rewrite length_app in Hn. simpl in Hn.
  pose proof (IH (length j2) ltac:(lia) _ _ _ _ _ Es eq_refl Em1 Ej). set_solver.
Qed.

(** Who received a send that is not pending. *)
Lemma receiver_later k1 h k2 b sc : hist = k1 ++ h :: k2 → a_lookup s h = Some (b, sc) →
  sends g b = true → a_pending s !! (destination b, h) = None →
  ∃ j, a_accounts s !! destination b = Some j ∧ head j ∈ k2.
Proof.
  intros Ek E Hs Hp. destruct (inv_complete _ _ _ HI _ _ _ E Hs) as [Hx|(h' & b' & sc' & E' & Er)].
  { rewrite Hp in Hx. by destruct Hx. }
  destruct (inv_dom _ _ _ HI h') as [[m' Em'] _]; [by rewrite E'|].
  pose proof (receive_owner _ _ _ HI _ _ _ _ _ _ _ E' Em' Er E) as Hd.
  destruct (inv_meta _ _ _ HI _ _ Em') as (_ & _ & [j Ej]). exists j. rewrite Hd. split; [done|].
  destruct (hist_split _ _ _ HI h') as (j1 & j2 & Es); [eauto|].
  destruct (inv_order _ _ _ HI _ _ _ _ _ Es E') as [_ Hin].
  destruct (NoDup_before _ _ _ _ _ _ _ (inv_nodup _ _ _ HI) Ek Es (Hin _ Er)) as (q & -> & _).
  pose proof (head_after _ _ _ _ _ _ Es eq_refl Em' Ej). set_solver.
Qed.
End heads.

Section preserve.
Context `{Blake2b, LedgerConstants}.
Context (delta ant delta' : u256 → Z) (s s' : astore) (g : gmap u256 meta) (l1 l2 : list u256).
Context (a h : u256) (b : block) (m : meta) (i : account_info).
Hypothesis HI : InvD delta s g (l1 ++ h :: l2).
Hypothesis HR : removable s g a h b m i.
Local Abbreviation look := (a_lookup s).
Local Abbreviation look' := (a_lookup s').
Local Abbreviation g' := (delete h g).

Lemma rm_ok : block_ok look g h b m.
Proof. eapply (inv_block _ _ _ HI); apply HR. Qed.

(** No block follows the head or receives from it. *)
Lemma not_previous x b0 sc0 : look x = Some (b0, sc0) → block_previous b0 ≠ h.
Proof.
  eapply head_not_previous; [exact HI|apply HR..].
Qed.

Lemma not_source x b0 sc0 : look x = Some (b0, sc0) → receives g b0 ≠ Some h.
Proof.
  intros E Er. destruct (inv_dom _ _ _ HI x) as [[m0 Em] _]; [by rewrite E|].
  destruct (receive_balance _ _ _ HI _ _ _ _ _ E Em Er) as (sb & ssc & sm & Esb & _ & Hs & _).
  rewrite (rm_block _ _ _ _ _ _ _ HR) in Esb. simplify_eq.
  destruct (rm_sends _ _ _ _ _ _ _ HR Hs) as [q Eq].
  by rewrite (inv_received _ _ _ HI _ _ _ _ E Er) in Eq.
Qed.

(** No other block names it as representative or opening block. *)
Lemma not_ancestor k : ∀ k1 x k2 m0, l1 ++ h :: l2 = k1 ++ x :: k2 → length k1 = k →
  x ≠ h → g !! x = Some m0 → m_rep m0 ≠ h ∧ m_open m0 ≠ h.
Proof.
  induction k as [k IH] using (well_founded_induction lt_wf).
  intros k1 x k2 m0 Ek Hk Hx Em. destruct (meta_block _ _ _ HI _ _ Em) as (b0 & sc0 & E0).
  destruct (inv_block _ _ _ HI _ _ _ _ E0 Em) as (_ & _ & _ & _ & Hf & _).
  unfold follows in Hf. destruct (links b0) eqn:Hl.
  - destruct Hf as (pb & pm & _ & Epm & _ & _ & _ & Ho & Hr).
    destruct (inv_order _ _ _ HI _ _ _ _ _ Ek E0) as [Hp _]. specialize (Hp Hl).
    destruct (hist_rank _ _ _ HI _ _ _ _ Ek Hp) as (j1 & j2 & Ej & Hlt & _).
    destruct (IH (length j1)) with (3 := eq_refl (length j1)) (2 := Ej) (m0 := pm) as [Hr' Ho'];
      [lia|by eapply not_previous|done|].
    rewrite Ho. split; [|done]. destruct b0; by rewrite Hr.
  - destruct Hf as (_ & _ & -> & ->). done.
Qed.

Lemma meta_kept x m0 : x ≠ h → g !! x = Some m0 → m_rep m0 ≠ h ∧ m_open m0 ≠ h.
Proof.
  intros Hx Em. destruct (hist_split _ _ _ HI x) as (k1 & k2 & Ek); [eauto|].
  by eapply not_ancestor.
Qed.

(** An account with a single block. *)
Lemma single_block n : ∀ k1 x k2 m0, l1 ++ h :: l2 = k1 ++ x :: k2 → length k2 = n →
  links b = false → g !! x = Some m0 → m_owner m0 = a → x = h.
Proof.
  induction n as [n IH] using (well_founded_induction lt_wf).
  intros k1 x k2 m0 Ek Hk Hl Em Ho. destruct (meta_block _ _ _ HI _ _ Em) as (b0 & sc0 & E0).
  destruct (inv_succ _ _ _ HI _ _ _ _ E0 Em) as [(_ & j & Ej & Hj)|(b1 & sc1 & E1 & Hl1 & Hp)].
  - rewrite Ho, (rm_account _ _ _ _ _ _ _ HR) in Ej. simplify_eq.
    by rewrite (rm_head _ _ _ _ _ _ _ HR).
  - exfalso. destruct (inv_dom _ _ _ HI sc0) as [[m1 Em1] _]; [by rewrite E1|].
    destruct (hist_split _ _ _ HI sc0) as (j1 & j2 & Ej); [eauto|].
    destruct (inv_order _ _ _ HI _ _ _ _ _ Ej E1) as [Hin _]. specialize (Hin Hl1).
    rewrite Hp in Hin.
    destruct (NoDup_before _ _ _ _ _ _ _ (inv_nodup _ _ _ HI) Ek Ej Hin) as (q & -> & _).
    destruct (inv_block _ _ _ HI _ _ _ _ E1 Em1) as (_ & _ & _ & _ & Hf & _).
    unfold follows in Hf. rewrite Hl1, Hp in Hf. destruct Hf as (? & pm & _ & Epm & _ & Ho1 & _).
    assert (sc0 = h) as ->.
    { eapply (IH (length j2)); [|done|done|done|done|congruence].
      rewrite length_app in Hk. simpl in Hk. lia. }
    rewrite (rm_block _ _ _ _ _ _ _ HR) in E1. congruence.
Qed.

Lemma owner_single x m0 : links b = false → g !! x = Some m0 → m_owner m0 = a → x = h.
Proof.
  intros Hl Em Ho. destruct (hist_split _ _ _ HI x) as (k1 & k2 & Ek); [eauto|].
  by eapply single_block.
Qed.

(** The source of a receiving head block. *)
Lemma received_source src : receives g b = Some src →
  sends g b = false ∧ src ≠ h ∧ ∃ sb ssc sm, look src = Some (sb, ssc) ∧ g !! src = Some sm ∧
    sends g sb = true ∧ destination sb = a ∧
    uval (m_balance m) = prev_balance g b + sent_amount g sb sm.
Proof.
  intros Er. assert (sends g b = false) as Hs.
  { destruct b; simpl in Er |- *; try done. by destruct (_ <? _). }
  destruct rm_ok as (_ & _ & _ & _ & _ & _ & Hb). unfold balanced in Hb. rewrite Hs, Er in Hb.
  destruct Hb as (sb & ssc & sm & Esb & Esm & Hss & Hd & Hsum).
  rewrite (rm_owner _ _ _ _ _ _ _ HR) in Hd. split_and!; [done| |by eauto 10].
  intros ->. eapply (not_source h); [apply HR|done].
Qed.

Hypothesis Hdelta : ∀ r, delta' r = delta r + ant r.
Hypothesis HE : retracts ant s s' g a h b m i.

Lemma look_gone : look' h = None.
Proof. rewrite (r_look _ _ _ _ _ _ _ _ _ HE). unfold del_lookup. by rewrite decide_True. Qed.

Lemma look_back x b0 sc0 : look' x = Some (b0, sc0) →
  x ≠ h ∧ ∃ sc1, look x = Some (b0, sc1) ∧
    ((¬ (links b = true ∧ x = block_previous b) ∧ sc1 = sc0) ∨
     (links b = true ∧ x = block_previous b ∧ sc0 = U 32 0)).
Proof.
  rewrite (r_look _ _ _ _ _ _ _ _ _ HE). unfold del_lookup. case_decide; [done|].
  case_decide as Hp.
  - intros ([b1 sc1] & E & [= -> ->])%fmap_Some. naive_solver.
  - eauto 10.
Qed.

Lemma look_keep x b0 sc0 : look x = Some (b0, sc0) → x ≠ h →
  ∃ sc1, look' x = Some (b0, sc1) ∧ (¬ (links b = true ∧ x = block_previous b) → sc1 = sc0).
Proof.
  intros E Hx. rewrite (r_look _ _ _ _ _ _ _ _ _ HE). unfold del_lookup.
  rewrite decide_False by done. rewrite E. case_decide; simpl; naive_solver.
Qed.

Lemma back_dom x : is_Some (look' x) ↔ is_Some (g' !! x).
Proof.
  rewrite lookup_delete_is_Some, <-(inv_dom _ _ _ HI). split.
  - intros [[b0 sc0] E]. apply look_back in E as (? & sc1 & E & _). split; [done|]. eauto.
  - intros [Hx [[b0 sc0] E]]. destruct (look_keep _ _ _ E) as (sc1 & -> & _); [done|]. eauto.
Qed.

Lemma back_meta x m0 : g' !! x = Some m0 ↔ h ≠ x ∧ g !! x = Some m0.
Proof. apply lookup_delete_Some. Qed.

Lemma kept_prev x b0 sc0 : look x = Some (b0, sc0) → prev_balance g' b0 = prev_balance g b0.
Proof.
  intros E. unfold prev_balance. destruct (is_zero _); [done|].
  rewrite lookup_delete_ne; [done|]. apply not_eq_sym. by eapply not_previous.
Qed.
Lemma kept_sends x b0 sc0 : look x = Some (b0, sc0) → sends g' b0 = sends g b0.
Proof. intros E. destruct b0; try done. simpl. by rewrite (kept_prev _ _ _ E). Qed.
Lemma kept_receives x b0 sc0 : look x = Some (b0, sc0) → receives g' b0 = receives g b0.
Proof. intros E. destruct b0; try done. unfold receives. by rewrite (kept_sends _ _ _ E). Qed.
Lemma kept_sent x b0 sc0 m0 : look x = Some (b0, sc0) → sent_amount g' b0 m0 = sent_amount g b0 m0.
Proof. intros E. unfold sent_amount. by rewrite (kept_prev _ _ _ E). Qed.

Lemma previous_kept : links b = true → block_previous b ≠ h ∧
  ∃ pb pm, look (block_previous b) = Some (pb, h) ∧ g !! block_previous b = Some pm ∧
    m_owner pm = a.
Proof.
  intros Hl. destruct rm_ok as (_ & _ & _ & _ & Hf & _). unfold follows in Hf. rewrite Hl in Hf.
  destruct Hf as (pb & pm & Epb & Epm & _ & Ho & _). split.
  - eapply not_previous. apply HR.
  - exists pb, pm. rewrite <-Ho. split_and!; [done..|]. apply HR.
Qed.

Lemma back_block x b0 sc0 m0 : look' x = Some (b0, sc0) → g' !! x = Some m0 →
  block_ok look' g' x b0 m0.
Proof.
  intros (Hx & sc1 & E & _)%look_back [_ Em]%back_meta.
  destruct (inv_block _ _ _ HI _ _ _ _ E Em) as (? & ? & ? & ? & Hf & ? & Hb).
  split_and!; try done.
  - unfold follows in *. destruct (links b0); [|done].
    destruct Hf as (pb & pm & Epb & Epm & Hrest). exists pb, pm.
    split; [|split; [apply back_meta; split; [|done]|done]].
    + destruct (look_keep _ _ _ Epb) as (sc2 & -> & Hsc); [by eapply not_previous|].
      rewrite Hsc; [done|]. intros [Hl Hp]. destruct (previous_kept Hl) as (_ & ? & ? & Eh & _).
      rewrite <-Hp, Epb in Eh. congruence.
    + apply not_eq_sym. by eapply not_previous.
  - unfold balanced in *. rewrite (kept_sends _ _ _ E), (kept_receives _ _ _ E), (kept_prev _ _ _ E).
    destruct (sends g b0); [done|]. destruct (receives g b0) as [src|] eqn:Er; [|done].
    destruct Hb as (sb & ssc & sm & Esb & Esm & Hrest).
    assert (src ≠ h) as Hsrc. { intros ->. exact (not_source _ _ _ E Er). }
    destruct (look_keep _ _ _ Esb Hsrc) as (sc2 & E2 & _). exists sb, sc2, sm.
    rewrite (kept_sends _ _ _ Esb), (kept_sent _ _ _ _ Esb). split_and!; [done| |naive_solver..].
    by apply back_meta.
Qed.

(** ** Accounts and frontiers *)

Lemma back_account_other c : c ≠ a → a_accounts s' !! c = a_accounts s !! c.
Proof.
  intros Hc. pose proof (r_accounts _ _ _ _ _ _ _ _ _ HE) as Ha. destruct (links b).
  - destruct Ha as (i' & pm & _ & -> & _). by rewrite lookup_insert_ne.
  - rewrite Ha. by rewrite lookup_delete_ne.
Qed.

Lemma back_meta_ok x m0 : g' !! x = Some m0 →
  is_Some (g' !! m_rep m0) ∧ is_Some (g' !! m_open m0) ∧ is_Some (a_accounts s' !! m_owner m0).
Proof.
  intros [Hx Em]%back_meta. destruct (inv_meta _ _ _ HI _ _ Em) as (Hr & Ho & Hacc).
  destruct (meta_kept x m0) as [Hr' Ho']; [done..|].
  split_and!; [by rewrite lookup_delete_ne|by rewrite lookup_delete_ne|].
  destruct (decide (m_owner m0 = a)) as [Ea|Ha]; [|by rewrite back_account_other].
  pose proof (r_accounts _ _ _ _ _ _ _ _ _ HE) as Hacc'. destruct (links b) eqn:Hl.
  - destruct Hacc' as (i' & pm & _ & -> & _). rewrite Ea, lookup_insert_eq. eauto.
  - destruct Hx. symmetry. by eapply owner_single.
Qed.

(** The head of another account is not touched. *)
Lemma other_head_kept c j : c ≠ a → a_accounts s !! c = Some j →
  head j ≠ h ∧ ¬ (links b = true ∧ head j = block_previous b).
Proof.
  intros Hc Ej. destruct (inv_account _ _ _ HI _ _ Ej) as (b0 & m0 & E0 & Em0 & Ho & _). split.
  - intros Eq. rewrite Eq, (rm_meta _ _ _ _ _ _ _ HR) in Em0. simplify_eq.
    by destruct Hc; rewrite (rm_owner _ _ _ _ _ _ _ HR).
  - intros [Hl Eq]. destruct (previous_kept Hl) as (_ & pb & pm & _ & Epm & Hpm).
    rewrite <-Eq, Em0 in Epm. congruence.
Qed.

Lemma back_account c j : a_accounts s' !! c = Some j →
  ∃ b0 m0, look' (head j) = Some (b0, U 32 0) ∧ g' !! head j = Some m0 ∧
    m_owner m0 = c ∧ balance j = m_balance m0 ∧ rep_block j = m_rep m0 ∧
    open_block_hash j = m_open m0 ∧ block_count j = U 8 (m_height m0).
Proof.
  destruct (decide (c = a)) as [->|Hc].
  - pose proof (r_accounts _ _ _ _ _ _ _ _ _ HE) as Ha. destruct (links b) eqn:Hl.
    + destruct Ha as (i' & pm & Epm & -> & Hh & Hrest). rewrite lookup_insert_eq. intros [= <-].
      destruct (previous_kept Hl) as (Hne & pb & pm' & Epb & Epm' & Ho). simplify_eq.
      exists pb, pm. rewrite Hh. split_and!; try done; try apply Hrest.
      * rewrite (r_look _ _ _ _ _ _ _ _ _ HE). unfold del_lookup.
        rewrite decide_False, decide_True, Epb by done. done.
      * by apply back_meta.
    + rewrite Ha, lookup_delete_eq. done.
  - rewrite back_account_other by done. intros Ej.
    destruct (other_head_kept c j Hc Ej) as [Hh Hp].
    destruct (inv_account _ _ _ HI _ _ Ej) as (b0 & m0 & E0 & Em0 & Hrest).
    destruct (look_keep _ _ _ E0 Hh) as (sc1 & E1 & Hsc). rewrite (Hsc Hp) in E1.
    exists b0, m0. split; [done|]. split; [by apply back_meta|done].
Qed.

Lemma back_succ x b0 sc0 m0 : look' x = Some (b0, sc0) → g' !! x = Some m0 →
  (sc0 = U 32 0 ∧ ∃ j, a_accounts s' !! m_owner m0 = Some j ∧ head j = x) ∨
  (∃ b' sc', look' sc0 = Some (b', sc') ∧ links b' = true ∧ block_previous b' = x).
Proof.
  intros (Hx & sc1 & E & Hsc)%look_back [_ Em]%back_meta.
  destruct Hsc as [[Hnp ->]|(Hl & -> & ->)].
  - destruct (inv_succ _ _ _ HI _ _ _ _ E Em) as [(-> & j & Ej & Hj)|(b' & sc' & E' & Hl' & Hp')].
    + left. split; [done|]. exists j. split; [|done]. rewrite back_account_other; [done|].
      intros Ea. rewrite Ea, (rm_account _ _ _ _ _ _ _ HR) in Ej. simplify_eq.
      by rewrite (rm_head _ _ _ _ _ _ _ HR) in Hx.
    + right. destruct (look_keep _ _ _ E') as (sc2 & E2 & _); [|by eauto]. intros ->.
      rewrite (rm_block _ _ _ _ _ _ _ HR) in E'. simplify_eq. by destruct Hnp.
  - left. split; [done|]. pose proof (r_accounts _ _ _ _ _ _ _ _ _ HE) as Ha. rewrite Hl in Ha.
    destruct Ha as (i' & pm & _ & -> & Hh & _). exists i'.
    destruct (previous_kept Hl) as (_ & pb & pm' & _ & Epm' & Ho). simplify_eq.
    by rewrite lookup_insert_eq.
Qed.

Lemma back_frontier x c : a_frontiers s' !! x = Some c ↔
  ∃ j b0 sc0, a_accounts s' !! c = Some j ∧ head j = x ∧ look' x = Some (b0, sc0) ∧
    legacy b0 = true.
Proof.
  rewrite (r_frontier _ _ _ _ _ _ _ _ _ HE). split.
  - intros [(-> & Hl & -> & pb & sc & Epb & Hlg)|[Hx Hf]].
    + destruct (previous_kept Hl) as (Hne & _).
      pose proof (r_accounts _ _ _ _ _ _ _ _ _ HE) as Ha. rewrite Hl in Ha.
      destruct Ha as (i' & pm & _ & -> & Hh & _).
      destruct (look_keep _ _ _ Epb Hne) as (sc1 & E1 & _).
      exists i', pb, sc1. by rewrite lookup_insert_eq.
    + apply (inv_frontier _ _ _ HI) in Hf as (j & b0 & sc0 & Ej & Hj & E0 & Hlg).
      destruct (look_keep _ _ _ E0 Hx) as (sc1 & E1 & _). exists j, b0, sc1.
      rewrite back_account_other; [done|]. intros ->.
      rewrite (rm_account _ _ _ _ _ _ _ HR) in Ej. simplify_eq.
      by rewrite (rm_head _ _ _ _ _ _ _ HR) in Hx.
  - intros (j & b0 & sc0 & Ej & <- & E0 & Hlg). apply look_back in E0 as (Hx & sc1 & E1 & _).
    destruct (decide (c = a)) as [->|Hc].
    + left. pose proof (r_accounts _ _ _ _ _ _ _ _ _ HE) as Ha. destruct (links b) eqn:Hl.
      * destruct Ha as (i' & pm & _ & Ha & Hh & _). rewrite Ha, lookup_insert_eq in Ej.
        simplify_eq. split_and!; [done..|]. eauto.
      * by rewrite Ha, lookup_delete_eq in Ej.
    + right. split; [done|]. rewrite back_account_other in Ej by done.
      apply (inv_frontier _ _ _ HI). eauto 10.
Qed.

(** ** Pending entries *)

Lemma pending_after d x p : a_pending s' !! (d, x) = Some p →
  x ≠ h ∧ (a_pending s !! (d, x) = Some p ∨
    (receives g b = Some x ∧ d = a ∧ ∃ sb sc sm, look x = Some (sb, sc) ∧ g !! x = Some sm ∧
      source p = m_owner sm ∧ uval (amount p) = sent_amount g sb sm)).
Proof.
  intros E. pose proof (r_pending _ _ _ _ _ _ _ _ _ HE) as HP. unfold pending_back in HP.
  assert (Hold : a_pending s !! (d, x) = Some p → x = h → sends g b = true ∧ destination b = d).
  { intros Ep ->. destruct (inv_pending _ _ _ HI _ _ _ Ep) as (b0 & sc0 & m0 & E0 & _ & Hs & Hd & _).
    rewrite (rm_block _ _ _ _ _ _ _ HR) in E0. by simplify_eq. }
  destruct (sends g b) eqn:Hs.
  - rewrite HP in E. apply lookup_delete_Some in E as [Hne E]. split; [|by left].
    intros ->. destruct (Hold E eq_refl) as [_ <-]. done.
  - destruct (receives g b) as [src|] eqn:Er.
    + destruct HP as (q & sb & sc & sm & Esb & Esm & Hso & Ham & HP). rewrite HP in E.
      apply lookup_insert_Some in E as [[[= <- <-] <-]|[Hne E]].
      * split; [by apply received_source in Er as (_ & ? & _)|]. right. eauto 15.
      * split; [|by left]. intros ->. by destruct (Hold E eq_refl).
    + rewrite HP in E. split; [|by left]. intros ->. by destruct (Hold E eq_refl).
Qed.

Lemma back_pending d x p : a_pending s' !! (d, x) = Some p →
  ∃ b0 sc0 m0, look' x = Some (b0, sc0) ∧ g' !! x = Some m0 ∧ sends g' b0 = true ∧
    destination b0 = d ∧ source p = m_owner m0 ∧ uval (amount p) = sent_amount g' b0 m0.
Proof.
  intros (Hx & [E|(Er & -> & sb & sc & sm & Esb & Esm & Hso & Ham)])%pending_after.
  - destruct (inv_pending _ _ _ HI _ _ _ E) as (b0 & sc0 & m0 & E0 & Em0 & Hs & Hd & Hso & Ham).
    destruct (look_keep _ _ _ E0 Hx) as (sc1 & E1 & _). exists b0, sc1, m0.
    rewrite (kept_sends _ _ _ E0), (kept_sent _ _ _ _ E0). split_and!; try done. by apply back_meta.
  - destruct (received_source _ Er) as (_ & _ & sb' & ? & sm' & Esb' & Esm' & Hs & Hd & _).
    rewrite Esb in Esb'. rewrite Esm in Esm'. injection Esb' as <- <-. injection Esm' as <-.
    destruct (look_keep _ _ _ Esb Hx) as (sc1 & E1 & _). exists sb, sc1, sm.
    rewrite (kept_sends _ _ _ Esb), (kept_sent _ _ _ _ Esb). split_and!; try done.
    by apply back_meta.
Qed.

Lemma back_received x b0 sc0 src : look' x = Some (b0, sc0) → receives g' b0 = Some src →
  ∀ d, a_pending s' !! (d, src) = None.
Proof.
  intros (Hx & sc1 & E & _)%look_back Er d. rewrite (kept_receives _ _ _ E) in Er.
  destruct (a_pending s' !! (d, src)) as [p|] eqn:Ep; [exfalso|done].
  apply pending_after in Ep as (_ & [Ep|(Erb & _)]).
  - by rewrite (inv_received _ _ _ HI _ _ _ _ E Er) in Ep.
  - destruct Hx. eapply (inv_once _ _ _ HI); [done|apply HR|done|done].
Qed.

Lemma back_once x x' b0 b1 sc0 sc1 src :
  look' x = Some (b0, sc0) → look' x' = Some (b1, sc1) →
  receives g' b0 = Some src → receives g' b1 = Some src → x = x'.
Proof.
  intros (_ & ? & E & _)%look_back (_ & ? & E' & _)%look_back.
  rewrite (kept_receives _ _ _ E), (kept_receives _ _ _ E'). by eapply (inv_once _ _ _ HI).
Qed.

Lemma back_complete x b0 sc0 : look' x = Some (b0, sc0) → sends g' b0 = true →
  is_Some (a_pending s' !! (destination b0, x)) ∨
  ∃ h' b' sc', look' h' = Some (b', sc') ∧ receives g' b' = Some x.
Proof.
  intros (Hx & sc1 & E & _)%look_back Hs. rewrite (kept_sends _ _ _ E) in Hs.
  pose proof (r_pending _ _ _ _ _ _ _ _ _ HE) as HP. unfold pending_back in HP.
  destruct (inv_complete _ _ _ HI _ _ _ E Hs) as [Hp|(h' & b' & sc' & E' & Er')].
  - left. destruct (sends g b); [|destruct (receives g b) as [src|]].
    + rewrite HP, lookup_delete_ne by congruence. done.
    + destruct HP as (q & ? & ? & ? & _ & _ & _ & _ & ->). apply lookup_insert_is_Some'. auto.
    + by rewrite HP.
  - destruct (decide (h' = h)) as [->|Hh].
    + left. rewrite (rm_block _ _ _ _ _ _ _ HR) in E'. injection E' as <- <-.
      destruct (received_source _ Er') as (Hsf & _ & sb & ? & ? & Esb & _ & _ & Hd & _).
      rewrite Hsf, Er' in HP. destruct HP as (q & ? & ? & ? & _ & _ & _ & _ & ->).
      rewrite E in Esb. injection Esb as <- <-. rewrite Hd, lookup_insert_eq. eauto.
    + right. destruct (look_keep _ _ _ E' Hh) as (sc2 & E2 & _). exists h', b', sc2.
      by rewrite (kept_receives _ _ _ E').
Qed.

(** ** Sums *)

Lemma head_balance : balance i = m_balance m ∧ rep_block i = m_rep m.
Proof.
  destruct (inv_account _ _ _ HI _ _ (rm_account _ _ _ _ _ _ _ HR)) as (b0 & m0 & _ & Em & _ & Hb & Hr & _).
  rewrite (rm_head _ _ _ _ _ _ _ HR), (rm_meta _ _ _ _ _ _ _ HR) in Em. by simplify_eq.
Qed.

Lemma back_held : held s' = held s - uval (m_balance m) + prev_balance g b.
Proof.
  destruct head_balance as [Hb _]. rewrite <-Hb. unfold held, prev_balance.
  pose proof (r_accounts _ _ _ _ _ _ _ _ _ HE) as Ha. destruct (links b) eqn:Hl.
  - destruct Ha as (i' & pm & Epm & -> & _ & Hb' & _).
    rewrite (map_sum_insert _ _ _ _ i) by apply HR. rewrite Hb'.
    destruct (previous_kept Hl) as (_ & pb & _ & Epb & _).
    destruct (inv_block _ _ _ HI _ _ _ _ Epb Epm) as (Hz & _). apply is_zero_false in Hz.
    rewrite Hz, Epm. lia.
  - rewrite Ha, (map_sum_delete _ _ _ i) by apply HR.
    destruct rm_ok as (_ & _ & _ & _ & Hf & _). unfold follows in Hf. rewrite Hl in Hf.
    destruct Hf as [-> _]. rewrite is_zero_0. lia.
Qed.

Lemma back_in_flight : in_flight s' = in_flight s + uval (m_balance m) - prev_balance g b.
Proof.
  pose proof (r_pending _ _ _ _ _ _ _ _ _ HE) as HP. unfold pending_back in HP.
  unfold in_flight. destruct rm_ok as (_ & _ & _ & _ & _ & _ & Hb). unfold balanced in Hb.
  destruct (sends g b) eqn:Hs.
  - destruct (rm_sends _ _ _ _ _ _ _ HR Hs) as [q Eq]. rewrite HP, (map_sum_delete _ _ _ q Eq).
    destruct (inv_pending _ _ _ HI _ _ _ Eq) as (b0 & ? & m0 & E0 & Em0 & _ & _ & _ & Ham).
    rewrite (rm_block _ _ _ _ _ _ _ HR) in E0. rewrite (rm_meta _ _ _ _ _ _ _ HR) in Em0.
    simplify_eq. unfold sent_amount in Ham. lia.
  - destruct (receives g b) as [src|] eqn:Er.
    + destruct HP as (q & sb & sc & sm & Esb & Esm & _ & Ham & ->).
      destruct Hb as (sb' & ? & sm' & Esb' & Esm' & _ & _ & Hsum). simplify_eq.
      rewrite map_sum_insert_new; [lia|].
      eapply (inv_received _ _ _ HI); [apply HR|done].
    + rewrite HP. pose proof (rm_genesis _ _ _ _ _ _ _ HR) as Hg. destruct b; try lia.
      unfold receives in Er. simpl in Hg. by rewrite Hg in Er.
Qed.

Lemma back_supply : held s' + in_flight s' = 2 ^ 128 - 1.
Proof. rewrite back_held, back_in_flight. pose proof (inv_supply _ _ _ HI). lia. Qed.

Lemma kept_rep_account c j : c ≠ a → a_accounts s !! c = Some j →
  rep_account look' j = rep_account look j.
Proof.
  intros Hc Ej. destruct (other_head_kept c j Hc Ej) as [Hh _].
  destruct (inv_account _ _ _ HI _ _ Ej) as (hb & hm & _ & Emh & _ & _ & Hr & _).
  destruct (meta_kept _ _ Hh Emh) as [Hne _]. rewrite <-Hr in Hne.
  destruct (inv_meta _ _ _ HI _ _ Emh) as (Hrep & _). rewrite <-Hr in Hrep.
  apply (inv_dom _ _ _ HI) in Hrep as [[rb rsc] Erb]. unfold rep_account. rewrite Erb.
  by destruct (look_keep _ _ _ Erb Hne) as (sc1 & -> & _).
Qed.

Lemma back_weight_of r : weight_of look' (a_accounts s') r =
  weight_of look (a_accounts s) r - share look (Some i) r + share look' (a_accounts s' !! a) r.
Proof.
  set (w := λ lk (_ : u256) j,
    if decide (rep_account lk j = r) then uval (balance j) else 0).
  change (map_sum (w look') (a_accounts s') =
    map_sum (w look) (a_accounts s) - w look a i + share look' (a_accounts s' !! a) r).
  rewrite <-(map_sum_delete _ _ _ i) by apply HR.
  assert (Hext : map_sum (w look') (delete a (a_accounts s)) =
    map_sum (w look) (delete a (a_accounts s))).
  { apply map_sum_ext. intros c j [Hc Ej]%lookup_delete_Some. unfold w.
    by rewrite (kept_rep_account c j). }
  pose proof (r_accounts _ _ _ _ _ _ _ _ _ HE) as Ha. destruct (links b).
  - destruct Ha as (i' & pm & _ & -> & _). rewrite lookup_insert_eq.
    rewrite <-insert_delete_eq, map_sum_insert_new by apply lookup_delete_eq.
    rewrite Hext. simpl. unfold w at 1. lia.
  - rewrite Ha, lookup_delete_eq. simpl. lia.
Qed.

Lemma back_weight r : uval (default (U 16 0) (a_rep s' !! r)) =
  (weight_of look' (a_accounts s') r + delta' r) mod 2 ^ 128.
Proof.
  rewrite (r_weight _ _ _ _ _ _ _ _ _ HE), (inv_weight _ _ _ HI), back_weight_of.
  set (w := weight_of look (a_accounts s) r). set (x := share look _ r). set (y := share look' _ r).
  rewrite Hdelta, <-Z.add_assoc, <-(Zplus_mod_idemp_l ((w + delta r) mod _ - x)), Zminus_mod_idemp_l.
  rewrite Zplus_mod_idemp_l. f_equal. lia.
Qed.

Lemma back_info x j m0 : a_info s' !! x = Some j → g' !! x = Some m0 →
  bi_account j = m_owner m0 ∧ bi_balance j = m_balance m0.
Proof.
  intros Ej [_ Em]%back_meta.
  destruct (r_info _ _ _ _ _ _ _ _ _ HE _ _ Ej) as [Eo|(Hl & -> & pm & Epm & -> & ->)].
  - by eapply (inv_info _ _ _ HI).
  - destruct (previous_kept Hl) as (_ & _ & pm' & _ & Epm' & Ho).
    rewrite Em in Epm, Epm'. injection Epm as <-. injection Epm' as <-. done.
Qed.

Lemma back_cached x b0 sc0 m0 : look' x = Some (b0, sc0) → g' !! x = Some m0 →
  legacy b0 = true → m_height m0 mod block_info_max = 0 → is_Some (a_info s' !! x).
Proof.
  intros (Hx & sc1 & E & _)%look_back [_ Em]%back_meta Hl Hm.
  apply (r_cached _ _ _ _ _ _ _ _ _ HE); [done|]. by eapply (inv_cached _ _ _ HI).
Qed.

Lemma back_info_one : a_info s' !! U 32 1 = None.
Proof.
  destruct (a_info s' !! _) as [j|] eqn:Ej; [|done].
  destruct (r_info _ _ _ _ _ _ _ _ _ HE _ _ Ej) as [Eo|(Hl & Hx & pm & Epm & _)].
  - by rewrite (inv_info_one _ _ _ HI) in Eo.
  - destruct (meta_block _ _ _ HI _ _ Epm) as (pb & sc & Epb).
    destruct (inv_block _ _ _ HI _ _ _ _ Epb Epm) as (_ & ? & _). done.
Qed.

Lemma hist_nodup : NoDup (l1 ++ l2) ∧ h ∉ l1 ++ l2.
Proof.
  pose proof (inv_nodup _ _ _ HI) as Hnd. rewrite <-Permutation_middle in Hnd.
  apply NoDup_cons in Hnd as [? ?]. done.
Qed.

Lemma back_order k1 x k2 b0 sc0 : l1 ++ l2 = k1 ++ x :: k2 → look' x = Some (b0, sc0) →
  (links b0 = true → block_previous b0 ∈ k1) ∧ (∀ src, receives g' b0 = Some src → src ∈ k1).
Proof.
  intros Ek (Hx & sc1 & E & _)%look_back. rewrite (kept_receives _ _ _ E).
  destruct (split_without _ _ _ _ h _ Ek) as (j1 & j2 & Ej & Hj).
  destruct (inv_order _ _ _ HI _ _ _ _ _ Ej E) as [Hp Hr]. split.
  - intros Hl. apply Hj; [by apply Hp|]. by eapply not_previous.
  - intros src Er. apply Hj; [by apply Hr|]. intros ->. exact (not_source _ _ _ E Er).
Qed.

Lemma back_genesis : ∃ h0 b1 sc1 rest, l1 ++ l2 = h0 :: rest ∧ look' h0 = Some (b1, sc1) ∧
  genesis_open b1 = true ∧
  ∀ x b0 sc0, look' x = Some (b0, sc0) → genesis_open b0 = true → x = h0.
Proof.
  destruct (inv_genesis _ _ _ HI) as (h0 & b1 & sc1 & rest & Eh & E1 & Hb1 & Hg).
  assert (h0 ≠ h) as Hne.
  { intros E. rewrite E, (rm_block _ _ _ _ _ _ _ HR) in E1. injection E1 as <- <-.
    by rewrite (rm_genesis _ _ _ _ _ _ _ HR) in Hb1. }
  destruct (look_keep _ _ _ E1 Hne) as (sc2 & E2 & _).
  exists h0, b1, sc2. exists (tail l1 ++ l2). split_and!; [|done..|].
  - destruct l1; simpl in *; congruence.
  - intros x b0 sc0 (_ & sc & E & _)%look_back. by eapply Hg.
Qed.

Lemma retracts_inv : InvD delta' s' g' (l1 ++ l2).
Proof.
  constructor.
  - apply (r_wf _ _ _ _ _ _ _ _ _ HE).
  - apply back_dom.
  - apply hist_nodup.
  - intros x. rewrite lookup_delete_is_Some, <-(inv_hist _ _ _ HI).
    destruct hist_nodup as [_ Hn]. set_solver.
  - pose proof (inv_size _ _ _ HI) as Hs. rewrite (r_size _ _ _ _ _ _ _ _ _ HE) in Hs.
    rewrite length_app in *. simpl in Hs. lia.
  - apply back_order.
  - apply back_block.
  - apply back_meta_ok.
  - apply back_succ.
  - apply back_account.
  - apply back_frontier.
  - apply back_pending.
  - apply back_received.
  - apply back_once.
  - apply back_complete.
  - apply back_weight.
  - apply back_supply.
  - apply back_info.
  - apply back_cached.
  - apply back_info_one.
  - apply back_genesis.
  - apply (r_checksum _ _ _ _ _ _ _ _ _ HE).
Qed.
End preserve.
