(* ===== verification/Rollback.v ===== *)
(** * Rolling back one block

    The rollback visitor, run on the head block of an account whose amount is
    not received elsewhere, removes the block and keeps the invariant. *)

From S2P Require Import Prelude Crypto Blocks Common Stats Store Ledger StoreLemmas LedgerInv.
From S2P Require Import Visitors Extend ProcessLemmas Commit Process Accounts Retract.

Section rules.
Context `{Blake2b, LedgerConstants}.
Implicit Types (l : ledger astore).

(** [change_latest] to no block deletes the account. *)
Lemma wp_change_latest_del l a rep bal cnt is_state (Q : unit → ledger astore → Prop) :
  is_Some (a_checksum (store l) !! U 8 0) → is_Some (a_accounts (store l) !! a) →
  (∀ l' ck i, a_accounts (store l) !! a = Some i →
    ck = u_xor (default (U 32 0) (a_checksum (store l) !! U 8 0)) (head i) →
    store l' = set_accounts (delete a) (set_checksum <[U 8 0 := ck]> (store l)) → Q tt l') →
  wp (change_latest a (U 32 0) rep bal cnt is_state) l Q.
Proof.
  intros Hck [i Ei] HQ. unfold change_latest. read. rewrite Ei. apply wp_bind.
  apply wp_bind, wp_checksum_update; [done|]. intros ck Hsum. apply wp_ret. rewrite is_zero_0. simpl.
  apply wp_del; [project; by rewrite Ei|]. by apply (HQ _ ck i).
Qed.

Lemma representative_agree n s s' h r : agree s s' → representative_compute n h s = Done (r, s) →
  representative_compute n h s' = Done (r, s').
Proof.
  intros HA. unfold representative_compute. generalize (Representative_visitor h (U 32 0)).
  induction n as [|n IH]; [done|]. intros v. rewrite !loop_S. destruct (is_zero _); [|by intros [= <-]].
  unfold mbind, M_bind. pose proof (block_get_agree s s' HA (rv_current v)) as Hg. revert Hg.
  simpl. unfold gets. destruct (fst <$> a_lookup s _) as [b|]; [|done].
  intros Hg. specialize (Hg b eq_refl). injection Hg as ->. apply IH.
Qed.

Lemma wp_representative {delta} fuel l l0 g hist x m (Q : u256 → ledger astore → Prop) :
  InvD delta (store l0) g hist → agree (store l0) (store l) → g !! x = Some m →
  (size (a_blocks (store l0)) + 2 ≤ fuel)%nat →
  Q (m_rep m) l → wp (representative fuel x) l Q.
Proof.
  intros HI HA Em Hf HQ. unfold representative, representative_calculated. apply wp_bind.
  eapply wp_st_keep.
  { eapply representative_agree; [done|]. by eapply representative_compute_correct. }
  destruct (inv_meta _ _ _ HI _ _ Em) as ([rm Erm] & _).
  destruct (meta_block _ _ _ HI _ _ Erm) as (rb & sc & Erb).
  destruct (inv_block _ _ _ HI _ _ _ _ Erb Erm) as (Hz & _). apply is_zero_false in Hz.
  rewrite Hz. read. apply wp_bind, wp_assert; [|by apply wp_ret].
  apply bool_decide_eq_true. destruct (proj1 HA (m_rep m)) as [E|[E _]]; [|congruence].
  rewrite Erb in E. destruct (a_lookup (store l) _); [eauto|done].
Qed.

Lemma wp_ledger_balance {delta} fuel l l0 g hist x m (Q : u128 → ledger astore → Prop) :
  InvD delta (store l0) g hist → agree (store l0) (store l) → g !! x = Some m →
  (2 * size (a_blocks (store l0)) + 4 ≤ fuel)%nat →
  Q (m_balance m) l → wp (ledger_balance fuel x) l Q.
Proof.
  intros HI HA Em Hf HQ. unfold ledger_balance. eapply wp_st_keep; [|done].
  eapply balance_compute_agree; [done|]. by eapply balance_compute_correct.
Qed.

Lemma wp_ledger_amount {delta} fuel l g hist x b sc m (Q : u128 → ledger astore → Prop) :
  InvD delta (store l) g hist → a_lookup (store l) x = Some (b, sc) → g !! x = Some m →
  sends g b = true → (2 * size (a_blocks (store l)) + 4 ≤ fuel)%nat →
  Q (U 16 (sent_amount g b m)) l → wp (ledger_amount fuel x) l Q.
Proof.
  intros HI Eb Em Hs Hf HQ. unfold ledger_amount. eapply wp_st_keep; [|done].
  by eapply amount_compute_correct.
Qed.

Lemma agree_same {delta} s s' g hist : InvD delta s g hist → a_blocks s' = a_blocks s →
  a_info s' = a_info s → agree s s'.
Proof.
  intros HI Hb Hi. split_and!; [|apply (genesis_not_block _ _ _ HI)|done].
  intros x. left. by rewrite (lookup_blocks_eq s' s).
Qed.
End rules.

(** The checksum after the deletion of an account. *)
Lemma deleted_checksum s a i : sum_ok s → a_accounts s !! a = Some i →
  Some (u_xor (default (U 32 0) (a_checksum s !! U 8 0)) (head i)) =
    Some (xor_heads (delete a (a_accounts s))).
Proof. intros Hs Ei. rewrite Hs. simpl. by rewrite (xor_delete _ _ _ Ei). Qed.

Section visit.
Context `{Blake2b, LedgerConstants}.
Context (delta : u256 → Z) (s s' : astore) (g : gmap u256 meta) (l1 l2 : list u256).
Context (a h : u256) (b : block) (m : meta) (i : account_info).
Hypothesis HI : InvD delta s g (l1 ++ h :: l2).
Hypothesis HR : removable s g a h b m i.

Lemma rm_lookup : a_lookup s h = Some (b, U 32 0).
Proof. apply HR. Qed.

Lemma rm_previous : links b = true → block_previous b ≠ h.
Proof. intros _. eapply not_previous; [exact HI|exact HR|apply HR]. Qed.

(** The predecessor of the block and its own predecessor. *)
Lemma previous_facts : links b = true → ∃ pb pm,
  a_lookup s (block_previous b) = Some (pb, h) ∧ g !! block_previous b = Some pm ∧
  m_owner pm = a ∧ m_height m = m_height pm + 1 ∧ block_previous b ≠ U 32 0 ∧
  valid_predecessor b pb = true ∧ m_open m = m_open pm ∧
  (match b with BSend _ | BReceive _ => m_rep m = m_rep pm | _ => m_rep m = h end) ∧
  (links pb = true → block_previous pb ≠ block_previous b ∧ block_previous pb ≠ h ∧
    ∃ ppb, a_lookup s (block_previous pb) = Some (ppb, block_previous b)) ∧
  (links pb = false → block_previous pb = U 32 0).
Proof.
  intros Hl. destruct (rm_ok _ _ _ _ _ _ _ _ _ _ HI HR) as (_ & _ & _ & _ & Hf & _).
  unfold follows in Hf. rewrite Hl in Hf.
  destruct Hf as (pb & pm & Epb & Epm & Hv & Ho & Hh & Hop & Hr).
  destruct (inv_block _ _ _ HI _ _ _ _ Epb Epm) as (Hz & _ & _ & _ & Hf & _).
  unfold follows in Hf. exists pb, pm. split_and!; try done.
  - rewrite <-Ho. apply HR.
  - intros Hlp. rewrite Hlp in Hf. destruct Hf as (ppb & ppm & Eppb & Eppm & _ & _ & Hhh & _).
    split_and!.
    + intros E. rewrite E, Epm in Eppm. injection Eppm as <-. lia.
    + eapply not_previous; [exact HI|exact HR|exact Epb].
    + eauto.
  - intros Hlp. rewrite Hlp in Hf. by destruct Hf.
Qed.

(** Clearing the predecessor's successor, after or before the deletion. *)
Lemma clear_after_del t pb psc : links b = true → a_lookup s (block_previous b) = Some (pb, psc) →
  a_blocks t = delete (block_type_of b, h) (a_blocks s) →
  block_successor_clear (block_previous b) t = Done (tt, clear_block (block_previous b) pb t) ∧
  a_blocks (clear_block (block_previous b) pb t) = a_blocks (del_block h b s).
Proof.
  intros Hl Epb Ht.
  destruct (previous_facts Hl) as (pb' & pm & Epb' & _ & _ & _ & _ & _ & _ & _ & Hlp & Hnp).
  rewrite Epb in Epb'. injection Epb' as <- ->.
  assert (Hlook : ∀ x, a_lookup t x = if decide (x = h) then None else a_lookup s x).
  { intros x. rewrite <-(wf_lookup_delete _ _ _ _ _ (inv_wf _ _ _ HI) rm_lookup).
    by apply lookup_blocks_eq. }
  split.
  - eapply clear_run.
    + eapply (tables_wf_eq (set_blocks (delete (block_type_of b, h)) s)); [by rewrite Ht|].
      apply wf_delete, HI.
    + rewrite Hlook, decide_False; [exact Epb|]. by apply rm_previous.
    + intros Hlpb. destruct (Hlp Hlpb) as (? & ? & ppb & E). split; [done|].
      exists ppb. by rewrite Hlook, decide_False.
    + done.
  - unfold clear_block, del_block. rewrite Hl, Epb. simpl. by rewrite Ht.
Qed.

Lemma clear_then_del t pb psc : links b = true → a_lookup s (block_previous b) = Some (pb, psc) →
  a_blocks t = a_blocks s →
  block_successor_clear (block_previous b) t = Done (tt, clear_block (block_previous b) pb t) ∧
  ∀ t', a_blocks t' = a_blocks (clear_block (block_previous b) pb t) →
    a_block_del h t' = Done (tt, set_blocks (delete (block_type_of b, h)) t') ∧
    delete (block_type_of b, h) (a_blocks t') = a_blocks (del_block h b s).
Proof.
  intros Hl Epb Ht.
  destruct (previous_facts Hl) as (pb' & pm & Epb' & _ & _ & _ & _ & _ & _ & _ & Hlp & Hnp).
  rewrite Epb in Epb'. injection Epb' as <- ->. pose proof (inv_wf _ _ _ HI) as Hwf.
  assert (Hwft : tables_wf t) by by eapply tables_wf_eq.
  assert (Hlook : ∀ x, a_lookup t x = a_lookup s x) by (intros x; by apply lookup_blocks_eq).
  assert (Ept : a_lookup t (block_previous b) = Some (pb, h)) by by rewrite Hlook.
  split.
  - eapply clear_run; [done|done| |done].
    intros Hlpb. destruct (Hlp Hlpb) as (? & _ & ppb & E). split; [done|].
    exists ppb. by rewrite Hlook.
  - intros t' Ht'. assert (Hne : h ≠ block_previous b) by (apply not_eq_sym; by apply rm_previous).
    assert (Hwf' : tables_wf (clear_block (block_previous b) pb t)).
    { apply wf_insert; [done|by eapply wf_lookup_hash|]. intros ? ?. rewrite Ept. naive_solver. }
    split.
    + unfold a_block_del. erewrite wf_find_del; [done| |].
      { by eapply tables_wf_eq. }
      rewrite (lookup_blocks_eq _ _ h Ht'). unfold clear_block.
      rewrite wf_lookup_insert; [|done|]; [|intros ? ?; rewrite Ept; naive_solver].
      rewrite decide_False by done. rewrite Hlook. exact rm_lookup.
    + rewrite Ht'. unfold clear_block, del_block. rewrite Hl, Epb. simpl. rewrite Ht.
      rewrite delete_insert_ne; [done|]. congruence.
Qed.

(** The conditions a visitor has to establish. *)
Context (ant delta' : u256 → Z).
Hypothesis Hdelta : ∀ r, delta' r = delta r + ant r.
Lemma retract_intro :
  a_blocks s' = a_blocks (del_block h b s) →
  (if links b then ∃ i' pm, g !! block_previous b = Some pm ∧
      a_accounts s' = <[a := i']> (a_accounts s) ∧ head i' = block_previous b ∧
      balance i' = m_balance pm ∧ rep_block i' = m_rep pm ∧
      open_block_hash i' = m_open pm ∧ block_count i' = U 8 (m_height pm)
    else a_accounts s' = delete a (a_accounts s)) →
  (∀ x c, a_frontiers s' !! x = Some c ↔
    (c = a ∧ links b = true ∧ x = block_previous b ∧
      ∃ pb sc, a_lookup s x = Some (pb, sc) ∧ legacy pb = true) ∨
    (x ≠ h ∧ a_frontiers s !! x = Some c)) →
  pending_back g s s' a h b →
  (∀ r, uval (default (U 16 0) (a_rep s' !! r)) =
    (uval (default (U 16 0) (a_rep s !! r)) - share (a_lookup s) (Some i) r
      + share (a_lookup s') (a_accounts s' !! a) r + ant r) mod 2 ^ 128) →
  (∀ x j, a_info s' !! x = Some j → a_info s !! x = Some j ∨
    (links b = true ∧ x = block_previous b ∧
      ∃ pm, g !! x = Some pm ∧ bi_account j = a ∧ bi_balance j = m_balance pm)) →
  (∀ x, x ≠ h → is_Some (a_info s !! x) → is_Some (a_info s' !! x)) →
  sum_ok s' →
  InvD delta' s' (delete h g) (l1 ++ l2).
Proof.
  intros Hb ? ? ? ? ? ? ?. eapply retracts_inv; [exact HI|exact HR|exact Hdelta|]. constructor; try done.
  - eapply tables_wf_eq; [symmetry; exact Hb|].
    eapply del_block_wf; [apply HI|exact rm_lookup|exact rm_previous].
  - intros x. rewrite (lookup_blocks_eq _ _ x Hb).
    eapply del_block_lookup; [apply HI|exact rm_lookup|exact rm_previous].
  - rewrite Hb. eapply del_block_size; [apply HI|exact rm_lookup|exact rm_previous].
Qed.

(** *** What the head block and its predecessor say of the account *)
Lemma head_info : balance i = m_balance m ∧ rep_block i = m_rep m ∧ open_block_hash i = m_open m ∧
  block_count i = U 8 (m_height m).
Proof.
  destruct (inv_account _ _ _ HI _ _ (rm_account _ _ _ _ _ _ _ HR))
    as (b0 & m0 & _ & Em & _ & Hb & Hr & Ho & Hc).
  rewrite (rm_head _ _ _ _ _ _ _ HR), (rm_meta _ _ _ _ _ _ _ HR) in Em. injection Em as <-. done.
Qed.

Lemma count_pred_height z : count_pred (U 8 (z + 1)) = U 8 z.
Proof.
  unfold count_pred. apply uval_inj. rewrite uval_sub, !uval_U, <-Zminus_mod. f_equal. lia.
Qed.

Lemma previous_no_frontier : links b = true → a_frontiers s !! block_previous b = None.
Proof.
  intros Hl. destruct (a_frontiers s !! _) as [c|] eqn:E; [|done].
  destruct (previous_facts Hl) as (pb & pm & Epb & Epm & Ho & _).
  apply (inv_frontier _ _ _ HI) in E as (j & ? & ? & Ej & Hj & _).
  destruct (inv_account _ _ _ HI _ _ Ej) as (b0 & m0 & E0 & _). rewrite Hj, Epb in E0.
  injection E0 as _ E0. by destruct (rm_ok _ _ _ _ _ _ _ _ _ _ HI HR).
Qed.

(** The block that set a representative. *)
Lemma rep_block_of x mx : g !! x = Some mx →
  ∃ rb sc, a_lookup s (m_rep mx) = Some (rb, sc) ∧ m_rep mx ≠ U 32 0.
Proof.
  intros Em. destruct (inv_meta _ _ _ HI _ _ Em) as ([rm Erm] & _).
  destruct (meta_block _ _ _ HI _ _ Erm) as (rb & sc & Erb). exists rb, sc.
  split; [done|]. apply (inv_block _ _ _ HI _ _ _ _ Erb Erm).
Qed.

(** The common end for a block with a predecessor. *)
Lemma back_linked pb psc pm prb prsc rb rsc now (del : bool) :
  links b = true →
  a_lookup s (block_previous b) = Some (pb, psc) → g !! block_previous b = Some pm →
  a_lookup s (m_rep pm) = Some (prb, prsc) → a_lookup s (m_rep m) = Some (rb, rsc) →
  a_blocks s' = a_blocks (del_block h b s) →
  a_accounts s' = <[a := Account_info (block_previous b) (m_rep pm) (open_block_hash i)
    (m_balance pm) now (count_pred (block_count i))]> (a_accounts s) →
  a_frontiers s' = (if legacy pb then <[block_previous b := a]> (delete h (a_frontiers s))
                    else delete h (a_frontiers s)) →
  pending_back g s s' a h b →
  (∀ r, uval (default (U 16 0) (a_rep s' !! r)) =
    (uval (default (U 16 0) (a_rep s !! r))
      - (if decide (block_representative rb = r) then uval (m_balance m) else 0)
      + (if decide (block_representative prb = r) then uval (m_balance pm) else 0) + ant r)
    mod 2 ^ 128) →
  a_info s' = (if del then delete h else id)
    (if uval (count_pred (block_count i)) mod block_info_max =? 0
     then <[block_previous b := Block_info a (m_balance pm)]> (a_info s) else a_info s) →
  sum_ok s' →
  InvD delta' s' (delete h g) (l1 ++ l2).
Proof.
  intros Hl Epb Epm Eprb Erb Hb Hacc Hfr Hp Hw Hi Hck.
  destruct head_info as (Hbal & Hrep & Hopen & Hcnt).
  destruct (previous_facts Hl) as (pb' & pm' & Epb' & Epm' & Ho & Hh & Hz & _ & Hop & _).
  rewrite Epb in Epb'. injection Epb' as <- ->. rewrite Epm in Epm'. injection Epm' as <-.
  assert (Hne : block_previous b ≠ h) by by apply rm_previous.
  apply retract_intro; try done.
  - rewrite Hl. eexists _, pm. split; [done|]. split; [exact Hacc|]. simpl.
    split_and!; try done; [congruence|]. by rewrite Hcnt, Hh, count_pred_height.
  - intros x c. rewrite Hfr. pose proof (previous_no_frontier Hl) as Hnf.
    destruct (legacy pb) eqn:Hlg.
    + rewrite lookup_insert_Some, lookup_delete_Some. split.
      * intros [[<- <-]|(Hx & Hx' & E)]; [left; eauto 10|right; done].
      * intros [(-> & _ & -> & _)|[Hx E]]; [by left|]. right. split_and!; try done.
        intros <-. by rewrite Hnf in E.
    + rewrite lookup_delete_Some. split; [naive_solver|].
      intros [(_ & _ & -> & pb1 & sc1 & E1 & Hlg1)|[Hx E]]; [|done].
      rewrite Epb in E1. injection E1 as <- <-. congruence.
  - intros r. rewrite Hw. f_equal. f_equal. f_equal.
    + erewrite share_known; [|rewrite Hrep; exact Erb]. by rewrite Hbal.
    + rewrite Hacc, lookup_insert_eq.
      destruct (meta_kept _ _ _ _ _ _ _ _ _ _ HI HR (block_previous b) pm) as [Hrne _]; [done..|].
      erewrite share_known; [done|]. simpl. rewrite (lookup_blocks_eq _ _ _ Hb).
      rewrite (del_block_lookup _ _ _ _ _ (inv_wf _ _ _ HI) rm_lookup rm_previous).
      rewrite decide_False by done. rewrite Eprb. instantiate (1 := if decide
        (links b = true ∧ m_rep pm = block_previous b) then U 32 0 else prsc).
      by case_decide.
  - intros x j. rewrite Hi.
    assert (Hin : (if uval (count_pred (block_count i)) mod block_info_max =? 0
      then <[block_previous b := Block_info a (m_balance pm)]> (a_info s) else a_info s) !! x = Some j →
      a_info s !! x = Some j ∨ (links b = true ∧ x = block_previous b ∧
        ∃ pm, g !! x = Some pm ∧ bi_account j = a ∧ bi_balance j = m_balance pm)).
    { destruct (_ =? _); [|by left]. rewrite lookup_insert_Some.
      intros [[<- <-]|[_ E]]; [right|by left]. eauto 10. }
    destruct del; simpl; [rewrite lookup_delete_Some; intros [_ E]; by apply Hin|done].
  - intros x Hx Hs. rewrite Hi. destruct del; simpl; [rewrite lookup_delete_ne by done|];
      (destruct (_ =? _); [apply lookup_insert_is_Some'; auto|done]).
Qed.

(** The common end for the first block of an account. *)
Lemma back_first :
  links b = false →
  a_blocks s' = a_blocks (del_block h b s) →
  a_accounts s' = delete a (a_accounts s) →
  a_frontiers s' = delete h (a_frontiers s) →
  pending_back g s s' a h b →
  (∀ r, uval (default (U 16 0) (a_rep s' !! r)) =
    (uval (default (U 16 0) (a_rep s !! r))
      - (if decide (block_representative b = r) then uval (m_balance m) else 0) + ant r)
    mod 2 ^ 128) →
  a_info s' = a_info s → sum_ok s' →
  InvD delta' s' (delete h g) (l1 ++ l2).
Proof.
  intros Hl Hb Hacc Hfr Hp Hw Hi Hck. destruct head_info as (Hbal & Hrep & _).
  destruct (rm_ok _ _ _ _ _ _ _ _ _ _ HI HR) as (_ & _ & _ & _ & Hf & _).
  unfold follows in Hf. rewrite Hl in Hf. destruct Hf as (_ & _ & _ & Hr).
  apply retract_intro; try done.
  - by rewrite Hl.
  - intros x c. rewrite Hfr, lookup_delete_Some, Hl. naive_solver.
  - intros r. rewrite Hw, Hacc, lookup_delete_eq. simpl. f_equal. f_equal.
    rewrite Z.add_0_r. f_equal.
    change (if decide (rep_account (a_lookup s) i = r) then uval (balance i) else 0)
      with (share (a_lookup s) (Some i) r).
    erewrite share_known; [|rewrite Hrep, Hr; exact rm_lookup]. by rewrite Hbal.
  - intros x j. rewrite Hi. by left.
  - intros x _. by rewrite Hi.
Qed.
End visit.
