(* ===== verification/Cascade.v ===== *)
(** * Rolling back blocks and what depends on them

    A rollback removes the blocks of an account down to a given block, and
    with each send the blocks that received it.  It ends, trips no
    assertion, removes only blocks accepted at or after the given one, and
    leaves a consistent ledger. *)

From S2P Require Import Prelude Crypto Blocks Common Stats Store Ledger StoreLemmas LedgerInv.
From S2P Require Import Visitors Extend ProcessLemmas Commit Process Accounts Retract Rollback.

Section defs.
Context `{Blake2b, LedgerConstants}.

(** Every block that is left was there before. *)
Definition blocks_kept (s s' : astore) : Prop :=
  ∀ x b sc, a_lookup s' x = Some (b, sc) → ∃ sc0, a_lookup s x = Some (b, sc0).

(** What a rollback leaves: the blocks before a point, some of those after. *)
Definition shrunk (delta : u256 → Z) (s : astore) (g : gmap u256 meta) (k1 k2 : list u256)
    (s' : astore) (g' : gmap u256 meta) (k2' : list u256) : Prop :=
  sublist k2' k2 ∧ g' ⊆ g ∧ blocks_kept s s' ∧ InvD delta s' g' (k1 ++ k2').

(** A block at the head of its account, other than the genesis block. *)
Definition headed (s : astore) (g : gmap u256 meta) (a h : u256) (b : block) (m : meta)
    (i : account_info) : Prop :=
  a_lookup s h = Some (b, U 32 0) ∧ g !! h = Some m ∧ m_owner m = a ∧
  a_accounts s !! a = Some i ∧ head i = h ∧ genesis_open b = false.

Lemma headed_removable s g a h b m i : headed s g a h b m i →
  (sends g b = true → is_Some (a_pending s !! (destination b, h))) → removable s g a h b m i.
Proof. intros (? & ? & ? & ? & ? & ?) ?. by constructor. Qed.

Lemma blocks_kept_trans s1 s2 s3 : blocks_kept s1 s2 → blocks_kept s2 s3 → blocks_kept s1 s3.
Proof. intros H12 H23 x b sc E. destruct (H23 _ _ _ E) as [sc1 E1]. by eapply H12. Qed.

(** Enough fuel for the visitors on a store. *)
Definition fuel_for (s : astore) (fuel : nat) : Prop := (4 * size (a_blocks s) + 8 ≤ fuel)%nat.

Lemma shrunk_fuel delta s g hist k1 k2 s' g' k2' fuel : InvD delta s g hist →
  hist = k1 ++ k2 ∨ (∃ h, hist = k1 ++ h :: k2) →
  shrunk delta s g k1 k2 s' g' k2' → fuel_for s fuel → fuel_for s' fuel.
Proof.
  intros HI Hh (Hsub & _ & _ & HI') Hf. unfold fuel_for in *.
  rewrite <-(inv_size _ _ _ HI) in Hf. rewrite <-(inv_size _ _ _ HI').
  apply sublist_length in Hsub. destruct Hh as [-> |[h ->]]; rewrite length_app in *; simpl in *; lia.
Qed.

(** A head whose block is left is still a head. *)
Lemma still_head delta delta' s g hist s' g' hist' a h b m i :
  InvD delta s g hist → headed s g a h b m i → InvD delta' s' g' hist' → g' ⊆ g →
  blocks_kept s s' → h ∈ hist' → ∃ i', headed s' g' a h b m i'.
Proof.
  intros HI (Eh & Em & Ho & Ei & Hh & Hg) HI' Hsub Hk Hin.
  apply (inv_hist _ _ _ HI') in Hin as [m' Em'].
  pose proof (lookup_weaken _ _ _ _ Em' Hsub) as Em2. rewrite Em in Em2. injection Em2 as <-.
  destruct (meta_block _ _ _ HI' _ _ Em') as (b' & sc & Eb').
  destruct (Hk _ _ _ Eb') as [sc0 E0]. rewrite Eh in E0. injection E0 as <- <-.
  destruct (inv_succ _ _ _ HI' _ _ _ _ Eb' Em') as [(-> & i' & Ei' & Hi')|(b1 & sc1 & E1 & _ & Hp)].
  - exists i'. rewrite Ho in Ei'. done.
  - destruct (Hk _ _ _ E1) as [sc2 E2].
    by destruct (head_not_previous _ _ _ HI _ _ _ _ _ _ Eh Em E2).
Qed.

(** The balance before a block that is left stays. *)
Lemma prev_balance_kept delta delta' s g hist s' g' hist' h b sc sc' m :
  InvD delta s g hist → InvD delta' s' g' hist' → g' ⊆ g →
  a_lookup s h = Some (b, sc) → g !! h = Some m → a_lookup s' h = Some (b, sc') → g' !! h = Some m →
  prev_balance g' b = prev_balance g b.
Proof.
  intros HI HI' Hg Eh Em Eh' Em'.
  destruct (inv_block _ _ _ HI _ _ _ _ Eh Em) as (_ & _ & _ & _ & Hfo & _).
  destruct (inv_block _ _ _ HI' _ _ _ _ Eh' Em') as (_ & _ & _ & _ & Hfo' & _).
  unfold follows in Hfo, Hfo'. unfold prev_balance. destruct (links b) eqn:Hl.
  - destruct Hfo' as (? & pm' & _ & Epm' & _).
    by rewrite Epm', (lookup_weaken _ _ _ _ Epm' Hg).
  - destruct Hfo as [-> _]. by rewrite is_zero_0.
Qed.

(** Weights changed in anticipation of a removal. *)
Lemma inv_reweigh delta delta2 s f g hist : InvD delta s g hist →
  (∀ r, uval (default (U 16 0) (f (a_rep s) !! r)) =
    (uval (default (U 16 0) (a_rep s !! r)) + (delta2 r - delta r)) mod 2 ^ 128) →
  InvD delta2 (set_rep f s) g hist.
Proof.
  intros HI Hw. pose proof (inv_weight _ _ _ HI) as Hiw. destruct HI. constructor; try done.
  intros r. change (a_rep (set_rep f s)) with (f (a_rep s)). rewrite Hw, Hiw.
  rewrite Zplus_mod_idemp_l. f_equal.
  change (a_lookup (set_rep f s)) with (a_lookup s).
  change (a_accounts (set_rep f s)) with (a_accounts s). lia.
Qed.

(** The part of a weight that a block of this representative moves. *)
Definition part (rb : block) (bal : u128) (r : u256) : Z :=
  if decide (block_representative rb = r) then uval bal else 0.

Lemma inv_add_rep delta s g hist b w : InvD delta s g hist →
  InvD (λ r, delta r + part b w r) (add_rep b w s) g hist.
Proof.
  intros HI. apply (inv_reweigh delta); [done|]. intros r.
  change (uval (default (U 16 0) (a_rep (add_rep b w s) !! r)) =
    (uval (default (U 16 0) (a_rep s !! r)) + (delta r + part b w r - delta r)) mod 2 ^ 128).
  rewrite add_rep_weight. f_equal. unfold part. lia.
Qed.

(** Blocks after the first one are not the genesis block. *)
Lemma not_genesis delta s g k1 x k2 b sc : InvD delta s g (k1 ++ x :: k2) → k1 ≠ [] →
  a_lookup s x = Some (b, sc) → genesis_open b = false.
Proof.
  intros HI Hk E. destruct (genesis_open b) eqn:Hg; [exfalso|done].
  destruct (inv_genesis _ _ _ HI) as (h0 & b0 & sc0 & rest & Eh & _ & _ & Hu).
  pose proof (Hu _ _ _ E Hg) as Ex. subst h0.
  pose proof (inv_nodup _ _ _ HI) as Hnd. destruct k1 as [|y k1]; [done|].
  injection Eh as Ey _. subst y. apply NoDup_cons in Hnd as [Hn _]. set_solver.
Qed.
End defs.

Section visitors.
Context `{Blake2b, LedgerConstants}.
Context (fuel n : nat) (rec : u256 → M (ledger astore) unit).

(** What the recursive call promises for blocks close enough to the end. *)
Definition rollback_spec (bound : nat) (R : u256 → M (ledger astore) unit) : Prop :=
  ∀ delta (l : ledger astore) g k1 d k2, InvD delta (store l) g (k1 ++ d :: k2) → k1 ≠ [] →
    fuel_for (store l) fuel → (length k2 + 3 ≤ bound)%nat →
    wp (R d) l (λ _ l', ∃ g' k2', shrunk delta (store l) g k1 k2 (store l') g' k2').

Hypothesis rec_ok : rollback_spec n rec.

Section cascade.
Context (delta : u256 → Z) (l1 : list u256) (a h : u256) (b : block) (m : meta).
Hypothesis Hl1 : l1 ≠ [].

(** The last block of the receiving account goes. *)
Lemma cascade_step {A} (K : M (ledger astore) A) (l : ledger astore) g (l2 : list u256) i
    (Q : A → ledger astore → Prop) :
  InvD delta (store l) g (l1 ++ h :: l2) → headed (store l) g a h b m i →
  fuel_for (store l) fuel → (length l2 + 2 ≤ n)%nat →
  sends g b = true → a_pending (store l) !! (destination b, h) = None →
  (∀ l' g' (l2' : list u256) i',
    InvD delta (store l') g' (l1 ++ h :: l2') → headed (store l') g' a h b m i' →
    fuel_for (store l') fuel → (length l2' < length l2)%nat → sublist l2' l2 → g' ⊆ g →
    blocks_kept (store l) (store l') → sends g' b = true → wp K l' Q) →
  wp (d ← latest (destination b); rec d;; K) l Q.
Proof.
  intros HI Hh Hf Hn Hs Hp HQ. pose proof Hh as (Eh & Em & _).
  destruct (receiver_later _ _ _ HI _ _ _ _ _ eq_refl Eh Hs Hp) as (j & Ej & Hj).
  unfold latest. apply wp_bind. read. rewrite Ej. apply wp_ret. apply wp_bind.
  apply list_elem_of_split in Hj as (q1 & q2 & ->).
  assert (Eq : l1 ++ h :: q1 ++ head j :: q2 = (l1 ++ h :: q1) ++ head j :: q2).
  { by rewrite <-app_assoc. }
  pose proof HI as HI0. rewrite Eq in HI. rewrite length_app in Hn, HQ. simpl in Hn, HQ.
  eapply wp_mono.
  { eapply rec_ok; [exact HI|by destruct l1|done|lia]. }
  intros [] l' (g' & q2' & Hsh). pose proof Hsh as (Hsub & Hg & Hk & HI').
  assert (Eq' : (l1 ++ h :: q1) ++ q2' = l1 ++ h :: (q1 ++ q2')) by by rewrite <-app_assoc.
  destruct (still_head _ _ _ _ _ _ _ _ _ _ _ _ _ HI0 Hh HI' Hg Hk) as [i' Hh'].
  { rewrite Eq'. set_solver. }
  apply (HQ l' g' (q1 ++ q2') i'); try done.
  - by rewrite <-Eq'.
  - eapply shrunk_fuel; [exact HI|right; eauto|exact Hsh|done].
  - apply sublist_length in Hsub. rewrite length_app. lia.
  - apply sublist_app; [done|]. by apply sublist_cons.
  - destruct Hh' as (Eh' & Em' & _).
    pose proof (prev_balance_kept _ _ _ _ _ _ _ _ _ _ _ _ _ HI0 HI' Hg Eh Em Eh' Em') as E.
    destruct b; try done. simpl in *. by rewrite E.
Qed.

(** After the loops of the visitor the entry is pending. *)
Definition waited (l : ledger astore) g (l2 : list u256) (Q : pending_info → ledger astore → Prop)
    : Prop :=
  ∀ l' g' (l2' : list u256) i' p, InvD delta (store l') g' (l1 ++ h :: l2') →
    headed (store l') g' a h b m i' → fuel_for (store l') fuel → sublist l2' l2 → g' ⊆ g →
    blocks_kept (store l) (store l') → sends g' b = true →
    a_pending (store l') !! (destination b, h) = Some p → Q p l'.

Lemma waited_later l g l2 l' g' l2' Q : waited l g l2 Q → sublist l2' l2 → g' ⊆ g →
  blocks_kept (store l) (store l') → waited l' g' l2' Q.
Proof.
  intros HQ Hs Hg Hk l3 g3 l4 i' p HI Hh Hf Hs' Hg' Hk' Hsb Hp.
  eapply HQ; try done; [by etrans|by etrans|by eapply blocks_kept_trans].
Qed.

Lemma blocks_kept_refl s : blocks_kept s s.
Proof. intros x b0 sc E. eauto. Qed.

Lemma wait_get k : ∀ l g (l2 : list u256) i Q, InvD delta (store l) g (l1 ++ h :: l2) →
  headed (store l) g a h b m i → fuel_for (store l) fuel → (length l2 + 2 ≤ n)%nat →
  (length l2 < k)%nat → sends g b = true → waited l g l2 Q →
  wp (loop k (λ _ : unit,
        p ← st (pending_get (destination b, h));
        match p with
        | None => d ← latest (destination b); rec d;; mret (inl tt)
        | Some p => mret (inr p)
        end) tt) l Q.
Proof.
  induction k as [|k IH]; [lia|]. intros l g l2 i Q HI Hh Hf Hn Hk Hs HQ.
  apply wp_loop. read. destruct (a_pending (store l) !! _) as [p|] eqn:Ep.
  { apply wp_ret. by eapply HQ; try done; apply blocks_kept_refl. }
  eapply cascade_step; try done. intros l' g' l2' i' HI' Hh' Hf' Hlt Hsub Hg Hkp Hs'.
  apply wp_ret. eapply (IH l' g' l2' i'); try done; [lia..|]. by eapply waited_later.
Qed.

Lemma wait_exists k : ∀ l g (l2 : list u256) i Q, InvD delta (store l) g (l1 ++ h :: l2) →
  headed (store l) g a h b m i → fuel_for (store l) fuel → (length l2 + 2 ≤ n)%nat →
  (length l2 < k)%nat → sends g b = true → waited l g l2 (λ _, Q tt) →
  wp (loop k (λ _ : unit,
        e ← st (pending_exists (destination b, h));
        if negb e then d ← latest (destination b); rec d;; mret (inl tt)
        else mret (inr tt)) tt) l Q.
Proof.
  induction k as [|k IH]; [lia|]. intros l g l2 i Q HI Hh Hf Hn Hk Hs HQ.
  apply wp_loop. read. case_bool_decide as Ep; simpl.
  { apply wp_ret. destruct Ep as [p Ep]. by eapply HQ; try done; apply blocks_kept_refl. }
  apply eq_None_not_Some in Ep.
  eapply cascade_step; try done. intros l' g' l2' i' HI' Hh' Hf' Hlt Hsub Hg Hkp Hs'.
  apply wp_ret. eapply (IH l' g' l2' i'); try done; [lia..|]. by eapply waited_later.
Qed.
End cascade.

(** *** One visit *)
Definition visited (delta : u256 → Z) (l : ledger astore) g l1 (l2 : list u256) (l' : ledger astore)
    : Prop := ∃ g' k2', shrunk delta (store l) g l1 l2 (store l') g' k2'.

Lemma visited_intro delta delta0 l g l1 (l2 : list u256) l0 g0 (k2 : list u256) h b m i
    (l' : ledger astore) :
  InvD delta0 (store l0) g0 (l1 ++ h :: k2) → removable (store l0) g0 (m_owner m) h b m i →
  sublist k2 l2 → g0 ⊆ g → blocks_kept (store l) (store l0) →
  a_blocks (store l') = a_blocks (del_block h b (store l0)) →
  InvD delta (store l') (delete h g0) (l1 ++ k2) → visited delta l g l1 l2 l'.
Proof.
  intros HI HR Hs Hg Hk Hb HI'. exists (delete h g0), k2. split_and!; try done.
  - etrans; [apply delete_subseteq|done].
  - eapply blocks_kept_trans; [exact Hk|]. intros x b0 sc E.
    rewrite (lookup_blocks_eq _ _ x Hb) in E.
    erewrite del_block_lookup in E; [|apply HI|apply HR|].
    + case_decide; [done|]. case_decide; [|by eauto].
      apply fmap_Some in E as ([b1 sc1] & E & [= -> ->]). eauto.
    + by eapply rm_previous.
Qed.

Lemma state_frontier {delta} s g hist h b sc : InvD delta s g hist →
  a_lookup s h = Some (BState b, sc) → a_frontiers s !! h = None.
Proof.
  intros HI Eh. destruct (a_frontiers s !! h) as [c|] eqn:E; [|done].
  apply (inv_frontier _ _ _ HI) in E as (j & b0 & ? & _ & _ & E0 & Hlg).
  rewrite Eh in E0. by injection E0 as <- <-.
Qed.

(** Weights already moved need no further change. *)
Lemma anticipated (x : u128) b w r Y : uval x =
  (uval x - (if decide (block_representative b = r) then uval w else 0) + Y
    + (- part b (neg w) r - Y)) mod 2 ^ 128.
Proof.
  unfold part. transitivity ((uval x - 0) mod 2 ^ 128).
  { rewrite Z.sub_0_r. symmetry. apply Z.mod_small. rewrite <-modulus_16. apply uval_range. }
  case_decide; [|f_equal; lia].
  replace (uval x - uval w + Y + (- uval (neg w) - Y)) with (uval x - uval w - uval (neg w)) by lia.
  unfold neg. rewrite uval_sub, uval_zero, modulus_16, Zminus_mod_idemp_r. f_equal. lia.
Qed.

Lemma legacy_predecessor b pb : legacy b = true → valid_predecessor b pb = true → legacy pb = true.
Proof. by destruct b, pb. Qed.

Lemma wp_block_del (l : ledger astore) s h b sc (Q : unit → ledger astore → Prop) :
  tables_wf s → a_blocks (store l) = a_blocks s → a_lookup s h = Some (b, sc) →
  Q tt (set_store l (set_blocks (delete (block_type_of b, h)) (store l))) →
  wp (st (block_del h)) l Q.
Proof.
  intros Hwf Hb E HQ. eapply wp_st; [|exact HQ]. simpl. unfold a_block_del.
  erewrite wf_find_del; [done| |].
  - eapply tables_wf_eq; [symmetry; exact Hb|done].
  - rewrite (lookup_blocks_eq _ _ h Hb). exact E.
Qed.

(** Deleting cached data of a legacy block. *)
Lemma wp_block_info_del_if (l : ledger astore) cnt h (Q : unit → ledger astore → Prop) :
  (uval cnt mod block_info_max = 0 → is_Some (a_info (store l) !! h)) →
  (∀ l' (del : bool), store l' = set_info (if del then delete h else id) (store l) → Q tt l') →
  wp (block_info_del_if cnt h) l Q.
Proof.
  intros Hs HQ. unfold block_info_del_if. destruct (uval cnt mod _ =? 0) eqn:E.
  - apply wp_del; [apply Hs; lia|]. by apply (HQ _ true).
  - apply wp_ret. apply (HQ l false). by destruct (store l).
Qed.

Section visit.
Context (delta : u256 → Z) (l : ledger astore) (g : gmap u256 meta) (l1 l2 : list u256).
Context (a h : u256) (m : meta) (i : account_info).
Hypothesis HI : InvD delta (store l) g (l1 ++ h :: l2).
Hypothesis Hl1 : l1 ≠ [].
Hypothesis Hf : fuel_for (store l) fuel.
Hypothesis Hn : (length l2 + 2 ≤ n)%nat.

Lemma rollback_send_ok b : headed (store l) g a h (BSend b) m i →
  wp (rollback_send_block fuel n rec b) l (λ _ l', visited delta l g l1 l2 l').
Proof.
  intros Hh. pose proof Hh as (Eh & _). unfold rollback_send_block.
  rewrite (wf_lookup_hash _ _ _ _ (inv_wf _ _ _ HI) Eh). clear Eh.
  apply wp_bind. eapply (wait_get delta l1 a h (BSend b) m Hl1 n l g l2 i);
    [done|done|done|lia|lia|done|].
  clear HI Hf Hn Hh. intros l0 g0 k2 i0 p HI Hh Hf Hsub Hg Hk Hs Hp.
  pose proof Hh as (Eh & Em & Ho & Ei & Hhd & _).
  assert (HR : removable (store l0) g0 a h (BSend b) m i0).
  { apply headed_removable; [done|]. intros _. by rewrite Hp. }
  destruct (inv_pending _ _ _ HI _ _ _ Hp) as (b0 & ? & m0 & E0 & Em0 & _ & _ & Hso & Ham).
  rewrite Eh in E0. rewrite Em in Em0. injection E0 as <- <-. injection Em0 as <-.
  rewrite Ho in Hso. rewrite Hso. read. rewrite Ei.
  destruct (head_info _ _ _ _ _ _ _ _ _ _ HI HR) as (Hbal & Hrep & Hop & Hcnt).
  destruct (previous_facts _ _ _ _ _ _ _ _ _ _ HI HR eq_refl)
    as (pb & pm & Epb & Epm & Hpo & Hht & Hz & Hv & _ & Hr & _).
  destruct (rep_block_of _ _ _ _ _ _ HI _ _ Em) as (rb & rsc & Erb & _).
  simpl in Hp. apply wp_bind, wp_del; [by rewrite Hp|].
  assert (Hf' : (2 * size (a_blocks (store l0)) + 4 ≤ fuel)%nat) by (unfold fuel_for in Hf; lia).
  apply wp_bind. eapply (wp_representative fuel _ l0); [exact HI| |exact Em|lia|].
  { by eapply agree_same. }
  apply wp_bind. eapply wp_representation_add; [exact Erb|].
  apply wp_bind. eapply (wp_ledger_balance fuel _ l0); [exact HI| |exact Epm|done|].
  { by eapply agree_same. }
  apply wp_bind, wp_change_latest; [done|tables; by eapply has_sum|tables; by rewrite Ei|].
  intros l3 now ck Hxor Hl3. project_in Hl3.
  assert (Hb3 : a_blocks (store l3) = a_blocks (store l0)) by (rewrite Hl3; by tables).
  apply wp_bind. eapply (wp_block_del l3 (store l0)); [apply HI|done|exact Eh|].
  apply wp_bind, wp_del.
  { project. rewrite Hl3. tables.
    erewrite head_frontier; [eauto|exact HI|exact Eh|exact Em|done]. }
  write. project. destruct (clear_after_del _ _ _ _ _ _ _ _ _ _ HI HR
    (set_frontiers <[block_previous (BSend b):=a]> (set_frontiers (delete h)
      (set_blocks (delete (bt_send, h)) (store l3)))) pb h eq_refl Epb) as [Hclr Hbl].
  { simpl. by rewrite Hb3. }
  apply wp_bind. eapply wp_st; [exact Hclr|]. project.
  apply wp_bind, wp_block_info_del_if.
  { project. rewrite Hl3, Hcnt, count_mod. intros Hm.
    pose proof (inv_cached _ _ _ HI _ _ _ _ Eh Em eq_refl Hm). unfold clear_block.
    tables. destruct (_ && _); [apply lookup_insert_is_Some'; auto|done]. }
  intros l4 del Hl4. apply wp_stats. intros l5 Hl5. rewrite <-Hl5 in Hl4. project_in Hl4.
  assert (Hfin : a_blocks (store l5) = a_blocks (del_block h (BSend b) (store l0))).
  { rewrite Hl4. exact Hbl. }
  eapply visited_intro; [exact HI|by rewrite Ho|done|done|done|exact Hfin|].
  rewrite Hl3 in Hl4. unfold clear_block in Hl4.
  eapply (back_linked _ _ _ _ _ _ _ _ _ _ _ HI HR (λ _, 0) delta
    (λ r, eq_sym (Z.add_0_r _)) pb h pm rb rsc rb rsc now del);
    try done; rewrite ?Hl4; tables; try done.
  - by rewrite <-Hr.
  - by rewrite <-Hr, Hrep, Ei.
  - by rewrite (legacy_predecessor (BSend b) pb).
  - unfold pending_back. cbn [sends destination]. by tables.
  - intros r. rewrite Z.add_0_r. tables. rewrite add_rep_weight. tables. case_decide; [|f_equal; lia].
    f_equal. rewrite Ham. unfold sent_amount, prev_balance.
    rewrite (proj2 (is_zero_false _) Hz). rewrite Epm. lia.
  - by rewrite andb_true_r.
  - checksum HI Hxor.
Qed.

Lemma rollback_receive_ok b : headed (store l) g a h (BReceive b) m i →
  wp (rollback_receive_block fuel b) l (λ _ l', visited delta l g l1 l2 l').
Proof.
  intros Hh. pose proof Hh as (Eh & Em & Ho & Ei & Hhd & _). unfold rollback_receive_block.
  rewrite (wf_lookup_hash _ _ _ _ (inv_wf _ _ _ HI) Eh).
  assert (HR : removable (store l) g a h (BReceive b) m i) by by apply headed_removable.
  destruct (head_info _ _ _ _ _ _ _ _ _ _ HI HR) as (Hbal & Hrep & Hop & Hcnt).
  destruct (previous_facts _ _ _ _ _ _ _ _ _ _ HI HR eq_refl)
    as (pb & pm & Epb & Epm & Hpo & Hht & Hz & Hv & _ & Hr & _).
  destruct (rep_block_of _ _ _ _ _ _ HI _ _ Em) as (rb & rsc & Erb & _).
  destruct (received_source _ _ _ _ _ _ _ _ _ _ HI HR _ eq_refl)
    as (_ & _ & sb & ssc & sm & Esb & Esm & Hss & Hd & Hsum).
  assert (Hf' : (2 * size (a_blocks (store l)) + 4 ≤ fuel)%nat) by (unfold fuel_for in Hf; lia).
  apply wp_bind. eapply (wp_representative fuel _ l); [exact HI| |exact Epm|lia|].
  { by eapply agree_same. }
  apply wp_bind. eapply wp_ledger_amount; [exact HI|exact Esb|exact Esm|done|done|].
  apply wp_bind. eapply wp_ledger_account; [exact HI|exact Em|lia|]. rewrite Ho.
  apply wp_bind. eapply wp_ledger_account; [exact HI|exact Esm|lia|].
  read. rewrite Ei. set (amt := U 16 (sent_amount g sb sm)).
  assert (Hamt : uval amt = sent_amount g sb sm).
  { apply uval_U_small. pose proof (uval_range (m_balance m)).
    pose proof (uval_range (m_balance pm)). revert Hsum. unfold prev_balance.
    rewrite (proj2 (is_zero_false _) Hz), Epm.
    pose proof (send_amount_nonneg _ _ _ HI _ _ _ _ Esb Esm Hss). lia. }
  apply wp_bind. eapply (wp_representative fuel _ l); [exact HI| |exact Em|lia|].
  { by eapply agree_same. }
  apply wp_bind. eapply wp_representation_add; [exact Erb|].
  apply wp_bind. eapply (wp_ledger_balance fuel _ l); [exact HI| |exact Epm|done|].
  { by eapply agree_same. }
  apply wp_bind, wp_change_latest; [done|tables; by eapply has_sum|tables; by rewrite Ei|].
  intros l3 now ck Hxor Hl3. project_in Hl3.
  assert (Hb3 : a_blocks (store l3) = a_blocks (store l)) by (rewrite Hl3; by tables).
  apply wp_bind. eapply (wp_block_del l3 (store l)); [apply HI|done|exact Eh|].
  write. apply wp_bind, wp_del.
  { project. rewrite Hl3. tables.
    erewrite head_frontier; [eauto|exact HI|exact Eh|exact Em|done]. }
  write. project. edestruct (clear_after_del _ _ _ _ _ _ _ _ _ _ HI HR) as [Hclr Hbl];
    [done|exact Epb| |apply wp_bind; eapply wp_st; [exact Hclr|]].
  { project. by rewrite Hb3. }
  project.
  apply wp_bind, wp_block_info_del_if.
  { project. rewrite Hl3, Hcnt, count_mod. intros Hm.
    pose proof (inv_cached _ _ _ HI _ _ _ _ Eh Em eq_refl Hm). unfold clear_block.
    tables. destruct (_ && _); [apply lookup_insert_is_Some'; auto|done]. }
  intros l4 del Hl4. apply wp_stats. intros l5 Hl5. rewrite <-Hl5 in Hl4. project_in Hl4.
  assert (Hfin : a_blocks (store l5) = a_blocks (del_block h (BReceive b) (store l))).
  { rewrite Hl4. exact Hbl. }
  eapply visited_intro; [exact HI|by rewrite Ho|done|done|apply blocks_kept_refl|exact Hfin|].
  rewrite Hl3 in Hl4. unfold clear_block in Hl4.
  eapply (back_linked _ _ _ _ _ _ _ _ _ _ _ HI HR (λ _, 0) delta
    (λ r, eq_sym (Z.add_0_r _)) pb h pm rb rsc rb rsc now del);
    try done; rewrite ?Hl4; tables; try done.
  - by rewrite <-Hr.
  - by rewrite Ei.
  - by rewrite (legacy_predecessor (BReceive b) pb).
  - unfold pending_back. cbn [sends receives]. tables.
    by exists (Pending_info (m_owner sm) amt), sb, ssc, sm.
  - intros r. rewrite Z.add_0_r. tables. rewrite add_rep_weight. tables. case_decide; [|f_equal; lia].
    rewrite neg_mod. f_equal. rewrite Hamt. revert Hsum. unfold prev_balance.
    rewrite (proj2 (is_zero_false _) Hz), Epm. lia.
  - by rewrite andb_true_r.
  - checksum HI Hxor.
Qed.

Lemma rollback_open_ok b : headed (store l) g a h (BOpen b) m i →
  wp (rollback_open_block fuel b) l (λ _ l', visited delta l g l1 l2 l').
Proof.
  intros Hh. pose proof Hh as (Eh & Em & Ho & Ei & Hhd & Hgen). unfold rollback_open_block.
  rewrite (wf_lookup_hash _ _ _ _ (inv_wf _ _ _ HI) Eh).
  assert (HR : removable (store l) g a h (BOpen b) m i) by by apply headed_removable.
  destruct (rm_ok _ _ _ _ _ _ _ _ _ _ HI HR) as (_ & _ & _ & _ & Hfo & _).
  destruct Hfo as (_ & _ & _ & Hr).
  assert (Hrec : receives g (BOpen b) = Some (oh_source (hashables b))).
  { simpl in *. by rewrite Hgen. }
  destruct (received_source _ _ _ _ _ _ _ _ _ _ HI HR _ Hrec)
    as (_ & _ & sb & ssc & sm & Esb & Esm & Hss & Hd & Hsum).
  assert (Hf' : (2 * size (a_blocks (store l)) + 4 ≤ fuel)%nat) by (unfold fuel_for in Hf; lia).
  apply wp_bind. eapply wp_ledger_amount; [exact HI|exact Esb|exact Esm|done|done|].
  apply wp_bind. eapply wp_ledger_account; [exact HI|exact Em|lia|]. rewrite Ho.
  apply wp_bind. eapply wp_ledger_account; [exact HI|exact Esm|lia|].
  set (amt := U 16 (sent_amount g sb sm)).
  assert (Hamt : uval amt = uval (m_balance m) ∧ uval amt = sent_amount g sb sm).
  { revert Hsum. unfold prev_balance. simpl. rewrite is_zero_0. intros Hsum.
    pose proof (uval_range (m_balance m)). unfold amt. rewrite uval_U_small; lia. }
  apply wp_bind. eapply (wp_representative fuel _ l); [exact HI| |exact Em|lia|].
  { by eapply agree_same. }
  rewrite Hr. apply wp_bind. eapply wp_representation_add; [exact Eh|].
  apply wp_bind, wp_change_latest_del; [tables; by eapply has_sum|tables; by rewrite Ei|].
  intros l3 ck i1 Ei1 Hxor Hl3. project_in Hl3.
  assert (Hb3 : a_blocks (store l3) = a_blocks (store l)) by (rewrite Hl3; by tables).
  apply wp_bind. eapply (wp_block_del l3 (store l)); [apply HI|done|exact Eh|].
  write. apply wp_bind, wp_del.
  { project. rewrite Hl3. tables.
    erewrite head_frontier; [eauto|exact HI|exact Eh|exact Em|done]. }
  apply wp_stats. intros l5 Hl5. project_in Hl5.
  assert (Hfin : a_blocks (store l5) = a_blocks (del_block h (BOpen b) (store l))).
  { rewrite Hl5. simpl. by rewrite Hb3. }
  eapply visited_intro; [exact HI|by rewrite Ho|done|done|apply blocks_kept_refl|exact Hfin|].
  rewrite Hl3 in Hl5.
  eapply (back_first _ _ _ _ _ _ _ _ _ _ _ HI HR (λ _, 0) delta
    (λ r, eq_sym (Z.add_0_r _))); try done; rewrite ?Hl5; tables; try done.
  - unfold pending_back. cbn [sends]. rewrite Hrec. tables.
    exists (Pending_info (m_owner sm) amt), sb, ssc, sm. by destruct Hamt.
  - intros r. rewrite Z.add_0_r. tables. rewrite add_rep_weight. destruct Hamt as [<- _].
    case_decide; [apply neg_mod|f_equal; lia].
  - unfold sum_ok. project. rewrite lookup_insert_eq, Hxor. apply deleted_checksum; [apply HI|done].
Qed.

Lemma rollback_change_ok b : headed (store l) g a h (BChange b) m i →
  wp (rollback_change_block fuel b) l (λ _ l', visited delta l g l1 l2 l').
Proof.
  intros Hh. pose proof Hh as (Eh & Em & Ho & Ei & Hhd & _). unfold rollback_change_block.
  rewrite (wf_lookup_hash _ _ _ _ (inv_wf _ _ _ HI) Eh).
  assert (HR : removable (store l) g a h (BChange b) m i) by by apply headed_removable.
  destruct (head_info _ _ _ _ _ _ _ _ _ _ HI HR) as (Hbal & Hrep & Hop & Hcnt).
  destruct (previous_facts _ _ _ _ _ _ _ _ _ _ HI HR eq_refl)
    as (pb & pm & Epb & Epm & Hpo & Hht & Hz & Hv & _ & Hr & _).
  destruct (rep_block_of _ _ _ _ _ _ HI _ _ Epm) as (prb & prsc & Eprb & _).
  assert (Hsame : m_balance pm = m_balance m).
  { destruct (rm_ok _ _ _ _ _ _ _ _ _ _ HI HR) as (_ & _ & _ & _ & _ & _ & Hb).
    unfold balanced in Hb. cbn [sends receives] in Hb. unfold prev_balance in Hb.
    rewrite (proj2 (is_zero_false _) Hz), Epm in Hb. by apply uval_inj. }
  assert (Hf' : (2 * size (a_blocks (store l)) + 4 ≤ fuel)%nat) by (unfold fuel_for in Hf; lia).
  apply wp_bind. eapply (wp_representative fuel _ l); [exact HI| |exact Epm|lia|].
  { by eapply agree_same. }
  apply wp_bind. eapply wp_ledger_account; [exact HI|exact Epm|lia|]. rewrite Hpo.
  read. rewrite Ei.
  apply wp_bind. eapply (wp_ledger_balance fuel _ l); [exact HI| |exact Epm|done|].
  { by eapply agree_same. }
  apply wp_bind. eapply wp_representation_add; [exact Eprb|].
  apply wp_bind. eapply wp_representation_add; [exact Eh|]. project.
  apply wp_bind. eapply (wp_block_del _ (store l)); [apply HI|done|exact Eh|]. project.
  apply wp_bind, wp_change_latest; [done|tables; by eapply has_sum|tables; by rewrite Ei|].
  intros l3 now ck Hxor Hl3. project_in Hl3.
  assert (Hb3 : a_blocks (store l3) = delete (bt_change, h) (a_blocks (store l)))
    by (rewrite Hl3; by tables).
  apply wp_bind, wp_del.
  { project. rewrite Hl3. tables.
    erewrite head_frontier; [eauto|exact HI|exact Eh|exact Em|done]. }
  write. project. edestruct (clear_after_del _ _ _ _ _ _ _ _ _ _ HI HR) as [Hclr Hbl];
    [done|exact Epb| |apply wp_bind; eapply wp_st; [exact Hclr|]].
  { project. by rewrite Hb3. }
  project. apply wp_bind, wp_block_info_del_if.
  { project. rewrite Hl3, Hcnt, count_mod. intros Hm.
    pose proof (inv_cached _ _ _ HI _ _ _ _ Eh Em eq_refl Hm). unfold clear_block.
    tables. destruct (_ && _); [apply lookup_insert_is_Some'; auto|done]. }
  intros l4 del Hl4. apply wp_stats. intros l5 Hl5. rewrite <-Hl5 in Hl4. project_in Hl4.
  assert (Hfin : a_blocks (store l5) = a_blocks (del_block h (BChange b) (store l))).
  { rewrite Hl4. exact Hbl. }
  eapply visited_intro; [exact HI|by rewrite Ho|done|done|apply blocks_kept_refl|exact Hfin|].
  rewrite Hl3 in Hl4. unfold clear_block in Hl4.
  eapply (back_linked _ _ _ _ _ _ _ _ _ _ _ HI HR (λ _, 0) delta
    (λ r, eq_sym (Z.add_0_r _)) pb h pm prb prsc (BChange b) (U 32 0) now del);
    try done; rewrite ?Hl4; tables; try done.
  - by rewrite Hr.
  - by rewrite Ei, Hbal, Hsame.
  - by rewrite (legacy_predecessor (BChange b) pb).
  - unfold pending_back. cbn [sends receives]. by tables.
  - intros r. rewrite Z.add_0_r. tables. rewrite !add_rep_weight. tables. rewrite Hsame. apply move_mod.
  - by rewrite andb_true_r, Hbal, Hsame.
  - checksum HI Hxor.
Qed.

(** A state block gives back the entry it consumed, or takes back its own. *)
Lemma rollback_link_ok b bal (Q : unit → ledger astore → Prop) :
  headed (store l) g a h (BState b) m i → uval bal = prev_balance g (BState b) →
  (∀ l' l0 g0 k2 i0 f, InvD delta (store l0) g0 (l1 ++ h :: k2) →
    removable (store l0) g0 a h (BState b) m i0 → fuel_for (store l0) fuel →
    sublist k2 l2 → g0 ⊆ g → blocks_kept (store l) (store l0) →
    store l' = set_pending f (store l0) →
    pending_back g0 (store l0) (store l') a h (BState b) → Q tt l') →
  wp (rollback_state_link fuel n rec b h bal) l Q.
Proof.
  intros Hh Hbal HQ. pose proof Hh as (Eh & Em & Ho & Ei & Hhd & _).
  unfold rollback_state_link.
  destruct (inv_block _ _ _ HI _ _ _ _ Eh Em) as (_ & _ & _ & _ & _ & [Hacc Hst] & Hblk).
  assert (Hsb : u_ltb (th_balance (hashables b)) bal = sends g (BState b)).
  { simpl. rewrite <-Hbal. destruct (u_ltb_spec (th_balance (hashables b)) bal); lia. }
  rewrite Hsb. destruct (sends g (BState b)) eqn:Hs.
  - apply wp_bind. eapply (wait_exists delta l1 a h (BState b) m Hl1 n l g l2 i);
      [done|done|done|lia|lia|done|].
    intros l0 g0 k2 i0 p HI0 Hh0 Hf0 Hsub Hg Hk Hs0 Hp.
    apply wp_bind, wp_del; [simpl in Hp; by rewrite Hp|].
    apply wp_stats. intros l' Hl'. project_in Hl'.
    eapply (HQ l' l0 g0 k2 i0 (delete (th_link (hashables b), h))); try done.
    + apply headed_removable; [done|]. intros _. by rewrite Hp.
    + unfold pending_back. by rewrite Hs0, Hl'.
  - assert (HR : removable (store l) g a h (BState b) m i).
    { apply headed_removable; [done|]. by rewrite Hs. }
    destruct (is_zero (th_link (hashables b))) eqn:Ez; simpl.
    { apply wp_ret. eapply (HQ l l g l2 i id); try done; [apply blocks_kept_refl| |].
      - by destruct (store l).
      - unfold pending_back. rewrite Hs. unfold receives. by rewrite Hs, Ez. }
    assert (Hrec : receives g (BState b) = Some (th_link (hashables b))).
    { unfold receives. by rewrite Hs, Ez. }
    destruct (received_source _ _ _ _ _ _ _ _ _ _ HI HR _ Hrec)
      as (_ & _ & sb & ssc & sm & Esb & Esm & Hss & Hd & Hsum).
    apply wp_bind. eapply wp_ledger_account; [exact HI|exact Esm|unfold fuel_for in Hf; lia|].
    write. apply wp_stats. intros l' Hl'. project_in Hl'. eapply (HQ l' l g l2 i);
      try done; [apply blocks_kept_refl|].
    unfold pending_back. rewrite Hs, Hrec.
    exists (Pending_info (m_owner sm) (u_sub (th_balance (hashables b)) bal)), sb, ssc, sm.
    split_and!; [done..| |rewrite Hl'; simpl; by rewrite <-Hacc, Ho].
    pose proof (send_amount_nonneg _ _ _ HI _ _ _ _ Esb Esm Hss).
    rewrite Hst in Hsum. simpl. rewrite uval_sub_small; lia.
Qed.
End visit.

(** *** A state block with a predecessor, and one that opens its account *)
Section state.
Context (delta : u256 → Z) (l : ledger astore) (g : gmap u256 meta) (l1 l2 : list u256).
Context (a h : u256) (m : meta) (i : account_info) (b : state_block).
Hypothesis HI : InvD delta (store l) g (l1 ++ h :: l2).
Hypothesis Hl1 : l1 ≠ [].
Hypothesis Hf : fuel_for (store l) fuel.
Hypothesis Hn : (length l2 + 2 ≤ n)%nat.
Hypothesis Hh : headed (store l) g a h (BState b) m i.

Lemma state_facts : m_owner m = a ∧ th_account (hashables b) = a ∧
  m_balance m = th_balance (hashables b) ∧ block_hash (BState b) = h ∧ m_rep m = h.
Proof.
  pose proof Hh as (Eh & Em & Ho & _).
  destruct (inv_block _ _ _ HI _ _ _ _ Eh Em) as (_ & _ & _ & _ & Hfo & [Hacc Hst] & _).
  split_and!; try done; [congruence|by eapply wf_lookup_hash, Eh; apply HI|].
  unfold follows in Hfo. destruct (links _); [by destruct Hfo as (? & ? & _ & _ & _ & _ & _ & _ & ?)|].
  by destruct Hfo as (_ & _ & _ & ?).
Qed.

Lemma headed_rep f : headed (set_rep f (store l)) g a h (BState b) m i.
Proof. exact Hh. Qed.

Lemma rollback_state_linked : links (BState b) = true →
  wp (rollback_state_block fuel n rec b) l (λ _ l', visited delta l g l1 l2 l').
Proof.
  intros Hl. pose proof Hh as (Eh & Em & _ & Ei & Hhd & Hgen).
  destruct state_facts as (Ho & Hacc & Hst & Hhash & Hmr). unfold rollback_state_block.
  rewrite Hhash, Hacc, <-Hst.
  assert (Hz : is_zero (th_previous (hashables b)) = false) by by apply negb_true_iff in Hl.
  rewrite Hz. cbn [negb]. pose proof (proj1 (is_zero_false _) Hz) as Hz'.
  destruct (inv_block _ _ _ HI _ _ _ _ Eh Em) as (_ & _ & _ & _ & Hfo & _).
  unfold follows in Hfo. rewrite Hl in Hfo. destruct Hfo as (pb & pm & Epb & Epm & Hv & Hpo & _).
  simpl in Epb, Epm.
  destruct (rep_block_of _ _ _ _ _ _ HI _ _ Epm) as (prb & prsc & Eprb & Hprz).
  assert (Hf' : (2 * size (a_blocks (store l)) + 4 ≤ fuel)%nat) by (unfold fuel_for in Hf; lia).
  apply wp_bind. eapply (wp_representative fuel _ l); [exact HI| |exact Epm|lia|].
  { by eapply agree_same. }
  apply wp_bind. eapply (wp_ledger_balance fuel _ l); [exact HI| |exact Epm|done|].
  { by eapply agree_same. }
  apply wp_bind. eapply wp_representation_add; [exact Eh|].
  apply is_zero_false in Hprz. rewrite Hprz. cbn [negb].
  apply wp_bind. eapply wp_representation_add; [exact Eprb|]. project.
  match goal with |- wp _ ?x _ => set (lr := x) end.
  set (delta2 := λ r, delta r + part (BState b) (neg (m_balance m)) r + part prb (m_balance pm) r).
  assert (HI2 : InvD delta2 (store lr) g (l1 ++ h :: l2)).
  { unfold lr. project. by do 2 apply inv_add_rep. }
  apply wp_bind. eapply (rollback_link_ok delta2 lr); [exact HI2|done|done|done|exact Hh| |].
  { unfold prev_balance. simpl. by rewrite Hz, Epm. }
  assert (Hlr : blocks_kept (store l) (store lr)) by exact (blocks_kept_refl (store l)).
  clearbody lr.
  intros l3 l0 g0 k2 i0 f HI0 HR Hf0 Hsub Hg Hk Hl3 Hp.
  apply (blocks_kept_trans _ _ _ Hlr) in Hk. clear dependent lr.
  pose proof (rm_block _ _ _ _ _ _ _ HR) as Eh0. pose proof (rm_meta _ _ _ _ _ _ _ HR) as Em0.
  pose proof (rm_account _ _ _ _ _ _ _ HR) as Ei0.
  destruct (previous_facts _ _ _ _ _ _ _ _ _ _ HI0 HR Hl)
    as (pb0 & pm0 & Epb0 & Epm0 & _ & Hht & _ & _ & _ & Hr & _). simpl in Epb0, Epm0.
  pose proof (lookup_weaken _ _ _ _ Epm0 Hg) as E. rewrite Epm in E. injection E as <-.
  destruct (rep_block_of _ _ _ _ _ _ HI0 _ _ Epm0) as (prb0 & prsc0 & Eprb0 & _).
  destruct (Hk _ _ _ Eprb0) as [sc1 E]. rewrite Eprb in E. injection E as <- <-.
  apply wp_bind, wp_st_read. project. rewrite Hl3. project. rewrite Ei0.
  apply wp_bind, wp_change_latest; [done|rewrite Hl3; project; by eapply has_sum|rewrite Hl3; project; by rewrite Ei0|].
  intros l4 now ck Hxor Hl4. rewrite Hl3 in Hl4.
  assert (Hb4 : a_blocks (store l4) = a_blocks (store l0)) by (rewrite Hl4; by tables).
  read. rewrite (lookup_blocks_eq _ _ _ Hb4), Epb0. tidy.
  destruct (clear_then_del _ _ _ _ _ _ _ _ _ _ HI0 HR (store l4) pb0 h Hl Epb0 Hb4) as [Hclr Hdel].
  apply wp_bind, wp_bind. eapply wp_st; [exact Hclr|].
  assert (Hfr : ∀ l5, store l5 = (if legacy pb0
      then set_frontiers <[th_previous (hashables b) := a]> else id)
      (clear_block (block_previous (BState b)) pb0 (store l4)) →
    wp (st (block_del h)) l5 (λ _ l', visited delta l g l1 l2 l')).
  { intros l5 Hl5.
    assert (Hb5 : a_blocks (store l5) = a_blocks (clear_block (block_previous (BState b)) pb0 (store l4))).
    { rewrite Hl5. by destruct (legacy pb0). }
    destruct (Hdel _ Hb5) as [Hd1 Hd2]. eapply wp_st; [exact Hd1|].
    eapply (visited_intro delta delta2 _ _ _ _ l0 g0 k2 h);
      [exact HI0|by rewrite Ho|done|done|done|exact Hd2|].
    eapply (back_linked _ _ _ _ _ _ _ _ _ _ _ HI0 HR
      (λ r, - part (BState b) (neg (m_balance m)) r - part prb (m_balance pm) r) delta _
      pb0 h pm prb prsc0 (BState b) (U 32 0) now false); try done; project; rewrite ?Hl5, ?Hl4.
    - simpl. by rewrite Hmr.
    - unfold clear_block; destruct (legacy pb0); cbn [id]; tables; by rewrite Ei0.
    - pose proof (state_frontier _ _ _ _ _ _ HI0 Eh0) as Hnf. rewrite (delete_id _ _ Hnf).
      unfold clear_block; destruct (legacy pb0); cbn [id]; by tables.
    - unfold pending_back in Hp |- *. rewrite Hl3 in Hp.
      project_in Hp. unfold clear_block; destruct (legacy pb0); cbn [id]; tables; exact Hp.
    - intros r. unfold clear_block; destruct (legacy pb0); cbn [id]; tables; apply anticipated.
    - unfold clear_block; destruct (legacy pb0); cbn [id]; tables; by rewrite andb_true_r.
    - unfold clear_block; destruct (legacy pb0); cbn [id].
      all: rewrite Hl3 in Hxor; checksum HI0 Hxor. }
  simpl. unfold legacy. destruct (bool_decide _) eqn:Ety; simpl.
  - apply wp_ret. apply Hfr. unfold legacy. by rewrite Ety.
  - apply wp_st_write. apply Hfr. unfold legacy. by rewrite Ety.
  Unshelve. intros r. unfold delta2. lia.
Qed.

Lemma rollback_state_first : links (BState b) = false →
  wp (rollback_state_block fuel n rec b) l (λ _ l', visited delta l g l1 l2 l').
Proof.
  intros Hl. pose proof Hh as (Eh & Em & _ & Ei & Hhd & Hgen).
  destruct state_facts as (Ho & Hacc & Hst & Hhash & Hmr). unfold rollback_state_block.
  rewrite Hhash, Hacc, <-Hst.
  assert (Hz : th_previous (hashables b) = U 32 0).
  { apply is_zero_true. by apply negb_false_iff in Hl. }
  rewrite Hz, is_zero_0. cbn [negb]. apply wp_bind, wp_ret.
  apply wp_bind. unfold ledger_balance, balance_compute. eapply wp_st_keep.
  { apply balance_loop_done. unfold fuel_for in Hf. lia. }
  apply wp_bind. eapply wp_representation_add; [exact Eh|].
  rewrite is_zero_0. cbn [negb]. apply wp_bind, wp_ret.
  match goal with |- wp _ ?x _ => set (lr := x) end.
  set (delta2 := λ r, delta r + part (BState b) (neg (m_balance m)) r).
  assert (HI2 : InvD delta2 (store lr) g (l1 ++ h :: l2)) by by apply inv_add_rep.
  apply wp_bind. eapply (rollback_link_ok delta2 lr); [exact HI2|done|done|done|exact Hh| |].
  { unfold prev_balance. simpl. rewrite Hz, is_zero_0. apply uval_zero. }
  assert (Hlr : blocks_kept (store l) (store lr)) by exact (blocks_kept_refl (store l)).
  clearbody lr.
  intros l3 l0 g0 k2 i0 f HI0 HR Hf0 Hsub Hg Hk Hl3 Hp.
  apply (blocks_kept_trans _ _ _ Hlr) in Hk. clear dependent lr.
  pose proof (rm_block _ _ _ _ _ _ _ HR) as Eh0.
  pose proof (rm_account _ _ _ _ _ _ _ HR) as Ei0.
  read. rewrite Hl3. project. rewrite Ei0.
  apply wp_bind, wp_change_latest_del;
    [rewrite Hl3; project; by eapply has_sum|rewrite Hl3; project; by rewrite Ei0|].
  intros l4 ck i1 Ei1 Hxor Hl4. rewrite Hl3 in Hl4, Ei1, Hxor.
  assert (Hb4 : a_blocks (store l4) = a_blocks (store l0)) by (by rewrite Hl4).
  read. rewrite (lookup_blocks_eq _ _ _ Hb4).
  replace (a_lookup (store l0) (U 32 0)) with (@None (block * u256)); tidy; cycle 1.
  { symmetry. apply eq_None_not_Some. intros Hs. apply (inv_dom _ _ _ HI0) in Hs.
    by eapply (source_nonzero _ _ _ HI0). }
  apply wp_bind, wp_stats. intros l5 Hl5. rewrite <-Hl5 in Hl4, Hb4.
  eapply (wp_block_del l5 (store l0)); [apply HI0|done|exact Eh0|].
  assert (Hbl : a_blocks (del_block h (BState b) (store l0)) =
    delete (bt_state, h) (a_blocks (store l0))) by (unfold del_block; by rewrite Hl).
  eapply (visited_intro delta delta2 _ _ _ _ l0 g0 k2 h);
    [exact HI0|by rewrite Ho|done|done|done|project; by rewrite Hbl, Hb4|].
  eapply (back_first _ _ _ _ _ _ _ _ _ _ _ HI0 HR
    (λ r, - part (BState b) (neg (m_balance m)) r) delta); try done; project; rewrite ?Hl4;
    project; try done.
  - intros r. unfold delta2. lia.
  - by rewrite (delete_id _ _ (state_frontier _ _ _ _ _ _ HI0 Eh0)).
  - unfold pending_back in Hp |- *. rewrite Hl3 in Hp. exact Hp.
  - intros r. pose proof (anticipated (default (U 16 0) (a_rep (store l0) !! r))
      (BState b) (m_balance m) r 0) as E. rewrite Z.add_0_r, Z.sub_0_r in E. exact E.
  - unfold sum_ok. project. rewrite lookup_insert_eq, Hxor. apply (deleted_checksum (store l0)); [apply HI0|done].
Qed.
End state.

(** Any head block. *)
Lemma rollback_visit_ok delta l g l1 (l2 : list u256) a h b m i :
  InvD delta (store l) g (l1 ++ h :: l2) → l1 ≠ [] → fuel_for (store l) fuel →
  (length l2 + 2 ≤ n)%nat → headed (store l) g a h b m i →
  wp (rollback_visit fuel n rec b) l (λ _ l', visited delta l g l1 l2 l').
Proof.
  intros HI Hl1 Hf Hn Hh. destruct b as [b|b|b|b|b]; simpl.
  - by eapply rollback_send_ok.
  - by eapply rollback_receive_ok.
  - by eapply rollback_open_ok.
  - by eapply rollback_change_ok.
  - destruct (links (BState b)) eqn:Hl.
    + by eapply rollback_state_linked.
    + by eapply rollback_state_first.
Qed.
End visitors.

Section rollback.
Context `{Blake2b, LedgerConstants}.
Context (fuel : nat).

Definition rollback_body (n : nat) (hash account_l : u256)
    : unit → M (ledger astore) (unit + unit) := λ _,
  e ← st (block_exists hash);
  if e : bool then
    info ← st (account_get account_l);
    match info with
    | None => abort
    | Some info =>
        b ← st (block_get (head info));
        match b with
        | Some b => rollback_visit fuel n (rollback fuel n) b;; mret (inl tt)
        | None => abort
        end
    end
  else mret (inr tt).

(** The loop of [rollback] takes the head blocks until the block is gone. *)
Lemma rollback_loop_ok n : rollback_spec fuel n (rollback fuel n) →
  ∀ k delta l g l1 h l2 m, InvD delta (store l) g (l1 ++ h :: l2) → l1 ≠ [] →
  fuel_for (store l) fuel → (length l2 + 2 ≤ n)%nat → (length l2 + 2 ≤ k)%nat → g !! h = Some m →
  wp (loop k (rollback_body n h (m_owner m)) tt) l
    (λ _ l', ∃ g' l2', shrunk delta (store l) g l1 l2 (store l') g' l2').
Proof.
  intros Hrec k. induction k as [|k IH]; [lia|]. intros delta l g l1 h l2 m HI Hl1 Hf Hn Hk Em.
  destruct (meta_block _ _ _ HI _ _ Em) as (b & sc & Eb).
  apply wp_loop. unfold rollback_body. read. rewrite Eb. rewrite bool_decide_true by eauto.
  destruct (inv_meta _ _ _ HI _ _ Em) as (_ & _ & [i Ei]). read. rewrite Ei.
  destruct (inv_account _ _ _ HI _ _ Ei) as (hb & hm & Ehb & Ehm & Hho & _).
  read. rewrite Ehb. tidy. apply wp_bind.
  pose proof (head_after _ _ _ HI _ _ _ _ _ _ eq_refl eq_refl Em Ei) as Hin.
  assert (Hh : ∀ q1 q2, l1 ++ h :: l2 = q1 ++ head i :: q2 → q1 ≠ [] →
    headed (store l) g (m_owner m) (head i) hb hm i).
  { intros q1 q2 Eq Hq. split_and!; try done. rewrite Eq in HI. by eapply not_genesis. }
  apply elem_of_cons in Hin as [Hin|Hin].
  - eapply wp_mono.
    { eapply (rollback_visit_ok _ _ _ Hrec); [exact HI|done|done|lia|].
      rewrite <-Hin. by apply (Hh l1 l2); [rewrite Hin|]. }
    intros [] l' (g' & k2' & Hsh). apply wp_ret.
    destruct k as [|k]; [lia|]. apply wp_loop. unfold rollback_body. read.
    rewrite bool_decide_false; [apply wp_ret; eauto|].
    destruct Hsh as (Hsub & Hg & _ & HI'). rewrite (inv_dom _ _ _ HI'), <-(inv_hist _ _ _ HI').
    pose proof (inv_nodup _ _ _ HI) as Hnd. rewrite <-Permutation_middle in Hnd.
    apply NoDup_cons in Hnd as [Hnot _]. intros Hx. apply Hnot.
    apply elem_of_app in Hx as [?|Hx]; [set_solver|].
    apply elem_of_app. right. by eapply elem_of_submseteq, sublist_submseteq.
  - apply list_elem_of_split in Hin as (q1 & q2 & ->).
    assert (Eq : l1 ++ h :: q1 ++ head i :: q2 = (l1 ++ h :: q1) ++ head i :: q2)
      by by rewrite <-app_assoc.
    rewrite length_app in Hn, Hk. simpl in Hn, Hk. eapply wp_mono.
    { eapply (rollback_visit_ok _ _ _ Hrec); [by rewrite <-Eq|by destruct l1|done|lia|].
      by apply (Hh (l1 ++ h :: q1) q2); [|destruct l1]. }
    intros [] l' (g' & k2' & Hsh). apply wp_ret.
    pose proof Hsh as (Hsub & Hg & Hkp & HI'). rewrite <-app_assoc in HI'. simpl in HI'.
    assert (Hf' : fuel_for (store l') fuel).
    { eapply shrunk_fuel; [rewrite Eq in HI; exact HI|right; eauto|exact Hsh|done]. }
    assert (Em' : g' !! h = Some m).
    { destruct (inv_hist _ _ _ HI' h) as [Hd _]. destruct Hd as [m' Em']; [set_solver|].
      pose proof (lookup_weaken _ _ _ _ Em' Hg) as E. rewrite Em in E. by injection E as <-. }
    apply sublist_length in Hsub as Hlen. eapply wp_mono.
    { eapply (IH delta l' g' l1 h (q1 ++ k2') m); try done; rewrite length_app; lia. }
    intros [] l'' (g'' & k3 & Hsub' & Hg' & Hkp' & HI''). exists g'', k3. split_and!; try done.
    + etrans; [exact Hsub'|]. apply sublist_app; [done|]. by apply sublist_cons.
    + by etrans.
    + by eapply blocks_kept_trans.
Qed.

Lemma rollback_ok n : rollback_spec fuel n (rollback fuel n).
Proof.
  induction n as [|n IH]; intros delta l g l1 h l2 HI Hl1 Hf Hn; [lia|].
  destruct (inv_hist _ _ _ HI h) as [Hd _]. destruct Hd as [m Em]; [set_solver|].
  destruct (meta_block _ _ _ HI _ _ Em) as (b & sc & Eb). simpl. read.
  apply wp_bind, wp_assert; [rewrite Eb; by rewrite bool_decide_true by eauto|].
  apply wp_bind. eapply wp_ledger_account; [exact HI|exact Em|unfold fuel_for in Hf; lia|].
  by eapply (rollback_loop_ok n IH n); try done; lia.
Qed.
End rollback.
