(* ===== verification/Reach.v ===== *)
(** * Ledgers the program can reach

    From the genesis ledger by processing blocks and rolling blocks back.
    Every reachable ledger satisfies the invariant. *)

From S2P Require Import Prelude Crypto Blocks Common Stats Store Ledger StoreLemmas LedgerInv Visitors Extend.
From S2P Require Import ProcessLemmas Commit Process Accounts Retract Rollback Cascade.

Section genesis.
Context `{Blake2b, LedgerConstants}.

(** The genesis block of the network opens the genesis account with itself
    as source and representative. *)
Definition genesis_block (open : open_block) : Prop :=
  oh_source (hashables open) = genesis_account ∧
  oh_representative (hashables open) = genesis_account ∧
  oh_account (hashables open) = genesis_account ∧ hash_ok (BOpen open).

Section run.
Context (open : open_block) (now : u64).
Hypothesis Hg : genesis_block open.
Local Abbreviation b := (BOpen open).
Local Abbreviation h := (block_hash b).

Definition genesis_info : account_info :=
  Account_info h h h (U 16 (2 ^ 128 - 1)) now (U 8 1).
Definition genesis_meta : meta := Meta genesis_account genesis_amount 1 h h.
Definition genesis_result : astore :=
  Astore {[ (bt_open, h) := (b, U 32 0) ]} {[ h := genesis_account ]}
    {[ genesis_account := genesis_info ]} ∅ ∅ {[ genesis_account := U 16 (2 ^ 128 - 1) ]}
    {[ U 8 0 := h ]}.

Lemma fresh_put_pre : put_pre fresh_store h b.
Proof. split_and!; done. Qed.

Lemma fresh_wf : tables_wf fresh_store.
Proof. split; simpl; intros *; rewrite ?lookup_empty; [done|by intros [? ?]]. Qed.

Lemma genesis_run : genesis_initialize open now fresh_store = Done (tt, genesis_result).
Proof.
  unfold genesis_initialize, mbind, M_bind. simpl. unfold gets, assert_. simpl.
  rewrite bool_decide_true; [|unfold cursor; by rewrite map_filter_empty, map_to_list_empty].
  rewrite (a_block_put_run _ _ _ fresh_wf fresh_put_pre). simpl.
  by rewrite checksum_key_0.
Qed.

Lemma genesis_lookup x : a_lookup genesis_result x =
  if decide (x = h) then Some (b, U 32 0) else None.
Proof.
  change (a_lookup genesis_result x) with (a_lookup (put_block h b fresh_store) x).
  rewrite (put_block_lookup _ _ _ _ fresh_wf fresh_put_pre). unfold put_lookup.
  case_decide; [done|]. rewrite decide_False by naive_solver. done.
Qed.

Lemma genesis_only x b0 sc : a_lookup genesis_result x = Some (b0, sc) →
  x = h ∧ b0 = b ∧ sc = U 32 0.
Proof. rewrite genesis_lookup. case_decide; naive_solver. Qed.

Lemma genesis_lookup_h : a_lookup genesis_result h = Some (b, U 32 0).
Proof. by rewrite genesis_lookup, decide_True. Qed.

Lemma genesis_rep r : weight_of (a_lookup genesis_result) (a_accounts genesis_result) r =
  if decide (genesis_account = r) then 2 ^ 128 - 1 else 0.
Proof.
  destruct Hg as (_ & Hr & _). unfold weight_of. cbn [a_accounts genesis_result].
  rewrite map_sum_singleton.
  unfold rep_account. cbn [rep_block genesis_info]. rewrite genesis_lookup_h. simpl. by rewrite Hr.
Qed.

Lemma genesis_inv : Inv genesis_result {[ h := genesis_meta ]} [h].
Proof.
  pose proof Hg as (Hsrc & Hrep & Hacc & Hh0 & Hh1 & Hhg).
  assert (Hu : u_eqb (oh_source (hashables open)) genesis_account = true) by by apply u_eqb_true.
  constructor.
  - apply (put_block_wf _ _ _ fresh_wf fresh_put_pre).
  - intros x. rewrite genesis_lookup. case_decide as E; [subst; rewrite lookup_singleton_eq; by eauto|].
    rewrite lookup_singleton_ne by done. done.
  - apply NoDup_singleton.
  - intros x. rewrite list_elem_of_singleton. destruct (decide (x = h)) as [->|Hx].
    + rewrite lookup_singleton_eq. naive_solver.
    + rewrite lookup_singleton_ne by done. split; [done|by intros [? ?]].
  - cbn [a_blocks genesis_result]. by rewrite map_size_singleton.
  - intros l1 x l2 b0 sc _ (-> & -> & ->)%genesis_only. split; [done|].
    intros src. simpl. by rewrite Hu.
  - intros x b0 sc m (-> & -> & ->)%genesis_only. rewrite lookup_singleton_eq. intros [= <-].
    split_and!; try done.
    + apply genesis_account_nonzero.
    + unfold balanced. simpl. by rewrite Hu.
  - intros x m Em. apply lookup_singleton_Some in Em as [<- <-]. simpl.
    rewrite !lookup_singleton_eq. eauto.
  - intros x b0 sc m (-> & -> & ->)%genesis_only. rewrite lookup_singleton_eq. intros [= <-].
    left. split; [done|]. exists genesis_info. simpl. by rewrite lookup_singleton_eq.
  - intros a i Ei. simpl in Ei. apply lookup_singleton_Some in Ei as [<- <-].
    exists b, genesis_meta. simpl. by rewrite genesis_lookup_h, lookup_singleton_eq.
  - intros x a. simpl. rewrite lookup_singleton_Some. split.
    + intros [<- <-]. exists genesis_info, b, (U 32 0).
      by rewrite lookup_singleton_eq, genesis_lookup_h.
    + intros (i & b0 & sc & Ei & Hi & (-> & _)%genesis_only & _).
      apply lookup_singleton_Some in Ei as [<- _]. done.
  - intros d x p. simpl. done.
  - intros x b0 sc src _ _ d. done.
  - intros x x' b0 b1 sc sc' src (-> & _)%genesis_only (-> & _)%genesis_only. done.
  - intros x b0 sc (-> & -> & ->)%genesis_only. done.
  - intros r. rewrite genesis_rep. simpl. destruct (decide (genesis_account = r)) as [->|Hr].
    + rewrite lookup_singleton_eq. vm_compute. done.
    + rewrite lookup_singleton_ne by done. simpl. rewrite uval_zero. done.
  - unfold held, in_flight. simpl. rewrite map_sum_singleton, map_sum_empty. vm_compute. done.
  - intros x i m. simpl. done.
  - intros x b0 sc m (-> & -> & ->)%genesis_only. rewrite lookup_singleton_eq.
    intros [= <-] _. done.
  - done.
  - exists h, b, (U 32 0), []. rewrite genesis_lookup_h.
    split_and!; [done..|]. by intros x b0 sc (-> & _)%genesis_only.
  - unfold sum_ok. simpl. rewrite lookup_singleton_eq. f_equal.
    rewrite <-insert_empty, xor_insert_new by done. simpl.
    unfold xor_heads. rewrite map_fold_empty, u_xor_comm, u_xor_0_l. done.
Qed.
End run.
End genesis.

(** ** Reachable ledgers *)

Section reach.
Context `{Blake2b, Ed25519, LedgerConstants}.

(** A block the ledger has, other than the genesis block. *)
Definition removable_block (s : astore) (h : u256) : Prop :=
  ∃ b sc, a_lookup s h = Some (b, sc) ∧ genesis_open b = false.

Inductive reach : ledger astore → Prop :=
| reach_genesis (l : ledger astore) open now :
    genesis_block open → genesis_initialize open now fresh_store = Done (tt, store l) → reach l
| reach_process (l : ledger astore) fuel b r l' :
    reach l → digest_ok (store l) b → (enough_fuel l ≤ fuel)%nat →
    process fuel b l = Done (r, l') → reach l'
| reach_rollback (l : ledger astore) fuel n h l' :
    reach l → removable_block (store l) h → (enough_fuel l ≤ fuel)%nat → (enough_fuel l ≤ n)%nat →
    rollback fuel n h l = Done (tt, l') → reach l'.

(** A rollback of any block but the genesis block. *)
Lemma rollback_run (l : ledger astore) g hist fuel n h :
  Inv (store l) g hist → removable_block (store l) h →
  (enough_fuel l ≤ fuel)%nat → (enough_fuel l ≤ n)%nat →
  ∃ l1 l2 (l' : ledger astore) g' l2', hist = l1 ++ h :: l2 ∧ rollback fuel n h l = Done (tt, l') ∧
    shrunk (λ _, 0) (store l) g l1 l2 (store l') g' l2'.
Proof.
  intros HI (b & sc & Eb & Hg) Hf Hn.
  destruct (hist_split _ _ _ HI h) as (l1 & l2 & El).
  { apply (inv_dom _ _ _ HI). by rewrite Eb. }
  assert (Hl1 : l1 ≠ []).
  { intros ->. destruct (inv_genesis _ _ _ HI) as (h0 & b0 & sc0 & rest & E0 & Eb0 & Hg0 & _).
    rewrite El in E0. injection E0 as <- _. rewrite Eb in Eb0. congruence. }
  pose proof (inv_size _ _ _ HI) as Hs. rewrite El, length_app in Hs. simpl in Hs.
  rewrite El in HI. unfold enough_fuel in *.
  assert (Hw : wp (rollback fuel n h) l
    (λ _ l', ∃ g' l2', shrunk (λ _, 0) (store l) g l1 l2 (store l') g' l2')).
  { eapply rollback_ok; [exact HI|done|done|lia]. }
  apply wp_run in Hw as ([] & l' & Hr & g' & l2' & Hsh). by exists l1, l2, l', g', l2'.
Qed.

Lemma reach_valid l : reach l → valid l.
Proof.
  induction 1 as [l open now Hg Hi|l fuel b r l' _ [g [hist HI]] Hd Hf Hp
    |l fuel n h l' _ [g [hist HI]] Hb Hf Hn Hr].
  - rewrite (genesis_run open now) in Hi. injection Hi as Hs. unfold valid. rewrite <-Hs.
    eexists _, _. by apply genesis_inv.
  - pose proof (process_ok fuel b l g hist HI Hd Hf) as Hw. unfold wp in Hw. rewrite Hp in Hw.
    unfold processed in Hw. unfold valid. case_decide.
    + destruct Hw as (m & w & HI' & _). eauto.
    + rewrite Hw. eauto.
  - destruct (rollback_run _ _ _ _ _ _ HI Hb Hf Hn) as (l1 & l2 & l0 & g' & l2' & _ & Hr' & Hsh).
    rewrite Hr in Hr'. injection Hr' as <-. destruct Hsh as (_ & _ & _ & HI'). unfold valid. eauto.
Qed.
End reach.

(** ** Equal ledgers up to time stamps

    Two stores are equivalent when they have the same blocks, chains,
    balances, pending entries, weights and checksum.  They may differ in the
    time of the last modification of an account, in cached block data and in
    explicit zero weights.  The invariant determines a store up to this
    equivalence. *)

(** Account data without the time stamp. *)
Definition untimed (i : account_info) : account_info :=
  Account_info (head i) (rep_block i) (open_block_hash i) (balance i) (U 8 0) (block_count i).

Record store_equiv (s s' : astore) : Prop := {
  se_blocks : ∀ x, a_lookup s x = a_lookup s' x;
  se_accounts : untimed <$> a_accounts s = untimed <$> a_accounts s';
  se_frontiers : a_frontiers s = a_frontiers s';
  se_pending : a_pending s = a_pending s';
  se_weights : ∀ r, default (U 16 0) (a_rep s !! r) = default (U 16 0) (a_rep s' !! r);
  se_checksum : a_checksum s !! U 8 0 = a_checksum s' !! U 8 0;
}.

#[export] Instance store_equiv_rel : Equiv astore := store_equiv.

#[export] Instance store_equiv_equivalence : Equivalence (≡@{astore}).
Proof.
  split.
  - intros s. by constructor.
  - intros s s' [H1 H2 H3 H4 H5 H6]. constructor; intros; symmetry; auto.
  - intros s1 s2 s3 [] []. constructor; intros; etrans; eauto.
Qed.

(** What an account sum cannot see of the time stamps. *)
Lemma map_sum_untimed (f : u256 → account_info → Z) m :
  (∀ a i, f a (untimed i) = f a i) → map_sum f (untimed <$> m) = map_sum f m.
Proof.
  intros Hf. induction m as [|a i m Hm IH] using map_ind.
  - by rewrite fmap_empty.
  - rewrite fmap_insert, !map_sum_insert_new; [by rewrite IH, Hf|done|].
    by rewrite lookup_fmap, Hm.
Qed.

(** Sums over equivalent stores agree. *)
#[export] Instance held_proper : Proper ((≡) ==> (=)) held.
Proof.
  intros s s' Hs. unfold held.
  rewrite <-(map_sum_untimed _ (a_accounts s)), <-(map_sum_untimed _ (a_accounts s')) by done.
  by rewrite (se_accounts _ _ Hs).
Qed.
#[export] Instance in_flight_proper : Proper ((≡) ==> (=)) in_flight.
Proof. intros s s' Hs. unfold in_flight. by rewrite (se_pending _ _ Hs). Qed.

Section unique.
Context `{Blake2b, LedgerConstants}.
Context (s s' : astore) (g : gmap u256 meta) (hist : list u256).
Hypothesis HI : Inv s g hist.
Hypothesis HI' : Inv s' g hist.
Hypothesis Hk : blocks_kept s s'.

Lemma same_block x b sc : a_lookup s x = Some (b, sc) → ∃ sc', a_lookup s' x = Some (b, sc').
Proof.
  intros E. destruct (inv_dom _ _ _ HI x) as [Hg _]. destruct Hg as [m Em]; [by rewrite E|].
  destruct (meta_block _ _ _ HI' _ _ Em) as (b' & sc' & E').
  destruct (Hk _ _ _ E') as [sc0 E0]. rewrite E in E0. injection E0 as <- <-. eauto.
Qed.
End unique.

Section successors.
Context `{Blake2b, LedgerConstants}.

(** The successor of a block is determined by the blocks. *)
Lemma same_successor s s' g hist x b sc sc' :
  Inv s g hist → Inv s' g hist → blocks_kept s s' →
  a_lookup s x = Some (b, sc) → a_lookup s' x = Some (b, sc') → sc ≠ U 32 0 → sc' = sc.
Proof.
  intros HI HI' Hk E E' Hsc. destruct (inv_dom _ _ _ HI x) as [Hg _].
  destruct Hg as [m Em]; [by rewrite E|].
  destruct (inv_succ _ _ _ HI _ _ _ _ E Em) as [[? _]|(b1 & sc1 & E1 & Hl & Hp)]; [done|].
  destruct (same_block s s' g hist HI HI' Hk _ _ _ E1) as [sc2 E2].
  destruct (inv_dom _ _ _ HI' sc) as [Hg _]. destruct Hg as [m1 Em1]; [by rewrite E2|].
  destruct (inv_block _ _ _ HI' _ _ _ _ E2 Em1) as (_ & _ & _ & _ & Hf & _).
  unfold follows in Hf. rewrite Hl, Hp in Hf. destruct Hf as (pb & pm & Epb & _).
  rewrite E' in Epb. by injection Epb as _ ->.
Qed.

Lemma kept_sym s s' g hist : Inv s g hist → Inv s' g hist → blocks_kept s s' → blocks_kept s' s.
Proof. intros HI HI' Hk x b sc E. exact (same_block s s' g hist HI HI' Hk _ _ _ E). Qed.

Lemma same_lookup s s' g hist : Inv s g hist → Inv s' g hist → blocks_kept s s' →
  ∀ x b sc, a_lookup s x = Some (b, sc) → a_lookup s' x = Some (b, sc).
Proof.
  intros HI HI' Hk x b sc E. destruct (same_block s s' g hist HI HI' Hk _ _ _ E) as [sc' E'].
  pose proof (kept_sym _ _ _ _ HI HI' Hk) as Hk'.
  destruct (decide (sc = U 32 0)) as [->|Hn].
  - destruct (decide (sc' = U 32 0)) as [->|Hn']; [done|].
    exfalso. apply Hn'. symmetry. exact (same_successor s' s g hist x b _ _ HI' HI Hk' E' E Hn').
  - by rewrite (same_successor _ _ _ _ _ _ _ _ HI HI' Hk E E' Hn) in E'.
Qed.

Lemma same_account s s' g hist : Inv s g hist → Inv s' g hist → blocks_kept s s' →
  ∀ a i, a_accounts s !! a = Some i → ∃ i', a_accounts s' !! a = Some i' ∧ untimed i' = untimed i.
Proof.
  intros HI HI' Hk a i Ei.
  destruct (inv_account _ _ _ HI _ _ Ei) as (b & m & Eb & Em & Ho & Hb & Hr & Hop & Hc).
  pose proof (same_lookup _ _ _ _ HI HI' Hk _ _ _ Eb) as Eb'.
  destruct (inv_succ _ _ _ HI' _ _ _ _ Eb' Em) as [(_ & i' & Ei' & Hh)|(b1 & sc1 & E1 & _)].
  - rewrite Ho in Ei'. exists i'. split; [done|].
    destruct (inv_account _ _ _ HI' _ _ Ei') as (b' & m' & _ & Em' & _ & Hb' & Hr' & Hop' & Hc').
    rewrite Hh, Em in Em'. injection Em' as <-. unfold untimed. congruence.
  - destruct (inv_dom _ _ _ HI' (U 32 0)) as [Hg _]. destruct Hg as [m1 Em1]; [by rewrite E1|].
    by destruct (inv_block _ _ _ HI' _ _ _ _ E1 Em1) as (? & _).
Qed.

Lemma same_pending s s' g hist : Inv s g hist → Inv s' g hist → blocks_kept s s' →
  ∀ k p, a_pending s !! k = Some p → a_pending s' !! k = Some p.
Proof.
  intros HI HI' Hk [d h] p Ep.
  destruct (inv_pending _ _ _ HI _ _ _ Ep) as (b & sc & m & Eb & Em & Hs & Hd & Hso & Ham).
  pose proof (same_lookup _ _ _ _ HI HI' Hk _ _ _ Eb) as Eb'.
  destruct (inv_complete _ _ _ HI' _ _ _ Eb' Hs) as [[p' Ep']|(h1 & b1 & sc1 & E1 & Er)].
  - rewrite Hd in Ep'. rewrite Ep'. f_equal.
    destruct (inv_pending _ _ _ HI' _ _ _ Ep') as (b2 & ? & m2 & E2 & Em2 & _ & _ & Hso' & Ham').
    rewrite Eb' in E2. rewrite Em in Em2. injection E2 as <- <-. injection Em2 as <-.
    destruct p, p'; simpl in *. f_equal; [congruence|]. apply uval_inj. congruence.
  - destruct (Hk _ _ _ E1) as [sc2 E2]. by rewrite (inv_received _ _ _ HI _ _ _ _ E2 Er) in Ep.
Qed.

Lemma same_frontier s s' g hist : Inv s g hist → Inv s' g hist → blocks_kept s s' →
  ∀ x a, a_frontiers s !! x = Some a → a_frontiers s' !! x = Some a.
Proof.
  intros HI HI' Hk x a (i & b & sc & Ei & Hh & Eb & Hl)%(inv_frontier _ _ _ HI).
  apply (inv_frontier _ _ _ HI'). destruct (same_account _ _ _ _ HI HI' Hk _ _ Ei) as (i' & Ei' & Hu).
  exists i', b, sc. split_and!; try done; [|exact (same_lookup _ _ _ _ HI HI' Hk _ _ _ Eb)].
  apply (f_equal head) in Hu. simpl in Hu. congruence.
Qed.

Lemma map_eq_sub {K A} `{Countable K} (m m' : gmap K A) :
  (∀ k v, m !! k = Some v → m' !! k = Some v) → (∀ k v, m' !! k = Some v → m !! k = Some v) → m = m'.
Proof. intros Hsub Hsub2. apply map_eq. intros k. apply option_eq. naive_solver. Qed.

Lemma inv_exact_weight s g hist r : Inv s g hist →
  uval (default (U 16 0) (a_rep s !! r)) = weight_of (a_lookup s) (a_accounts s) r.
Proof.
  intros HI. rewrite (inv_weight _ _ _ HI), Z.add_0_r. apply Z.mod_small.
  pose proof (weight_bounds (a_lookup s) (a_accounts s) r) as Hw.
  pose proof (inv_supply _ _ _ HI) as Hs. pose proof (in_flight_nonneg s).
  fold (held s) in Hw. lia.
Qed.

Lemma inv_unique s s' g hist : Inv s g hist → Inv s' g hist → blocks_kept s s' → s ≡ s'.
Proof.
  intros HI HI' Hk. pose proof (kept_sym _ _ _ _ HI HI' Hk) as Hk'.
  assert (Hl : ∀ x, a_lookup s x = a_lookup s' x).
  { intros x. apply option_eq. intros [b sc]. split; [apply (same_lookup _ _ g hist)|apply (same_lookup _ _ g hist)]; done. }
  assert (Ha : untimed <$> a_accounts s = untimed <$> a_accounts s').
  { apply map_eq_sub; intros a j; rewrite !lookup_fmap; intros (i & Ei & ->)%fmap_Some.
    - destruct (same_account _ _ _ _ HI HI' Hk _ _ Ei) as (i' & -> & Hu). simpl. by rewrite Hu.
    - destruct (same_account _ _ _ _ HI' HI Hk' _ _ Ei) as (i' & -> & Hu). simpl. by rewrite Hu. }
  constructor; try done.
  - apply map_eq_sub; [apply (same_frontier _ _ g hist)|apply (same_frontier _ _ g hist)]; done.
  - apply map_eq_sub; [apply (same_pending _ _ g hist)|apply (same_pending _ _ g hist)]; done.
  - intros r. apply uval_inj. rewrite !(inv_exact_weight _ g hist) by done. unfold weight_of.
    rewrite <-(map_sum_untimed _ (a_accounts s)), <-(map_sum_untimed _ (a_accounts s')) by done.
    rewrite Ha. apply map_sum_ext. intros a i _. unfold rep_account. by rewrite Hl.
  - rewrite (inv_checksum _ _ _ HI), (inv_checksum _ _ _ HI'). f_equal. unfold xor_heads.
    assert (Hx : ∀ m, map_fold (λ _ i acc, u_xor (head i) acc) (U 32 0) m =
      map_fold (λ _ i acc, u_xor (head i) acc) (U 32 0) (untimed <$> m : gmap u256 account_info)).
    { intros m. by rewrite map_fold_fmap. }
    by rewrite (Hx (a_accounts s)), (Hx (a_accounts s')), Ha.
Qed.
End successors.
