(* ===== verification/Accept.v ===== *)
(** * Which blocks the ledger accepts

    The handlers accept exactly the blocks that satisfy [accepts]. *)

From S2P Require Import Prelude Crypto Blocks Common Stats Store Ledger StoreLemmas LedgerInv Visitors Extend.
From S2P Require Import ProcessLemmas Commit Process.

(** ** Partial correctness: a postcondition for runs without a fault *)
Section wlp.
Context {S : Type}.

Definition wlp {A} (m : M S A) (s : S) (Q : A → S → Prop) : Prop :=
  match m s with Done (a, s') => Q a s' | Fault _ => True end.

Lemma wlp_bind {A B} (m : M S A) (f : A → M S B) s Q :
  wlp m s (λ a s', wlp (f a) s' Q) → wlp (m ≫= f) s Q.
Proof. unfold wlp, mbind, M_bind. by destruct (m s) as [[a s']|e]. Qed.

(** Any effect, whatever it does. *)
Lemma wlp_any {A B} (m : M S A) (f : A → M S B) s Q :
  (∀ a s', wlp (f a) s' Q) → wlp (m ≫= f) s Q.
Proof. intros Hf. apply wlp_bind. unfold wlp at 1. by destruct (m s) as [[a s']|e]. Qed.

Lemma wlp_ret {A} (a : A) s (Q : A → S → Prop) : Q a s → wlp (mret a) s Q.
Proof. done. Qed.

Lemma wlp_abort {A} s (Q : A → S → Prop) : wlp abort s Q.
Proof. done. Qed.

Lemma wlp_wp {A} (m : M S A) s (P Q : A → S → Prop) :
  wp m s P → wlp m s Q → wp m s (λ a s', P a s' ∧ Q a s').
Proof. unfold wp, wlp. by destruct (m s) as [[a s']|e]. Qed.
End wlp.

Lemma wlp_read {A B} (f : astore → A) (k : A → M (ledger astore) B) l Q :
  wlp (k (f (store l))) l Q → wlp (st (gets f) ≫= k) l Q.
Proof. unfold wlp, mbind, M_bind, st, gets. by rewrite set_store_store. Qed.

Lemma wlp_stats {B} t d (k : unit → M (ledger astore) B) (l : ledger astore) Q :
  (∀ l', store l' = store l → wlp (k tt) l' Q) → wlp (stats_inc t d ≫= k) l Q.
Proof. intros Hk. by apply wlp_bind, Hk. Qed.

Ltac lread := apply wlp_read; tidy.
(** The effects of a handler up to its result. *)
Ltac effects := repeat (apply wlp_any; intros ? ?); apply wlp_ret; reflexivity.

Section accept.
Context `{Blake2b, Ed25519, LedgerConstants}.
Implicit Types (l : ledger astore) (g : gmap u256 meta) (hist : list u256).
Local Abbreviation ok := (λ (r : process_return) (_ : ledger astore), code r = progress).

(** A legacy block that follows a head finds its account as a frontier. *)
Lemma accepts_head l g hist b a bal : Inv (store l) g hist → accepts (store l) b a bal →
  links b = true → ∃ i pb pm, at_head (store l) g a (block_previous b) i pb pm ∧
    valid_predecessor b pb = true ∧ balance_before (store l) a = uval (balance i).
Proof.
  intros HI Hac Hl. pose proof (ac_position _ _ _ _ Hac) as Hp. unfold balance_before.
  destruct (a_accounts (store l) !! a) as [i|] eqn:Ei; [|by rewrite Hl in Hp; destruct Hp].
  destruct Hp as (_ & Hp & Hv). destruct (account_head _ _ _ HI _ _ Ei) as (pb & pm & Hd).
  exists i, pb, pm. rewrite Hp. split_and!; [done| |done]. eapply Hv. apply Hd.
Qed.

Lemma legacy_frontier l g hist a p i pb pm : Inv (store l) g hist →
  at_head (store l) g a p i pb pm → legacy pb = true → a_frontiers (store l) !! p = Some a.
Proof.
  intros HI Hd Hl. apply (inv_frontier _ _ _ HI). exists i, pb, (U 32 0).
  split_and!; [apply Hd..|done].
Qed.

Lemma accept_send b l g hist a bal : Inv (store l) g hist →
  accepts (store l) (BSend b) a bal → wlp (process_send_block b) l ok.
Proof.
  intros HI Hac. destruct (accepts_head _ _ _ _ _ _ HI Hac eq_refl) as (i & pb & pm & Hd & Hv & Hbb).
  pose proof (legacy_frontier _ _ _ _ _ _ _ _ HI Hd) as Hfr.
  pose proof (ac_funds _ _ _ _ Hac) as Hf. simpl in Hf. rewrite Hbb in Hf.
  pose proof (ac_states _ _ _ _ Hac) as Hst. simpl in Hst.
  unfold process_send_block. lread. rewrite (ac_fresh _ _ _ _ Hac), bool_decide_false by by intros [? ?].
  lread. change (sh_previous (hashables b)) with (block_previous (BSend b)).
  rewrite (hd_block _ _ _ _ _ _ _ Hd). tidy. rewrite Hv. tidy. lread.
  rewrite Hfr by (by destruct pb). tidy.
  rewrite (proj2 (is_zero_false _)) by apply Hd. pose proof (ac_signed _ _ _ _ Hac) as Hsig.
  simpl in Hsig. rewrite Hsig. lread. rewrite (hd_account _ _ _ _ _ _ _ Hd).
  apply wlp_any. intros _ l0.
  destruct (u_leb_spec (sh_balance (hashables b)) (balance i)) as [_|Hn];
    [|rewrite Hst in Hf; lia].
  tidy. effects.
Qed.

Lemma accept_receive b l g hist a bal : Inv (store l) g hist →
  accepts (store l) (BReceive b) a bal → wlp (process_receive_block b) l ok.
Proof.
  intros HI Hac. destruct (accepts_head _ _ _ _ _ _ HI Hac eq_refl) as (i & pb & pm & Hd & Hv & Hbb).
  pose proof (legacy_frontier _ _ _ _ _ _ _ _ HI Hd) as Hfr.
  pose proof (ac_funds _ _ _ _ Hac) as (q & Eq & _).
  destruct (pending_source _ _ _ _ _ HI Eq) as [_ Hsrc]. simpl in Hsrc.
  unfold process_receive_block. lread.
  rewrite (ac_fresh _ _ _ _ Hac), bool_decide_false by by intros [? ?].
  lread. change (rh_previous (hashables b)) with (block_previous (BReceive b)).
  rewrite (hd_block _ _ _ _ _ _ _ Hd). tidy. rewrite Hv. tidy. lread.
  rewrite bool_decide_true by done. tidy. lread. rewrite Hfr by (by destruct pb). tidy.
  rewrite (proj2 (is_zero_false _)) by apply Hd. pose proof (ac_signed _ _ _ _ Hac) as Hsig.
  simpl in Hsig. rewrite Hsig. lread. rewrite (hd_account _ _ _ _ _ _ _ Hd). tidy.
  rewrite (hd_head _ _ _ _ _ _ _ Hd), u_eqb_refl. tidy. lread. rewrite Eq. effects.
Qed.

Lemma accept_change fuel b l g hist a bal : Inv (store l) g hist →
  accepts (store l) (BChange b) a bal → wlp (process_change_block fuel b) l ok.
Proof.
  intros HI Hac. destruct (accepts_head _ _ _ _ _ _ HI Hac eq_refl) as (i & pb & pm & Hd & Hv & Hbb).
  pose proof (legacy_frontier _ _ _ _ _ _ _ _ HI Hd) as Hfr.
  unfold process_change_block. lread.
  rewrite (ac_fresh _ _ _ _ Hac), bool_decide_false by by intros [? ?].
  lread. change (ch_previous (hashables b)) with (block_previous (BChange b)).
  rewrite (hd_block _ _ _ _ _ _ _ Hd). tidy. rewrite Hv. tidy. lread.
  rewrite Hfr by (by destruct pb). tidy. rewrite (proj2 (is_zero_false _)) by apply Hd.
  lread. rewrite (hd_account _ _ _ _ _ _ _ Hd). apply wlp_any. intros _ l0.
  pose proof (ac_signed _ _ _ _ Hac) as Hsig. simpl in Hsig. rewrite Hsig. effects.
Qed.

Lemma accept_open b l g hist a bal : Inv (store l) g hist →
  accepts (store l) (BOpen b) a bal → wlp (process_open_block b) l ok.
Proof.
  intros HI Hac. pose proof (ac_states _ _ _ _ Hac) as Ha. simpl in Ha.
  pose proof (ac_position _ _ _ _ Hac) as Hp. pose proof (ac_funds _ _ _ _ Hac) as Hf. simpl in Hf.
  destruct (a_accounts (store l) !! a) as [i|] eqn:Ei; [by destruct Hp|].
  destruct (u_eqb (oh_source _) _) eqn:Hg; [by destruct Hf|]. destruct Hf as (q & Eq & _).
  destruct (pending_source _ _ _ _ _ HI Eq) as [_ Hsrc]. simpl in Hsrc.
  unfold process_open_block. lread.
  rewrite (ac_fresh _ _ _ _ Hac), bool_decide_false by by intros [? ?].
  lread. rewrite bool_decide_true by done. tidy.
  pose proof (ac_signed _ _ _ _ Hac) as Hsig. simpl in Hsig. rewrite <-Ha, Hsig.
  lread. rewrite Ei. lread. rewrite Eq.
  rewrite (proj2 (u_eqb_false _ _)) by apply Hac. effects.
Qed.

Lemma accept_state b l g hist a bal : Inv (store l) g hist →
  accepts (store l) (BState b) a bal → wlp (state_block_impl b) l ok.
Proof.
  intros HI Hac. destruct (ac_states _ _ _ _ Hac) as [Ha Hbal].
  pose proof (ac_signed _ _ _ _ Hac) as Hsig. pose proof (ac_owner _ _ _ _ Hac) as Hz.
  pose proof (ac_position _ _ _ _ Hac) as Hp. pose proof (ac_funds _ _ _ _ Hac) as Hf.
  unfold balance_before, receives_from in Hf. simpl in Hsig, Hp, Hf.
  rewrite <-Hbal in Hf. pose proof (uval_range bal) as Hr.
  unfold state_block_impl. lread.
  rewrite (ac_fresh _ _ _ _ Hac), bool_decide_false by by intros [? ?].
  rewrite <-Ha, Hsig, (proj2 (is_zero_false _) Hz). lread.
  unfold state_account_checks. destruct (a_accounts (store l) !! a) as [i|] eqn:Ei.
  - destruct Hp as (Hl & Hh & _). rewrite (proj1 (negb_true_iff _) Hl).
    destruct (account_head _ _ _ HI _ _ Ei) as (pb & pm & Hd).
    apply wlp_bind. lread. rewrite Hh, (hd_block _ _ _ _ _ _ _ Hd), bool_decide_true by eauto.
    rewrite u_eqb_refl. apply wlp_ret. cbv beta iota. rewrite decide_True by done.
    apply wlp_bind. unfold state_link_checks. rewrite <-Hbal.
    destruct (u_ltb_spec bal (balance i)) as [Hlt|Hge]; tidy.
    + apply wlp_ret. rewrite decide_True by done. effects.
    + rewrite (proj2 (Z.ltb_ge _ _)) in Hf by lia.
      destruct (is_zero (th_link (hashables b))) eqn:Ez; tidy.
      * apply wlp_ret. destruct Hf as [Hf _].
        rewrite (proj2 (is_zero_true _)); [rewrite decide_True by done; effects|].
        apply uval_inj. rewrite uval_sub_small, uval_zero; lia.
      * destruct Hf as (q & Eq & Hsum).
        destruct (pending_source _ _ _ _ _ HI Eq) as [_ Hsrc]. simpl in Hsrc.
        lread. rewrite bool_decide_true by done. rewrite <-Ha. lread. rewrite Eq. apply wlp_ret.
        rewrite (proj2 (u_eqb_true _ _)); [rewrite decide_True by done; effects|].
        apply uval_inj. rewrite uval_sub_small; lia.
  - destruct Hp as (Hl & Hh). rewrite Hh, is_zero_0. apply wlp_bind, wlp_stats. intros l0 El0.
    rewrite (proj2 (Z.ltb_ge _ _)) in Hf by lia.
    destruct (is_zero (th_link (hashables b))) eqn:Ez.
    { rewrite Hl in Hf. by destruct Hf. }
    destruct Hf as (q & Eq & Hsum).
    destruct (pending_source _ _ _ _ _ HI Eq) as [_ Hsrc]. simpl in Hsrc.
    tidy. apply wlp_ret. cbv beta iota. rewrite decide_True by done. apply wlp_bind.
    unfold state_link_checks. tidy. rewrite Ez. tidy. lread. rewrite El0, bool_decide_true by done.
    rewrite <-Ha, <-Hbal. lread. rewrite El0, Eq. apply wlp_ret.
    rewrite (proj2 (u_eqb_true _ _)); [rewrite decide_True by done; effects|].
    apply uval_inj. lia.
Qed.

Lemma accept_progress fuel b l g hist a bal : Inv (store l) g hist →
  accepts (store l) b a bal → wlp (process fuel b) l ok.
Proof.
  intros HI Hac. destruct b; simpl.
  - by eapply accept_send.
  - by eapply accept_receive.
  - by eapply accept_open.
  - by eapply accept_change.
  - by eapply accept_state.
Qed.
End accept.

(** ** Why the ledger rejects a block

    The answer of [process] as a decision table over the tables of the
    store, without the effects of the handlers. *)

Section classify.
Context `{Blake2b, Ed25519, LedgerConstants}.
Implicit Types (s : astore) (l : ledger astore) (g : gmap u256 meta) (hist : list u256).

(** The account whose head a legacy block continues; its signature is
    checked with it. *)
Definition at_frontier s (b : block) (previous : u256) (signed : u512)
    (next : u256 → account_info → process_result) : process_result :=
  match a_frontiers s !! previous with
  | None => fork
  | Some a =>
      if validate_message a (block_hash b) signed then bad_signature
      else next a (default account_info_default (a_accounts s !! a))
  end.

(** A legacy block after another block. *)
Definition after_previous s (b : block) (next : process_result) : process_result :=
  match a_lookup s (block_previous b) with
  | None => gap_previous
  | Some (p, _) => if valid_predecessor b p then next else block_position
  end.

(** The link of a state block that does not send. *)
Definition receive_link s (h : state_hashables) (amount_a : u128) : process_result :=
  if is_zero (th_link h) then if is_zero amount_a then progress else balance_mismatch
  else match a_lookup s (th_link h) with
       | None => gap_source
       | Some _ =>
           match a_pending s !! (th_account h, th_link h) with
           | None => unreceivable
           | Some p => if u_eqb amount_a (amount p) then progress else balance_mismatch
           end
       end.

Definition classify_state s (b : block) (h : state_hashables) (signed : u512) : process_result :=
  if validate_message (th_account h) (block_hash b) signed then bad_signature
  else if is_zero (th_account h) then opened_burn_account
  else match a_accounts s !! th_account h with
       | Some i =>
           if is_zero (th_previous h) then fork
           else match a_lookup s (th_previous h) with
                | None => gap_previous
                | Some _ =>
                    if negb (u_eqb (th_previous h) (head i)) then fork
                    else if u_ltb (th_balance h) (balance i) then progress
                    else receive_link s h (u_sub (th_balance h) (balance i))
                end
       | None =>
           if negb (is_zero (th_previous h)) then gap_previous
           else if is_zero (th_link h) then gap_source
           else receive_link s h (th_balance h)
       end.

Definition classify s (b : block) : process_result :=
  match a_lookup s (block_hash b) with
  | Some _ => old
  | None =>
      match b with
      | BSend t =>
          after_previous s b (at_frontier s b (sh_previous (hashables t)) (signature t) (λ _ i,
            if u_leb (sh_balance (hashables t)) (balance i) then progress else negative_spend))
      | BChange t =>
          after_previous s b (at_frontier s b (ch_previous (hashables t)) (signature t) (λ _ _, progress))
      | BReceive t =>
          after_previous s b match a_lookup s (rh_source (hashables t)) with
            | None => gap_source
            | Some _ => at_frontier s b (rh_previous (hashables t)) (signature t) (λ a _,
                match a_pending s !! (a, rh_source (hashables t)) with
                | None => unreceivable
                | Some _ => progress
                end)
            end
      | BOpen t =>
          let h := hashables t in
          match a_lookup s (oh_source h) with
          | None => gap_source
          | Some _ =>
              if validate_message (oh_account h) (block_hash b) (signature t) then bad_signature
              else match a_accounts s !! oh_account h, a_pending s !! (oh_account h, oh_source h) with
                   | Some _, _ => fork
                   | None, None => unreceivable
                   | None, Some _ => if u_eqb (oh_account h) burn_account then opened_burn_account else progress
                   end
          end
      | BState t => classify_state s b (hashables t) (signature t)
      end
  end.

Local Abbreviation answers s b := (λ (r : process_return) (_ : ledger astore), code r = classify s b).

Lemma frontier_some s g hist p a : Inv s g hist → a_frontiers s !! p = Some a →
  ∃ i pb pm, at_head s g a p i pb pm ∧ is_zero a = false.
Proof.
  intros HI E. destruct (proj1 (inv_frontier _ _ _ HI p a) E) as (i & b & sc & Ei & <- & _).
  destruct (account_head _ _ _ HI _ _ Ei) as (pb & pm & Hd). exists i, pb, pm.
  split; [done|]. apply is_zero_false, Hd.
Qed.

Lemma classify_send b l g hist : Inv (store l) g hist →
  wlp (process_send_block b) l (answers (store l) (BSend b)).
Proof.
  intros HI. unfold process_send_block, classify, after_previous, at_frontier. lread.
  destruct (a_lookup (store l) (block_hash (BSend b))) eqn:Eh;
    [by rewrite bool_decide_true by eauto|rewrite bool_decide_false by by intros [? ?]].
  lread. cbn [block_previous].
  destruct (a_lookup (store l) (sh_previous (hashables b))) as [[pb sc]|] eqn:Ep; tidy; [|done].
  destruct (valid_predecessor (BSend b) pb); tidy; [|done]. lread.
  destruct (a_frontiers (store l) !! sh_previous (hashables b)) as [a|] eqn:Ef; tidy;
    [|by rewrite is_zero_0].
  destruct (frontier_some _ _ _ _ _ HI Ef) as (i & pb' & pm & Hd & ->).
  destruct (validate_message _ _ _); [done|]. lread. rewrite (hd_account _ _ _ _ _ _ _ Hd). tidy.
  apply wlp_any. intros _ l0. destruct (u_leb _ _); tidy; [effects|done].
Qed.

Lemma classify_change fuel b l g hist : Inv (store l) g hist →
  wlp (process_change_block fuel b) l (answers (store l) (BChange b)).
Proof.
  intros HI. unfold process_change_block, classify, after_previous, at_frontier. lread.
  destruct (a_lookup (store l) (block_hash (BChange b))) eqn:Eh;
    [by rewrite bool_decide_true by eauto|rewrite bool_decide_false by by intros [? ?]].
  lread. cbn [block_previous].
  destruct (a_lookup (store l) (ch_previous (hashables b))) as [[pb sc]|] eqn:Ep; tidy; [|done].
  destruct (valid_predecessor (BChange b) pb); tidy; [|done]. lread.
  destruct (a_frontiers (store l) !! ch_previous (hashables b)) as [a|] eqn:Ef; tidy;
    [|by rewrite is_zero_0].
  destruct (frontier_some _ _ _ _ _ HI Ef) as (i & pb' & pm & Hd & ->).
  lread. rewrite (hd_account _ _ _ _ _ _ _ Hd). apply wlp_any. intros _ l0.
  destruct (validate_message _ _ _); [done|]. effects.
Qed.

Lemma classify_receive b l g hist : Inv (store l) g hist →
  wlp (process_receive_block b) l (answers (store l) (BReceive b)).
Proof.
  intros HI. unfold process_receive_block, classify, after_previous, at_frontier. lread.
  destruct (a_lookup (store l) (block_hash (BReceive b))) eqn:Eh;
    [by rewrite bool_decide_true by eauto|rewrite bool_decide_false by by intros [? ?]].
  lread. cbn [block_previous].
  destruct (a_lookup (store l) (rh_previous (hashables b))) as [[pb sc]|] eqn:Ep; tidy; [|done].
  destruct (valid_predecessor (BReceive b) pb); tidy; [|done]. lread.
  destruct (a_lookup (store l) (rh_source (hashables b))) eqn:Es;
    [rewrite bool_decide_true by eauto|rewrite bool_decide_false by by intros [? ?]]; tidy; [|done]. lread.
  destruct (a_frontiers (store l) !! rh_previous (hashables b)) as [a|] eqn:Ef; tidy.
  2: { rewrite is_zero_0. lread. by rewrite Ep, bool_decide_true by eauto. }
  destruct (frontier_some _ _ _ _ _ HI Ef) as (i & pb' & pm & Hd & ->).
  destruct (validate_message _ _ _); [done|]. lread. rewrite (hd_account _ _ _ _ _ _ _ Hd). tidy.
  rewrite (hd_head _ _ _ _ _ _ _ Hd), u_eqb_refl. tidy. lread.
  destruct (a_pending (store l) !! (a, rh_source (hashables b))); [effects|done].
Qed.

Lemma classify_open b l g hist : Inv (store l) g hist →
  wlp (process_open_block b) l (answers (store l) (BOpen b)).
Proof.
  intros HI. unfold process_open_block, classify. lread.
  destruct (a_lookup (store l) (block_hash (BOpen b))) eqn:Eh;
    [by rewrite bool_decide_true by eauto|rewrite bool_decide_false by by intros [? ?]].
  lread. destruct (a_lookup (store l) (oh_source (hashables b))) eqn:Es;
    [rewrite bool_decide_true by eauto|rewrite bool_decide_false by by intros [? ?]]; tidy; [|done].
  destruct (validate_message _ _ _); [done|]. lread.
  destruct (a_accounts (store l) !! oh_account (hashables b)); [done|]. lread.
  destruct (a_pending (store l) !! _); [|done]. destruct (u_eqb _ _); [done|]. effects.
Qed.

(** The link of a state block. *)
Lemma wlp_link_checks b amt l (Q : process_result → ledger astore → Prop) :
  Q (receive_link (store l) (hashables b) amt) l → wlp (state_link_checks b amt false) l Q.
Proof.
  unfold state_link_checks, receive_link. tidy. destruct (is_zero (th_link (hashables b))); tidy; [done|].
  intros HQ. lread. destruct (a_lookup (store l) (th_link (hashables b))) eqn:Es;
    [rewrite bool_decide_true by eauto|by rewrite bool_decide_false by by intros [? ?]].
  lread. by destruct (a_pending (store l) !! _).
Qed.

Lemma classify_state_ok b l g hist : Inv (store l) g hist →
  wlp (state_block_impl b) l (answers (store l) (BState b)).
Proof.
  intros HI. unfold state_block_impl, classify. lread.
  destruct (a_lookup (store l) (block_hash (BState b))) eqn:Eh;
    [by rewrite bool_decide_true by eauto|rewrite bool_decide_false by by intros [? ?]].
  unfold classify_state. destruct (validate_message _ _ _); [done|].
  destruct (is_zero (th_account _)); [done|]. lread. unfold state_account_checks.
  assert (Hend : ∀ c (amt : u128) (snd : bool) (l1 : ledger astore) info,
    wlp (if decide (c = progress) then
      state_apply b (block_hash (BState b)) info amt snd;;
      mret (Process_return progress (Some (th_account (hashables b))) (Some amt) None (Some snd))
    else mret (Process_return c None (Some amt) None None)) l1 (λ r _, code r = c)).
  { intros. case_decide; [subst; effects|done]. }
  destruct (a_accounts (store l) !! th_account (hashables b)) as [i|] eqn:Ei.
  - destruct (is_zero (th_previous (hashables b))).
    { apply wlp_bind, wlp_ret. cbv beta iota. rewrite decide_False by done. by apply wlp_bind, wlp_ret. }
    apply wlp_bind. lread. destruct (a_lookup (store l) (th_previous (hashables b))) eqn:Ep;
      [rewrite bool_decide_true by eauto|rewrite bool_decide_false by by intros [? ?]].
    2: { apply wlp_ret. cbv beta iota. rewrite decide_False by done. by apply wlp_bind, wlp_ret. }
    apply wlp_ret. cbv beta iota. destruct (u_eqb (th_previous (hashables b)) (head i)); tidy.
    2: { rewrite decide_False by done. by apply wlp_bind, wlp_ret. }
    rewrite decide_True by done. apply wlp_bind. destruct (u_ltb (th_balance (hashables b)) (balance i)).
    + apply wlp_ret. exact (Hend progress _ _ _ _).
    + apply wlp_link_checks. apply Hend.
  - destruct (is_zero (th_previous (hashables b))); tidy.
    2: { apply wlp_bind, wlp_ret. cbv beta iota. rewrite decide_False by done. by apply wlp_bind, wlp_ret. }
    apply wlp_bind, wlp_stats. intros l0 El0. apply wlp_ret. cbv beta iota.
    destruct (is_zero (th_link (hashables b))); tidy.
    { rewrite decide_False by done. by apply wlp_bind, wlp_ret. }
    rewrite decide_True by done. apply wlp_bind, wlp_link_checks. rewrite El0. apply Hend.
Qed.

Lemma classify_ok fuel b l g hist : Inv (store l) g hist →
  wlp (process fuel b) l (answers (store l) b).
Proof.
  intros HI. destruct b; simpl.
  - by eapply classify_send.
  - by eapply classify_receive.
  - by eapply classify_open.
  - by eapply classify_change.
  - by eapply classify_state_ok.
Qed.
End classify.
