(* ===== verification/LedgerProps.v ===== *)
(** * Properties of the ledger

    What holds of every ledger the program can reach: processing and rolling
    back are total and keep the ledger consistent, funds are conserved,
    weights, checksum and cached data agree with the blocks, a send is
    received at most once, and a rollback undoes what processing did. *)

From S2P Require Import Prelude Crypto Blocks Common Stats Store Ledger StoreLemmas LedgerInv.
From S2P Require Import Visitors Extend ProcessLemmas Commit Process Accounts Retract Rollback Cascade.
From S2P Require Import Reach Accept.

Section helpers.
Context `{Blake2b, Ed25519, LedgerConstants}.

(** The outcome of [process] on a consistent ledger. *)
Lemma process_run (l : ledger astore) g hist fuel b :
  Inv (store l) g hist → digest_ok (store l) b → (enough_fuel l ≤ fuel)%nat →
  ∃ r l', process fuel b l = Done (r, l') ∧ processed l g hist b r l'.
Proof. intros HI Hd Hf. apply wp_run. by apply process_ok. Qed.

(** The blocks after an accepted block. *)
Lemma processed_progress (l l' : ledger astore) g hist b r :
  processed l g hist b r l' → code r = progress →
  ∃ m w, Inv (store l') (<[block_hash b := m]> g) (hist ++ [block_hash b]) ∧
    accepts (store l) b (m_owner m) (m_balance m) ∧
    effect (store l) (store l') b (m_owner m) (m_balance m) ∧
    result_account r = Some (m_owner m) ∧ result_amount r = Some w ∧
    uval w = Z.abs (balance_before (store l) (m_owner m) - uval (m_balance m)).
Proof. unfold processed. intros Hp Hc. by rewrite decide_True in Hp. Qed.

Lemma processed_rejected (l l' : ledger astore) g hist b r :
  processed l g hist b r l' → code r ≠ progress → store l' = store l.
Proof. unfold processed. intros Hp Hc. by rewrite decide_False in Hp. Qed.

(** [follows] applied to the block just accepted. *)
Lemma accepted_lookup s s' b a bal : effect s s' b a bal →
  a_lookup s' (block_hash b) = Some (b, U 32 0).
Proof. intros He. rewrite (ef_blocks _ _ _ _ _ He). unfold put_lookup. by rewrite decide_True. Qed.

Lemma process_old (l : ledger astore) fuel b v : a_lookup (store l) (block_hash b) = Some v →
  process fuel b l = Done (return_code old, l).
Proof.
  intros Eb.
  assert (Hex : (st (block_exists (block_hash b)) : M (ledger astore) bool) l = Done (true, l)).
  { unfold st. simpl. rewrite Eb, bool_decide_true by eauto. by rewrite set_store_store. }
  destruct b; (etransitivity; [exact (bind_done _ _ _ _ _ Hex)|done]).
Qed.

Lemma fresh_not_hist s g hist h : Inv s g hist → a_lookup s h = None → h ∉ hist.
Proof.
  intros HI Hn Hin. apply (inv_hist _ _ _ HI), (inv_dom _ _ _ HI) in Hin.
  rewrite Hn in Hin. by destruct Hin.
Qed.

(** Ghost data left after the last block is removed again. *)
Lemma undo_ghost s s' g g' hist h m : Inv s g hist → Inv s' g' hist → h ∉ hist →
  g' ⊆ <[h := m]> g → g' = g.
Proof.
  intros HI HI' Hn Hg.
  assert (Hin : ∀ x, is_Some (g !! x) ↔ is_Some (g' !! x)).
  { intros x. by rewrite <-(inv_hist _ _ _ HI), <-(inv_hist _ _ _ HI'). }
  assert (Hsub : ∀ x mx, g' !! x = Some mx → g !! x = Some mx).
  { intros x mx Ex. pose proof (lookup_weaken _ _ _ _ Ex Hg) as E.
    rewrite lookup_insert_ne in E; [done|]. intros <-. apply Hn, (inv_hist _ _ _ HI'). eauto. }
  apply map_eq_sub; [exact Hsub|]. intros x mx Ex. destruct (proj1 (Hin x)) as [m' Em']; [eauto|].
  rewrite Em'. apply Hsub in Em'. congruence.
Qed.

(** Blocks left after the last block is removed again. *)
Lemma undo_blocks s s1 s2 b a bal : effect s s1 b a bal → blocks_kept s1 s2 →
  a_lookup s2 (block_hash b) = None → blocks_kept s s2.
Proof.
  intros He Hk Hn x b0 sc E. destruct (Hk _ _ _ E) as [sc1 E1].
  rewrite (ef_blocks _ _ _ _ _ He) in E1. unfold put_lookup in E1.
  case_decide as Hx; [subst x; congruence|].
  case_decide; [|by eauto]. apply fmap_Some in E1 as ([b1 sc0] & E1 & [= -> ->]). eauto.
Qed.

(** A block rolled back is gone. *)
Lemma rollback_gone s s' g g' l1 h l2 l2' : Inv s g (l1 ++ h :: l2) → Inv s' g' (l1 ++ l2') →
  sublist l2' l2 → a_lookup s' h = None.
Proof.
  intros HI HI' Hsub. apply eq_None_not_Some. rewrite (inv_dom _ _ _ HI'), <-(inv_hist _ _ _ HI').
  pose proof (inv_nodup _ _ _ HI) as Hnd. rewrite <-Permutation_middle in Hnd.
  apply NoDup_cons in Hnd as [Hnot _]. rewrite elem_of_app in Hnot |- *.
  intros [Hx|Hx]; [tauto|]. apply Hnot. right. by eapply elem_of_sublist.
Qed.
End helpers.

Section props.
Context `{Blake2b, Ed25519, LedgerConstants}.

(** C1: processing any block on a reachable ledger, with fuel
    for its number of blocks, ends without tripping an assertion in a
    reachable ledger; a block that is not accepted leaves the store as it
    was, an accepted one is stored without a successor. *)
Theorem process_total (l : ledger astore) fuel b :
  reach l → digest_ok (store l) b → (enough_fuel l ≤ fuel)%nat →
  ∃ r l', process fuel b l = Done (r, l') ∧ reach l' ∧
    (code r ≠ progress → store l' = store l) ∧
    (code r = progress → a_lookup (store l') (block_hash b) = Some (b, U 32 0)).
Proof.
  intros Hl Hd Hf. destruct (reach_valid _ Hl) as (g & hist & HI).
  destruct (process_run _ _ _ _ _ HI Hd Hf) as (r & l' & Hr & Hp). exists r, l'.
  split_and!; [done|by apply (reach_process l fuel b r)|by eapply processed_rejected|].
  intros Hc. destruct (processed_progress _ _ _ _ _ _ Hp Hc) as (m & w & _ & _ & He & _).
  by eapply accepted_lookup.
Qed.

(** C4: a block is accepted exactly when it is new, signed by
    its account, at the head of the account or opening it, and its funds are
    those of its account or of a pending send to it; the account and amount
    in the result are then the ones it names, and the tables of blocks,
    accounts and pending entries change by this block alone. *)
Theorem process_accepts (l l' : ledger astore) fuel b r :
  reach l → digest_ok (store l) b → (enough_fuel l ≤ fuel)%nat →
  process fuel b l = Done (r, l') →
  (code r = progress ↔ ∃ a bal, accepts (store l) b a bal) ∧
  (code r = progress → ∃ a bal w, accepts (store l) b a bal ∧
    effect (store l) (store l') b a bal ∧ result_account r = Some a ∧ result_amount r = Some w ∧
    uval w = Z.abs (balance_before (store l) a - uval bal)).
Proof.
  intros Hl Hd Hf Hr. destruct (reach_valid _ Hl) as (g & hist & HI).
  destruct (process_run _ _ _ _ _ HI Hd Hf) as (r0 & l0 & Hr0 & Hp).
  rewrite Hr in Hr0. injection Hr0 as <- <-.
  assert (Hfw : code r = progress → ∃ a bal w, accepts (store l) b a bal ∧
    effect (store l) (store l') b a bal ∧ result_account r = Some a ∧ result_amount r = Some w ∧
    uval w = Z.abs (balance_before (store l) a - uval bal)).
  { intros Hc. destruct (processed_progress _ _ _ _ _ _ Hp Hc) as (m & w & _ & ? & ? & ? & ? & ?).
    by exists (m_owner m), (m_balance m), w. }
  split; [split|done].
  - intros Hc. destruct (Hfw Hc) as (a & bal & _ & ? & _). eauto.
  - intros (a & bal & Hac). pose proof (accept_progress fuel b l g hist a bal HI Hac) as Hw.
    unfold wlp in Hw. by rewrite Hr in Hw.
Qed.

(** A block that was accepted is answered [old] when it is
    processed again, and the store stays as it is. *)
Lemma process_again (l l1 : ledger astore) fuel fuel' b r :
  reach l → digest_ok (store l) b → (enough_fuel l ≤ fuel)%nat →
  process fuel b l = Done (r, l1) → code r = progress →
  ∃ r' l2, process fuel' b l1 = Done (r', l2) ∧ code r' = old ∧ store l2 = store l1.
Proof.
  intros Hl Hd Hf Hr Hc. destruct (reach_valid _ Hl) as (g & hist & HI).
  destruct (process_run _ _ _ _ _ HI Hd Hf) as (r0 & l0 & Hr0 & Hp).
  rewrite Hr in Hr0. injection Hr0 as <- <-.
  destruct (processed_progress _ _ _ _ _ _ Hp Hc) as (m & w & _ & _ & He & _).
  pose proof (accepted_lookup _ _ _ _ _ He) as Eb.
  exists (return_code old), l1. split_and!; [|done..]. by eapply process_old.
Qed.

(** C2: rolling back any block but the genesis block, with
    fuel for the number of blocks, ends without tripping an assertion in a
    reachable ledger from which the block is gone and in which every block
    was there before. *)
Theorem rollback_total (l : ledger astore) fuel n h :
  reach l → removable_block (store l) h → (enough_fuel l ≤ fuel)%nat → (enough_fuel l ≤ n)%nat →
  ∃ l', rollback fuel n h l = Done (tt, l') ∧ reach l' ∧ a_lookup (store l') h = None ∧
    (∀ x b sc, a_lookup (store l') x = Some (b, sc) → ∃ sc0, a_lookup (store l) x = Some (b, sc0)).
Proof.
  intros Hl Hb Hf Hn. destruct (reach_valid _ Hl) as (g & hist & HI).
  destruct (rollback_run _ _ _ _ _ _ HI Hb Hf Hn) as (l1 & l2 & l' & g' & l2' & El & Hr & Hsh).
  exists l'. destruct Hsh as (Hsub & _ & Hk & HI').
  split_and!; [done|by apply (reach_rollback l fuel n h)| |exact Hk].
  rewrite El in HI. by eapply rollback_gone.
Qed.

(** C3: rolling back the block just accepted restores the
    ledger: blocks and their successors, account data up to the time stamp,
    frontiers, pending entries, weights and checksum are as before. *)
Theorem process_rollback (l l1 : ledger astore) fuel fuel' n b r :
  reach l → digest_ok (store l) b → (enough_fuel l ≤ fuel)%nat →
  process fuel b l = Done (r, l1) → code r = progress →
  (enough_fuel l1 ≤ fuel')%nat → (enough_fuel l1 ≤ n)%nat →
  ∃ l2, rollback fuel' n (block_hash b) l1 = Done (tt, l2) ∧ store l2 ≡ store l.
Proof.
  intros Hl Hd Hf Hr Hc Hf' Hn. destruct (reach_valid _ Hl) as (g & hist & HI).
  destruct (process_run _ _ _ _ _ HI Hd Hf) as (r0 & l0 & Hr0 & Hp).
  rewrite Hr in Hr0. injection Hr0 as <- <-.
  destruct (processed_progress _ _ _ _ _ _ Hp Hc) as (m & w & HI1 & Hac & He & _).
  pose proof (accepted_lookup _ _ _ _ _ He) as Eb.
  assert (Hne : hist ≠ []).
  { destruct (inv_genesis _ _ _ HI) as (h0 & ? & ? & rest & -> & _). done. }
  destruct (rollback_run l1 _ _ fuel' n (block_hash b) HI1) as (k1 & k2 & l2 & g' & k2' & Ek & Hrb & Hsh);
    [|done|done|].
  { exists b, (U 32 0). split; [done|]. by eapply not_genesis. }
  pose proof (inv_nodup _ _ _ HI1) as Hnd.
  destruct (NoDup_split _ _ _ _ _ Hnd Ek) as [<- <-].
  destruct Hsh as (Hsub & Hg & Hk & HI2). apply sublist_nil_r in Hsub as ->.
  rewrite app_nil_r in HI2. exists l2. split; [done|]. symmetry.
  pose proof (fresh_not_hist _ _ _ _ HI (ac_fresh _ _ _ _ Hac)) as Hn'.
  rewrite (undo_ghost _ _ _ _ _ _ _ HI HI2 Hn' Hg) in HI2.
  apply (inv_unique _ _ g hist HI HI2), (undo_blocks _ _ _ _ _ _ He Hk).
  apply eq_None_not_Some. by rewrite (inv_dom _ _ _ HI2), <-(inv_hist _ _ _ HI2).
Qed.

(** C5: on every reachable ledger the funds of all accounts
    and all pending sends add up to the genesis amount, 2^128 - 1. *)
Theorem supply_conserved (l : ledger astore) :
  reach l → held (store l) + in_flight (store l) = uval genesis_amount.
Proof.
  intros Hl. destruct (reach_valid _ Hl) as (g & hist & HI).
  rewrite (inv_supply _ _ _ HI). vm_compute. done.
Qed.

(** C6: on every reachable ledger the weight stored for a
    representative is the sum of the balances of the accounts whose
    representative it is; no wrap-around is left over from the additions
    and subtractions modulo 2^128. *)
Theorem weights_exact (l : ledger astore) r :
  reach l → ∃ w, representation_get r (store l) = Done (w, store l) ∧
    uval w = map_sum (λ _ i, if decide (rep_account (a_lookup (store l)) i = r)
                             then uval (balance i) else 0) (a_accounts (store l)).
Proof.
  intros Hl. destruct (reach_valid _ Hl) as (g & hist & HI).
  eexists. split; [done|]. by apply (inv_exact_weight _ _ _ _ HI).
Qed.

(** C21: [ledger::checksum] returns the exclusive or of the
    head blocks of all accounts. *)
Theorem checksum_heads (l : ledger astore) :
  reach l → ledger_checksum l = Done (xor_heads (a_accounts (store l)), l).
Proof.
  intros Hl. destruct (reach_valid _ Hl) as (g & hist & HI).
  unfold ledger_checksum, mbind, M_bind, st. simpl. rewrite checksum_key_0. simpl.
  by rewrite (inv_checksum _ _ _ HI), set_store_store.
Qed.

(** C19: recomputing the balance and the representative of
    an account from its head block by the visitors ends within the fuel and
    gives the balance and representative block cached for the account. *)
Theorem balance_recomputed (l : ledger astore) fuel a i :
  reach l → (enough_fuel l ≤ fuel)%nat → a_accounts (store l) !! a = Some i →
  ledger_balance fuel (head i) l = Done (balance i, l) ∧
  representative fuel (head i) l = Done (rep_block i, l).
Proof.
  intros Hl Hf Ei. destruct (reach_valid _ Hl) as (g & hist & HI).
  destruct (inv_account _ _ _ HI _ _ Ei) as (b & m & Eb & Em & _ & -> & -> & _).
  unfold enough_fuel in Hf. split.
  - enough (wp (ledger_balance fuel (head i)) l (λ r l', r = m_balance m ∧ l' = l)) as Hw.
    { by apply wp_run in Hw as (? & ? & ? & -> & ->). }
    eapply (wp_ledger_balance fuel l l); [exact HI|by eapply agree_same|exact Em|lia|done].
  - enough (wp (representative fuel (head i)) l (λ r l', r = m_rep m ∧ l' = l)) as Hw.
    { by apply wp_run in Hw as (? & ? & ? & -> & ->). }
    eapply (wp_representative fuel l l); [exact HI|by eapply agree_same|exact Em|lia|done].
Qed.

(** The blocks of an account: those from which following the successors
    leads to its head. *)
Inductive on_chain (s : astore) (a : u256) : u256 → Prop :=
| on_head i : a_accounts s !! a = Some i → on_chain s a (head i)
| on_successor h b sc : a_lookup s h = Some (b, sc) → sc ≠ U 32 0 → on_chain s a sc →
    on_chain s a h.

Lemma owner_chain s g hist : Inv s g hist →
  ∀ n k1 x k2 m, hist = k1 ++ x :: k2 → length k2 = n → g !! x = Some m → on_chain s (m_owner m) x.
Proof.
  intros HI n. induction n as [n IH] using (well_founded_induction lt_wf).
  intros k1 x k2 m Ek Hn Em. destruct (meta_block _ _ _ HI _ _ Em) as (b & sc & E).
  destruct (inv_succ _ _ _ HI _ _ _ _ E Em) as [(_ & j & Ej & <-)|(b1 & sc1 & E1 & Hl1 & Hp)].
  { by apply on_head. }
  destruct (inv_dom _ _ _ HI sc) as [[m1 Em1] _]; [by rewrite E1|].
  destruct (inv_block _ _ _ HI _ _ _ _ E1 Em1) as (Hsc & _ & _ & _ & Hf & _).
  unfold follows in Hf. rewrite Hl1, Hp in Hf. destruct Hf as (? & pm & _ & Epm & _ & Ho1 & _).
  rewrite Em in Epm. injection Epm as <-. eapply on_successor; [exact E|done|]. rewrite <-Ho1.
  destruct (hist_split _ _ _ HI sc) as (j1 & j2 & Es); [eauto|].
  destruct (inv_order _ _ _ HI _ _ _ _ _ Es E1) as [Hin _]. specialize (Hin Hl1). rewrite Hp in Hin.
  destruct (NoDup_before _ _ _ _ _ _ _ (inv_nodup _ _ _ HI) Ek Es Hin) as (q & -> & _).
  rewrite length_app in Hn. simpl in Hn. by eapply (IH (length j2)); [lia|..].
Qed.

(** [ledger::account] of any stored block ends within the
    fuel and returns the account whose chain of successors the block is on. *)
Lemma account_of_block (l : ledger astore) fuel h b sc :
  reach l → (enough_fuel l ≤ fuel)%nat → a_lookup (store l) h = Some (b, sc) →
  ∃ a, ledger_account fuel h l = Done (a, l) ∧ on_chain (store l) a h.
Proof.
  intros Hl Hf Eb. destruct (reach_valid _ Hl) as (g & hist & HI).
  destruct (inv_dom _ _ _ HI h) as [Hg _]. destruct Hg as [m Em]; [by rewrite Eb|].
  exists (m_owner m). unfold enough_fuel in Hf. split.
  - enough (wp (ledger_account fuel h) l (λ r l', r = m_owner m ∧ l' = l)) as Hw.
    { by apply wp_run in Hw as (? & ? & ? & -> & ->). }
    eapply wp_ledger_account; [exact HI|exact Em|lia|done].
  - destruct (hist_split _ _ _ HI h) as (k1 & k2 & Ek); [eauto|]. by eapply owner_chain.
Qed.


(** C8: a block that names as its predecessor a block that
    already has a successor is not accepted (unless it is that successor),
    and the store stays as it was. *)
Theorem fork_rejected (l l' : ledger astore) fuel b r pb sc :
  reach l → digest_ok (store l) b → (enough_fuel l ≤ fuel)%nat →
  a_lookup (store l) (block_previous b) = Some (pb, sc) → sc ≠ U 32 0 →
  process fuel b l = Done (r, l') → code r ≠ progress ∧ store l' = store l.
Proof.
  intros Hl Hd Hf Epb Hsc Hr. destruct (reach_valid _ Hl) as (g & hist & HI).
  destruct (process_run _ _ _ _ _ HI Hd Hf) as (r0 & l0 & Hr0 & Hp).
  rewrite Hr in Hr0. injection Hr0 as <- <-.
  assert (Hc : code r ≠ progress); [|split; [done|by eapply processed_rejected]].
  intros Hc. destruct (processed_progress _ _ _ _ _ _ Hp Hc) as (m & w & _ & Hac & _).
  pose proof (ac_position _ _ _ _ Hac) as Hpos.
  destruct (a_accounts (store l) !! m_owner m) as [i|] eqn:Ei.
  - destruct Hpos as (_ & Hh & _). destruct (inv_account _ _ _ HI _ _ Ei) as (hb & hm & Eh & _).
    rewrite Hh, Eh in Epb. congruence.
  - destruct Hpos as (_ & Hz). rewrite Hz in Epb. destruct (inv_dom _ _ _ HI (U 32 0)) as [Hg _].
    destruct Hg as [m0 Em0]; [by rewrite Epb|].
    by destruct (inv_block _ _ _ HI _ _ _ _ Epb Em0) as (? & _).
Qed.

(** The send a receiving legacy block names. *)
Definition source_of (b : block) : option u256 :=
  match b with
  | BReceive r => Some (rh_source (hashables r))
  | BOpen o => Some (oh_source (hashables o))
  | _ => None
  end.

(** C7: once a receive block of a send is in the ledger, no
    other receive or open block for the same send is accepted. *)
Theorem received_once (l l' : ledger astore) fuel h0 r0 sc0 b r :
  reach l → digest_ok (store l) b → (enough_fuel l ≤ fuel)%nat →
  a_lookup (store l) h0 = Some (BReceive r0, sc0) → source_of b = Some (rh_source (hashables r0)) →
  process fuel b l = Done (r, l') → code r ≠ progress ∧ store l' = store l.
Proof.
  intros Hl Hd Hf E0 Hsrc Hr. destruct (reach_valid _ Hl) as (g & hist & HI).
  destruct (process_run _ _ _ _ _ HI Hd Hf) as (r1 & l1 & Hr1 & Hp).
  rewrite Hr in Hr1. injection Hr1 as <- <-.
  assert (Hc : code r ≠ progress); [|split; [done|by eapply processed_rejected]].
  intros Hc. destruct (processed_progress _ _ _ _ _ _ Hp Hc) as (m & w & _ & Hac & _).
  pose proof (inv_received _ _ _ HI _ _ _ _ E0 eq_refl (m_owner m)) as Hn.
  pose proof (ac_funds _ _ _ _ Hac) as Hfu. destruct b; try done; simpl in *.
  - destruct Hfu as (q & Eq & _). injection Hsrc as Hsrc. rewrite Hsrc in Eq. congruence.
  - injection Hsrc as Hsrc. destruct (u_eqb _ _).
    + by destruct Hfu.
    + destruct Hfu as (q & Eq & _). rewrite Hsrc in Eq. congruence.
Qed.
End props.
