(* ===== verification/Queries.v ===== *)
(** * What the queries of the ledger answer

    [amount], [is_send], [block_source], [successor] and [forked_block] on a
    consistent ledger. *)

From S2P Require Import Prelude Crypto Blocks Common Stats Store Ledger StoreLemmas LedgerInv.
From S2P Require Import Visitors Extend ProcessLemmas Commit Process Accounts Retract Rollback Cascade Reach Accept LedgerProps.

(** ** Amounts *)
Section amount.
Context `{Blake2b, LedgerConstants}.
Context {delta : u256 → Z} (s : astore) (g : gmap u256 meta) (hist : list u256).
Hypothesis HI : InvD delta s g hist.

(** How much a block changes the balance of its account. *)
Definition amount_of b (m : meta) : Z := Z.abs (uval (m_balance m) - prev_balance g b).

Lemma amount_loop_diff n h0 p bal prev :
  p ≠ U 32 0 → balance_loop n (Balance_visitor p (U 32 0) (U 16 0)) s = Done (prev, s) → (1 ≤ n)%nat →
  amount_loop (Datatypes.S n) h0 (Amount_visitor (U 32 0) p bal) s =
    Done (U 16 (Z.abs (uval bal - uval prev)), s).
Proof.
  intros Hp E Hn. pose proof (uval_range bal). pose proof (uval_range prev).
  apply is_zero_false in Hp. simpl. rewrite is_zero_0, Hp. simpl. unfold mbind, M_bind. rewrite E.
  rewrite amount_loop_done by done. do 2 f_equal. apply uval_inj. rewrite (uval_U_small 16) by lia.
  destruct (u_ltb_spec bal prev); rewrite uval_sub_small by lia; lia.
Qed.

(** A block that receives has the amount its source sent. *)
Lemma amount_received fuel h b sc m src a0 :
  a_lookup s h = Some (b, sc) → g !! h = Some m → sends g b = false → receives g b = Some src →
  (2 * size (a_blocks s) + 2 ≤ fuel)%nat →
  amount_loop fuel h (Amount_visitor src (U 32 0) a0) s = Done (U 16 (amount_of b m), s).
Proof.
  intros Eb Em Hs Hr Hf. destruct (hist_split _ _ _ HI h) as (l1 & l2 & El); [eauto|].
  pose proof (hist_le_size _ _ _ HI _ _ _ El) as Hsz.
  destruct (inv_block _ _ _ HI _ _ _ _ Eb Em) as (_ & _ & _ & _ & _ & _ & Hbal).
  unfold balanced in Hbal. rewrite Hs, Hr in Hbal. destruct Hbal as (sb & ssc & sm & Esb & Esm & Hss & _ & Hbal).
  destruct (inv_order _ _ _ HI _ _ _ _ _ El Eb) as [_ Hsrc].
  destruct (hist_rank _ _ _ HI _ _ _ _ El (Hsrc _ Hr)) as (k1 & k2 & Ek & Hlt & _).
  rewrite (proj2 (visitors_ok _ _ _ HI k1) src k2 sb ssc sm) by (done || lia).
  pose proof (send_amount_nonneg _ _ _ HI _ _ _ _ Esb Esm Hss). unfold amount_of. do 3 f_equal. lia.
Qed.

Lemma amount_state fuel h t sc m : a_lookup s h = Some (BState t, sc) → g !! h = Some m →
  (2 * size (a_blocks s) + 3 ≤ fuel)%nat →
  amount_loop fuel h (Amount_visitor (U 32 0) (th_previous (hashables t)) (th_balance (hashables t))) s =
    Done (U 16 (amount_of (BState t) m), s).
Proof.
  intros Eb Em Hf. destruct (inv_block _ _ _ HI _ _ _ _ Eb Em) as (_ & _ & _ & _ & Hfol & [_ Hst] & _).
  unfold amount_of, prev_balance. cbn [block_previous]. rewrite Hst. unfold follows in Hfol. simpl in Hfol.
  destruct (is_zero (th_previous (hashables t))) eqn:Hz.
  - apply is_zero_true in Hz as ->. rewrite amount_loop_done by lia.
    pose proof (uval_range (th_balance (hashables t))). do 2 f_equal. apply uval_inj. rewrite uval_U_small; lia.
  - simpl in Hfol. destruct Hfol as (pb & pm & Epb & Epm & _). rewrite Epm.
    destruct fuel as [|fuel]; [lia|]. apply amount_loop_diff; [by apply is_zero_false| |lia].
    destruct (hist_split _ _ _ HI (th_previous (hashables t))) as (l1 & l2 & El); [eauto|].
    pose proof (hist_le_size _ _ _ HI _ _ _ El) as Hsz.
    rewrite (proj1 (visitors_ok _ _ _ HI l1) _ l2 pb h pm) by (done || lia || auto).
    by rewrite u_add_comm, u_add_0_r.
Qed.

Lemma amount_compute_any fuel h b sc m :
  a_lookup s h = Some (b, sc) → g !! h = Some m → (2 * size (a_blocks s) + 4 ≤ fuel)%nat →
  amount_compute fuel h s = Done (U 16 (amount_of b m), s).
Proof.
  intros Eb Em Hf. destruct (inv_block _ _ _ HI _ _ _ _ Eb Em) as (Hh & _ & _ & _ & Hfol & Hst & Hbal).
  unfold amount_compute. destruct fuel as [|fuel]; [lia|].
  rewrite (amount_loop_block _ _ _ h b sc) by done.
  destruct b as [b|b|b|b|b]; cbn [amount_visit av_current_balance av_amount].
  - rewrite <-(amount_loop_block _ fuel h h (BSend b) sc (Amount_visitor h (U 32 0) (U 16 0))) by done.
    fold (amount_compute (S:=astore) (Datatypes.S fuel) h). rewrite (amount_compute_correct _ _ _ HI _ _ _ _ _ Eb Em) by (done || lia).
    unfold balanced in Hbal. simpl in Hbal. unfold sent_amount, amount_of. do 3 f_equal. lia.
  - by rewrite (amount_received fuel h (BReceive b) sc m) by (done || lia).
  - unfold balanced, receives in Hbal. simpl in Hbal.
    pose proof (amount_received fuel h (BOpen b) sc m (oh_source (hashables b)) (U 16 0) Eb Em eq_refl) as Hr.
    simpl in Hr. destruct (u_eqb_spec (oh_source (hashables b)) genesis_account) as [E|E]; simpl.
    + rewrite amount_loop_done by lia. unfold amount_of, prev_balance. simpl. rewrite is_zero_0, Hbal. done.
    + apply Hr; [done|lia].
  - rewrite amount_loop_done by lia. unfold balanced in Hbal. simpl in Hbal. unfold amount_of.
    do 3 f_equal. lia.
  - apply (amount_state _ _ _ _ _ Eb Em). lia.
Qed.
End amount.

(** ** Roots *)

(** A root that exists: a stored block, or an opened account. *)
Definition rooted (s : astore) (r : u256) : bool :=
  bool_decide (is_Some (a_lookup s r)) || bool_decide (is_Some (a_accounts s !! r)).

Lemma root_exists_run `{Blake2b} (s : astore) r : root_exists r s = Done (rooted s r, s).
Proof. unfold root_exists, rooted. unfold mbind, M_bind. simpl. by case_bool_decide. Qed.

(** The block at the place a root names: the first block of an account, or
    the block after a block. *)
Definition at_root (s : astore) (r : u256) : option block :=
  match a_accounts s !! r with
  | Some i => fst <$> a_lookup s (open_block_hash i)
  | None => match a_lookup s r with
            | Some (_, sc) => fst <$> a_lookup s sc
            | None => None
            end
  end.

(** A state block of an open account that follows the head of another
    account: the ledger has no block in its place. *)
Definition foreign (s : astore) (b : block) : bool :=
  match b with
  | BState t =>
      match a_lookup s (th_previous (hashables t)), a_accounts s !! th_account (hashables t) with
      | Some (_, sc), Some i => is_zero sc && negb (u_eqb (th_previous (hashables t)) (head i))
          && bool_decide (a_accounts s !! th_previous (hashables t) = None)
      | _, _ => false
      end
  | _ => false
  end.

(** The block a block of unknown source waits for. *)
Definition missing_source (b : block) : u256 :=
  match b with BState t => th_link (hashables t) | _ => block_source b end.

(** ** The other queries *)
Section queries.
Context `{Blake2b, Ed25519, LedgerConstants}.
Context (l : ledger astore) (g : gmap u256 meta) (hist : list u256).
Hypothesis HI : Inv (store l) g hist.
Local Abbreviation s := (store l).
Implicit Types (b : block).

Lemma wp_amount_of fuel h b sc m (Q : u128 → ledger astore → Prop) :
  a_lookup s h = Some (b, sc) → g !! h = Some m → (2 * size (a_blocks s) + 4 ≤ fuel)%nat →
  Q (U 16 (amount_of g b m)) l → wp (ledger_amount fuel h) l Q.
Proof.
  intros Eb Em Hf HQ. unfold ledger_amount. eapply wp_st_keep; [|done]. by eapply amount_compute_any.
Qed.

(** A state block sends when it lowers the balance of its account. *)
Lemma wp_is_send fuel t (Q : bool → ledger astore → Prop) :
  (th_previous (hashables t) = U 32 0 ∨ is_Some (a_lookup s (th_previous (hashables t)))) →
  (2 * size (a_blocks s) + 4 ≤ fuel)%nat → Q (sends g (BState t)) l → wp (is_send fuel t) l Q.
Proof.
  intros Hp Hf HQ. unfold is_send. unfold sends, prev_balance in HQ. cbn [block_previous] in HQ.
  pose proof (uval_range (th_balance (hashables t))). destruct Hp as [Hp|Hp].
  - rewrite Hp, is_zero_0 in *. simpl. apply wp_ret.
    by replace (uval (th_balance (hashables t)) <? 0) with false in HQ by (symmetry; apply Z.ltb_ge; lia).
  - apply (inv_dom _ _ _ HI) in Hp as [m Em]. destruct (meta_block _ _ _ HI _ _ Em) as (pb & sc & Epb).
    destruct (inv_block _ _ _ HI _ _ _ _ Epb Em) as (Hz & _). apply is_zero_false in Hz.
    rewrite Hz, Em in *. simpl. apply wp_bind. unfold ledger_balance.
    eapply wp_st_keep; [by eapply balance_compute_correct|]. by apply wp_ret.
Qed.

Lemma wp_missing_source fuel b (Q : u256 → ledger astore → Prop) :
  classify s b = gap_source → (2 * size (a_blocks s) + 4 ≤ fuel)%nat →
  Q (missing_source b) l → wp (ledger_block_source fuel b) l Q.
Proof.
  intros Hc Hf HQ. unfold ledger_block_source. destruct b as [b|b|b|b|t]; try by apply wp_ret.
  unfold classify, classify_state in Hc. destruct (a_lookup s (block_hash _)); [done|].
  destruct (validate_message _ _ _); [done|]. destruct (is_zero (th_account _)); [done|].
  set (h := hashables t) in *. apply wp_bind.
  destruct (a_accounts s !! th_account h) as [i|] eqn:Ei.
  - destruct (is_zero (th_previous h)) eqn:Hz; [done|].
    destruct (a_lookup s (th_previous h)) as [[pb sc]|] eqn:Ep; [|done].
    destruct (u_eqb_spec (th_previous h) (head i)) as [Hh|]; [|done]. simpl in Hc.
    destruct (u_ltb_spec (th_balance h) (balance i)) as [|Hge]; [done|].
    apply wp_is_send; [right; fold h; by rewrite Ep|done|].
    replace (sends g (BState t)) with false; [by apply wp_ret|].
    unfold sends, prev_balance. cbn [block_previous]. fold h. rewrite Hz, Hh.
    destruct (inv_account _ _ _ HI _ _ Ei) as (? & m & _ & Em & _ & Hb & _). rewrite Em, <-Hb.
    symmetry. apply Z.ltb_ge. lia.
  - destruct (is_zero (th_previous h)) eqn:Hz; [|done]. apply is_zero_true in Hz.
    apply wp_is_send; [by left|done|]. replace (sends g (BState t)) with false; [by apply wp_ret|].
    unfold sends, prev_balance. cbn [block_previous]. fold h. rewrite Hz, is_zero_0.
    pose proof (uval_range (th_balance h)). symmetry. apply Z.ltb_ge. lia.
Qed.

Lemma zero_not_stored : a_lookup s (U 32 0) = None.
Proof.
  destruct (a_lookup s (U 32 0)) as [[b sc]|] eqn:E; [|done].
  destruct (inv_dom _ _ _ HI (U 32 0)) as [[m Em] _]; [by rewrite E|].
  by destruct (inv_block _ _ _ HI _ _ _ _ E Em).
Qed.

Lemma opened_block a i : a_accounts s !! a = Some i →
  is_zero (open_block_hash i) = false ∧ is_Some (a_lookup s (open_block_hash i)).
Proof.
  intros Ei. destruct (inv_account _ _ _ HI _ _ Ei) as (_ & m & _ & Em & _ & _ & _ & -> & _).
  destruct (inv_meta _ _ _ HI _ _ Em) as (_ & Ho & _). apply (inv_dom _ _ _ HI) in Ho. split; [|done].
  apply is_zero_false. intros E. rewrite E, zero_not_stored in Ho. by destruct Ho.
Qed.

Lemma successor_stored h b sc : a_lookup s h = Some (b, sc) → is_zero sc = false →
  ∃ b' sc', a_lookup s sc = Some (b', sc') ∧ links b' = true.
Proof.
  intros Eb Hz. destruct (inv_dom _ _ _ HI h) as [[m Em] _]; [by rewrite Eb|].
  destruct (inv_succ _ _ _ HI _ _ _ _ Eb Em) as [[-> _]|(b' & sc' & E & Hl & _)]; [|eauto].
  by rewrite is_zero_0 in Hz.
Qed.

Lemma wp_successor r (Q : option block → ledger astore → Prop) : Q (at_root s r) l → wp (successor r) l Q.
Proof.
  intros HQ. unfold successor, at_root in *. read. destruct (a_accounts s !! r) as [i|] eqn:Ei.
  - rewrite bool_decide_true by eauto. apply wp_bind. read. rewrite Ei. tidy. apply wp_ret.
    destruct (opened_block _ _ Ei) as [-> [[b sc] Eb]]. rewrite Eb in *. simpl. read. rewrite Eb. simpl.
    apply wp_bind, wp_assert; [done|]. by apply wp_ret.
  - rewrite bool_decide_false by (by intros [? ?]). apply wp_bind, wp_st_read. tidy.
    destruct (a_lookup s r) as [[b sc]|] eqn:Eb; simpl.
    + destruct (is_zero sc) eqn:Hz; simpl.
      * apply is_zero_true in Hz as ->. rewrite zero_not_stored in HQ. by apply wp_ret.
      * destruct (successor_stored _ _ _ Eb Hz) as (b' & sc' & E & _). rewrite E in *. read. rewrite E. simpl.
        apply wp_bind, wp_assert; [done|]. by apply wp_ret.
    + rewrite is_zero_0. by apply wp_ret.
Qed.

(** ** Forks *)

(** The first block of the account of a block. *)
Lemma first_block h m : g !! h = Some m →
  ∃ b sc om, a_lookup s (m_open m) = Some (b, sc) ∧ g !! m_open m = Some om ∧ links b = false ∧
    m_owner om = m_owner m.
Proof.
  intros Em. destruct (hist_split _ _ _ HI h) as (l1 & l2 & El); [eauto|].
  remember (length l1) as n eqn:En. revert h m Em l1 l2 El En.
  induction n as [n IH] using lt_wf_ind; intros h m Em l1 l2 El ->.
  destruct (meta_block _ _ _ HI _ _ Em) as (b & sc & Eb).
  destruct (inv_block _ _ _ HI _ _ _ _ Eb Em) as (_ & _ & _ & _ & Hf & _). unfold follows in Hf.
  destruct (links b) eqn:Hl.
  - destruct Hf as (pb & pm & _ & Epm & _ & Ho & _ & Hm & _). rewrite Hm, Ho.
    destruct (inv_order _ _ _ HI _ _ _ _ _ El Eb) as [Hp _].
    destruct (hist_rank _ _ _ HI _ _ _ _ El (Hp Hl)) as (k1 & k2 & Ek & Hlt & _). by eapply IH.
  - destruct Hf as (_ & _ & -> & _). exists b, sc, m. by split_and!.
Qed.

Lemma first_block_root a i : a_accounts s !! a = Some i →
  ∃ b sc, a_lookup s (open_block_hash i) = Some (b, sc) ∧ block_root b = a.
Proof.
  intros Ei. destruct (inv_account _ _ _ HI _ _ Ei) as (_ & m & _ & Em & Ho & _ & _ & -> & _).
  destruct (first_block _ _ Em) as (b & sc & om & Eb & Eom & Hl & Hom). exists b, sc. split; [done|].
  destruct (inv_block _ _ _ HI _ _ _ _ Eb Eom) as (_ & _ & _ & _ & Hf & Hst & _).
  unfold follows in Hf. rewrite Hl in Hf. destruct Hf as (Hp & _).
  destruct b as [b|b|b|b|b]; simpl in *; try done; [congruence|].
  rewrite Hp, is_zero_0. simpl. destruct Hst. congruence.
Qed.

Lemma links_root b : links b = true → block_root b = block_previous b.
Proof. destruct b as [b|b|b|b|b]; simpl; try done. by destruct (is_zero _). Qed.

(** A legacy block is not a head when it is not a frontier. *)
Lemma not_frontier h b sc : a_lookup s h = Some (b, sc) → legacy b = true → a_frontiers s !! h = None →
  is_zero sc = false.
Proof.
  intros Eb Hl Hn. destruct (inv_dom _ _ _ HI h) as [[m Em] _]; [by rewrite Eb|]. apply is_zero_false. intros ->.
  destruct (inv_succ _ _ _ HI _ _ _ _ Eb Em) as [[_ (i & Ei & Hh)]|(b' & sc' & E & _)].
  - assert (a_frontiers s !! h = Some (m_owner m)); [|congruence].
    apply (inv_frontier _ _ _ HI). exists i, b, (U 32 0). by split_and!.
  - by rewrite zero_not_stored in E.
Qed.

(** Where the ledger has another block in the place of a block. *)
Lemma fork_place b : classify s b = fork → foreign s b = false →
  is_Some (a_accounts s !! block_root b) ∨
  ∃ pb sc, a_lookup s (block_root b) = Some (pb, sc) ∧ is_zero sc = false.
Proof.
  unfold classify. destruct (a_lookup s (block_hash b)) eqn:Eh; [done|]. intros Hc Hf.
  assert (Hat : ∀ pb sc, a_lookup s (block_previous b) = Some (pb, sc) → legacy b = true →
    valid_predecessor b pb = true → a_frontiers s !! block_previous b = None →
    ∃ pb sc, a_lookup s (block_previous b) = Some (pb, sc) ∧ is_zero sc = false).
  { intros pb sc Ep Hl Hv Hn. exists pb, sc. split; [done|]. eapply not_frontier; [exact Ep| |done].
    by destruct b, pb. }
  destruct b as [b|b|b|b|t]; unfold after_previous, at_frontier in Hc; cbn [block_previous block_root] in *.
  - right. destruct (a_lookup s (sh_previous _)) as [[pb sc]|] eqn:Ep; [|done].
    destruct (valid_predecessor _ _) eqn:Hv; [|done]. destruct (a_frontiers s !! _) eqn:Ef; [|eauto].
    destruct (validate_message _ _ _); [done|]. by destruct (u_leb _ _).
  - right. destruct (a_lookup s (rh_previous _)) as [[pb sc]|] eqn:Ep; [|done].
    destruct (valid_predecessor _ _) eqn:Hv; [|done]. destruct (a_lookup s (rh_source _)); [|done].
    destruct (a_frontiers s !! _) eqn:Ef; [|eauto]. destruct (validate_message _ _ _); [done|].
    by destruct (a_pending s !! _).
  - left. destruct (a_lookup s (oh_source _)); [|done]. destruct (validate_message _ _ _); [done|].
    destruct (a_accounts s !! _); [eauto|]. destruct (a_pending s !! _); [|done]. by destruct (u_eqb _ _).
  - right. destruct (a_lookup s (ch_previous _)) as [[pb sc]|] eqn:Ep; [|done].
    destruct (valid_predecessor _ _) eqn:Hv; [|done]. destruct (a_frontiers s !! _) eqn:Ef; [|eauto].
    by destruct (validate_message _ _ _).
  - unfold classify_state, foreign in *. set (h := hashables t) in *. destruct (validate_message _ _ _); [done|].
    destruct (is_zero (th_account h)); [done|]. destruct (a_accounts s !! th_account h) as [i|] eqn:Ei.
    + destruct (is_zero (th_previous h)) eqn:Hz; simpl; [left; eauto|].
      destruct (a_lookup s (th_previous h)) as [[pb sc]|] eqn:Ep; [|done].
      destruct (u_eqb _ _); simpl in Hc.
      { destruct (u_ltb _ _); [done|]. unfold receive_link in Hc. repeat case_match; done. }
      destruct (is_zero sc) eqn:Hsc; [|right; eauto]. simpl in Hf. apply bool_decide_eq_false in Hf.
      left. by apply not_eq_None_Some.
    + destruct (is_zero (th_previous h)); [|done]. simpl in Hc. destruct (is_zero (th_link h)); [done|].
      unfold receive_link in Hc. repeat case_match; done.
Qed.

Lemma successor_at h b sc : a_lookup s h = Some (b, sc) → is_zero sc = false →
  ∃ b' sc', a_lookup s sc = Some (b', sc') ∧ block_root b' = h.
Proof.
  intros Eb Hz. destruct (inv_dom _ _ _ HI h) as [[m Em] _]; [by rewrite Eb|].
  destruct (inv_succ _ _ _ HI _ _ _ _ Eb Em) as [[-> _]|(b' & sc' & E & Hl & Hp)]; [by rewrite is_zero_0 in Hz|].
  exists b', sc'. by rewrite links_root.
Qed.

(** [forked_block]: the block the ledger has for the same root. *)
Lemma wp_forked_block b (Q : block → ledger astore → Prop) :
  classify s b = fork → foreign s b = false → a_lookup s (block_hash b) = None →
  (∀ r x sc, a_lookup s x = Some (r, sc) → block_root r = block_root b → Q r l) → wp (forked_block b) l Q.
Proof.
  intros Hc Hf Hn HQ. pose proof (fork_place b Hc Hf) as Hp. unfold forked_block.
  read. rewrite Hn, bool_decide_false by (by intros [? ?]). apply wp_bind, wp_assert; [done|].
  apply wp_bind. eapply wp_st_keep; [apply root_exists_run|]. apply wp_bind, wp_assert.
  { unfold rooted. destruct Hp as [Hp|(pb & sc & E & _)]; [rewrite (bool_decide_true _ Hp); apply orb_true_r|].
    by rewrite E, bool_decide_true by eauto. }
  read. read. destruct (a_lookup s (block_root b)) as [[pb sc]|] eqn:Eb; simpl.
  1: destruct (is_zero sc) eqn:Hz.
  2: { destruct (successor_at _ _ _ Eb Hz) as (b' & sc' & E & Hr). rewrite E. apply wp_ret. by eapply HQ. }
  1: apply is_zero_true in Hz as ->.
  all: rewrite zero_not_stored; simpl; read.
  all: destruct Hp as [[i Ei]|(pb' & sc' & E & Hz)]; [|simplify_eq; by rewrite ?is_zero_0 in Hz].
  all: destruct (first_block_root _ _ Ei) as (ob & osc & Eo & Hr).
  all: rewrite Ei; read; rewrite Eo; apply wp_ret; by eapply HQ.
Qed.
(** For a state block after the head of another account there is none, and
    the last assertion of [forked_block] fails. *)
Lemma forked_block_foreign b : foreign s b = true → a_lookup s (block_hash b) = None →
  forked_block b l = Fault assertion_failed.
Proof.
  intros Hf Hn. unfold foreign in Hf. destruct b as [| | | |t]; try done.
  destruct (a_lookup s (th_previous (hashables t))) as [[pb sc]|] eqn:Ep; [|done].
  destruct (a_accounts s !! th_account (hashables t)) as [i|]; [|done].
  rewrite !andb_true_iff in Hf. destruct Hf as [[Hsc%is_zero_true _] Ha%bool_decide_eq_true]. subst sc.
  assert (Hr : block_root (BState t) = th_previous (hashables t)).
  { simpl. destruct (is_zero (th_previous (hashables t))) eqn:Hz; [|done].
    apply is_zero_true in Hz. by rewrite Hz, zero_not_stored in Ep. }
  unfold forked_block. rewrite Hr. unfold mbind, M_bind, st. simpl. unfold gets. rewrite Hn. simpl.
  unfold assert_. simpl. rewrite !set_store_store. rewrite root_exists_run. unfold rooted.
  rewrite Ep. simpl. rewrite !set_store_store, Ep. simpl. rewrite zero_not_stored. simpl.
  by rewrite !set_store_store, Ha.
Qed.
End queries.

(** ** On the ledgers the program reaches *)
Section reachable.
Context `{Blake2b, Ed25519, LedgerConstants}.
Implicit Types (l : ledger astore) (b : block).

(** C16: the answer of [process] is that of the decision table:
    which of the checks fails first, for every kind of block. *)
Theorem process_code l fuel b :
  reach l → digest_ok (store l) b → (enough_fuel l ≤ fuel)%nat →
  ∃ r l', process fuel b l = Done (r, l') ∧ code r = classify (store l) b.
Proof.
  intros Hl Hd Hf. destruct (reach_valid _ Hl) as (g & hist & HI).
  destruct (process_run l g hist fuel b HI Hd Hf) as (r & l' & Hp & _). exists r, l'. split; [done|].
  pose proof (classify_ok fuel b l g hist HI) as Hc. unfold wlp in Hc. by rewrite Hp in Hc.
Qed.

(** The amount of a stored block is how much it changed the
    balance of its account, as the balances before and after it say. *)
Lemma amount_exact l fuel h b sc :
  reach l → a_lookup (store l) h = Some (b, sc) → (enough_fuel l ≤ fuel)%nat →
  ∃ before after, ledger_balance fuel h l = Done (after, l) ∧
    (if is_zero (block_previous b) then before = U 16 0
     else ledger_balance fuel (block_previous b) l = Done (before, l)) ∧
    ledger_amount fuel h l = Done (U 16 (Z.abs (uval after - uval before)), l).
Proof.
  intros Hl Eb Hf. destruct (reach_valid _ Hl) as (g & hist & HI). unfold enough_fuel in Hf.
  destruct (inv_dom _ _ _ HI h) as [[m Em] _]; [by rewrite Eb|].
  pose proof (amount_compute_any _ _ _ HI fuel h b sc m Eb Em) as Ha. unfold amount_of, prev_balance in Ha.
  assert (Hbal : ∀ x xm, g !! x = Some xm → ledger_balance fuel x l = Done (m_balance xm, l)).
  { intros x xm Ex. unfold ledger_balance, st. rewrite (balance_compute_correct _ _ _ HI fuel x xm) by (done || lia).
    by rewrite set_store_store. }
  assert (Hamt : ∀ a, amount_compute fuel h (store l) = Done (a, store l) → ledger_amount fuel h l = Done (a, l)).
  { intros a Ea. unfold ledger_amount, st. by rewrite Ea, set_store_store. }
  destruct (inv_block _ _ _ HI _ _ _ _ Eb Em) as (_ & _ & _ & _ & Hfol & _). unfold follows in Hfol.
  destruct (is_zero (block_previous b)) eqn:Hz.
  - exists (U 16 0), (m_balance m). split_and!; [by apply Hbal|done|]. rewrite uval_zero. apply Hamt, Ha. lia.
  - destruct (links b) eqn:Hlk.
    + destruct Hfol as (pb & pm & _ & Epm & _). exists (m_balance pm), (m_balance m).
      split_and!; [by apply Hbal|by apply Hbal|]. rewrite Epm in Ha. apply Hamt, Ha. lia.
    + destruct Hfol as [Hp _]. by rewrite Hp, is_zero_0 in Hz.
Qed.
End reachable.
