(* ===== verification/VoteProps.v ===== *)
(** * Properties of votes and of the tally

    Round trips of the wire and table formats of a vote, the collection of
    votes of an election, and the tally on a reachable ledger. *)

From S2P Require Import Prelude Crypto Blocks Common Stats Store Ledger Votes StoreLemmas.
From S2P Require Import LedgerInv Visitors Reach.

(** ** Weights of several representatives *)
Section weights.
Context `{Blake2b, Ed25519, LedgerConstants}.

Definition rep_weight (s : astore) (r : u256) : Z := uval (default (U 16 0) (a_rep s !! r)).

(** Accounts whose representative is among [reps] hold the weights of [reps]. *)
Lemma weights_of {A} (look : u256 → option (block * u256)) accounts (reps : gmap u256 A) :
  map_sum (λ r _, weight_of look accounts r) reps =
  map_sum (λ _ i, if decide (is_Some (reps !! rep_account look i)) then uval (balance i) else 0) accounts.
Proof.
  induction reps as [|r x reps Hr IH] using map_ind.
  - rewrite map_sum_empty. etrans; [|symmetry; apply map_sum_ext; intros k i _].
    2: { rewrite decide_False; [reflexivity|]. rewrite lookup_empty. by intros []. }
    clear. induction accounts as [|k i m Hk IH] using map_ind; [by rewrite map_sum_empty|].
    rewrite map_sum_insert_new by done. lia.
  - rewrite map_sum_insert_new, IH by done. unfold weight_of. rewrite <-map_sum_add.
    apply map_sum_ext. intros k i _. set (q := rep_account look i).
    pose proof (lookup_insert_is_Some reps r q x) as Hq.
    destruct (decide (is_Some (<[r := x]> reps !! q))), (decide (q = r)) as [Eq|],
      (decide (is_Some (reps !! q))) as [Hs|]; try lia; try naive_solver.
    rewrite Eq, Hr in Hs. by destruct Hs.
Qed.

Lemma weights_bounded {A} s g hist (reps : gmap u256 A) : Inv s g hist →
  map_sum (λ r _, rep_weight s r) reps ≤ 2 ^ 128 - 1.
Proof.
  intros HI. rewrite <-(inv_supply _ _ _ HI).
  assert (0 ≤ in_flight s) by (apply map_sum_nonneg; intros k p _; apply uval_range).
  transitivity (held s); [|lia].
  rewrite (map_sum_ext _ (λ r _, weight_of (a_lookup s) (a_accounts s) r)).
  2: { intros r _ _. by apply (inv_exact_weight _ _ _ _ HI). }
  rewrite weights_of. apply map_sum_le. intros k i _. pose proof (uval_range (balance i)).
  case_decide; lia.
Qed.
End weights.

(** ** Totals *)
Section totals.
Context `{Blake2b} (w : u256 → u128).
Implicit Types (l : list (u256 * block)) (h : u256).

(** The weights behind the blocks with hash [h] in a list of votes. *)
Definition votes_for h l : Z :=
  foldr (λ e acc, (if decide (block_hash e.2 = h) then uval (w e.1) else 0) + acc) 0 l.
Definition all_votes l : Z := foldr (λ e acc, uval (w e.1) + acc) 0 l.

Lemma votes_for_le h l : 0 ≤ votes_for h l ≤ all_votes l.
Proof.
  induction l as [|[a b] l IH]; simpl; [done|]. pose proof (uval_range (w a)).
  case_decide; lia.
Qed.
Lemma votes_for_snoc h l a b : votes_for h (l ++ [(a, b)]) =
  votes_for h l + if decide (block_hash b = h) then uval (w a) else 0.
Proof. unfold votes_for. induction l as [|[a' b'] l IH]; simpl; [|rewrite IH]; lia. Qed.
Lemma all_votes_app l l' : all_votes (l ++ l') = all_votes l + all_votes l'.
Proof. induction l as [|[a b] l IH]; simpl; [|rewrite IH]; lia. Qed.

Definition add_votes (acc : gmap u256 (block * u128)) l :=
  foldl (λ acc e, add_vote acc e.2 (w e.1)) acc l.

(** [acc] holds the totals of the votes [l]. *)
Definition totals_of (acc : gmap u256 (block * u128)) l : Prop := ∀ h,
  match acc !! h with
  | Some (b, t) => block_hash b = h ∧ uval t = votes_for h l ∧ (∃ a, (a, b) ∈ l)
  | None => ∀ a b, (a, b) ∈ l → block_hash b ≠ h
  end.

Lemma add_vote_ok acc l a b : totals_of acc l → all_votes (l ++ [(a, b)]) < 2 ^ 128 →
  totals_of (add_vote acc b (w a)) (l ++ [(a, b)]).
Proof.
  intros Ht Hb h. rewrite votes_for_snoc. rewrite all_votes_app in Hb. simpl in Hb.
  pose proof (votes_for_le h l) as Hl. pose proof (uval_range (w a)) as Hw.
  specialize (Ht h). unfold add_vote. destruct (decide (block_hash b = h)) as [<-|Hne].
  - destruct (acc !! block_hash b) as [[b0 t]|] eqn:E; rewrite lookup_insert_eq.
    + destruct Ht as (Hh & Hv & a0 & Hin). split_and!; [done| |].
      * rewrite uval_add_small; [by rewrite Hv|]. rewrite Hv. change (modulus 16) with (2 ^ 128). lia.
      * exists a0. set_solver.
    + split_and!; [done| |exists a; set_solver].
      rewrite uval_add_small; rewrite uval_zero; [|change (modulus 16) with (2 ^ 128); lia].
      enough (votes_for (block_hash b) l = 0) by lia. clear -Ht.
      induction l as [|[a' b'] l IH]; simpl; [done|].
      rewrite decide_False; [|apply (Ht a'); set_solver]. rewrite IH; [done|].
      intros a0 b0 Hin. apply (Ht a0). set_solver.
  - assert (∀ v, (<[block_hash b := v]> acc) !! h = acc !! h) as Hi.
    { intros v. by rewrite lookup_insert_ne. }
    assert (match acc !! h with
      | Some (b0, t) => block_hash b0 = h ∧ uval t = votes_for h l + 0 ∧ (∃ a0, (a0, b0) ∈ l ++ [(a, b)])
      | None => ∀ a0 b0, (a0, b0) ∈ l ++ [(a, b)] → block_hash b0 ≠ h end) as Hg.
    { destruct (acc !! h) as [[b0 t]|].
      - destruct Ht as (? & ? & a0 & ?). split_and!; [done|lia|exists a0; set_solver].
      - intros a0 b0 [?|Hx]%elem_of_app; [by eapply Ht|].
        apply list_elem_of_singleton in Hx. by injection Hx as -> ->. }
    destruct (acc !! block_hash b) as [[b0 t]|]; by rewrite Hi.
Qed.

Lemma add_votes_ok l acc k : totals_of acc k → all_votes (k ++ l) < 2 ^ 128 →
  totals_of (add_votes acc l) (k ++ l).
Proof.
  revert acc k. induction l as [|[a b] l IH]; intros acc k Ht Hb; simpl.
  - by rewrite app_nil_r.
  - rewrite (cons_middle _ k l), app_assoc. rewrite (cons_middle _ k l), app_assoc in Hb.
    apply IH; [|done]. apply add_vote_ok; [done|]. rewrite all_votes_app in Hb.
    assert (0 ≤ all_votes l); [|lia]. pose proof (votes_for_le (U 32 0) l). lia.
Qed.

Lemma totals_empty : totals_of ∅ [].
Proof. intros h. rewrite lookup_empty. set_solver. Qed.
End totals.

(** ** The greatest total *)
Section greatest.
Context `{Unordered}.
Implicit Types (m : gmap u128 block) (t : gmap u256 (block * u128)).

Definition keep (acc : option (u128 * block)) (e : u128 * block) : option (u128 * block) :=
  match acc with
  | Some (k, _) => if u_ltb k e.1 then Some e else acc
  | None => Some e
  end.

Lemma keep_max l acc : (is_Some acc ∨ l ≠ []) → ∃ e, foldl keep acc l = Some e ∧
  (e ∈ l ∨ acc = Some e) ∧ (∀ e', e' ∈ l ∨ acc = Some e' → uval e'.1 ≤ uval e.1).
Proof.
  revert acc. induction l as [|x l IH]; intros acc Hne; simpl.
  - destruct Hne as [[e ->]|]; [|done]. exists e. set_solver by lia.
  - destruct (IH (keep acc x)) as (e & He & Hin & Hmax).
    { left. unfold keep. destruct acc as [[k b]|]; [destruct (u_ltb k x.1)|]; eauto. }
    exists e. split; [done|]. unfold keep in *. destruct acc as [[k b]|].
    + destruct (u_ltb_spec k x.1); (split; [set_solver|]); intros e' [[->|Hx]%elem_of_cons|Hx];
        try injection Hx as <-.
      * apply Hmax. by right.
      * apply Hmax. by left.
      * etrans; [|apply (Hmax x); by right]. simpl. lia.
      * etrans; [|apply (Hmax (k, b)); by right]. simpl. lia.
      * apply Hmax. by left.
      * apply Hmax. by right.
    + split; [set_solver|]. intros e' [[->|Hx]%elem_of_cons|Hx]; [|apply Hmax; by left|done].
      apply Hmax. by right.
Qed.

Lemma greatest_max m : m ≠ ∅ → ∃ k b, greatest m = Some (k, b) ∧ m !! k = Some b ∧
  ∀ k' b', m !! k' = Some b' → uval k' ≤ uval k.
Proof.
  intros Hm. destruct (keep_max (map_to_list m) None) as ([k b] & He & Hin & Hmax).
  { right. by rewrite map_to_list_empty_iff. }
  exists k, b. split; [exact He|]. destruct Hin as [Hin|]; [|done].
  apply elem_of_map_to_list in Hin. split; [done|]. intros k' b' Hk'.
  apply (Hmax (k', b')). left. by apply elem_of_map_to_list.
Qed.

Lemma by_total_lookup l acc k b : foldl by_total acc l !! k = Some b →
  acc !! k = Some b ∨ ∃ h, (h, (b, k)) ∈ l.
Proof.
  revert acc. induction l as [|[h [b' k']] l IH]; intros acc Hk; simpl in *; [by left|].
  apply IH in Hk as [Hk|[h' Hk]]; [|right; exists h'; set_solver].
  unfold by_total in Hk; simpl in Hk. apply lookup_insert_Some in Hk as [[<- <-]|[_ ?]]; [|by left].
  right. exists h. set_solver.
Qed.

Lemma by_total_some l acc : (∀ k, is_Some (acc !! k) → is_Some (foldl by_total acc l !! k)) ∧
  (∀ h b k, (h, (b, k)) ∈ l → is_Some (foldl by_total acc l !! k)).
Proof.
  revert acc. induction l as [|[h0 [b0 k0]] l IH]; intros acc; simpl; [set_solver|].
  destruct (IH (by_total acc (h0, (b0, k0)))) as [IH1 IH2].
  assert (is_Some (by_total acc (h0, (b0, k0)) !! k0)) as H0.
  { unfold by_total; simpl. rewrite lookup_insert_eq. eauto. }
  split.
  - intros k Hk. apply IH1. unfold by_total; simpl. apply lookup_insert_is_Some'. by right.
  - intros h b k [[= -> -> ->]|Hin]%elem_of_cons; [by apply IH1|by eapply IH2].
Qed.
End greatest.

(** ** Properties *)
Section props.
Context `{Blake2b, Ed25519, LedgerConstants, Unordered}.

(** The weight behind the blocks with the hash of [b]. *)
Definition support (s : astore) (vs : votes) (b : block) : Z :=
  map_sum (λ a b', if decide (block_hash b' = block_hash b) then rep_weight s a else 0) (rep_votes vs).

Definition stored_weight (s : astore) (a : u256) : u128 := default (U 16 0) (a_rep s !! a).

Lemma votes_for_support s vs b :
  votes_for (stored_weight s) (block_hash b) (iterate (rep_votes vs)) = support s vs b.
Proof.
  unfold support. rewrite <-(map_sum_list _ _ (iterate (rep_votes vs))) by apply iterate_perm.
  done.
Qed.

Lemma all_votes_sum s vs :
  all_votes (stored_weight s) (iterate (rep_votes vs)) = map_sum (λ r _, rep_weight s r) (rep_votes vs).
Proof. rewrite <-(map_sum_list _ _ (iterate (rep_votes vs))) by apply iterate_perm. done. Qed.

Lemma weight_run (l : ledger astore) a : check_bootstrap_weights l = false →
  weight a l = Done (stored_weight (store l) a, l).
Proof.
  intros Hc. unfold weight, mbind, M_bind, gets. rewrite Hc. unfold st. simpl. by destruct l.
Qed.

Lemma tally_totals_run (l : ledger astore) reps acc : check_bootstrap_weights l = false →
  tally_totals reps acc l = Done (add_votes (stored_weight (store l)) acc reps, l).
Proof.
  intros Hc. revert acc. induction reps as [|[a b] reps IH]; intros acc; [done|]. simpl.
  by rewrite (bind_done _ _ _ _ _ (weight_run l a Hc)), IH.
Qed.

Lemma iterate_in {V} (m : gmap u256 V) k v : (k, v) ∈ iterate m ↔ m !! k = Some v.
Proof. by rewrite iterate_perm, elem_of_map_to_list. Qed.

(** C28: on a reachable ledger past the bootstrap phase the winner of
    an election ends with the exact weight of the representatives behind a
    block they voted for, and no other block has more; the additions modulo
    2^128 do not wrap. *)
Theorem winner_max (l : ledger astore) vs :
  reach l → check_bootstrap_weights l = false → rep_votes vs ≠ ∅ →
  ∃ t b, winner vs l = Done ((t, b), l) ∧ (∃ a, rep_votes vs !! a = Some b) ∧
    uval t = support (store l) vs b ∧
    ∀ a b', rep_votes vs !! a = Some b' → support (store l) vs b' ≤ uval t.
Proof.
  intros Hl Hc Hne. destruct (reach_valid _ Hl) as (g & hist & HI).
  set (w := stored_weight (store l)). set (T := add_votes w ∅ (iterate (rep_votes vs))).
  assert (HT : totals_of w T (iterate (rep_votes vs))).
  { apply (add_votes_ok w _ ∅ []); [apply totals_empty|]. simpl. unfold w. rewrite all_votes_sum.
    pose proof (weights_bounded _ _ _ (rep_votes vs) HI). lia. }
  set (R := foldl by_total ∅ (iterate T)).
  destruct (by_total_some (iterate T) ∅) as [_ Hsome].
  assert (Hb : ∀ a b', rep_votes vs !! a = Some b' → ∃ b0 t, T !! block_hash b' = Some (b0, t) ∧
    uval t = support (store l) vs b' ∧ is_Some (R !! t)).
  { intros a b' Ha. specialize (HT (block_hash b')). destruct (T !! block_hash b') as [[b0 t]|] eqn:E.
    - destruct HT as (_ & Ht & _). exists b0, t. unfold w in Ht. rewrite votes_for_support in Ht.
      split_and!; [done..|]. by apply (Hsome (block_hash b') b0), iterate_in.
    - exfalso. apply (HT a b'); [|done]. by apply iterate_in. }
  destruct (greatest_max R) as (t & b & Hg & HR & Hmax).
  { intros HR. apply map_choose in Hne as (a & b' & Ha).
    destruct (Hb _ _ Ha) as (? & t & _ & _ & [x Hx]). by rewrite HR, lookup_empty in Hx. }
  exists t, b. split.
  { unfold winner, tally.
    rewrite (bind_done _ _ _ R l); [by rewrite Hg|].
    by rewrite (bind_done _ _ _ _ _ (tally_totals_run l _ ∅ Hc)). }
  apply by_total_lookup in HR as [HR|[h Hh]]; [by rewrite lookup_empty in HR|].
  apply iterate_in in Hh. specialize (HT h). rewrite Hh in HT. destruct HT as (<- & Ht & a & Ha).
  unfold w in Ht. rewrite votes_for_support in Ht. split_and!; [|done|].
  - exists a. by apply iterate_in.
  - intros a' b' Ha'. destruct (Hb _ _ Ha') as (b0 & t' & _ & <- & [x Hx]). by eapply Hmax.
Qed.

Lemma votes_vote_result v vs :
  let '(r, vs') := votes_vote v vs in
  rep_votes vs' = <[v_account v := v_block v]> (rep_votes vs) ∧ votes_id vs' = votes_id vs ∧
  r = match rep_votes vs !! v_account v with
      | None => tally_vote
      | Some b => if decide (b = v_block v) then tally_confirm else tally_changed
      end.
Proof.
  unfold votes_vote. destruct (rep_votes vs !! v_account v) as [b|] eqn:E; [|done].
  destruct (block_eqb b (v_block v)) eqn:Eb.
  - apply block_eqb_eq in Eb as <-. simpl. rewrite insert_id, decide_True by done. done.
  - simpl. rewrite decide_False; [done|]. intros ->. by rewrite (proj2 (block_eqb_eq _ _)) in Eb.
Qed.

Lemma uncontested_same vs :
  uncontested vs = true ↔
  ∀ a b a' b', rep_votes vs !! a = Some b → rep_votes vs !! a' = Some b' → b = b'.
Proof.
  unfold uncontested. destruct (iterate (rep_votes vs)) as [|[a0 b0] l] eqn:E.
  - split; [|done]. intros _ a b a' b' Ha. apply iterate_in in Ha. rewrite E in Ha. set_solver.
  - rewrite forallb_forall, <-E. split.
    + intros Hall. assert (∀ a b, rep_votes vs !! a = Some b → b = b0) as Hb.
      { intros a b Ha%iterate_in%list_elem_of_In%Hall. by apply block_eqb_eq. }
      intros a b a' b' Ha Ha'. by rewrite (Hb _ _ Ha), (Hb _ _ Ha').
    + intros Hall [a b] Hin%list_elem_of_In%iterate_in. apply block_eqb_eq.
      apply (Hall a b a0 b0); [done|]. apply iterate_in. rewrite E. by left.
Qed.

(** Recording a vote makes its block the one its
    representative stands for and changes no other; the answer tells a first,
    a repeated and a changed vote apart.  Afterwards the election is
    uncontested exactly when every other representative stands for that block
    too, whatever the order the votes are visited in. *)
Lemma election_votes v vs :
  let '(r, vs') := votes_vote v vs in
  rep_votes vs' = <[v_account v := v_block v]> (rep_votes vs) ∧ votes_id vs' = votes_id vs ∧
  r = match rep_votes vs !! v_account v with
      | None => tally_vote
      | Some b => if decide (b = v_block v) then tally_confirm else tally_changed
      end ∧
  (uncontested vs' = true ↔ ∀ a b, a ≠ v_account v → rep_votes vs !! a = Some b → b = v_block v).
Proof.
  pose proof (votes_vote_result v vs) as Hr. destruct (votes_vote v vs) as [r vs'].
  destruct Hr as (Hv & Hi & Hr). split_and!; [done..|]. rewrite uncontested_same, Hv. split.
  - intros Hall a b Ha Hb. apply (Hall a b (v_account v) (v_block v)); [by rewrite lookup_insert_ne|].
    apply lookup_insert_eq.
  - intros Hall. assert (∀ a b, <[v_account v := v_block v]> (rep_votes vs) !! a = Some b → b = v_block v) as Hb.
    { intros a b. rewrite lookup_insert_Some. intros [[_ <-]|[Hne Hl]]; [done|]. by eapply Hall. }
    intros a b a' b' Ha%Hb Ha'%Hb. congruence.
Qed.

(** C34: reading a serialised vote, on the wire with or without
    the type code of its block or from the table of votes, gives the vote back
    and leaves the rest of the stream. *)
Theorem vote_roundtrip v s :
  vote_of_stream (vote_serialize v ++ s) = Done (Some (v, s)) ∧
  vote_of_stream_typed (block_type_of (v_block v)) (vote_serialize_typed v ++ s) = Done (Some (v, s)) ∧
  vote_of_val (vote_serialize v) = Done v.
Proof.
  split_and!; [apply vote_of_stream_serialize|apply vote_of_stream_typed_serialize|
    apply vote_of_val_serialize].
Qed.

(** [vote::deserialize] reads a block of type
    [invalid], so every stream that holds an account, a signature and a
    sequence number trips the assertion of [deserialize_block], also one that
    [vote::serialize] wrote. *)
Lemma vote_deserialize_faults v s :
  vote_deserialize (vote_serialize v ++ s) = Fault assertion_failed.
Proof.
  destruct v as [sq b a sg]. unfold vote_deserialize, read_vote, vote_serialize; simpl.
  by rewrite <-!app_assoc, read_vote_head_app.
Qed.

(** A vote made with the key of its account validates. *)
Lemma vote_signed `{!Ed25519Correct} prv sequence b :
  vote_validate (make_vote (ed25519_publickey prv) prv sequence b) = false.
Proof. apply validate_sign_message. Qed.
End props.
