(* ===== verification/StoreRefine.v ===== *)
(** * The store on LMDB implements the abstract store

    [refines t s]: the tables of the transaction [t] hold the encodings of
    the maps of [s].  Every method of [block_store] run on related states
    gives the same result, or trips the same assertion, and keeps the
    relation. *)

From S2P Require Import Prelude Crypto Blocks Common Stats Store Ledger Votes Lmdb Versioning BlockStore StoreLemmas.

(** ** The order of keys *)

Lemma bytes_le_refl a : bytes_le a a.
Proof.
  unfold bytes_le. induction a as [|x a IH]; simpl; [done|].
  by destruct (u_ltb_spec x x); [lia|].
Qed.

Lemma bytes_le_app a b c d : length a = length c →
  bytes_le (a ++ b) (c ++ d) ↔ if decide (a = c) then bytes_le b d else bytes_le a c.
Proof.
  unfold bytes_le. revert c. induction a as [|x a IH]; intros [|y c] Hl; simplify_eq/=; [done|].
  destruct (u_ltb_spec x y), (u_ltb_spec y x); try (rewrite decide_False; [done|]; intros [= ->]; lia).
  assert (x = y) as -> by (apply uval_inj; lia). rewrite IH by done.
  destruct (decide (a = c)) as [->|Hne].
  - by rewrite decide_True.
  - by rewrite decide_False; [|congruence].
Qed.

#[export] Instance bytes_le_total : Total bytes_le.
Proof.
  unfold bytes_le. intros a. induction a as [|x a IH]; intros [|y b]; simpl; auto.
  destruct (u_ltb_spec x y), (u_ltb_spec y x); auto.
Qed.
#[export] Instance bytes_le_trans : Transitive bytes_le.
Proof.
  unfold bytes_le. intros a. induction a as [|x a IH]; intros [|y b] [|z c]; simpl; try done.
  destruct (u_ltb_spec x y), (u_ltb_spec y x), (u_ltb_spec y z), (u_ltb_spec z y),
    (u_ltb_spec x z), (u_ltb_spec z x); try done; try lia. apply IH.
Qed.
Lemma bytes_le_antisymm a b : bytes_le a b → bytes_le b a → a = b.
Proof.
  unfold bytes_le. revert b. induction a as [|x a IH]; intros [|y b]; simpl; try done.
  destruct (u_ltb_spec x y), (u_ltb_spec y x); try done; try lia. intros Ha Hb.
  f_equal; [apply uval_inj; lia|by apply IH].
Qed.

#[export] Instance key_value_le_total V : Total (key_value_le (V:=V)).
Proof. intros a b. apply bytes_le_total. Qed.
#[export] Instance key_value_le_trans V : Transitive (key_value_le (V:=V)).
Proof. intros a b c. apply bytes_le_trans. Qed.

#[local] Transparent be_val le_val write_be be_bytes.

Lemma be_val_cons x l : be_val (x :: l) = uval x * modulus (length l) + be_val l.
Proof.
  unfold be_val. simpl. rewrite le_val_app, length_rev. simpl. lia.
Qed.
Lemma bytes_le_val a b : length a = length b → bytes_le a b ↔ be_val a ≤ be_val b.
Proof.
  unfold bytes_le. revert b. induction a as [|x a IH]; intros [|y b] Hl; simplify_eq/=; [done|].
  rewrite !be_val_cons, Hl. pose proof (be_val_range a) as Ha. pose proof (be_val_range b) as Hb.
  rewrite Hl in Ha. pose proof (modulus_pos (length b)).
  destruct (u_ltb_spec x y), (u_ltb_spec y x).
  - lia.
  - split; [intros _; nia|done].
  - split; [done|]. nia.
  - assert (x = y) as -> by (apply uval_inj; lia). rewrite IH by done. lia.
Qed.
Lemma be_val_write {n} (x : uint n) : be_val (write_be x) = uval x.
Proof. unfold write_be. rewrite be_val_be_bytes. apply Z.mod_small, uval_range. Qed.

#[local] Opaque be_val le_val write_be be_bytes.

Lemma hash_le_bytes a b : hash_le a b ↔ bytes_le (write_be a) (write_be b).
Proof. rewrite bytes_le_val, !be_val_write; [done|]. by rewrite !length_write_be. Qed.

(** ** Encoded maps *)

#[export] Instance write_be_inj n : Inj (=) (=) (@write_be n).
Proof. intros x y E. exact (encode_inj x y E). Qed.
#[export] Instance write_le_inj n : Inj (=) (=) (@write_le n).
Proof.
  intros x y E. pose proof (read_le_write x []) as Hx.
  rewrite app_nil_r, E in Hx. rewrite <-(app_nil_r (write_le y)), read_le_write in Hx. by injection Hx.
Qed.
#[export] Instance pending_key_val_inj : Inj (=) (=) pending_key_val.
Proof. intros x y E. exact (encode_inj x y E). Qed.

Section encoded.
Context `{Countable K} {V : Type} (ek : K → bytes) (ev : V → bytes) `{!Inj (=) (=) ek}.
Implicit Types (m : gmap K V).

Definition encoded m : gmap bytes bytes := kmap ek (ev <$> m).

Lemma encoded_lookup m k : encoded m !! ek k = ev <$> m !! k.
Proof. unfold encoded. by rewrite lookup_kmap, lookup_fmap. Qed.
Lemma encoded_insert m k v : encoded (<[k := v]> m) = <[ek k := ev v]> (encoded m).
Proof. unfold encoded. by rewrite fmap_insert, kmap_insert. Qed.
Lemma encoded_delete m k : encoded (delete k m) = delete (ek k) (encoded m).
Proof. unfold encoded. by rewrite fmap_delete, kmap_delete. Qed.

Lemma encoded_list m : map_to_list (encoded m) ≡ₚ (λ e, (ek e.1, ev e.2)) <$> map_to_list m.
Proof.
  unfold encoded. rewrite (map_to_list_kmap ek), map_to_list_fmap, <-list_fmap_compose.
  by apply reflexive_eq, list_fmap_ext.
Qed.
Lemma encoded_size m : size (encoded m) = size m.
Proof. by rewrite <-!length_map_to_list, encoded_list, length_fmap. Qed.

(** Iterating over encoded entries is iterating over the entries, when the
    encoding keeps the order of the keys. *)
Context (le : K → K → Prop) `{!RelDecision le}.
Context (Hle : ∀ a b, le a b ↔ bytes_le (ek a) (ek b)).

Lemma filter_encoded from m :
  map_to_list (filter (λ e, bytes_le (ek from) e.1) (encoded m)) ≡ₚ
  (λ e, (ek e.1, ev e.2)) <$> map_to_list (filter (λ kv, le from kv.1) m).
Proof.
  rewrite <-encoded_list. apply reflexive_eq. f_equal. apply map_eq. intros kb.
  apply option_eq. intros vb. unfold encoded.
  rewrite map_lookup_filter_Some, !lookup_kmap_Some by done. simpl. split.
  - intros [(k & -> & Hk) Hb]. exists k. split; [done|]. rewrite lookup_fmap in Hk |- *.
    apply fmap_Some in Hk as (v & Hk & ->). apply fmap_Some. exists v. split; [|done].
    apply map_lookup_filter_Some. split; [done|]. by apply Hle.
  - intros (k & -> & Hk). rewrite lookup_fmap in Hk. apply fmap_Some in Hk as (v & Hk & ->).
    apply map_lookup_filter_Some in Hk as [Hk Hb]. split; [|by apply Hle].
    exists k. split; [done|]. by rewrite lookup_fmap, Hk.
Qed.

Lemma entry_le_total : Total (entry_le (V:=V) le).
Proof. intros a b. unfold entry_le. rewrite !Hle. apply bytes_le_total. Qed.

Lemma range_encoded from m :
  range (ek from) (encoded m) = (λ e, (ek e.1, ev e.2)) <$> cursor le from m.
Proof.
  unfold range, cursor. pose proof entry_le_total.
  apply (Sorted_unique_strong key_value_le).
  - intros [k1 v1] [k2 v2]. rewrite merge_sort_Permutation, elem_of_map_to_list.
    intros [H1 _]%map_lookup_filter_Some. rewrite list_elem_of_fmap.
    intros ([k v] & [= -> ->] & Hin). rewrite merge_sort_Permutation, elem_of_map_to_list in Hin.
    apply map_lookup_filter_Some in Hin as [Hin _]. unfold key_value_le; simpl. intros Ha Hb.
    pose proof (bytes_le_antisymm _ _ Ha Hb) as ->. rewrite encoded_lookup, Hin in H1.
    simpl in H1. congruence.
  - apply (Sorted_merge_sort _).
  - assert (Sorted (entry_le le) (merge_sort (entry_le le) (map_to_list (filter (λ kv, le from kv.1) m))))
      as Hs by apply (Sorted_merge_sort _).
    induction Hs as [|x l _ IH Hx]; simpl; constructor; [done|].
    destruct Hx; simpl; constructor. by apply Hle.
  - rewrite merge_sort_Permutation, filter_encoded. symmetry.
    apply fmap_Permutation, merge_sort_Permutation.
Qed.
End encoded.

Lemma key_le_bytes a b : key_le a b ↔ bytes_le (pending_key_val a) (pending_key_val b).
Proof.
  destruct a as [a1 a2], b as [b1 b2]. unfold pending_key_val, pending_key_serialize, key_le. simpl.
  rewrite bytes_le_app by (by rewrite !length_write_be).
  case_decide as E; rewrite <-hash_le_bytes; unfold hash_le.
  - apply (inj write_be) in E as ->. lia.
  - assert (uval a1 ≠ uval b1); [|lia]. intros Ee. by apply E, (f_equal write_be), uval_inj.
Qed.

(** ** The relation *)

(** The blocks of one type. *)
Definition blocks_of (t : block_type) (m : gmap (block_type * u256) (block * u256))
    : gmap u256 (block * u256) :=
  default ∅ ((map_curry (M1:=gmap block_type) (M2:=gmap u256) m) !! t).

Lemma blocks_of_lookup t m h : blocks_of t m !! h = m !! (t, h).
Proof.
  rewrite <-(lookup_map_curry (M1:=gmap block_type) (M2:=gmap u256) m t h). unfold blocks_of.
  destruct (map_curry m !! t); simpl; [done|apply lookup_empty].
Qed.
Lemma blocks_of_insert t m h v : blocks_of t (<[(t, h) := v]> m) = <[h := v]> (blocks_of t m).
Proof.
  apply map_eq. intros x. rewrite blocks_of_lookup. destruct (decide (x = h)) as [->|].
  - by rewrite !lookup_insert_eq.
  - rewrite !lookup_insert_ne by congruence. by rewrite blocks_of_lookup.
Qed.
Lemma blocks_of_insert_ne t t' m h v : t ≠ t' → blocks_of t (<[(t', h) := v]> m) = blocks_of t m.
Proof.
  intros Ht. apply map_eq. intros x. rewrite !blocks_of_lookup.
  by rewrite lookup_insert_ne by congruence.
Qed.
Lemma blocks_of_delete t m h : blocks_of t (delete (t, h) m) = delete h (blocks_of t m).
Proof.
  apply map_eq. intros x. rewrite blocks_of_lookup. destruct (decide (x = h)) as [->|].
  - by rewrite !lookup_delete_eq.
  - rewrite !lookup_delete_ne by congruence. by rewrite blocks_of_lookup.
Qed.
Lemma blocks_of_delete_ne t t' m h : t ≠ t' → blocks_of t (delete (t', h) m) = blocks_of t m.
Proof.
  intros Ht. apply map_eq. intros x. rewrite !blocks_of_lookup.
  by rewrite lookup_delete_ne by congruence.
Qed.
Lemma blocks_of_size t m :
  size (blocks_of t m) = size (filter (λ kv : block_type * u256 * (block * u256), kv.1.1 = t) m).
Proof.
  assert (filter (λ kv : block_type * u256 * (block * u256), kv.1.1 = t) m =
          kmap (pair t) (blocks_of t m)) as ->.
  { apply map_eq. intros [t' h]. apply option_eq. intros v.
    rewrite map_lookup_filter_Some, lookup_kmap_Some by apply _. simpl. split.
    - intros [Hm ->]. exists h. by rewrite blocks_of_lookup.
    - intros (h' & [= -> ->] & Hm). by rewrite blocks_of_lookup in Hm. }
  by rewrite <-!length_map_to_list, (map_to_list_kmap (pair t)), length_fmap.
Qed.

(** The table of a block type. *)
Definition block_db (t : block_type) : option dbi :=
  match t with
  | bt_send => Some send_blocks
  | bt_receive => Some receive_blocks
  | bt_open => Some open_blocks
  | bt_change => Some change_blocks
  | bt_state => Some state_blocks
  | bt_invalid | bt_not_a_block => None
  end.

Lemma block_db_of b : ∃ db, block_db (block_type_of b) = Some db.
Proof. destruct b; simpl; eauto. Qed.
Lemma block_db_inj t t' db : block_db t = Some db → block_db t' = Some db → t = t'.
Proof. destruct t, t'; simpl; congruence. Qed.

(** A block's value: its serialisation and its successor. *)
Definition block_val (v : block * u256) : bytes := block_serialize v.1 ++ write_be v.2.

Record refines `{LmdbSpec} (t : mdb_txn) (s : astore) : Prop := {
  rf_blocks : ∀ ty db, block_db ty = Some db →
    table t db = encoded write_be block_val (blocks_of ty (a_blocks s));
  rf_types : ∀ ty h v, a_blocks s !! (ty, h) = Some v → block_type_of v.1 = ty;
  rf_frontiers : table t frontiers = encoded write_be write_be (a_frontiers s);
  rf_accounts : table t accounts = encoded write_be account_info_val (a_accounts s);
  rf_pending : table t pending_db = encoded pending_key_val pending_info_val (a_pending s);
  rf_info : table t blocks_info = encoded write_be block_info_val (a_info s);
  rf_rep : table t representation = encoded write_be write_be (a_rep s);
  rf_checksum : table t checksum = encoded write_le write_be (a_checksum s);
}.

Section refine.
Context `{LmdbSpec, Blake2b}.
Implicit Types (c : block_store) (s : astore).

Definition store_rel c s : Prop := refines (txn c) s.

(** ** Access to the tables *)

Lemma db_get_run db k c : db_get db k c = Done (table (txn c) db !! k, c).
Proof. unfold db_get, gets. by rewrite mdb_get_spec. Qed.

Lemma db_put_run db k v c : ∃ t', db_put db k v c = Done (tt, set_txn c t') ∧
  ∀ x, table t' x = upd (table (txn c)) db (<[k := v]> (table (txn c) db)) x.
Proof.
  destruct (mdb_put_spec db k v (txn c)) as (t' & Ht & Hx & _). exists t'.
  split; [|done]. unfold db_put. by rewrite Ht.
Qed.

Lemma db_try_del_run db k c :
  match table (txn c) db !! k with
  | Some _ => ∃ t', db_try_del db k c = Done (true, set_txn c t') ∧
      ∀ x, table t' x = upd (table (txn c)) db (delete k (table (txn c) db)) x
  | None => db_try_del db k c = Done (false, c)
  end.
Proof.
  pose proof (mdb_del_spec db k (txn c)) as Hd. unfold db_try_del. case_decide as Hk.
  - destruct Hk as [v Hk]. rewrite Hk. destruct Hd as (t' & -> & Hx & _). eauto.
  - apply eq_None_not_Some in Hk. by rewrite Hk, Hd.
Qed.

Lemma encoded_none `{Countable K} {V} (ek : K → bytes) (ev : V → bytes) `{!Inj (=) (=) ek} m k :
  m !! k = None → encoded ek ev m !! ek k = None.
Proof. intros Hk. by rewrite encoded_lookup, Hk. Qed.

(** A change of one table that is the encoding of the changed map. *)
Ltac other_table :=
  rewrite decide_False
    by (repeat match goal with Hd : block_db ?ty = Some _ |- _ => destruct ty; simplify_eq/= end; done).
Ltac change_table Hr Hx :=
  constructor; simpl; intros; try (rewrite Hx; unfold upd);
    [other_table; by apply (rf_blocks _ _ Hr)|by eapply (rf_types _ _ Hr)|..];
    first [rewrite decide_True by done | other_table; by destruct Hr].

Lemma rel_put_frontier t t' s k v : refines t s →
  (∀ x, table t' x = upd (table t) frontiers (<[write_be k := write_be v]> (table t frontiers)) x) →
  refines t' (set_frontiers <[k := v]> s).
Proof. intros Hr Hx. change_table Hr Hx. by rewrite encoded_insert, <-(rf_frontiers t s Hr) by apply _. Qed.
Lemma rel_put_account t t' s k v : refines t s →
  (∀ x, table t' x = upd (table t) accounts (<[write_be k := account_info_val v]> (table t accounts)) x) →
  refines t' (set_accounts <[k := v]> s).
Proof. intros Hr Hx. change_table Hr Hx. by rewrite encoded_insert, <-(rf_accounts t s Hr) by apply _. Qed.
Lemma rel_put_pending t t' s k v : refines t s →
  (∀ x, table t' x = upd (table t) pending_db (<[pending_key_val k := pending_info_val v]> (table t pending_db)) x) →
  refines t' (set_pending <[k := v]> s).
Proof. intros Hr Hx. change_table Hr Hx. by rewrite encoded_insert, <-(rf_pending t s Hr) by apply _. Qed.
Lemma rel_put_info t t' s k v : refines t s →
  (∀ x, table t' x = upd (table t) blocks_info (<[write_be k := block_info_val v]> (table t blocks_info)) x) →
  refines t' (set_info <[k := v]> s).
Proof. intros Hr Hx. change_table Hr Hx. by rewrite encoded_insert, <-(rf_info t s Hr) by apply _. Qed.
Lemma rel_put_rep t t' s k v : refines t s →
  (∀ x, table t' x = upd (table t) representation (<[write_be k := write_be v]> (table t representation)) x) →
  refines t' (set_rep <[k := v]> s).
Proof. intros Hr Hx. change_table Hr Hx. by rewrite encoded_insert, <-(rf_rep t s Hr) by apply _. Qed.
Lemma rel_put_checksum t t' s k v : refines t s →
  (∀ x, table t' x = upd (table t) checksum (<[write_le k := write_be v]> (table t checksum)) x) →
  refines t' (set_checksum <[k := v]> s).
Proof. intros Hr Hx. change_table Hr Hx. by rewrite encoded_insert, <-(rf_checksum t s Hr) by apply _. Qed.
Lemma rel_del_frontier t t' s k : refines t s →
  (∀ x, table t' x = upd (table t) frontiers (delete (write_be k) (table t frontiers)) x) →
  refines t' (set_frontiers (delete k) s).
Proof. intros Hr Hx. change_table Hr Hx. by rewrite encoded_delete, <-(rf_frontiers t s Hr) by apply _. Qed.
Lemma rel_del_account t t' s k : refines t s →
  (∀ x, table t' x = upd (table t) accounts (delete (write_be k) (table t accounts)) x) →
  refines t' (set_accounts (delete k) s).
Proof. intros Hr Hx. change_table Hr Hx. by rewrite encoded_delete, <-(rf_accounts t s Hr) by apply _. Qed.
Lemma rel_del_pending t t' s k : refines t s →
  (∀ x, table t' x = upd (table t) pending_db (delete (pending_key_val k) (table t pending_db)) x) →
  refines t' (set_pending (delete k) s).
Proof. intros Hr Hx. change_table Hr Hx. by rewrite encoded_delete, <-(rf_pending t s Hr) by apply _. Qed.
Lemma rel_del_info t t' s k : refines t s →
  (∀ x, table t' x = upd (table t) blocks_info (delete (write_be k) (table t blocks_info)) x) →
  refines t' (set_info (delete k) s).
Proof. intros Hr Hx. change_table Hr Hx. by rewrite encoded_delete, <-(rf_info t s Hr) by apply _. Qed.

(** ** Single-entry tables *)

Lemma sim_db_put db k v f :
  (∀ t t' s, refines t s → (∀ x, table t' x = upd (table t) db (<[k := v]> (table t db)) x) →
     refines t' (f s)) →
  sim store_rel (db_put db k v) (modify f).
Proof.
  intros Hf c s Hr. destruct (db_put_run db k v c) as (t' & -> & Hx). simpl.
  split; [done|]. by eapply Hf.
Qed.

Lemma sim_db_del `{Countable K} {V} db (ek : K → bytes) (ev : V → bytes) `{!Inj (=) (=) ek}
    (proj : astore → gmap K V) (set : (gmap K V → gmap K V) → astore → astore) k :
  (∀ t s, refines t s → table t db = encoded ek ev (proj s)) →
  (∀ t t' s, refines t s → (∀ x, table t' x = upd (table t) db (delete (ek k) (table t db)) x) →
     refines t' (set (delete k) s)) →
  sim store_rel (db_del db (ek k)) (a_del proj set k).
Proof.
  intros Ht Hd c s Hr. pose proof (db_try_del_run db (ek k) c) as Hrun.
  rewrite (Ht _ _ Hr), encoded_lookup in Hrun by done.
  unfold db_del, a_del, mbind, M_bind. destruct (proj s !! k) as [v|] eqn:E; simpl in Hrun.
  - destruct Hrun as (t' & -> & Hx). rewrite decide_True by eauto. simpl. split; [done|].
    eapply Hd; [exact Hr|]. intros x. rewrite Hx, (Ht _ _ Hr). done.
  - rewrite Hrun, decide_False; [done|]. by intros [].
Qed.

(** A method that only reads. *)
Lemma sim_read {A} (m : M block_store A) (f : astore → A) :
  (∀ c s, store_rel c s → m c = Done (f s, c)) → sim store_rel m (gets f).
Proof. intros Hm c s Hr. by rewrite (Hm c s Hr). Qed.

(** Looking up a key and decoding its value. *)
Lemma db_get_encoded `{Countable K} {V} db (ek : K → bytes) (ev : V → bytes) `{!Inj (=) (=) ek} m k c :
  table (txn c) db = encoded ek ev m → db_get db (ek k) c = Done (ev <$> m !! k, c).
Proof. intros Ht. by rewrite db_get_run, Ht, encoded_lookup by done. Qed.

Lemma val_uint256_write (a : u256) : val_uint256 (write_be a) = Done a.
Proof. exact (of_val_encode a). Qed.

Lemma frontier_get_sim h : sim store_rel (lmdb_frontier_get h) (frontier_get (S:=astore) h).
Proof.
  apply sim_read. intros c s Hr. unfold lmdb_frontier_get.
  rewrite (bind_done _ _ _ _ _ (db_get_encoded _ _ _ _ h _ (rf_frontiers _ _ Hr))).
  destruct (a_frontiers s !! h) as [a|]; [|done]. simpl. unfold lift. by rewrite val_uint256_write.
Qed.
Lemma frontier_put_sim h a : sim store_rel (lmdb_frontier_put h a) (frontier_put (S:=astore) h a).
Proof. apply sim_db_put. intros. by eapply rel_put_frontier. Qed.
Lemma frontier_del_sim h : sim store_rel (lmdb_frontier_del h) (frontier_del (S:=astore) h).
Proof.
  apply (sim_db_del frontiers write_be write_be); [apply rf_frontiers|].
  intros. by eapply rel_del_frontier.
Qed.

Lemma account_get_sim a : sim store_rel (lmdb_account_get a) (account_get (S:=astore) a).
Proof.
  apply sim_read. intros c s Hr. unfold lmdb_account_get.
  rewrite (bind_done _ _ _ _ _ (db_get_encoded _ _ _ _ a _ (rf_accounts _ _ Hr))).
  destruct (a_accounts s !! a) as [i|]; [|done]. simpl.
  pose proof (decode_encode_nil i) as Hi. simpl in Hi. unfold account_info_val. by rewrite Hi.
Qed.
Lemma account_put_sim a i : sim store_rel (lmdb_account_put a i) (account_put (S:=astore) a i).
Proof. apply sim_db_put. intros. by eapply rel_put_account. Qed.
Lemma account_del_sim a : sim store_rel (lmdb_account_del a) (account_del (S:=astore) a).
Proof.
  apply (sim_db_del accounts write_be account_info_val); [apply rf_accounts|].
  intros. by eapply rel_del_account.
Qed.

Lemma length_pending_info i : length (pending_info_val i) = 48%nat.
Proof.
  unfold pending_info_val, pending_info_serialize. by rewrite length_app, !length_write_be.
Qed.
Lemma length_block_info i : length (block_info_val i) = 48%nat.
Proof.
  unfold block_info_val, block_info_serialize. by rewrite length_app, !length_write_be.
Qed.

Lemma pending_get_sim k : sim store_rel (lmdb_pending_get k) (pending_get (S:=astore) k).
Proof.
  apply sim_read. intros c s Hr. unfold lmdb_pending_get.
  rewrite (bind_done _ _ _ _ _ (db_get_encoded _ _ _ _ k _ (rf_pending _ _ Hr))).
  destruct (a_pending s !! k) as [i|]; [|done]. simpl.
  rewrite bool_decide_true by apply length_pending_info.
  pose proof (decode_encode_nil i) as Hi. simpl in Hi.
  unfold pending_info_val, mbind, M_bind, assert_. by rewrite Hi.
Qed.
Lemma pending_put_sim k i : sim store_rel (lmdb_pending_put k i) (pending_put (S:=astore) k i).
Proof. apply sim_db_put. intros. by eapply rel_put_pending. Qed.
Lemma pending_del_sim k : sim store_rel (lmdb_pending_del k) (pending_del (S:=astore) k).
Proof.
  apply (sim_db_del pending_db pending_key_val pending_info_val); [apply rf_pending|].
  intros. by eapply rel_del_pending.
Qed.

Lemma block_info_get_sim h : sim store_rel (lmdb_block_info_get h) (block_info_get (S:=astore) h).
Proof.
  apply sim_read. intros c s Hr. unfold lmdb_block_info_get.
  rewrite (bind_done _ _ _ _ _ (db_get_encoded _ _ _ _ h _ (rf_info _ _ Hr))).
  destruct (a_info s !! h) as [i|]; [|done]. simpl.
  rewrite bool_decide_true by apply length_block_info.
  pose proof (decode_encode_nil i) as Hi. simpl in Hi.
  unfold block_info_val, mbind, M_bind, assert_. by rewrite Hi.
Qed.
Lemma block_info_put_sim h i : sim store_rel (lmdb_block_info_put h i) (block_info_put (S:=astore) h i).
Proof. apply sim_db_put. intros. by eapply rel_put_info. Qed.
Lemma block_info_del_sim h : sim store_rel (lmdb_block_info_del h) (block_info_del (S:=astore) h).
Proof.
  apply (sim_db_del blocks_info write_be block_info_val); [apply rf_info|].
  intros. by eapply rel_del_info.
Qed.

Lemma read_be_nil {n} (x : uint n) : read_be n (write_be x) = Some (x, []).
Proof. exact (decode_encode_nil x). Qed.

Lemma representation_get_sim a : sim store_rel (lmdb_representation_get a) (representation_get (S:=astore) a).
Proof.
  apply sim_read. intros c s Hr. unfold lmdb_representation_get.
  rewrite (bind_done _ _ _ _ _ (db_get_encoded _ _ _ _ a _ (rf_rep _ _ Hr))).
  destruct (a_rep s !! a) as [w|]; [|done]. simpl. by rewrite read_be_nil.
Qed.
Lemma representation_put_sim a w :
  sim store_rel (lmdb_representation_put a w) (representation_put (S:=astore) a w).
Proof. apply sim_db_put. intros. by eapply rel_put_rep. Qed.

Lemma checksum_get_sim p m : sim store_rel (lmdb_checksum_get p m) (checksum_get (S:=astore) p m).
Proof.
  intros c s Hr. simpl. unfold lmdb_checksum_get, checksum_key, assert_, mbind, M_bind.
  destruct (Z.land (uval p) 255 =? 0); [|done]. unfold checksum_db_key.
  rewrite (db_get_encoded _ write_le _ _ (U 8 (Z.lor (uval p) (uval m))) _ (rf_checksum _ _ Hr)).
  destruct (a_checksum s !! _) as [h|]; [|done]. simpl. by rewrite read_be_nil.
Qed.
Lemma checksum_put_sim p m h : sim store_rel (lmdb_checksum_put p m h) (checksum_put (S:=astore) p m h).
Proof.
  intros c s Hr. simpl. unfold lmdb_checksum_put, checksum_key, assert_, mbind, M_bind.
  destruct (Z.land (uval p) 255 =? 0); [|done].
  apply (sim_db_put checksum (checksum_db_key p m) (write_be h)
    (set_checksum <[U 8 (Z.lor (uval p) (uval m)) := h]>)); [|done].
  intros. by eapply rel_put_checksum.
Qed.

(** ** Iterators *)

Section iterators.
Context `{Countable K} {V : Type} (db : dbi) (ek : K → bytes) (ev : V → bytes) `{!Inj (=) (=) ek}.
Context (le : K → K → Prop) `{!RelDecision le}.
Context (Hle : ∀ a b, le a b ↔ bytes_le (ek a) (ek b)).

Lemma iterator_encoded from m c : table (txn c) db = encoded ek ev m →
  store_iterator_from db (ek from) c = Done ((λ e, (ek e.1, ev e.2)) <$> cursor le from m, c).
Proof.
  intros Ht. unfold store_iterator_from, gets. by rewrite mdb_cursor_spec, Ht, (range_encoded ek ev le).
Qed.

Lemma read_entries_encoded (gk : bytes → outcome K) (gv : bytes → outcome V) l c :
  (∀ k, gk (ek k) = Done k) → (∀ v, gv (ev v) = Done v) →
  read_entries gk gv ((λ e, (ek e.1, ev e.2)) <$> l) c = Done (l, c).
Proof.
  intros Hk Hv. induction l as [|[k v] l IH]; [done|]. rewrite fmap_cons. cbn [read_entries fst snd].
  unfold mbind, M_bind, lift. by rewrite Hk, Hv, IH.
Qed.

(** The first entry at or after a key tells whether the key is there. *)
Lemma cursor_first from (m : gmap K V) :
  match cursor le from m with
  | [] => m !! from = None
  | (k, _) :: _ => k = from ↔ is_Some (m !! from)
  end.
Proof.
  assert (Hin : ∀ k v, (k, v) ∈ cursor le from m ↔ m !! k = Some v ∧ le from k).
  { intros k v. unfold cursor. rewrite merge_sort_Permutation, elem_of_map_to_list.
    by rewrite map_lookup_filter_Some. }
  pose proof (entry_le_total (V:=V) ek le Hle) as Htot.
  assert (Hs : StronglySorted (entry_le (V:=V) le) (cursor le from m)).
  { assert (Transitive (entry_le (V:=V) le)).
    { intros a b c. unfold entry_le. rewrite !Hle. apply bytes_le_trans. }
    apply (StronglySorted_merge_sort _). }
  assert (Hrefl : le from from) by (apply Hle, bytes_le_refl).
  destruct (cursor le from m) as [|[k v] l].
  - destruct (m !! from) as [v|] eqn:E; [|done]. pose proof (proj2 (Hin from v) (conj E Hrefl)). set_solver.
  - destruct (proj1 (Hin k v)) as [Ek Hk]; [by left|]. split; [by intros <-|]. intros [w Hw].
    pose proof (proj2 (Hin from w) (conj Hw Hrefl)) as [[= ->]|Hl]%elem_of_cons; [done|].
    apply StronglySorted_inv in Hs as [_ Hall]. rewrite Forall_forall in Hall.
    specialize (Hall _ Hl). unfold entry_le in Hall; simpl in Hall.
    apply (inj ek), bytes_le_antisymm; by apply Hle.
Qed.
End iterators.

Lemma account_exists_sim a : sim store_rel (lmdb_account_exists a) (account_exists (S:=astore) a).
Proof.
  apply sim_read. intros c s Hr. unfold lmdb_account_exists, latest_iterator.
  rewrite (bind_done _ _ _ _ _ (iterator_encoded _ _ _ hash_le hash_le_bytes a _ _ (rf_accounts _ _ Hr))).
  pose proof (cursor_first write_be hash_le hash_le_bytes a (a_accounts s)) as Hc.
  destruct (cursor hash_le a (a_accounts s)) as [|[k i] l]; simpl.
  - rewrite Hc. by rewrite bool_decide_false by (by intros []).
  - unfold mbind, M_bind, lift. rewrite val_uint256_write. unfold mret, M_ret. do 2 f_equal.
    destruct (u_eqb_spec k a); symmetry; [apply bool_decide_true|apply bool_decide_false]; tauto.
Qed.

Lemma pending_key_of_val_val k : pending_key_of_val (pending_key_val k) = Done k.
Proof. exact (of_val_encode k). Qed.

Lemma pending_exists_sim k : sim store_rel (lmdb_pending_exists k) (pending_exists (S:=astore) k).
Proof.
  apply sim_read. intros c s Hr. unfold lmdb_pending_exists, pending_iterator.
  rewrite (bind_done _ _ _ _ _ (iterator_encoded _ _ _ key_le key_le_bytes k _ _ (rf_pending _ _ Hr))).
  pose proof (cursor_first pending_key_val key_le key_le_bytes k (a_pending s)) as Hc.
  destruct (cursor key_le k (a_pending s)) as [|[k' i] l]; simpl.
  - rewrite Hc. by rewrite bool_decide_false by (by intros []).
  - unfold mbind, M_bind, lift. rewrite pending_key_of_val_val. unfold mret, M_ret. do 2 f_equal.
    apply eq_bool_prop_intro. rewrite !Is_true_true, pending_key_eqb_eq, bool_decide_eq_true. tauto.
Qed.

Lemma latest_begin_sim a : sim store_rel (latest_begin (S:=block_store) a) (latest_begin (S:=astore) a).
Proof.
  apply sim_read. intros c s Hr. simpl.
  unfold latest_iterator.
  rewrite (bind_done _ _ _ _ _ (iterator_encoded _ _ _ hash_le hash_le_bytes a _ _ (rf_accounts _ _ Hr))).
  apply read_entries_encoded; [apply val_uint256_write|]. intros i. exact (of_val_encode i).
Qed.
Lemma pending_begin_sim k : sim store_rel (pending_begin (S:=block_store) k) (pending_begin (S:=astore) k).
Proof.
  apply sim_read. intros c s Hr. simpl.
  unfold pending_iterator.
  rewrite (bind_done _ _ _ _ _ (iterator_encoded _ _ _ key_le key_le_bytes k _ _ (rf_pending _ _ Hr))).
  apply read_entries_encoded; [apply pending_key_of_val_val|]. intros i. exact (of_val_encode i).
Qed.

Lemma block_count_sim : sim store_rel lmdb_block_count (store_block_count (S:=astore)).
Proof.
  apply sim_read. intros c s Hr.
  assert (Hn : ∀ ty db, block_db ty = Some db → entry_count db c = Done (table_size s ty, c)).
  { intros ty db Hdb. unfold entry_count, gets. rewrite mdb_entries_spec, (rf_blocks _ _ Hr ty db Hdb).
    by rewrite encoded_size, blocks_of_size by apply _. }
  unfold lmdb_block_count, mbind, M_bind.
  by rewrite (Hn bt_send), (Hn bt_receive), (Hn bt_open), (Hn bt_change), (Hn bt_state).
Qed.

(** ** Blocks *)

(** What [block_get_raw] returns, from the abstract store. *)
Definition raw_value s h : bytes * option block_type :=
  match find_table get_order s h, a_lookup s h with
  | Some t, Some v => (block_val v, Some t)
  | _, _ => ([], None)
  end.

Lemma db_get_block ty db h c s : refines (txn c) s → block_db ty = Some db →
  db_get db (write_be h) c = Done (block_val <$> a_blocks s !! (ty, h), c).
Proof.
  intros Hr Hdb. rewrite (db_get_encoded _ _ _ _ h _ (rf_blocks _ _ Hr ty db Hdb)).
  by rewrite blocks_of_lookup.
Qed.

(** Try the table of a type. *)
Ltac try_block t h c s Hr :=
  rewrite (db_get_block t _ h c s Hr eq_refl);
  let E := fresh "E" in destruct (a_blocks s !! (t, h)) as [?|] eqn:E;
  cbv beta iota delta [fmap option_fmap option_map].

(** One table tried after another. *)
Lemma find_table_cons t order s h : find_table (t :: order) s h =
  match a_blocks s !! (t, h) with Some _ => Some t | None => find_table order s h end.
Proof.
  unfold find_table. simpl. case_decide as E.
  - destruct E as [v Ev]. by rewrite Ev.
  - apply eq_None_not_Some in E. rewrite E. by destruct (list_find _ order) as [[]|].
Qed.

Lemma block_get_raw_run h c s : store_rel c s → block_get_raw h c = Done (raw_value s h, c).
Proof.
  intros Hr. unfold block_get_raw, mbind, M_bind, raw_value, a_lookup, get_order.
  rewrite !find_table_cons. try_block bt_send h c s Hr; [by simpl; rewrite E|].
  try_block bt_receive h c s Hr; [by simpl; rewrite E0|].
  try_block bt_open h c s Hr; [by simpl; rewrite E1|].
  try_block bt_change h c s Hr; [by simpl; rewrite E2|].
  by try_block bt_state h c s Hr; [simpl; rewrite E3|].
Qed.

Lemma raw_value_some s h v : a_lookup s h = Some v →
  ∃ t, find_table get_order s h = Some t ∧ raw_value s h = (block_val v, Some t) ∧
    a_blocks s !! (t, h) = Some v.
Proof.
  intros E. destruct (a_lookup_Some _ _ _ E) as (t & _ & Hb & Ht). exists t.
  unfold raw_value. by rewrite Ht, E.
Qed.
Lemma raw_value_none s h : a_lookup s h = None → raw_value s h = ([], None).
Proof. intros E. unfold raw_value. rewrite E. by destruct (find_table _ _ _). Qed.

Lemma length_block_val v : length (block_val v) = (block_size (block_type_of v.1) + 32)%nat.
Proof. unfold block_val. by rewrite length_app, length_block_serialize, length_write_be. Qed.
Lemma block_val_not_nil v : bool_decide (block_val v = []) = false.
Proof.
  apply bool_decide_false. intros E. apply (f_equal length) in E.
  rewrite length_block_val in E. simpl in E. lia.
Qed.

Lemma block_exists_run h c s : store_rel c s →
  lmdb_block_exists h c = Done (bool_decide (is_Some (a_lookup s h)), c).
Proof.
  intros Hr. unfold lmdb_block_exists, mbind, M_bind.
  destruct (a_lookup s h) as [v|] eqn:E.
  - rewrite bool_decide_true by eauto. unfold a_lookup, get_order in E.
    rewrite !find_table_cons in E. try_block bt_send h c s Hr; [done|].
    try_block bt_receive h c s Hr; [done|]. try_block bt_open h c s Hr; [done|].
    try_block bt_change h c s Hr; [done|]. by try_block bt_state h c s Hr.
  - rewrite bool_decide_false by (by intros []). pose proof (a_lookup_None _ _ E) as Hn.
    unfold get_order in Hn.
    try_block bt_send h c s Hr; [by rewrite Hn in * by set_solver|].
    try_block bt_receive h c s Hr; [by rewrite Hn in * by set_solver|].
    try_block bt_open h c s Hr; [by rewrite Hn in * by set_solver|].
    try_block bt_change h c s Hr; [by rewrite Hn in * by set_solver|].
    try_block bt_state h c s Hr; [by rewrite Hn in * by set_solver|]. done.
Qed.

Lemma block_exists_sim h : sim store_rel (lmdb_block_exists h) (block_exists (S:=astore) h).
Proof. apply sim_read. intros c s Hr. by apply block_exists_run. Qed.

Lemma block_get_sim h : sim store_rel (lmdb_block_get h) (block_get (S:=astore) h).
Proof.
  apply sim_read. intros c s Hr. unfold lmdb_block_get.
  rewrite (bind_done _ _ _ _ _ (block_get_raw_run h c s Hr)).
  destruct (a_lookup s h) as [[b sc]|] eqn:E.
  - destruct (raw_value_some _ _ _ E) as (t & _ & -> & Hb). rewrite block_val_not_nil.
    pose proof (rf_types _ _ Hr _ _ _ Hb) as Ht. simpl in Ht. subst t.
    unfold block_val, mbind, M_bind, lift. by rewrite deserialize_typed_serialize.
  - by rewrite (raw_value_none _ _ E).
Qed.

Lemma block_successor_run h c s : store_rel c s →
  lmdb_block_successor h c = Done (default (U 32 0) (snd <$> a_lookup s h), c).
Proof.
  intros Hr. unfold lmdb_block_successor.
  rewrite (bind_done _ _ _ _ _ (block_get_raw_run h c s Hr)).
  destruct (a_lookup s h) as [[b sc]|] eqn:E.
  - destruct (raw_value_some _ _ _ E) as (t & _ & -> & _). rewrite block_val_not_nil.
    rewrite length_block_val. replace (_ + 32 - 32)%nat with (block_size (block_type_of b)) by (simpl; lia).
    unfold mbind, M_bind, assert_. rewrite (proj2 (Nat.leb_le _ _)) by lia.
    unfold block_val. cbn [fst snd]. rewrite drop_app_length' by (by rewrite length_block_serialize).
    by rewrite read_be_nil.
  - by rewrite (raw_value_none _ _ E).
Qed.
Lemma block_successor_sim h : sim store_rel (lmdb_block_successor h) (block_successor (S:=astore) h).
Proof. apply sim_read. intros c s Hr. by apply block_successor_run. Qed.

Lemma rel_put_block t t' s ty db h v : refines t s → block_db ty = Some db → block_type_of v.1 = ty →
  (∀ x, table t' x = upd (table t) db (<[write_be h := block_val v]> (table t db)) x) →
  refines t' (set_blocks <[(ty, h) := v]> s).
Proof.
  intros Hr Hdb Ht Hx. constructor; simpl;
    try (rewrite Hx; unfold upd; rewrite decide_False by (by destruct ty; simplify_eq/=); by destruct Hr).
  - intros ty' db' Hdb'. rewrite Hx. unfold upd. destruct (decide (db' = db)) as [->|Hne].
    + rewrite (block_db_inj _ _ _ Hdb' Hdb), blocks_of_insert, encoded_insert by apply _.
      by rewrite (rf_blocks _ _ Hr ty db).
    + rewrite blocks_of_insert_ne by congruence. by apply (rf_blocks _ _ Hr).
  - intros ty' h' v' [[[= <- <-] <-]|[_ Hv]]%lookup_insert_Some; [done|]. by eapply (rf_types _ _ Hr).
Qed.

Lemma rel_del_block t t' s ty db h : refines t s → block_db ty = Some db →
  (∀ x, table t' x = upd (table t) db (delete (write_be h) (table t db)) x) →
  refines t' (set_blocks (delete (ty, h)) s).
Proof.
  intros Hr Hdb Hx. constructor; simpl;
    try (rewrite Hx; unfold upd; rewrite decide_False by (by destruct ty; simplify_eq/=); by destruct Hr).
  - intros ty' db' Hdb'. rewrite Hx. unfold upd. destruct (decide (db' = db)) as [->|Hne].
    + rewrite (block_db_inj _ _ _ Hdb' Hdb), blocks_of_delete, encoded_delete by apply _.
      by rewrite (rf_blocks _ _ Hr ty db).
    + rewrite blocks_of_delete_ne by congruence. by apply (rf_blocks _ _ Hr).
  - intros ty' h' v' [_ Hv]%lookup_delete_Some. by eapply (rf_types _ _ Hr).
Qed.

Lemma block_database_run t db c : block_db t = Some db → block_database t c = Done (db, c).
Proof. by destruct t; intros [= <-]. Qed.

Lemma fill_value_sim b :
  sim store_rel (fill_value b) (a_fill_value (block_hash b) (block_previous b)).
Proof.
  intros c s Hr. unfold fill_value, a_fill_value.
  rewrite (bind_done _ _ _ _ _ (block_get_raw_run (block_previous b) c s Hr)).
  destruct (a_lookup s (block_previous b)) as [[pb sc]|] eqn:E.
  - destruct (raw_value_some _ _ _ E) as (t & -> & -> & Hb). rewrite block_val_not_nil.
    pose proof (rf_types _ _ Hr _ _ _ Hb) as Ht. simpl in Ht. subst t.
    rewrite length_block_val. cbn [fst].
    replace (_ + 32 - 32)%nat with (block_size (block_type_of pb)) by lia.
    unfold block_val at 1. cbn [fst snd].
    rewrite take_app_length' by (by rewrite length_block_serialize).
    destruct (block_db_of pb) as [db Hdb]. unfold mbind, M_bind, assert_. cbn [negb].
    rewrite (block_database_run _ _ c Hdb). unfold block_put_raw.
    destruct (db_put_run db (write_be (block_previous b))
      (block_serialize pb ++ write_be (block_hash b)) c) as (t' & -> & Hx).
    split; [done|]. by apply (rel_put_block (txn c) t' s _ db (block_previous b) (pb, block_hash b)).
  - rewrite (raw_value_none _ _ E). simpl. by destruct (find_table _ _ _).
Qed.

Lemma set_predecessor_sim b : sim store_rel (set_predecessor b) (a_set_predecessor (block_hash b) b).
Proof.
  destruct b; try apply fill_value_sim; unfold set_predecessor, a_set_predecessor; [apply sim_ret|].
  destruct (negb _); [apply fill_value_sim|apply sim_ret].
Qed.

(** An assertion with a cheap first disjunct. *)
Lemma sim_guard {A} z (m : M block_store bool) (f : astore → A) (p : A → bool)
    (rest : M block_store unit) (rest' : M astore unit) :
  (∀ c s, store_rel c s → m c = Done (p (f s), c)) → sim store_rel rest rest' →
  sim store_rel (e ← (if z : bool then mret true else m); assert_ e;; rest)
    (e ← gets f; assert_ (z || p e);; rest').
Proof.
  intros Hm Hrest c s Hr. specialize (Hrest c s Hr). unfold mbind, M_bind, gets, assert_.
  destruct z; [done|]. rewrite (Hm c s Hr). simpl. by destruct (p (f s)).
Qed.

Lemma block_put_sim h b sc : sim store_rel (lmdb_block_put h b sc) (block_put (S:=astore) h b sc).
Proof.
  destruct (block_db_of b) as [db Hdb].
  apply (sim_guard _ _ _ id); [intros c s Hr; by apply block_exists_run|].
  intros c s Hr. cbv zeta. rewrite (bind_done _ _ _ _ _ (block_database_run _ _ c Hdb)). revert c s Hr.
  apply sim_bind; [|intros _; apply sim_bind; [apply set_predecessor_sim|intros _]].
  - apply sim_db_put. intros. by eapply (rel_put_block _ _ _ _ db h (b, sc)).
  - intros c s Hr. unfold mbind, M_bind, gets. destruct (is_zero (block_previous b)); [done|].
    rewrite (block_successor_run _ c s Hr). simpl. by destruct (u_eqb _ h).
Qed.

Lemma block_del_sim h : sim store_rel (lmdb_block_del h) (block_del (S:=astore) h).
Proof.
  intros c s Hr. simpl. unfold lmdb_block_del, a_block_del, del_order, db_del, mbind, M_bind.
  assert (Hd : ∀ ty db, block_db ty = Some db →
    match a_blocks s !! (ty, h) with
    | Some _ => ∃ t', db_try_del db (write_be h) c = Done (true, set_txn c t') ∧
        refines t' (set_blocks (delete (ty, h)) s)
    | None => db_try_del db (write_be h) c = Done (false, c)
    end).
  { intros ty db Hdb. pose proof (db_try_del_run db (write_be h) c) as Hrun.
    assert (table (txn c) db !! write_be h = block_val <$> a_blocks s !! (ty, h)) as El.
    { by rewrite (rf_blocks _ _ Hr ty db Hdb), encoded_lookup, blocks_of_lookup by apply _. }
    rewrite El in Hrun.
    destruct (a_blocks s !! (ty, h)) as [v|]; simpl in Hrun; [|done].
    destruct Hrun as (t' & Ht & Hx). exists t'. split; [done|].
    eapply rel_del_block; [exact Hr|exact Hdb|done]. }
  rewrite !find_table_cons. pose proof (Hd bt_state _ eq_refl) as Hd1.
  destruct (a_blocks s !! (bt_state, h)); [by destruct Hd1 as (t' & -> & ?)|rewrite Hd1].
  pose proof (Hd bt_send _ eq_refl) as Hd2.
  destruct (a_blocks s !! (bt_send, h)); [by destruct Hd2 as (t' & -> & ?)|rewrite Hd2].
  pose proof (Hd bt_receive _ eq_refl) as Hd3.
  destruct (a_blocks s !! (bt_receive, h)); [by destruct Hd3 as (t' & -> & ?)|rewrite Hd3].
  pose proof (Hd bt_open _ eq_refl) as Hd4.
  destruct (a_blocks s !! (bt_open, h)); [by destruct Hd4 as (t' & -> & ?)|rewrite Hd4].
  pose proof (Hd bt_change _ eq_refl) as Hd5.
  by destruct (a_blocks s !! (bt_change, h)); [destruct Hd5 as (t' & -> & ?)|rewrite Hd5].
Qed.
End refine.

(** ** The ledger on related stores

    [StoreSim R]: two implementations of the store whose methods agree on
    states related by [R].  Every operation of the ledger then agrees too, so
    what holds of the ledger on the abstract store holds of the ledger on
    LMDB. *)

Class StoreSim {S T : Type} `{BlockStore S, BlockStore T} (R : S → T → Prop) : Prop := {
  sim_block_exists h : sim R (block_exists h) (block_exists h);
  sim_block_get h : sim R (block_get h) (block_get h);
  sim_block_put h b sc : sim R (block_put h b sc) (block_put h b sc);
  sim_block_successor h : sim R (block_successor h) (block_successor h);
  sim_block_del h : sim R (block_del h) (block_del h);
  sim_block_count : sim R store_block_count store_block_count;
  sim_frontier_get h : sim R (frontier_get h) (frontier_get h);
  sim_frontier_put h a : sim R (frontier_put h a) (frontier_put h a);
  sim_frontier_del h : sim R (frontier_del h) (frontier_del h);
  sim_account_get a : sim R (account_get a) (account_get a);
  sim_account_put a i : sim R (account_put a i) (account_put a i);
  sim_account_del a : sim R (account_del a) (account_del a);
  sim_account_exists a : sim R (account_exists a) (account_exists a);
  sim_latest_begin a : sim R (latest_begin a) (latest_begin a);
  sim_pending_get k : sim R (pending_get k) (pending_get k);
  sim_pending_put k i : sim R (pending_put k i) (pending_put k i);
  sim_pending_del k : sim R (pending_del k) (pending_del k);
  sim_pending_exists k : sim R (pending_exists k) (pending_exists k);
  sim_pending_begin k : sim R (pending_begin k) (pending_begin k);
  sim_block_info_get h : sim R (block_info_get h) (block_info_get h);
  sim_block_info_put h i : sim R (block_info_put h i) (block_info_put h i);
  sim_block_info_del h : sim R (block_info_del h) (block_info_del h);
  sim_representation_get a : sim R (representation_get a) (representation_get a);
  sim_representation_put a w : sim R (representation_put a w) (representation_put a w);
  sim_checksum_get p m : sim R (checksum_get p m) (checksum_get p m);
  sim_checksum_put p m h : sim R (checksum_put p m h) (checksum_put p m h);
}.
#[export] Hint Resolve sim_block_exists sim_block_get sim_block_put sim_block_successor
  sim_block_del sim_block_count sim_frontier_get sim_frontier_put sim_frontier_del sim_account_get
  sim_account_put sim_account_del sim_account_exists sim_latest_begin sim_pending_get
  sim_pending_put sim_pending_del sim_pending_exists sim_pending_begin sim_block_info_get
  sim_block_info_put sim_block_info_del sim_representation_get sim_representation_put
  sim_checksum_get sim_checksum_put : sim.

#[export] Instance lmdb_store_sim `{LmdbSpec, Blake2b} : StoreSim store_rel.
Proof.
  constructor; intros; simpl.
  - apply block_exists_sim.
  - apply block_get_sim.
  - apply block_put_sim.
  - apply block_successor_sim.
  - apply block_del_sim.
  - apply block_count_sim.
  - apply frontier_get_sim.
  - apply frontier_put_sim.
  - apply frontier_del_sim.
  - apply account_get_sim.
  - apply account_put_sim.
  - apply account_del_sim.
  - apply account_exists_sim.
  - apply latest_begin_sim.
  - apply pending_get_sim.
  - apply pending_put_sim.
  - apply pending_del_sim.
  - apply pending_exists_sim.
  - apply pending_begin_sim.
  - apply block_info_get_sim.
  - apply block_info_put_sim.
  - apply block_info_del_sim.
  - apply representation_get_sim.
  - apply representation_put_sim.
  - apply checksum_get_sim.
  - apply checksum_put_sim.
Qed.

(** ** Methods of the store built from others, and the visitors *)
Section store.
Context {S T : Type} `{BlockStore S, BlockStore T} (R : S → T → Prop) `{!StoreSim R}.
Context `{Blake2b, LedgerConstants}.

Lemma sim_representation_add h w : sim R (representation_add h w) (representation_add h w).
Proof. unfold representation_add. sim_solve. Qed.
Lemma sim_block_successor_clear h : sim R (block_successor_clear h) (block_successor_clear h).
Proof. unfold block_successor_clear. sim_solve. Qed.
Lemma sim_root_exists h : sim R (root_exists h) (root_exists h).
Proof. unfold root_exists. sim_solve. Qed.

Lemma sim_balance_visit b v : sim R (balance_visit b v) (balance_visit b v).
Proof. unfold balance_visit. sim_solve. Qed.

Lemma sim_loops fuel :
  (∀ h v, sim R (amount_loop fuel h v) (amount_loop fuel h v)) ∧
  (∀ v, sim R (balance_loop fuel v) (balance_loop fuel v)).
Proof.
  induction fuel as [|fuel [IHa IHb]]; [by split; intros|].
  split; intros; simpl; repeat first [apply IHa | apply IHb | apply sim_balance_visit | sim_step].
Qed.
Lemma sim_amount_compute fuel h : sim R (amount_compute fuel h) (amount_compute fuel h).
Proof. apply sim_loops. Qed.
Lemma sim_balance_compute fuel h : sim R (balance_compute fuel h) (balance_compute fuel h).
Proof. apply sim_loops. Qed.
Lemma sim_representative_compute fuel h :
  sim R (representative_compute fuel h) (representative_compute fuel h).
Proof. unfold representative_compute. sim_solve. Qed.

Lemma sim_genesis open now : sim R (genesis_initialize open now) (genesis_initialize open now).
Proof. unfold genesis_initialize. sim_solve. Qed.

(** ** The ledger *)

(** The same ledger on related stores. *)
Definition ledger_rel (l : ledger S) (k : ledger T) : Prop :=
  R (store l) (store k) ∧ stats l = stats k ∧ clock l = clock k ∧
  bootstrap_weights l = bootstrap_weights k ∧
  bootstrap_weight_max_blocks l = bootstrap_weight_max_blocks k ∧
  check_bootstrap_weights l = check_bootstrap_weights k.

Lemma sim_st {A} (m : M S A) (k : M T A) : sim R m k → sim ledger_rel (st m) (st k).
Proof.
  intros Hm l k' (HR & Hrest). specialize (Hm _ _ HR). unfold st.
  by destruct (m (store l)) as [[a s]|e], (k (store k')) as [[b t]|e']; try done; destruct Hm.
Qed.
Lemma sim_stats_inc t d : sim ledger_rel (stats_inc t d) (stats_inc t d).
Proof. apply sim_modify. intros l k (? & Hs & ? & ? & ? & ?). by split_and!; simpl; try rewrite Hs. Qed.
Lemma sim_clock : sim ledger_rel seconds_since_epoch seconds_since_epoch.
Proof.
  intros l k (? & ? & Hc & ? & ? & ?). unfold seconds_since_epoch. simpl. rewrite Hc.
  split; [done|]. by split_and!; simpl; destruct_and?; try rewrite Hc.
Qed.
Lemma sim_clear_check : sim ledger_rel clear_check_bootstrap_weights clear_check_bootstrap_weights.
Proof. apply sim_modify. intros l k (? & ? & ? & ? & ? & ?). by split_and!. Qed.
Lemma sim_get_field {A} (f : ledger S → A) (g : ledger T → A) :
  (∀ l k, ledger_rel l k → f l = g k) → sim ledger_rel (gets f) (gets g).
Proof. apply sim_gets. Qed.
End store.
#[export] Hint Resolve sim_representation_add sim_block_successor_clear sim_root_exists
  sim_amount_compute sim_balance_compute sim_representative_compute sim_st sim_stats_inc sim_clock
  sim_clear_check : sim.

Section ledger.
Context {S T : Type} `{BlockStore S, BlockStore T} (R : S → T → Prop) `{!StoreSim R}.
Context `{Blake2b, Ed25519, LedgerConstants} (fuel : nat).
Abbreviation same m := (sim (ledger_rel R) m m).

Lemma sim_ledger_balance h : same (ledger_balance fuel h).
Proof. apply sim_st, sim_balance_compute. apply _. Qed.
Lemma sim_ledger_amount h : same (ledger_amount fuel h).
Proof. apply sim_st, sim_amount_compute. apply _. Qed.
Lemma sim_representative h : same (representative fuel h).
Proof. unfold representative, representative_calculated. sim_solve. Qed.
Hint Resolve sim_ledger_balance sim_ledger_amount sim_representative : sim.

Lemma sim_ledger_account h : same (ledger_account fuel h).
Proof. unfold ledger_account. sim_solve. Qed.
Lemma sim_latest a : same (latest a).
Proof. unfold latest. sim_solve. Qed.
Lemma sim_checksum_update h : same (checksum_update h).
Proof. unfold checksum_update. sim_solve. Qed.
Hint Resolve sim_ledger_account sim_latest sim_checksum_update : sim.

Lemma sim_change_latest a h rb bal bc is_state : same (change_latest a h rb bal bc is_state).
Proof. unfold change_latest. sim_solve. Qed.
Hint Resolve sim_change_latest : sim.

Lemma sim_weight a : same (weight a).
Proof.
  unfold weight.
  repeat first [apply sim_get_field; intros ? ? (? & ? & ? & ? & ? & ?); congruence | sim_step].
Qed.
Lemma sim_ledger_checksum : same ledger_checksum.
Proof. unfold ledger_checksum. sim_solve. Qed.
Lemma sim_account_balance a : same (account_balance a).
Proof. unfold account_balance. sim_solve. Qed.
Lemma sim_account_pending a : same (account_pending fuel a).
Proof. unfold account_pending. sim_solve. Qed.
Lemma sim_latest_root a : same (latest_root a).
Proof. unfold latest_root. sim_solve. Qed.
Lemma sim_is_send b : same (is_send fuel b).
Proof. unfold is_send. sim_solve. Qed.
Hint Resolve sim_is_send : sim.
Lemma sim_block_destination b : same (block_destination fuel b).
Proof. unfold block_destination. sim_solve. Qed.
Lemma sim_block_source b : same (ledger_block_source fuel b).
Proof. unfold ledger_block_source. sim_solve. Qed.
Lemma sim_successor h : same (successor h).
Proof. unfold successor. sim_solve. Qed.
Lemma sim_forked_block b : same (forked_block b).
Proof. unfold forked_block. sim_solve. Qed.

Lemma sim_process b : same (process fuel b).
Proof.
  destruct b; simpl;
    unfold process_send_block, process_receive_block, process_open_block, process_change_block,
      state_block_impl, state_account_checks, state_link_checks, state_apply; sim_solve.
Qed.

Lemma sim_rollback n h : same (rollback fuel n h).
Proof.
  revert h. induction n as [|n IH]; intros h; [by intros l k Hr|]. simpl.
  assert (∀ b, same (rollback_visit fuel n (rollback fuel n) b)) as Hv.
  { intros b. destruct b; simpl;
      unfold rollback_send_block, rollback_receive_block, rollback_open_block, rollback_change_block,
        rollback_state_block, rollback_state_link, block_info_del_if;
      repeat first [apply IH | sim_step]. }
  repeat first [apply Hv | sim_step].
Qed.
End ledger.
