(* ===== verification/StoreProps.v ===== *)
(** * Properties of the store

    Opening an empty database, opening it again, the upgrade of the pending
    table, the caches of votes and unchecked blocks, and the ledger on LMDB. *)

From S2P Require Import Prelude Crypto Blocks Common Stats Store Ledger Votes Lmdb Versioning.
From S2P Require Import BlockStore StoreLemmas StoreRefine Upgrades.
From S2P Require Import LedgerInv Commit Process Reach LedgerProps.

(** ** Rules for the accesses *)
Section rules.
Context `{LmdbSpec}.
Implicit Types (c : block_store).

Definition put_table (t : mdb_txn) db k v (t' : mdb_txn) : Prop :=
  (∀ x, table t' x = upd (table t) db (<[k := v]> (table t db)) x) ∧ ∀ x, dups t' x = dups t x.

Lemma wp_db_put db k v c Q :
  (∀ t', put_table (txn c) db k v t' → Q tt (set_txn c t')) → wp (db_put db k v) c Q.
Proof.
  intros HQ. unfold wp, db_put. destruct (mdb_put_spec db k v (txn c)) as (t' & -> & Hx & Hd).
  by apply HQ.
Qed.
Lemma wp_db_get db k c Q : Q (table (txn c) db !! k) c → wp (db_get db k) c Q.
Proof. intros HQ. unfold wp, db_get, gets. by rewrite mdb_get_spec. Qed.
Lemma wp_db_drop db c Q :
  (∀ t', (∀ x, table t' x = upd (table (txn c)) db ∅ x) → (∀ x, dups t' x = dups (txn c) x) →
     Q tt (set_txn c t')) → wp (db_drop db) c Q.
Proof. intros HQ. destruct (mdb_drop_spec db (txn c)). by apply HQ. Qed.
Lemma wp_dup_clear db c Q :
  (∀ t', (∀ x, table t' x = table (txn c) x) → (∀ x, dups t' x = upd (dups (txn c)) db ∅ x) →
     Q tt (set_txn c t')) → wp (dup_clear db) c Q.
Proof. intros HQ. destruct (dup_drop_spec db (txn c)). by apply HQ. Qed.
Lemma wp_iterator db k c Q : Q (range k (table (txn c) db)) c → wp (store_iterator_from db k) c Q.
Proof. intros HQ. unfold wp, store_iterator_from, gets. by rewrite mdb_cursor_spec. Qed.

Lemma range_empty {V} k : range k (∅ : gmap bytes V) = [].
Proof. unfold range. by rewrite map_filter_empty, map_to_list_empty. Qed.

Lemma upd_eq {A B} `{EqDecision A} (f : A → B) a b : upd f a b a = b.
Proof. unfold upd. by rewrite decide_True. Qed.
Lemma upd_ne {A B} `{EqDecision A} (f : A → B) a b x : x ≠ a → upd f a b x = f x.
Proof. intros. unfold upd. by rewrite decide_False. Qed.
End rules.

(** ** Opening the store *)
Section open.
Context `{LmdbSpec, Blake2b, Ed25519, LedgerConstants}.
Implicit Types (c : block_store).

(** A database without entries but for its version. *)
Definition no_entries (v : Z) c : Prop :=
  (∀ db, db ≠ meta_db → table (txn c) db = ∅) ∧ (∀ db, dups (txn c) db = ∅) ∧
  table (txn c) meta_db !! version_key = Some (write_be (U 32 v)).

Definition all_empty c : Prop := (∀ db, table (txn c) db = ∅) ∧ ∀ db, dups (txn c) db = ∅.

Lemma wp_version_put v c Q : all_empty c ∨ (∃ v', no_entries v' c) →
  (∀ c', no_entries v c' → Q tt c') → wp (version_put v) c Q.
Proof.
  intros Hc HQ. apply wp_db_put. intros t' [Hx Hd]. apply HQ.
  unfold no_entries. simpl. split_and!.
  - intros db Hne. rewrite Hx, upd_ne by done. destruct Hc as [[He _]|[v' (He & _)]]; auto.
  - intros db. rewrite Hd. destruct Hc as [[_ He]|[v' (_ & He & _)]]; auto.
  - by rewrite Hx, upd_eq, lookup_insert_eq.
Qed.

Lemma wp_no_iterator db k v c Q : no_entries v c → db ≠ meta_db → Q [] c →
  wp (store_iterator_from db k) c Q.
Proof. intros (He & _) Hne HQ. apply wp_iterator. by rewrite He, range_empty. Qed.

Lemma wp_no_drop db v c Q : no_entries v c → db ≠ meta_db →
  (∀ c', no_entries v c' → Q tt c') → wp (db_drop db) c Q.
Proof.
  intros (He & Hd & Hv) Hne HQ. apply wp_db_drop. intros t' Hx Hy. apply HQ.
  unfold no_entries. simpl. split_and!.
  - intros db' Hne'. rewrite Hx. unfold upd. case_decide; [done|auto].
  - intros db'. by rewrite Hy.
  - by rewrite Hx, upd_ne by congruence.
Qed.
Lemma wp_no_dup_clear db v c Q : no_entries v c →
  (∀ c', no_entries v c' → Q tt c') → wp (dup_clear db) c Q.
Proof.
  intros (He & Hd & Hv) HQ. apply wp_dup_clear. intros t' Hx Hy. apply HQ.
  unfold no_entries. simpl. split_and!.
  - intros db' Hne'. rewrite Hx. auto.
  - intros db'. rewrite Hy. unfold upd. case_decide; [done|auto].
  - by rewrite Hx.
Qed.

Lemma dup_cursor_empty db v c : no_entries v c → dup_cursor db (txn c) = [].
Proof.
  intros (_ & Hd & _). destruct (dup_cursor db (txn c)) as [|[k x] l] eqn:E; [done|].
  assert (x ∈ default ∅ (dups (txn c) db !! k)) as Hx.
  { apply dup_cursor_spec. rewrite E. by left. }
  rewrite Hd, lookup_empty in Hx. set_solver.
Qed.

Lemma wp_no_dup_cursor db v c Q : no_entries v c → Q [] c →
  wp (gets (λ s : block_store, dup_cursor db (txn s))) c Q.
Proof. intros Hc HQ. unfold wp, gets. by rewrite (dup_cursor_empty _ _ _ Hc). Qed.

(** Every upgrade of a database without entries only moves the version. *)
Ltac upgrade_step :=
  lazymatch goal with
  | |- wp (_ ≫= _) _ _ => apply wp_bind
  | |- wp (mret _) _ _ => apply wp_ret
  | |- wp (version_put _) _ _ =>
      eapply wp_version_put; [first [by left|right; eexists; eassumption]|intros ? ?]
  | |- wp (store_iterator_from _ _) _ _ => eapply wp_no_iterator; [eassumption|done|]
  | |- wp (db_drop _) _ _ => eapply wp_no_drop; [eassumption|done|intros ? ?]
  | |- wp (gets (λ _, dup_cursor _ _)) ?c _ =>
      eapply wp_no_dup_cursor; [eassumption|]
  | |- wp (dup_clear _) _ _ => eapply wp_no_dup_clear; [eassumption|intros ? ?]
  end; cbv beta iota.

Lemma one_not_zero : is_zero (U 32 1) = false.
Proof. vm_compute. reflexivity. Qed.

Lemma upgrade_v1_empty fuel c Q : (3 ≤ fuel)%nat → all_empty c →
  (∀ c', no_entries 2 c' → Q tt c') → wp (upgrade_v1_to_v2 fuel) c Q.
Proof.
  intros Hf Hc HQ. unfold upgrade_v1_to_v2. do 2 upgrade_step.
  destruct fuel as [|[|fuel]]; [lia..|]. apply wp_loop. rewrite one_not_zero. cbn [negb].
  unfold latest_iterator. repeat upgrade_step. apply wp_loop. rewrite is_zero_0. cbn [negb].
  apply wp_ret. by apply HQ.
Qed.

Lemma encoded_empty `{Countable K} {V} (ek : K → bytes) (ev : V → bytes) : encoded ek ev ∅ = ∅.
Proof. unfold encoded. by rewrite fmap_empty, kmap_empty. Qed.

Lemma blocks_of_empty t : blocks_of t ∅ = ∅.
Proof. apply map_eq. intros h. by rewrite blocks_of_lookup, !lookup_empty. Qed.

Lemma empty_refines t : (∀ db, db ≠ meta_db → table t db = ∅) → refines t astore_empty.
Proof.
  intros He. constructor; simpl.
  - intros ty db Hdb. rewrite blocks_of_empty, encoded_empty. apply He. by destruct ty; simplify_eq/=.
  - intros ty h x. by rewrite lookup_empty.
  - by rewrite encoded_empty, He.
  - by rewrite encoded_empty, He.
  - by rewrite encoded_empty, He.
  - by rewrite encoded_empty, He.
  - by rewrite encoded_empty, He.
  - by rewrite encoded_empty, He.
Qed.
Lemma no_entries_refines v c : no_entries v c → refines (txn c) astore_empty.
Proof. intros (He & _). by apply empty_refines. Qed.

Lemma checksum_key_zero : checksum_db_key (U 8 0) (U 1 0) = write_le (U 8 0).
Proof. unfold checksum_db_key. by rewrite !uval_zero. Qed.

Lemma uval_version v : 0 ≤ v < 2 ^ 64 → uval (U 32 v) = v.
Proof. intros. apply uval_U_small. split; [lia|]. etrans; [apply H4|]. done. Qed.

Lemma version_get_run v c : 0 ≤ v < 2 ^ 64 →
  table (txn c) meta_db !! version_key = Some (write_be (U 32 v)) → version_get c = Done (v, c).
Proof.
  intros Hv Ht. unfold version_get. rewrite (bind_done _ _ _ _ _ (db_get_run _ _ _)), Ht.
  unfold mbind, M_bind, lift, assert_. rewrite val_uint256_write, uval_version by done.
  by rewrite (proj2 (Z.ltb_lt _ _)) by lia.
Qed.

Ltac skip := lazymatch goal with |- wp (mret _ ≫= _) _ _ => apply wp_bind, wp_ret end.

Lemma wp_checksum_reset c Q :
  (∀ t', put_table (txn c) checksum (write_le (U 8 0)) (write_be (U 32 0)) t' → Q tt (set_txn c t')) →
  wp (lmdb_checksum_put (U 8 0) (U 1 0) (U 32 0)) c Q.
Proof.
  intros HQ. unfold lmdb_checksum_put. apply wp_bind, wp_assert; [by rewrite uval_zero|].
  rewrite checksum_key_zero. by apply wp_db_put.
Qed.

Lemma checksum_get_same p m c x c' : lmdb_checksum_get p m c = Done (x, c') → c' = c.
Proof.
  unfold lmdb_checksum_get, mbind, M_bind, assert_. destruct (Z.land _ _ =? 0); [|done].
  rewrite db_get_run. destruct (table _ _ !! _) as [v|]; [|by intros [=]].
  destruct (read_be 32 v) as [[]|]; by intros [=].
Qed.

(** Opening a database without any entries runs the upgrades
    from version 1 without tripping an assertion and gives the empty store
    with a zero checksum; the recorded version is 10. *)
Lemma open_fresh fuel open junk c :
  (3 ≤ fuel)%nat → (∀ db, table (txn c) db = ∅) → (∀ db, dups (txn c) db = ∅) →
  ∃ c', block_store_open fuel false open junk c = Done (tt, c') ∧
    store_rel c' fresh_store ∧ version_get c' = Done (10, c').
Proof.
  intros Hf Ht Hd.
  enough (wp (block_store_open fuel false open junk) c
    (λ _ c', store_rel c' fresh_store ∧ version_get c' = Done (10, c'))) as Hw.
  { apply wp_run in Hw as ([] & c' & ? & ?). eauto. }
  unfold block_store_open, do_upgrades. do 2 apply wp_bind.
  unfold version_get at 1. apply wp_bind, wp_db_get. rewrite Ht, lookup_empty. apply wp_ret.
  cbv zeta. apply wp_bind, wp_assert; [done|]. simpl (Z.leb _ _).
  apply wp_bind. eapply upgrade_v1_empty; [done|by split|]. intros c1 ?.
  unfold upgrade_v2_to_v3, upgrade_v3_to_v4, upgrade_v4_to_v5, upgrade_v5_to_v6, upgrade_v6_to_v7,
    upgrade_v7_to_v8, upgrade_v8_to_v9, upgrade_v9_to_v10, upgrade_v10_to_v11,
    latest_iterator_first, pending_iterator_first, store_iterator_first.
  cbn [Z.leb Z.compare Pos.compare Pos.compare_cont].
  repeat (upgrade_step; cbn [for_each collect]).
  match goal with Hn : no_entries 10 ?c' |- wp _ ?c' _ => rename Hn into Hlast; rename c' into cl end.
  apply wp_checksum_reset. intros t' [Hx _].
  split; [eapply rel_put_checksum; [by eapply no_entries_refines|exact Hx]|].
  apply version_get_run; [done|]. simpl. rewrite Hx, upd_ne by done. apply Hlast.
Qed.

(** What opening a store again changes: the checksum of the ledger is zero,
    [unsynced] is cleared when the version is 10; every other table, every
    other checksum and the caches are as they were. *)
Record reopened (v : Z) c c' : Prop := {
  reo_caches : c' = set_txn c (txn c');
  reo_checksum : table (txn c') checksum = <[write_le (U 8 0) := write_be (U 32 0)]> (table (txn c) checksum);
  reo_table db : db ≠ checksum → table (txn c') db = table (txn c) db;
  reo_unsynced : dups (txn c') unsynced = if decide (v = 10) then ∅ else dups (txn c) unsynced;
  reo_dups db : db ≠ unsynced → dups (txn c') db = dups (txn c) db;
}.

(** C40: opening a store of version 10 or 11 again sets the checksum
    of the ledger to zero, whatever the heads of the accounts are, clears the
    table [unsynced] of version 10 and leaves everything else as it is: all
    other tables (those of waiting blocks and of votes too), the other
    checksums, the caches, and the version: version 10 is never left. *)
Theorem reopen_resets_checksum fuel open junk c s v :
  store_rel c s → (v = 10 ∨ v = 11) → table (txn c) meta_db !! version_key = Some (write_be (U 32 v)) →
  ∃ c', block_store_open fuel false open junk c = Done (tt, c') ∧
    reopened v c c' ∧ store_rel c' (set_checksum <[U 8 0 := U 32 0]> s) ∧
    checksum_get (U 8 0) (U 1 0) c' = Done (Some (U 32 0), c') ∧
    version_get c' = Done (v, c').
Proof.
  intros Hr Hv Ht.
  enough (wp (block_store_open fuel false open junk) c (λ _ c',
    reopened v c c' ∧ store_rel c' (set_checksum <[U 8 0 := U 32 0]> s))) as Hw.
  { apply wp_run in Hw as ([] & c' & Hc & Ho & Hr'). exists c'. split_and!; [done..| |].
    - pose proof (checksum_get_sim (U 8 0) (U 1 0) _ _ Hr') as Hs. simpl in Hs |- *.
      unfold checksum_key in Hs. rewrite !uval_zero in Hs. simpl in Hs.
      rewrite lookup_insert_eq in Hs. destruct (lmdb_checksum_get _ _ c') as [[x c'']|] eqn:E; [|done].
      destruct Hs as [-> _]. by rewrite (checksum_get_same _ _ _ _ _ E).
    - apply version_get_run; [lia|]. by rewrite (reo_table _ _ _ Ho). }
  unfold block_store_open, do_upgrades. do 2 apply wp_bind.
  unfold wp at 1. rewrite (version_get_run v c) by (done || lia). cbv zeta.
  assert (Hend : ∀ t1, (∀ x, table t1 x = table (txn c) x) →
    (∀ x, dups t1 x = if decide (x = unsynced ∧ v = 10) then ∅ else dups (txn c) x) →
    wp (lmdb_checksum_put (U 8 0) (U 1 0) (U 32 0)) (set_txn c t1) (λ _ c',
      reopened v c c' ∧ store_rel c' (set_checksum <[U 8 0 := U 32 0]> s))).
  { intros t1 Ht1 Hd1. apply wp_checksum_reset. intros t' [Hx Hy]. simpl in Hx, Hy. split.
    - constructor; simpl; try done.
      + by rewrite Hx, upd_eq, Ht1.
      + intros db Hne. by rewrite Hx, upd_ne, Ht1.
      + rewrite Hy, Hd1. repeat case_decide; tauto.
      + intros db Hne. rewrite Hy, Hd1, decide_False; [done|tauto].
    - apply (rel_put_checksum t1); [|exact Hx].
      destruct Hr. constructor; simpl; intros; rewrite ?Ht1; eauto. }
  destruct Hv as [-> | ->]; apply wp_bind, wp_assert; try done;
    cbn [Z.leb Z.compare Pos.compare Pos.compare_cont]; repeat skip.
  - apply wp_dup_clear. intros t' Hx Hy. apply Hend; [done|]. intros x. rewrite Hy. unfold upd. repeat case_decide; tauto.
  - apply wp_ret. assert (set_txn c (txn c) = c) as Ec by by destruct c. rewrite <-Ec at 1. apply Hend; [done|]. intros x. rewrite decide_False; [done|]. by intros [_ ?].
Qed.
End open.

(** ** The upgrade of the pending table *)
Section pending.
Context `{LmdbSpec, Blake2b, Ed25519, LedgerConstants}.
Implicit Types (c : block_store).

(** Inserting a list of entries, the later ones first in the result. *)
Definition insert_all `{Countable K} {V} (l : list (K * V)) (m : gmap K V) : gmap K V :=
  foldl (λ m e, <[e.1 := e.2]> m) m l.

Lemma insert_all_lookup `{Countable K} {V} (l : list (K * V)) m k v : NoDup l.*1 →
  insert_all l m !! k = Some v ↔ (k, v) ∈ l ∨ ((k ∉ l.*1) ∧ m !! k = Some v).
Proof.
  revert m. induction l as [|[k0 v0] l IH]; intros m Hnd; simpl; [set_solver|].
  apply NoDup_cons in Hnd as [Hn Hnd]. rewrite IH by done. rewrite lookup_insert_Some, elem_of_cons.
  assert ((k0, v) ∈ l → False) by (intros Hin; apply Hn, list_elem_of_fmap; by exists (k0, v)).
  destruct (decide (k0 = k)) as [<-|Hk]; set_solver.
Qed.

(** All entries of an encoded table, in some order. *)
Lemma range_all `{Countable K} {V} (ek : K → bytes) (ev : V → bytes) `{!Inj (=) (=) ek} (m : gmap K V) :
  ∃ l, range [] (encoded ek ev m) = map (λ e, (ek e.1, ev e.2)) l ∧ l ≡ₚ map_to_list m.
Proof.
  assert (range [] (encoded ek ev m) ≡ₚ map (λ e, (ek e.1, ev e.2)) (map_to_list m)) as Hp.
  { unfold range. rewrite merge_sort_Permutation.
    assert (filter (λ e : bytes * bytes, bytes_le [] e.1) (encoded ek ev m) = encoded ek ev m) as ->.
    { apply map_filter_id. done. }
    by rewrite encoded_list. }
  symmetry in Hp. apply Permutation_sym, Permutation_map_inv in Hp as (l & -> & Hl). exists l. done.
Qed.

Definition upgraded (e : u256 * pending_info_v3) : pending_key * pending_info :=
  ((v3_destination e.2, e.1), Pending_info (v3_source e.2) (v3_amount e.2)).

Lemma collect_pending l c :
  collect pending_v3_entry (map (λ e, (write_be e.1, pending_info_v3_val e.2)) l) c =
    Done (map upgraded l, c).
Proof.
  induction l as [|[h i] l IH]; [done|]. cbn [map collect]. unfold mbind at 1, M_bind at 1.
  assert (pending_v3_entry (write_be h, pending_info_v3_val i) c = Done (upgraded (h, i), c)) as He.
  { unfold pending_v3_entry, mbind, M_bind, lift. cbn [fst snd].
    rewrite val_uint256_write. unfold pending_info_v3_of_val, pending_info_v3_val.
    pose proof (of_val_encode i) as Hi. simpl in Hi. by rewrite Hi. }
  cbn [fst snd] in He |- *. rewrite He. unfold mbind, M_bind. by rewrite IH.
Qed.

Lemma wp_put_pending_all l p c Q :
  table (txn c) pending_db = encoded pending_key_val pending_info_val p →
  (∀ c', table (txn c') pending_db = encoded pending_key_val pending_info_val (insert_all l p) →
     (∀ db, db ≠ pending_db → table (txn c') db = table (txn c) db) → Q tt c') →
  wp (for_each l (λ '(k, info), lmdb_pending_put k info)) c Q.
Proof.
  revert p c. induction l as [|[k i] l IH]; intros p c Ht HQ; cbn [for_each]; [by apply wp_ret, HQ|].
  apply wp_bind. unfold lmdb_pending_put. apply wp_db_put. intros t' [Hx _].
  apply (IH (<[k := i]> p)).
  - simpl. by rewrite Hx, upd_eq, Ht, encoded_insert by apply _.
  - intros c' Ht' Ho. apply HQ; [done|]. intros db Hne. rewrite Ho by done. simpl.
    by rewrite Hx, upd_ne.
Qed.

(** The upgrade from version 3 keeps every pending entry:
    the entry of a hash becomes the entry of its destination and the hash,
    with the same source and amount, and no other entry appears. *)
Lemma upgrade_pending m c :
  table (txn c) pending_db = encoded write_be pending_info_v3_val m →
  ∃ c' p, upgrade_v3_to_v4 c = Done (tt, c') ∧ version_get c' = Done (4, c') ∧
    table (txn c') pending_db = encoded pending_key_val pending_info_val p ∧
    (∀ d h i, p !! (d, h) = Some i ↔ ∃ o, m !! h = Some o ∧ v3_destination o = d ∧
       i = Pending_info (v3_source o) (v3_amount o)) ∧
    (∀ db, db ≠ pending_db → db ≠ meta_db → table (txn c') db = table (txn c) db).
Proof.
  intros Ht. destruct (range_all write_be pending_info_v3_val m) as (l & Hl & Hp).
  assert (Hnd : NoDup (map upgraded l).*1).
  { assert (NoDup l.*1) as Hk by (rewrite Hp; apply NoDup_fst_map_to_list).
    clear -Hk. induction l as [|[h i] l IH]; simpl in *; [constructor|].
    apply NoDup_cons in Hk as [Hn Hk]. apply NoDup_cons. split; [|auto].
    rewrite list_elem_of_fmap. intros (e & He & (e' & -> & Hin)%list_elem_of_fmap).
    injection He as _ ->. apply Hn, list_elem_of_fmap. by exists e'. }
  enough (wp upgrade_v3_to_v4 c (λ _ c', version_get c' = Done (4, c') ∧
    table (txn c') pending_db = encoded pending_key_val pending_info_val (insert_all (map upgraded l) ∅) ∧
    (∀ db, db ≠ pending_db → db ≠ meta_db → table (txn c') db = table (txn c) db))) as Hw.
  { apply wp_run in Hw as ([] & c' & Hc & Hv & Ht' & Ho).
    exists c', (insert_all (map upgraded l) ∅). split_and!; [done..| |done].
    intros d h i. rewrite insert_all_lookup, lookup_empty by done. split.
    - intros [Hin|[_ ?]]; [|done]. apply list_elem_of_fmap in Hin as ([h' o] & [= -> -> ->] & Hin).
      rewrite Hp, elem_of_map_to_list in Hin. eauto.
    - intros (o & Ho' & <- & ->). left. apply list_elem_of_fmap. exists (h, o). split; [done|].
      by rewrite Hp, elem_of_map_to_list. }
  unfold upgrade_v3_to_v4, version_put. apply wp_bind, wp_db_put. intros t1 [Hx1 _].
  apply wp_bind, wp_iterator. simpl. rewrite Hx1, upd_ne, Ht, Hl by done.
  apply wp_bind. unfold wp at 1. rewrite collect_pending.
  apply wp_bind, wp_db_drop. intros t2 Hx2 _.
  apply (wp_put_pending_all _ ∅).
  { simpl. by rewrite Hx2, upd_eq, encoded_empty. }
  intros c' Ht' Ho. split_and!; [|done|].
  - apply version_get_run; [done|]. rewrite Ho by done. simpl.
    by rewrite Hx2, upd_ne, Hx1, upd_eq, lookup_insert_eq by done.
  - intros db H1' H2'. rewrite Ho by done. simpl. by rewrite Hx2, upd_ne, Hx1, upd_ne by done.
Qed.
End pending.

(** ** The ledger on LMDB *)
Section ledger.
Context `{LmdbSpec, Blake2b, Ed25519, LedgerConstants}.

(** Related runs of a total computation. *)
Lemma sim_run {S T A} (R : S → T → Prop) (m : M S A) (k : M T A) s t a t' :
  sim R m k → R s t → k t = Done (a, t') → ∃ s', m s = Done (a, s') ∧ R s' t'.
Proof.
  intros Hs HR Hk. specialize (Hs s t HR). rewrite Hk in Hs.
  destruct (m s) as [[b s']|]; [|done]. destruct Hs as [-> ?]. eauto.
Qed.

(** C17: the ledger on LMDB tables answers every block as the
    ledger on the abstract store does; on a store that represents a reachable
    ledger the run ends without a failed assertion in a store that represents
    the next reachable ledger. *)
Theorem lmdb_process (l : ledger block_store) (k : ledger astore) fuel b :
  ledger_rel store_rel l k → reach k → digest_ok (store k) b → (enough_fuel k ≤ fuel)%nat →
  ∃ r l' k', process fuel b l = Done (r, l') ∧ process fuel b k = Done (r, k') ∧
    ledger_rel store_rel l' k' ∧ reach k'.
Proof.
  intros HR Hk Hd Hf. destruct (reach_valid _ Hk) as (g & hist & HI).
  destruct (process_run _ _ _ _ _ HI Hd Hf) as (r & k' & Hr & _).
  destruct (sim_run _ _ _ _ _ _ _ (sim_process store_rel fuel b) HR Hr) as (l' & Hl & HR').
  exists r, l', k'. split_and!; [done..|]. by apply (reach_process k fuel b r).
Qed.

(** C18: rolling back a block on LMDB tables that represent a
    reachable ledger ends without a failed assertion in tables that represent
    the ledger rolled back. *)
Theorem lmdb_rollback (l : ledger block_store) (k : ledger astore) fuel n h :
  ledger_rel store_rel l k → reach k → removable_block (store k) h →
  (enough_fuel k ≤ fuel)%nat → (enough_fuel k ≤ n)%nat →
  ∃ l' k', rollback fuel n h l = Done (tt, l') ∧ rollback fuel n h k = Done (tt, k') ∧
    ledger_rel store_rel l' k' ∧ reach k'.
Proof.
  intros HR Hk Hb Hf Hn. destruct (reach_valid _ Hk) as (g & hist & HI).
  destruct (rollback_run _ _ _ _ _ _ HI Hb Hf Hn) as (l1 & l2 & k' & g' & l2' & _ & Hr & _).
  destruct (sim_run _ _ _ _ _ _ _ (sim_rollback store_rel fuel n h) HR Hr) as (l' & Hl & HR').
  exists l', k'. split_and!; [done..|]. by apply (reach_rollback k fuel n h).
Qed.
End ledger.
