(* ===== verification/StoreCaches.v ===== *)
(** * The caches of the store: votes and unchecked blocks

    Votes and unchecked blocks live in a cache in front of a table; [flush]
    writes the caches to the tables.  What the readers see is the union of
    the two. *)

From S2P Require Import Prelude Crypto Blocks Common Stats Store Ledger Votes Lmdb Versioning.
From S2P Require Import BlockStore StoreLemmas StoreRefine Upgrades StoreProps.

#[export] Instance vote_serialize_inj : Inj (=) (=) vote_serialize.
Proof.
  intros v w E. pose proof (vote_of_val_serialize v) as Hv. rewrite E, vote_of_val_serialize in Hv.
  by injection Hv.
Qed.

(** ** Votes *)
Section votes.
Context `{LmdbSpec, Blake2b, Ed25519}.
Implicit Types (c : block_store) (V : gmap u256 vote).

(** The votes a store knows: those of the cache, then those of the table. *)
Definition votes_known c V : Prop :=
  ∃ T, table (txn c) vote_db = encoded write_be vote_serialize T ∧ V = vote_cache c ∪ T.

Lemma vote_current_run a c V : votes_known c V → vote_current a c = Done (V !! a, c).
Proof.
  intros (T & Ht & ->). unfold vote_current, mbind at 1, M_bind at 1, gets. rewrite lookup_union.
  destruct (vote_cache c !! a) as [v|] eqn:Ev.
  - by destruct (T !! a).
  - unfold vote_get. rewrite (bind_done _ _ _ _ _ (db_get_encoded _ _ _ _ a _ Ht)).
    destruct (T !! a) as [v|]; simpl; [|done]. unfold mbind, M_bind, lift.
    by rewrite vote_of_val_serialize.
Qed.

Lemma votes_known_insert a v c V : votes_known c V →
  votes_known (set_vote_cache c (<[a := v]> (vote_cache c))) (<[a := v]> V).
Proof. intros (T & Ht & ->). exists T. split; [done|]. by rewrite insert_union_l. Qed.

(** [vote_max] returns the given vote or the known vote
    of the same account with a higher sequence number, remembers what it
    returns, and leaves the other accounts alone: a known sequence number
    never goes down. *)
Lemma vote_max_monotone v c V :
  votes_known c V →
  ∃ r c', vote_max v c = Done (r, c') ∧ votes_known c' (<[v_account v := r]> V) ∧
    (r = v ∨ V !! v_account v = Some r) ∧
    uval (v_sequence v) ≤ uval (v_sequence r) ∧
    (∀ w, V !! v_account v = Some w → uval (v_sequence w) ≤ uval (v_sequence r)).
Proof.
  intros HV. unfold vote_max. rewrite (bind_done _ _ _ _ _ (vote_current_run (v_account v) c V HV)).
  set (r := match V !! v_account v with
            | Some c0 => if u_ltb (v_sequence v) (v_sequence c0) then c0 else v
            | None => v end).
  exists r, (set_vote_cache c (<[v_account v := r]> (vote_cache c))). split; [done|].
  split; [by apply votes_known_insert|]. subst r. destruct (V !! v_account v) as [w|].
  - destruct (u_ltb_spec (v_sequence v) (v_sequence w)); split_and!; auto with lia; naive_solver lia.
  - split_and!; [by left|done|done].
Qed.

(** [vote_generate] signs the block with the sequence
    number after the one known for the account, so the number grows until it
    wraps at 2^64, and remembers the vote. *)
Lemma vote_generate_next a key b c V :
  votes_known c V →
  ∃ r c', vote_generate a key b c = Done (r, c') ∧ votes_known c' (<[a := r]> V) ∧
    r = make_vote a key (v_sequence r) b ∧
    uval (v_sequence r) = (match V !! a with Some w => uval (v_sequence w) | None => 0 end + 1)
      mod 2 ^ 64.
Proof.
  intros HV. unfold vote_generate. rewrite (bind_done _ _ _ _ _ (vote_current_run a c V HV)).
  eexists _, _. split; [done|]. split; [by apply votes_known_insert|]. split; [done|]. simpl.
  rewrite uval_add, (uval_U_small 8 1) by done. change (modulus 8) with (2 ^ 64).
  destruct (V !! a); [done|]. by rewrite uval_zero.
Qed.
End votes.

(** ** Unchecked blocks *)
Section unchecked.
Context `{LmdbSpec, Blake2b, Ed25519, Unordered}.
Implicit Types (c : block_store) (h : u256) (b : block).

(** The values of the table for a hash. *)
Definition stored_values c h : gset bytes := default ∅ (dups (txn c) unchecked !! write_be h).

(** Every key of the table is a hash with at least one value, every value a block. *)
Definition unchecked_ok c : Prop :=
  ∀ k vs, dups (txn c) unchecked !! k = Some vs →
    (∃ h, k = write_be h) ∧ vs ≠ ∅ ∧ ∀ v, v ∈ vs → ∃ b, v = serialize_block b.

(** The blocks waiting for a hash. *)
Definition waits c h b : Prop := b ∈ cached_unchecked h c ∨ serialize_block b ∈ stored_values c h.

Lemma serialize_block_inj b b' : serialize_block b = serialize_block b' → b = b'.
Proof.
  intros E. pose proof (deserialize_serialize b []) as Hb.
  rewrite E, deserialize_serialize in Hb. by injection Hb.
Qed.

Lemma read_unchecked_run (bs : list block) c :
  read_unchecked (map serialize_block bs) c = Done (map Some bs, c).
Proof.
  induction bs as [|b bs IH]; [done|]. cbn [map read_unchecked]. unfold mbind, M_bind, lift.
  pose proof (deserialize_serialize b []) as Hb. rewrite app_nil_r in Hb. by rewrite Hb, IH.
Qed.

(** Byte strings that are all serialised blocks. *)
Lemma blocks_of_values (vs : list bytes) : (∀ v, v ∈ vs → ∃ b, v = serialize_block b) →
  ∃ bs, vs = map serialize_block bs.
Proof.
  induction vs as [|v vs IH]; intros Hv; [by exists []|].
  destruct (Hv v) as [b ->]; [by left|]. destruct IH as [bs ->]; [set_solver|]. by exists (b :: bs).
Qed.

(** The first key at or after a hash in the table. *)
Lemma range_first {W} (k : bytes) (m : gmap bytes W) :
  match range k m with
  | [] => m !! k = None
  | (k', v) :: _ => m !! k' = Some v ∧ (k' = k ↔ is_Some (m !! k))
  end.
Proof.
  assert (Hin : ∀ x v, (x, v) ∈ range k m ↔ m !! x = Some v ∧ bytes_le k x).
  { intros x v. unfold range. rewrite merge_sort_Permutation, elem_of_map_to_list.
    by rewrite map_lookup_filter_Some. }
  assert (Hs : StronglySorted key_value_le (range k m)) by apply (StronglySorted_merge_sort _).
  destruct (range k m) as [|[k' v] l].
  - destruct (m !! k) as [v|] eqn:E; [|done].
    pose proof (proj2 (Hin k v) (conj E (bytes_le_refl k))). set_solver.
  - destruct (proj1 (Hin k' v)) as [Ek Hk]; [by left|]. split; [done|]. split; [by intros <-|].
    intros [w Hw]. pose proof (proj2 (Hin k w) (conj Hw (bytes_le_refl k))) as [[= ->]|Hl]%elem_of_cons;
      [done|].
    apply StronglySorted_inv in Hs as [_ Hall]. rewrite Forall_forall in Hall.
    apply bytes_le_antisymm; [exact (Hall _ Hl)|done].
Qed.

(** No block waits twice for a hash. *)
Definition waits_once c h : Prop :=
  NoDup (cached_unchecked h c) ∧ ∀ b, b ∈ cached_unchecked h c → serialize_block b ∉ stored_values c h.

Lemma unchecked_get_run h c : unchecked_ok c →
  ∃ bs, unchecked_get h c = Done (map Some bs, c) ∧ (∀ b, b ∈ bs ↔ waits c h b) ∧
    (waits_once c h → NoDup bs).
Proof.
  intros Hok. unfold unchecked_get. unfold mbind at 1, M_bind at 1, gets at 1.
  unfold mbind at 1, M_bind at 1, gets. rewrite dup_range_spec.
  pose proof (range_first (write_be h) (dups (txn c) unchecked)) as Hf.
  unfold waits_once, waits, stored_values.
  destruct (range (write_be h) (dups (txn c) unchecked)) as [|[k vs] l]; simpl.
  - rewrite Hf. exists (cached_unchecked h c).
    split; [unfold mbind, M_bind, mret, M_ret; by rewrite app_nil_r|]. split; [set_solver|by intros [? _]].
  - destruct Hf as [Ek Hk]. destruct (Hok _ _ Ek) as ([h' ->] & _ & Hv).
    unfold mbind, M_bind, lift. rewrite val_uint256_write. destruct (u_eqb_spec h' h) as [->|Hne].
    + destruct (blocks_of_values (merge_sort bytes_le (elements vs))) as [bs Hbs].
      { intros v. rewrite merge_sort_Permutation, elem_of_elements. apply Hv. }
      rewrite Hbs, read_unchecked_run. exists (cached_unchecked h c ++ bs). simpl.
      assert (Hin : ∀ b, b ∈ bs ↔ serialize_block b ∈ vs).
      { intros b. rewrite <-elem_of_elements, <-(merge_sort_Permutation bytes_le (elements vs)), Hbs.
        rewrite list_elem_of_fmap. split; [eauto|]. by intros (b' & ->%serialize_block_inj & ?). }
      rewrite Ek. simpl. split_and!; [by rewrite map_app|intros b; by rewrite elem_of_app, Hin|].
      intros [Hd Hx]. apply NoDup_app. split_and!; [done| |].
      * intros b Hb. rewrite Hin. by apply Hx.
      * apply (NoDup_fmap_1 serialize_block). change (fmap serialize_block bs) with (map serialize_block bs).
        rewrite <-Hbs, merge_sort_Permutation. apply NoDup_elements.
    + exists (cached_unchecked h c). split; [unfold mbind, M_bind, mret, M_ret; by rewrite app_nil_r|].
      assert (dups (txn c) unchecked !! write_be h = None) as ->;
        [|split; [set_solver|by intros [? _]]].
      apply eq_None_not_Some. rewrite <-Hk. intros E. by apply Hne, (inj write_be).
Qed.

Lemma hash_found_run x (bs : list block) c :
  ∃ r, hash_found x (map Some bs) c = Done (r, c) ∧ (r = true ↔ ∃ b, b ∈ bs ∧ block_hash b = x).
Proof.
  induction bs as [|b bs (r & Hr & IH)]; cbn [map hash_found].
  - exists false. split; [done|]. set_solver.
  - destruct (u_eqb_spec (block_hash b) x) as [E|Hne].
    + exists true. split; [done|]. split; [|done]. intros _. exists b. set_solver.
    + exists r. split; [done|]. rewrite IH. split; [set_solver|].
      intros (b' & [->|?]%elem_of_cons & ?); [done|eauto].
Qed.

Lemma cached_insert h h' bs c : cached_unchecked h'
    (set_unchecked_cache c (<[h := bs]> (unchecked_cache c))) =
  if decide (h = h') then bs else cached_unchecked h' c.
Proof.
  unfold cached_unchecked. simpl. rewrite lookup_insert. by case_decide.
Qed.

Lemma unchecked_put_run h b c : unchecked_ok c →
  ∃ c', unchecked_put h b c = Done (tt, c') ∧
    ((∃ b', waits c h b' ∧ block_hash b' = block_hash b) ∧ c' = c ∨
     (∀ b', waits c h b' → block_hash b' ≠ block_hash b) ∧
     c' = set_unchecked_cache c (<[h := cached_unchecked h c ++ [b]]> (unchecked_cache c))).
Proof.
  intros Hok. destruct (unchecked_get_run h c Hok) as (bs & Hg & Hbs & _).
  destruct (hash_found_run (block_hash b) bs c) as (r & Hr & Hrt).
  unfold unchecked_put. rewrite (bind_done _ _ _ _ _ Hg), (bind_done _ _ _ _ _ Hr).
  setoid_rewrite Hbs in Hrt. destruct r.
  - exists c. split; [done|]. left. split; [by apply Hrt|done].
  - eexists. split; [done|]. right. split; [|done]. intros b' Hw He.
    by assert (false = true) by (apply Hrt; eauto).
Qed.

Lemma cached_add h b c h' b' : waits (set_unchecked_cache c (<[h := cached_unchecked h c ++ [b]]> (unchecked_cache c))) h' b'
  ↔ waits c h' b' ∨ (h' = h ∧ b' = b).
Proof.
  unfold waits. rewrite cached_insert. unfold stored_values. simpl. case_decide as Eh; [subst h'|naive_solver].
  rewrite elem_of_app, list_elem_of_singleton. naive_solver.
Qed.

(** [unchecked_put] adds the block to those waiting for
    a hash unless one with the same block hash waits already; it never adds a
    second block with the same hash, and no other entry changes. *)
Lemma unchecked_put_waits h b c :
  unchecked_ok c →
  ∃ c', unchecked_put h b c = Done (tt, c') ∧ unchecked_ok c' ∧
    ((∃ b', waits c h b' ∧ block_hash b' = block_hash b) → c' = c) ∧
    ((∀ b', waits c h b' → block_hash b' ≠ block_hash b) →
       ∀ h' b', waits c' h' b' ↔ waits c h' b' ∨ (h' = h ∧ b' = b)).
Proof.
  intros Hok. destruct (unchecked_put_run h b c Hok) as (c' & Hp & [[(b' & Hw & He) ->]|[Hno ->]]).
  - exists c. split_and!; [done..|]. intros Hno. by destruct (Hno b').
  - eexists. split_and!; [done|done| |].
    + intros (b' & Hw & He). by destruct (Hno b').
    + intros _ h' b'. apply cached_add.
Qed.

Lemma sublist_list_filter {A} (f : A → bool) (l : list A) : sublist (List.filter f l) l.
Proof. induction l as [|a l IH]; simpl; [done|]. destruct (f a); by constructor. Qed.

Lemma dup_remove_values (k v : bytes) (m : gmap bytes (gset bytes)) (k' : bytes) :
  default ∅ (dup_remove k v m !! k') =
    if decide (k' = k) then default ∅ (m !! k) ∖ {[v]} else default ∅ (m !! k').
Proof.
  unfold dup_remove. destruct (decide (k' = k)) as [->|Hne].
  - case_decide as E; [by rewrite lookup_delete_eq, E|by rewrite lookup_insert_eq].
  - case_decide; [by rewrite lookup_delete_ne|by rewrite lookup_insert_ne].
Qed.
Lemma dup_add_values (k v : bytes) (m : gmap bytes (gset bytes)) (k' : bytes) :
  default ∅ (dup_add k v m !! k') =
    if decide (k' = k) then {[v]} ∪ default ∅ (m !! k) else default ∅ (m !! k').
Proof.
  unfold dup_add. destruct (decide (k' = k)) as [->|Hne].
  - by rewrite lookup_insert_eq.
  - by rewrite lookup_insert_ne.
Qed.

Lemma unchecked_ok_remove h v c t' : unchecked_ok c →
  (∀ x, dups t' x = upd (dups (txn c)) unchecked (dup_remove (write_be h) v (dups (txn c) unchecked)) x) →
  unchecked_ok (set_txn c t').
Proof.
  intros Hok Hx k vs. simpl. rewrite Hx, upd_eq. unfold dup_remove. case_decide as E.
  - intros [_ Hk]%lookup_delete_Some. by apply Hok.
  - intros [[<- <-]|[_ Hk]]%lookup_insert_Some; [|by apply Hok].
    destruct (dups (txn c) unchecked !! write_be h) as [vs|] eqn:Ev; simpl in *; [|set_solver].
    destruct (Hok _ _ Ev) as (? & _ & Hv). split_and!; [done..|]. set_solver.
Qed.

Lemma cached_alter h h' f c : cached_unchecked h'
    (set_unchecked_cache c (alter f h (unchecked_cache c))) =
  if decide (h = h') then default [] (f <$> unchecked_cache c !! h) else cached_unchecked h' c.
Proof.
  unfold cached_unchecked. simpl. case_decide as E; [subst h'|].
  - by rewrite lookup_alter_eq.
  - by rewrite lookup_alter_ne.
Qed.

Lemma waits_once_shrink c c' h : sublist (cached_unchecked h c') (cached_unchecked h c) →
  stored_values c' h ⊆ stored_values c h → waits_once c h → waits_once c' h.
Proof.
  intros Hs Hv [Hd Hx]. split; [by eapply sublist_NoDup|]. intros b Hb Hb'.
  apply (Hx b); [by eapply sublist_subseteq|by apply Hv].
Qed.

(** [unchecked_del] removes exactly the given block from those waiting for
    the hash, from the cache and from the table. *)
Lemma unchecked_del_run h b c :
  unchecked_ok c →
  ∃ c', unchecked_del h b c = Done (tt, c') ∧ unchecked_ok c' ∧
    (∀ db, table (txn c') db = table (txn c) db) ∧ vote_cache c' = vote_cache c ∧
    (∀ h', waits_once c h' → waits_once c' h') ∧
    ∀ h' b', waits c' h' b' ↔ waits c h' b' ∧ (h' = h → b' ≠ b).
Proof.
  intros Hok. unfold unchecked_del, mbind, M_bind, modify, dup_try_del.
  set (c1 := set_unchecked_cache c _).
  assert (Hsub : ∀ h', sublist (cached_unchecked h' c1) (cached_unchecked h' c)).
  { intros h'. subst c1. rewrite cached_alter. case_decide; [subst h'|done]. unfold cached_unchecked.
    destruct (unchecked_cache c !! h); simpl; [apply sublist_list_filter|done]. }
  assert (Hc : ∀ h' b', b' ∈ cached_unchecked h' c1 ↔
    b' ∈ cached_unchecked h' c ∧ (h' = h → b' ≠ b)).
  { intros h' b'. subst c1. rewrite cached_alter. unfold cached_unchecked.
    destruct (decide (h = h')) as [<-|]; [|naive_solver].
    destruct (unchecked_cache c !! h) as [l|]; simpl; [|set_solver].
    rewrite !list_elem_of_In, filter_In, negb_true_iff.
    destruct (block_eqb b' b) eqn:E; [apply block_eqb_eq in E as ->; naive_solver|].
    assert (b' ≠ b) by (intros ->; by rewrite (proj2 (block_eqb_eq b b)) in E). naive_solver. }
  pose proof (dup_del_spec unchecked (write_be h) (serialize_block b) (txn c1)) as Hd.
  change (txn c1) with (txn c) in *. case_decide as Hv.
  - destruct Hd as (t' & -> & Ht & Hx). exists (set_txn c1 t'). split; [done|].
    assert (Hst : ∀ h', stored_values (set_txn c1 t') h' =
      if decide (write_be h' = write_be h) then stored_values c h ∖ {[serialize_block b]} else stored_values c h').
    { intros h'. unfold stored_values. simpl. by rewrite Hx, upd_eq, dup_remove_values. }
    split_and!; [by apply (unchecked_ok_remove h (serialize_block b) c)|done|done| |].
    + intros h'. apply waits_once_shrink; [apply Hsub|]. rewrite Hst.
      case_decide as E; [|done]. apply (inj write_be) in E as ->. set_solver.
    + intros h' b'. unfold waits. rewrite Hst.
      change (cached_unchecked h' (set_txn c1 t')) with (cached_unchecked h' c1). rewrite Hc.
      destruct (decide (write_be h' = write_be h)) as [->%(inj write_be)|Hne].
      * rewrite elem_of_difference, elem_of_singleton.
        assert (serialize_block b' = serialize_block b ↔ b' = b) as ->
          by (split; [apply serialize_block_inj|congruence]). tauto.
      * assert (h' ≠ h) by congruence. tauto.
  - rewrite Hd. exists c1. split; [done|]. split_and!; [done..| |].
    + intros h'. apply waits_once_shrink; [apply Hsub|done].
    + intros h' b'. unfold waits. rewrite Hc. unfold stored_values. simpl.
      assert (h' = h → b' = b → serialize_block b' ∉ default ∅ (dups (txn c) unchecked !! write_be h'))
        by (by intros -> ->).
      destruct (decide (h' = h)), (decide (b' = b)); naive_solver.
Qed.
End unchecked.

(** ** Flushing the caches *)
Section flush.
Context `{LmdbSpec, Blake2b, Ed25519, Unordered}.
Implicit Types (c : block_store) (h : u256) (b : block).

Definition stored c h b : Prop := serialize_block b ∈ stored_values c h.

(** [c'] is [c] with the blocks of [l] added to the table of unchecked blocks. *)
Definition unchecked_added (l : list (u256 * block)) c c' : Prop :=
  (∀ db, table (txn c') db = table (txn c) db) ∧ vote_cache c' = vote_cache c ∧
  unchecked_cache c' = unchecked_cache c ∧ (unchecked_ok c → unchecked_ok c') ∧
  ∀ h b, stored c' h b ↔ stored c h b ∨ (h, b) ∈ l.

Lemma unchecked_added_nil c : unchecked_added [] c c.
Proof. split_and!; set_solver. Qed.
Lemma unchecked_added_app l l' c c1 c2 :
  unchecked_added l c c1 → unchecked_added l' c1 c2 → unchecked_added (l ++ l') c c2.
Proof.
  intros (Ht & Hv & Hu & Ho & Hs) (Ht' & Hv' & Hu' & Ho' & Hs'). split_and!; [|congruence..|auto|].
  - intros db. by rewrite Ht'.
  - intros h b. rewrite Hs', Hs, elem_of_app. tauto.
Qed.

Lemma wp_put_unchecked h b c Q : (∀ c', unchecked_added [(h, b)] c c' → Q tt c') →
  wp (dup_put_ unchecked (write_be h) (serialize_block b)) c Q.
Proof.
  intros HQ. unfold wp, dup_put_.
  destruct (dup_put_spec unchecked (write_be h) (serialize_block b) (txn c)) as (t' & -> & Ht & Hx).
  apply HQ. split_and!; [done..| |].
  - intros Hok k vs. simpl. rewrite Hx, upd_eq. unfold dup_add.
    intros [[<- <-]|[_ Hk]]%lookup_insert_Some; [|by apply Hok]. split_and!; [eauto|set_solver|].
    intros v [->%elem_of_singleton|Hv]%elem_of_union; [eauto|].
    destruct (dups (txn c) unchecked !! write_be h) as [vs|] eqn:E; simpl in Hv; [|set_solver].
    by apply (Hok _ _ E).
  - intros h' b'. unfold stored, stored_values. simpl. rewrite Hx, upd_eq, dup_add_values.
    rewrite list_elem_of_singleton.
    destruct (decide (write_be h' = write_be h)) as [->%(inj write_be)|Hne].
    + rewrite elem_of_union, elem_of_singleton. split; [|naive_solver].
      intros [->%serialize_block_inj|?]; auto.
    + split; [auto|]. intros [?|[= -> ->]]; done.
Qed.

Lemma wp_put_unchecked_all h bs c Q : (∀ c', unchecked_added (pair h <$> bs) c c' → Q tt c') →
  wp (for_each bs (λ b, dup_put_ unchecked (write_be h) (serialize_block b))) c Q.
Proof.
  revert c. induction bs as [|b bs IH]; intros c HQ; cbn [for_each].
  - apply wp_ret, HQ, unchecked_added_nil.
  - apply wp_bind, wp_put_unchecked. intros c1 Hc1. apply IH. intros c2 Hc2. apply HQ.
    by apply (unchecked_added_app [(h, b)] _ _ c1).
Qed.

(** The entries of a multimap, one by one. *)
Definition flat (l : list (u256 * list block)) : list (u256 * block) :=
  mjoin ((λ e, pair e.1 <$> e.2) <$> l).

Lemma wp_flush_unchecked l c Q : (∀ c', unchecked_added (flat l) c c' → Q tt c') →
  wp (for_each l (λ '(h, bs),
    for_each bs (λ b, dup_put_ unchecked (write_be h) (serialize_block b)))) c Q.
Proof.
  revert c. induction l as [|[h bs] l IH]; intros c HQ; cbn [for_each].
  - apply wp_ret, HQ, unchecked_added_nil.
  - apply wp_bind, wp_put_unchecked_all. intros c1 Hc1. apply IH. intros c2 Hc2. apply HQ.
    by apply (unchecked_added_app _ _ _ c1).
Qed.

Lemma wp_flush_votes (l : list (u256 * vote)) (T : gmap u256 vote) c Q :
  table (txn c) vote_db = encoded write_be vote_serialize T →
  (∀ c', table (txn c') vote_db = encoded write_be vote_serialize (insert_all l T) →
     (∀ db, db ≠ vote_db → table (txn c') db = table (txn c) db) →
     (∀ x, dups (txn c') x = dups (txn c) x) → vote_cache c' = vote_cache c →
     unchecked_cache c' = unchecked_cache c → Q tt c') →
  wp (for_each l (λ '(a, v), db_put vote_db (write_be a) (vote_serialize v))) c Q.
Proof.
  revert T c. induction l as [|[a v] l IH]; intros T c Ht HQ; cbn [for_each]; [by apply wp_ret, HQ|].
  apply wp_bind, wp_db_put. intros t' [Hx Hd]. apply (IH (<[a := v]> T)).
  - simpl. by rewrite Hx, upd_eq, Ht, encoded_insert by apply _.
  - intros c' Ht' Ho' Hd' Hv Hu. apply HQ; [done| | |done..].
    + intros db Hdb. rewrite Ho' by done. simpl. by rewrite Hx, upd_ne.
    + intros x. by rewrite Hd'.
Qed.

Lemma flat_elem (m : gmap u256 (list block)) h b :
  (h, b) ∈ flat (iterate m) ↔ b ∈ default [] (m !! h).
Proof.
  unfold flat. rewrite list_elem_of_join. split.
  - intros (l & Hb & ([h' bs] & -> & Hin)%list_elem_of_fmap).
    apply list_elem_of_fmap in Hb as (b' & [= -> ->] & Hb).
    rewrite iterate_perm, elem_of_map_to_list in Hin. by rewrite Hin.
  - destruct (m !! h) as [bs|] eqn:E; simpl; [|set_solver]. intros Hb.
    exists (pair h <$> bs). split; [apply list_elem_of_fmap; eauto|].
    apply list_elem_of_fmap. exists (h, bs). split; [done|].
    by rewrite iterate_perm, elem_of_map_to_list.
Qed.

Lemma insert_all_union (m T : gmap u256 vote) : insert_all (iterate m) T = m ∪ T.
Proof.
  assert (Hnd : NoDup (iterate m).*1) by (rewrite iterate_perm; apply NoDup_fst_map_to_list).
  apply map_eq. intros a. apply option_eq. intros v. rewrite insert_all_lookup by done.
  assert ((a, v) ∈ iterate m ↔ m !! a = Some v) as ->
    by (by rewrite iterate_perm, elem_of_map_to_list).
  assert ((a ∉ (iterate m).*1) ↔ m !! a = None) as ->; [|by rewrite lookup_union_Some_raw].
  rewrite iterate_perm, eq_None_not_Some, list_elem_of_fmap. split.
  - intros Hn [x Hx]. apply Hn. exists (a, x). by rewrite elem_of_map_to_list.
  - intros Hn ([a' x] & -> & Hx). rewrite elem_of_map_to_list in Hx. eauto.
Qed.

(** What a reader sees is the same after [flush]. *)
Definition flushed c V c' : Prop :=
  vote_cache c' = ∅ ∧ unchecked_cache c' = ∅ ∧ votes_known c' V ∧ unchecked_ok c' ∧
  (∀ h b, waits c' h b ↔ waits c h b) ∧ ∀ db, db ≠ vote_db → table (txn c') db = table (txn c) db.

Lemma wp_flush c V : votes_known c V → unchecked_ok c → wp flush c (λ _, flushed c V).
Proof.
  intros (T & Ht & ->) Hok. unfold flush. unfold mbind at 1, M_bind at 1, gets at 1, wp.
  apply wp_bind. unfold wp at 1, gets. apply wp_bind. unfold wp at 1, modify.
  apply wp_bind, wp_flush_unchecked. intros c1 (Ht1 & Hv1 & Hu1 & Ho1 & Hs1).
  apply (wp_flush_votes _ T); [by rewrite Ht1|]. intros c2 Ht2 Ho2 Hd2 Hv2 Hu2.
  rewrite insert_all_union in Ht2. rewrite Hv1 in Hv2. rewrite Hu1 in Hu2. simpl in Hv2, Hu2.
  assert (Hsame : ∀ h, stored_values c2 h = stored_values c1 h).
  { intros h. unfold stored_values. by rewrite Hd2. }
  split_and!; [done..| | | |].
  - exists (vote_cache c ∪ T). split; [done|]. by rewrite Hv2, (left_id_L ∅ (∪)).
  - intros k vs. rewrite Hd2. apply Ho1, Hok.
  - intros h b. unfold waits, cached_unchecked. rewrite Hu2, lookup_empty, Hsame. simpl.
    rewrite (Hs1 h b), flat_elem. unfold stored, stored_values. simpl. set_solver.
  - intros db Hdb. by rewrite Ho2, Ht1.
Qed.

(** C33: [flush] empties both caches and changes nothing a
    reader sees: the same vote is known for every account and the same blocks
    wait for every hash. *)
Theorem flush_preserves c V :
  votes_known c V → unchecked_ok c →
  ∃ c', flush c = Done (tt, c') ∧ vote_cache c' = ∅ ∧ unchecked_cache c' = ∅ ∧
    votes_known c' V ∧ unchecked_ok c' ∧ ∀ h b, waits c' h b ↔ waits c h b.
Proof.
  intros HV Hok. destruct (proj1 (wp_run _ _ _) (wp_flush c V HV Hok)) as ([] & c' & Hf & Hp).
  exists c'. destruct Hp as (? & ? & ? & ? & ? & _). by split_and!.
Qed.
End flush.
