(* ===== verification/NumberProps.v ===== *)
(** * Properties of numbers and their texts

    The loops over bytes and machine words compute the numbers the rest of
    the program works with, and texts of accounts, amounts and hashes are read
    back as the value they were written from. *)

From S2P Require Import Prelude Crypto Numbers.
From Stdlib Require Import Ascii.

#[local] Transparent write_be be_bytes be_val le_bytes le_val modulus.

(** ** Bits *)

Lemma lor_shiftl x y n : 0 ≤ n → 0 ≤ y < 2 ^ n → Z.lor (Z.shiftl x n) y = x * 2 ^ n + y.
Proof.
  intros Hn Hy. rewrite <-Z.shiftl_mul_pow2, <-Z.add_lor_land by done.
  assert (Z.land (Z.shiftl x n) y = 0) as ->; [|lia].
  destruct (decide (y = 0)) as [->|Hne]; [apply Z.land_0_r|]. apply Z.bits_inj'. intros i Hi.
  rewrite Z.land_spec, Z.bits_0, Z.shiftl_spec by done.
  destruct (decide (i < n)); [by rewrite Z.testbit_neg_r by lia|].
  rewrite (Z.bits_above_log2 y), andb_false_r; [done|lia|].
  apply Z.log2_lt_pow2; [lia|].
  assert (2 ^ n ≤ 2 ^ i) by (apply Z.pow_le_mono_r; lia). lia.
Qed.

Lemma land_ones x n : 0 ≤ n → Z.land x (2 ^ n - 1) = x mod 2 ^ n.
Proof. intros Hn. rewrite <-Z.land_ones by done. by rewrite Z.ones_equiv, <-Z.sub_1_r. Qed.

(** ** Unions as arrays of bytes *)

Lemma union_of_number_be n z : union_of_number n z = be_bytes n z.
Proof.
  unfold be_bytes. revert z. induction n as [|n IH]; intros z; simpl; [done|].
  rewrite IH. f_equal. change 255 with (2 ^ 8 - 1). rewrite land_ones by done.
  unfold byte. f_equal. apply uval_inj. rewrite !uval_U. by rewrite Z.mod_mod.
Qed.

Lemma number_be bs : number bs = be_val bs.
Proof.
  unfold number. induction bs as [|b bs IH] using rev_ind; [done|].
  rewrite foldl_app, be_val_snoc. simpl. rewrite IH. pose proof (uval_range b) as Hb.
  rewrite lor_shiftl; [|done|exact Hb]. lia.
Qed.

(** Exclusive or of bytes. *)
Definition byte_xor (a b : u8) : u8 := u_xor a b.

Lemma byte_lxor p q : byte (Z.lxor p q) = byte_xor (byte p) (byte q).
Proof.
  apply uval_inj. unfold byte_xor. rewrite uval_xor. unfold byte. rewrite !uval_U, modulus_1.
  change 256 with (2 ^ 8). rewrite <-!Z.land_ones by done. apply Z.bits_inj'. intros i Hi.
  rewrite !Z.lxor_spec, !Z.land_spec, Z.lxor_spec. by destruct (Z.testbit (Z.ones 8) i), (Z.testbit p i), (Z.testbit q i).
Qed.
Lemma le_bytes_lxor n p q :
  le_bytes n (Z.lxor p q) = zip_with byte_xor (le_bytes n p) (le_bytes n q).
Proof.
  revert p q. induction n as [|n IH]; intros p q; simpl; [done|].
  by rewrite byte_lxor, Z.shiftr_lxor, IH.
Qed.
Lemma zip_with_rev (f : u8 → u8 → u8) a b : length a = length b →
  zip_with f (rev a) (rev b) = rev (zip_with f a b).
Proof.
  revert b. induction a as [|x a IH]; intros [|y b] Hl; simplify_eq/=; [done|].
  rewrite zip_with_app, IH by (by rewrite ?length_rev). done.
Qed.
Lemma be_bytes_lxor n p q :
  be_bytes n (Z.lxor p q) = zip_with byte_xor (be_bytes n p) (be_bytes n q).
Proof.
  unfold be_bytes. rewrite le_bytes_lxor, zip_with_rev; [done|]. by rewrite !length_le_bytes.
Qed.

Lemma le_bytes_of_val n l : length l = n → le_bytes n (le_val l) = l.
Proof. intros <-. apply le_bytes_le_val. Qed.

Lemma union_xor_bytes n a b : length a = (8 * n)%nat → length b = (8 * n)%nat →
  union_xor n a b = zip_with byte_xor a b.
Proof.
  unfold union_xor, of_qwords. revert a b. induction n as [|n IH]; intros a b Ha Hb.
  { apply nil_length_inv in Ha as ->. done. }
  cbn [qwords zip_with]. rewrite fmap_cons. cbn [mjoin list_join].
  rewrite IH by (rewrite length_drop; lia). rewrite le_bytes_lxor.
  assert (length (take 8 a) = 8%nat) as Ha8 by (rewrite length_take; lia).
  assert (length (take 8 b) = 8%nat) as Hb8 by (rewrite length_take; lia).
  rewrite !le_bytes_of_val by done.
  rewrite <-zip_with_app by lia. by rewrite !take_drop.
Qed.

Lemma le_val_zero l : le_val l = 0 ↔ l = replicate (length l) (byte 0).
Proof.
  induction l as [|b l IH]; simpl; [done|]. pose proof (uval_range b). pose proof (le_val_range l).
  split.
  - intros E. f_equal; [apply uval_inj; rewrite uval_zero; lia|]. apply IH. lia.
  - intros [= E El]. rewrite E at 1. rewrite uval_zero. apply IH in El. lia.
Qed.
Lemma union_is_zero_bytes n a : length a = (8 * n)%nat →
  union_is_zero n a = true ↔ a = replicate (8 * n) (byte 0).
Proof.
  unfold union_is_zero. revert a. induction n as [|n IH]; intros a Ha.
  { apply nil_length_inv in Ha as ->. done. }
  cbn [qwords forallb]. rewrite andb_true_iff, Z.eqb_eq, IH by (rewrite length_drop; lia).
  rewrite le_val_zero, length_take. replace (8 `min` length a)%nat with 8%nat by lia.
  replace (8 * S n)%nat with (8 + 8 * n)%nat by lia. rewrite replicate_add. split.
  - intros [E1 E2]. by rewrite <-(take_drop 8 a), E1, E2 at 1.
  - intros ->. by rewrite take_app_length', drop_app_length' by (by rewrite length_replicate).
Qed.

(** The loops of the 256-bit union agree with the numbers
    the model computes with: bytes and number convert into each other,
    comparing, testing for zero and exclusive or by machine words are
    equality, zero and exclusive or of the numbers. *)
Lemma union_operations (x y : u256) :
  union_of_number 32 (uval x) = write_be x ∧ number (write_be x) = uval x ∧
  union_eqb (write_be x) (write_be y) = u_eqb x y ∧
  union_ltb (write_be x) (write_be y) = u_ltb x y ∧
  union_is_zero 4 (write_be x) = is_zero x ∧
  union_xor 4 (write_be x) (write_be y) = write_be (u_xor x y).
Proof.
  assert (Hn : ∀ z : u256, number (write_be z) = uval z).
  { intros z. rewrite number_be. unfold write_be. rewrite be_val_be_bytes.
    apply Z.mod_small, uval_range. }
  split_and!.
  - apply union_of_number_be.
  - apply Hn.
  - unfold union_eqb. destruct (u_eqb_spec x y) as [->|Hne]; [by apply bool_decide_true|].
    apply bool_decide_false. intros E. apply Hne, uval_inj. by rewrite <-!Hn, E.
  - unfold union_ltb. by rewrite !Hn.
  - apply eq_bool_prop_intro. rewrite !Is_true_true, is_zero_true.
    rewrite union_is_zero_bytes by apply length_be_bytes. split.
    + intros E. apply uval_inj. rewrite <-!Hn, E. unfold write_be. rewrite uval_zero. vm_compute. done.
    + intros ->. unfold write_be. rewrite uval_zero. vm_compute. done.
  - rewrite union_xor_bytes by apply length_be_bytes. unfold write_be.
    by rewrite uval_xor, be_bytes_lxor.
Qed.

(** ** Account texts *)

Definition digit (d : Z) : ascii := nth (Z.to_nat d) account_lookup zero.

Definition digit_ok (d : Z) : bool :=
  negb ((code (digit d) <? 0x30) || (0x80 <=? code (digit d)))
  && match account_decode (digit d) with Done b => uval b =? d | Fault _ => false end
  && negb (d =? code "~"%char).

Lemma digits_ok : forallb digit_ok (Z.of_nat <$> seq 0 32) = true.
Proof. vm_compute. reflexivity. Qed.

Lemma digit_decode d : 0 ≤ d < 32 →
  (code (digit d) <? 0x30) || (0x80 <=? code (digit d)) = false ∧
  (∃ b, account_decode (digit d) = Done b ∧ uval b = d) ∧ d ≠ code "~"%char.
Proof.
  intros Hd. assert (digit_ok d = true) as Hok.
  { apply (proj1 (forallb_forall _ _) digits_ok), list_elem_of_In, list_elem_of_fmap.
    exists (Z.to_nat d). split; [lia|]. apply elem_of_seq. lia. }
  unfold digit_ok in Hok. rewrite !andb_true_iff, !negb_true_iff, Z.eqb_neq in Hok.
  destruct Hok as [[Hr Hdec] Hne]. split; [done|]. split; [|done].
  destruct (account_decode (digit d)) as [b|]; [|done]. exists b. split; [done|]. lia.
Qed.

Definition digits_value (acc : Z) (ds : list Z) : Z := foldl (λ n d, n * 32 + d) acc ds.

Definition small_digits (ds : list Z) : Prop := Forall (λ d, 0 ≤ d < 32) ds.

Lemma digits_value_app acc ds ds' : digits_value acc (ds ++ ds') = digits_value (digits_value acc ds) ds'.
Proof. unfold digits_value. apply foldl_app. Qed.
Lemma digits_value_bound acc ds : 0 ≤ acc → small_digits ds →
  0 ≤ digits_value acc ds < (acc + 1) * 32 ^ Z.of_nat (length ds).
Proof.
  intros Ha Hs. revert acc Ha. induction Hs as [|d ds Hd _ IH]; intros acc Ha; cbn [length].
  - simpl. lia.
  - change (digits_value acc (d :: ds)) with (digits_value (acc * 32 + d) ds).
    rewrite Nat2Z.inj_succ, Z.pow_succ_r by lia. specialize (IH (acc * 32 + d)). nia.
Qed.

Lemma digits_value_lower acc ds : 0 ≤ acc → small_digits ds →
  acc * 32 ^ Z.of_nat (length ds) ≤ digits_value acc ds.
Proof.
  intros Ha Hs. revert acc Ha. induction Hs as [|d ds Hd _ IH]; intros acc Ha; cbn [length].
  - simpl. unfold digits_value. simpl. lia.
  - change (digits_value acc (d :: ds)) with (digits_value (acc * 32 + d) ds).
    rewrite Nat2Z.inj_succ, Z.pow_succ_r by lia. specialize (IH (acc * 32 + d)).
    assert (0 < 32 ^ Z.of_nat (length ds)) by (apply Z.pow_pos_nonneg; lia). nia.
Qed.

(** Decoding digits, from a number small enough for 512 bits. *)
Lemma decode_digits_run acc ds t : 0 ≤ acc → small_digits ds →
  (acc + 1) * 32 ^ Z.of_nat (length ds) ≤ 2 ^ 512 →
  decode_digits acc (map digit ds ++ t) = decode_digits (digits_value acc ds) t.
Proof.
  intros Ha Hs. revert acc Ha. induction Hs as [|d ds Hd Hs IH]; intros acc Ha Hb; [done|].
  cbn [map app decode_digits]. destruct (digit_decode d Hd) as (-> & (b & -> & Eb) & Hne).
  rewrite Eb, (proj2 (Z.eqb_neq _ _) Hne), Z.shiftl_mul_pow2 by done. change (2 ^ 5) with 32.
  cbn [length] in Hb. rewrite Nat2Z.inj_succ, Z.pow_succ_r in Hb by lia.
  assert (0 < 32 ^ Z.of_nat (length ds)) by (apply Z.pow_pos_nonneg; lia).
  rewrite Z.mod_small by nia. rewrite IH; [done|lia|nia].
Qed.

(** The digits of a number, the lowest first. *)
Fixpoint digits (n : nat) (z : Z) : list Z :=
  match n with O => [] | S n => z mod 32 :: digits n (z / 32) end.

Lemma length_digits n z : length (digits n z) = n.
Proof. revert z. induction n; intros; simpl; auto. Qed.
Lemma digits_small n z : small_digits (digits n z).
Proof.
  revert z. induction n as [|n IH]; intros z; constructor; [|apply IH].
  apply Z.mod_pos_bound. lia.
Qed.
Lemma digits_rev_value n z : 0 ≤ z < 32 ^ Z.of_nat n → digits_value 0 (rev (digits n z)) = z.
Proof.
  revert z. induction n as [|n IH]; intros z Hz; simpl.
  - simpl in Hz. unfold digits_value. simpl. lia.
  - rewrite Nat2Z.inj_succ, Z.pow_succ_r in Hz by lia. rewrite digits_value_app, IH.
    + unfold digits_value. simpl. pose proof (Z.div_mod z 32). lia.
    + split; [apply Z.div_pos; lia|]. apply Z.div_lt_upper_bound; lia.
Qed.

Lemma encode_digits_run n z : 0 ≤ z → encode_digits n z = Done (map digit (digits n z)).
Proof.
  revert z. induction n as [|n IH]; intros z Hz; [done|]. cbn [encode_digits digits map].
  change 31 with (2 ^ 5 - 1). rewrite land_ones by done. change (2 ^ 5) with 32.
  unfold account_encode. pose proof (Z.mod_pos_bound z 32).
  rewrite (proj2 (Z.ltb_lt _ _)) by lia. rewrite Z.shiftr_div_pow2, IH; [done|apply Z.div_pos; lia|done].
Qed.

Section accounts.
Context `{Blake2b}.

(** The number an account text stands for. *)
Definition account_number (x : u256) : Z := uval x * 2 ^ 40 + account_check x.

Lemma account_check_range x : 0 ≤ account_check x < 2 ^ 40.
Proof.
  unfold account_check. pose proof (le_val_range (blake2b_final (blake2b_update (blake2b_init 5) (write_be x)) 5)) as Hr.
  by rewrite blake2b_final_length in Hr.
Qed.
Lemma account_number_range x : 0 ≤ account_number x < 2 ^ 296.
Proof.
  unfold account_number. pose proof (account_check_range x). pose proof (uval_range x) as Hx.
  change (modulus 32) with (2 ^ 256) in Hx. lia.
Qed.

Lemma account_number_or x : Z.lor (Z.shiftl (uval x) 40) (account_check x) = account_number x.
Proof. apply lor_shiftl; [done|]. apply account_check_range. Qed.

Lemma account_number_parts x :
  U 32 (Z.shiftr (account_number x) 40) = x ∧ Z.land (account_number x) 0xffffffffff = account_check x.
Proof.
  pose proof (account_check_range x) as Hc. unfold account_number. split.
  - rewrite Z.shiftr_div_pow2 by done. rewrite Z.add_comm, Z.div_add, Z.div_small by lia.
    rewrite Z.add_0_l. apply U_uval.
  - change 0xffffffffff with (2 ^ 40 - 1). rewrite land_ones by done.
    rewrite Z.add_comm, Z.mod_add by lia. apply Z.mod_small. lia.
Qed.

Lemma to_account_run x :
  to_account x = Done (lit "bdm_" ++ map digit (rev (digits 60 (account_number x)))).
Proof.
  unfold to_account. rewrite account_number_or, encode_digits_run by apply account_number_range.
  by rewrite rev_app_distr, map_rev.
Qed.

(** The first digit of a text is the highest, 0 or 1. *)
Lemma first_digit x : ∃ d ds, rev (digits 60 (account_number x)) = d :: ds ∧ (d = 0 ∨ d = 1) ∧
  length ds = 59%nat ∧ small_digits ds.
Proof.
  pose proof (digits_small 60 (account_number x)) as Hs. apply Forall_rev in Hs.
  pose proof (account_number_range x) as Hr.
  assert (digits_value 0 (rev (digits 60 (account_number x))) = account_number x) as Hv.
  { apply digits_rev_value. change (32 ^ Z.of_nat 60) with (2 ^ 300). lia. }
  assert (length (rev (digits 60 (account_number x))) = 60%nat) as Hl by (by rewrite length_rev, length_digits).
  destruct (rev (digits 60 (account_number x))) as [|d ds]; [done|]. exists d, ds.
  apply Forall_cons in Hs as [Hd Hs]. split_and!; [done| |by injection Hl|done].
  change (digits_value 0 (d :: ds)) with (digits_value (0 * 32 + d) ds) in Hv.
  injection Hl as Hl. pose proof (digits_value_lower (0 * 32 + d) ds) as Hlow.
  rewrite Hl in Hlow. change (32 ^ Z.of_nat 59) with (2 ^ 295) in Hlow.
  assert (0 ≤ 0 * 32 + d) as Hd0 by lia. specialize (Hlow Hd0 Hs). lia.
Qed.

Lemma decode_account_text d t : (d = 0 ∨ d = 1) → length t = 59%nat →
  decode_account (lit "bdm_" ++ digit d :: t) =
    match decode_digits 0 (digit d :: t) with
    | Done (Some n) => Done (if Z.land n 0xffffffffff =? account_check (U 32 (Z.shiftr n 40))
                             then Some (U 32 (Z.shiftr n 40)) else None)
    | Done None => Done None
    | Fault e => Fault e
    end.
Proof.
  intros Hd Hl. unfold decode_account. rewrite length_app. cbn [length]. rewrite Hl.
  assert (bool_decide (digit d = "1"%char) || bool_decide (digit d = "3"%char) = true) as E1.
  { destruct Hd as [-> | ->]; reflexivity. }
  change (bdm_prefix (lit "bdm_" ++ digit d :: t)) with true.
  change (drop 4 (lit "bdm_" ++ digit d :: t)) with (digit d :: t).
  change (Nat.ltb (length (lit "bdm_") + 60) 5) with false.
  change (Nat.eqb (length (lit "bdm_") + 60) 64) with true. cbn [andb negb]. rewrite E1.
  destruct (decode_digits 0 (digit d :: t)) as [[n|]|]; [|done..].
  by destruct (_ =? _).
Qed.

Lemma digits_inj ds ds' : small_digits ds → small_digits ds' → map digit ds = map digit ds' → ds = ds'.
Proof.
  intros Hs. revert ds'. induction Hs as [|d ds Hd Hs IH]; intros [|d' ds'] Hs' E; simplify_eq/=; [done|].
  apply Forall_cons in Hs' as [Hd' Hs']. f_equal; [|by apply IH].
  destruct (digit_decode d Hd) as (_ & (b & Eb & <-) & _).
  destruct (digit_decode d' Hd') as (_ & (b' & Eb' & <-) & _). congruence.
Qed.

(** The text of an account, its length and that it is decoded. *)
Lemma account_text x : ∃ d ds, to_account x = Done (lit "bdm_" ++ map digit (d :: ds)) ∧
  length (d :: ds) = 60%nat ∧ decode_account (lit "bdm_" ++ map digit (d :: ds)) = Done (Some x).
Proof.
  destruct (first_digit x) as (d & ds & Hds & Hd & Hl & Hs).
  exists d, ds. split; [by rewrite to_account_run, Hds|]. split; [simpl; by rewrite Hl|].
  cbn [map]. rewrite decode_account_text by (done || by rewrite length_map).
  change (digit d :: map digit ds) with (map digit (d :: ds)).
  assert (small_digits (d :: ds)) as Hs' by (constructor; [lia|done]).
  rewrite <-(app_nil_r (map digit (d :: ds))), decode_digits_run.
  - cbn [decode_digits]. rewrite <-Hds, digits_rev_value.
    + destruct (account_number_parts x) as [-> ->]. by rewrite Z.eqb_refl.
    + pose proof (account_number_range x). change (32 ^ Z.of_nat 60) with (2 ^ 300). lia.
  - lia.
  - done.
  - cbn [length]. rewrite Hl. vm_compute. discriminate.
Qed.

(** C39: the text of an account has 64 characters and is read
    back as the account. *)
Theorem account_roundtrip x :
  ∃ t, to_account x = Done t ∧ length t = 64%nat ∧ decode_account t = Done (Some x).
Proof.
  destruct (account_text x) as (d & ds & Ht & Hl & Hd). eexists. split; [exact Ht|].
  split; [|exact Hd]. rewrite length_app, length_map, Hl. reflexivity.
Qed.

(** A character without a digit counts as the number 78. *)
Definition no_digit (c : ascii) : Prop :=
  (code c <? 0x30) || (0x80 <=? code c) = false ∧ account_decode c = Done (byte 78).

(** The test for invalid characters never applies, so a text
    with an invalid character is accepted: where the text of an account has a
    digit of at least 2 followed by the digit 14, the first can be lowered by
    2 and the second replaced by any invalid character. *)
Lemma account_alias x pre d post c :
  to_account x = Done (lit "bdm_" ++ map digit (pre ++ d :: 14 :: post)) →
  small_digits (pre ++ d :: 14 :: post) → pre ≠ [] → 2 ≤ d → no_digit c →
  decode_account (lit "bdm_" ++ map digit pre ++ digit (d - 2) :: c :: map digit post) = Done (Some x).
Proof.
  intros Ht Hs Hpre Hd2 [Hc Hdec]. destruct (first_digit x) as (d0 & ds & Hds & Hd0 & Hl & Hs0).
  rewrite to_account_run, Hds in Ht. injection Ht as Ht.
  assert (d0 :: ds = pre ++ d :: 14 :: post) as E.
  { apply digits_inj; [|done..]. constructor; [lia|done]. }
  destruct pre as [|p0 pre]; [done|]. injection E as <- ->. cbn [app map].
  rewrite length_app in Hl. cbn [length] in Hl.
  apply Forall_cons in Hs as [Hp0 [Hsp [Hd Hspost]%Forall_cons]%Forall_app].
  apply Forall_cons in Hspost as [_ Hspost].
  rewrite decode_account_text by (done || rewrite length_app; cbn [length]; rewrite !length_map; lia).
  change (digit d0 :: map digit pre ++ digit (d - 2) :: c :: map digit post) with
    (map digit (d0 :: pre) ++ digit (d - 2) :: c :: map digit post).
  assert (digit (d - 2) :: c :: map digit post = map digit [d - 2] ++ c :: map digit post) as -> by done.
  rewrite app_assoc, <-map_app.
  assert (small_digits ((d0 :: pre) ++ [d - 2])) as Hs1.
  { apply Forall_app. split; [by constructor|]. constructor; [lia|constructor]. }
  assert (Hlen : Z.of_nat (length ((d0 :: pre) ++ [d - 2])) + Z.of_nat (length post) = 59).
  { rewrite length_app. cbn [length]. lia. }
  pose proof (digits_value_bound 0 _ (Z.le_refl 0) Hs1) as Hv.
  set (v := digits_value 0 ((d0 :: pre) ++ [d - 2])) in *.
  set (A := 32 ^ Z.of_nat (length ((d0 :: pre) ++ [d - 2]))) in *.
  set (P := 32 ^ Z.of_nat (length post)).
  assert (A * P = 2 ^ 295) as HAP.
  { unfold A, P. rewrite <-Z.pow_add_r, Hlen by lia. done. }
  assert (0 < A) by (apply Z.pow_pos_nonneg; lia). assert (0 < P) by (apply Z.pow_pos_nonneg; lia).
  rewrite decode_digits_run; [|lia|done|fold A; nia]. fold v. cbn [decode_digits].
  rewrite Hc, Hdec. change (uval (byte 78) =? code "~"%char) with false. cbv iota.
  change (uval (byte 78)) with 78. rewrite Z.shiftl_mul_pow2 by done. change (2 ^ 5) with 32.
  rewrite Z.mod_small by nia.
  rewrite <-(app_nil_r (map digit post)), decode_digits_run; [|nia|done|fold P; nia].
  cbn [decode_digits].
  assert (digits_value (v * 32 + 78) post = account_number x) as ->.
  { rewrite <-(digits_rev_value 60 (account_number x)).
    - rewrite Hds. change (d0 :: pre ++ d :: 14 :: post) with ((d0 :: pre) ++ [d; 14] ++ post).
      rewrite !digits_value_app. unfold v. rewrite digits_value_app. f_equal.
      unfold digits_value. simpl. lia.
    - pose proof (account_number_range x). change (32 ^ Z.of_nat 60) with (2 ^ 300). lia. }
  destruct (account_number_parts x) as [-> ->]. by rewrite Z.eqb_refl.
Qed.

(** A text of the right length and prefix whose
    digits are followed by the character 0x7f passes the range check of the
    loop and trips the assertion of [account_decode]. *)
Lemma account_del_character d ds t :
  (d = 0 ∨ d = 1) → small_digits ds → (length ds + length t = 58)%nat →
  decode_account (lit "bdm_" ++ digit d :: map digit ds ++ chr 0x7f :: t) = Fault assertion_failed.
Proof.
  intros Hd Hs Hl.
  rewrite decode_account_text by (done || rewrite length_app, length_map; cbn [length]; lia).
  change (digit d :: map digit ds ++ chr 127 :: t) with (map digit (d :: ds) ++ chr 127 :: t).
  rewrite decode_digits_run; [done|lia|constructor; [lia|done]|]. cbn [length].
  assert (32 ^ Z.of_nat (S (length ds)) ≤ 32 ^ 59) by (apply Z.pow_le_mono_r; lia).
  change (32 ^ 59) with (2 ^ 295) in *. lia.
Qed.
End accounts.

(** ** Texts of numbers *)

Definition base_value (b : number_base) : Z := match b with hexadecimal => 16 | decimal => 10 end.
(** The characters Boost takes for part of a number. *)
Definition number_character (b : number_base) (c : ascii) : bool :=
  existsb (Ascii.eqb c)
    match b with hexadecimal => lit "+-xXabcdefABCDEF0123456789" | decimal => lit "+-0123456789" end.
Definition base_digits (b : number_base) (ds : list Z) : Prop := Forall (λ d, 0 ≤ d < base_value b) ds.
Definition base_number (b : number_base) (acc : Z) (ds : list Z) : Z :=
  foldl (λ n d, n * base_value b + d) acc ds.

(** Numbers are printed with the digits of the base and no leading zero, and
    a text of digits is read as the number: modulo 2^bits without a check, with
    an exception above it with one.  Reading stops at a character that is no
    part of a number.  Nothing is said of a decimal text with a
    leading zero, which Boost reads as octal. *)
Class NumberTextSpec `{NumberText} := {
  print_number_spec : ∀ b z, 0 ≤ z → ∃ d ds, print_number b z = map text_digit (d :: ds) ∧
    base_digits b (d :: ds) ∧ base_number b 0 (d :: ds) = z ∧ (ds = [] ∨ d ≠ 0);
  read_number_spec : ∀ b checked bits d ds, base_digits b (d :: ds) →
    (b = hexadecimal ∨ ds = [] ∨ d ≠ 0) →
    read_number b checked bits (map text_digit (d :: ds)) =
      if checked && (2 ^ bits <=? base_number b 0 (d :: ds)) then None
      else Some (base_number b 0 (d :: ds) mod 2 ^ bits, true);
  read_number_stop : ∀ b checked bits ds c t z all, base_digits b ds → number_character b c = false →
    read_number b checked bits (map text_digit ds ++ c :: t) = Some (z, all) → all = false;
}.

Lemma base_value_ge b : 2 ≤ base_value b.
Proof. by destruct b. Qed.

Lemma base_number_app b acc ds ds' :
  base_number b acc (ds ++ ds') = base_number b (base_number b acc ds) ds'.
Proof. apply foldl_app. Qed.
Lemma base_number_nonneg b acc ds : 0 ≤ acc → base_digits b ds → 0 ≤ base_number b acc ds.
Proof.
  intros Ha Hs. revert acc Ha. induction Hs as [|d ds Hd _ IH]; intros acc Ha; [done|].
  apply IH. pose proof (base_value_ge b). nia.
Qed.
Lemma base_number_lower b acc ds : 0 ≤ acc → base_digits b ds →
  acc * base_value b ^ Z.of_nat (length ds) ≤ base_number b acc ds.
Proof.
  intros Ha Hs. revert acc Ha. induction Hs as [|d ds Hd _ IH]; intros acc Ha; cbn [length].
  - simpl. unfold base_number. simpl. lia.
  - change (base_number b acc (d :: ds)) with (base_number b (acc * base_value b + d) ds).
    pose proof (base_value_ge b). rewrite Nat2Z.inj_succ, Z.pow_succ_r by lia.
    specialize (IH (acc * base_value b + d)).
    assert (0 < base_value b ^ Z.of_nat (length ds)) by (apply Z.pow_pos_nonneg; lia). nia.
Qed.
Lemma base_number_zeros b k ds : base_number b 0 (replicate k 0 ++ ds) = base_number b 0 ds.
Proof. induction k as [|k IH]; [done|]. exact IH. Qed.

(** A number without leading zeros is as short as its value allows. *)
Lemma base_number_length b d ds n : base_digits b (d :: ds) → (ds = [] ∨ d ≠ 0) →
  base_number b 0 (d :: ds) < base_value b ^ Z.of_nat n → (0 < n)%nat → (length (d :: ds) ≤ n)%nat.
Proof.
  intros Hs Hz Hv Hn. cbn [length]. destruct Hz as [->|Hd]; [simpl; lia|].
  apply Forall_cons in Hs as [Hd' Hs].
  change (base_number b 0 (d :: ds)) with (base_number b d ds) in Hv.
  pose proof (base_number_lower b d ds ltac:(lia) Hs) as Hl.
  destruct (decide (n ≤ length ds)%nat) as [Hle|]; [|lia]. exfalso.
  pose proof (base_value_ge b).
  assert (base_value b ^ Z.of_nat n ≤ base_value b ^ Z.of_nat (length ds)) by (apply Z.pow_le_mono_r; lia).
  nia.
Qed.

Lemma positional_spec fuel b z acc : 0 ≤ z < 2 ^ Z.of_nat fuel → (0 < fuel)%nat →
  ∃ d ds, positional fuel (base_value b) z acc = (d :: ds) ++ acc ∧
    base_digits b (d :: ds) ∧ base_number b 0 (d :: ds) = z ∧ (ds = [] ∨ d ≠ 0).
Proof.
  revert z acc. induction fuel as [|fuel IH]; intros z acc Hz Hf; [lia|]. cbn [positional].
  pose proof (base_value_ge b) as Hb. destruct (Z.ltb_spec z (base_value b)) as [Hlt|Hge].
  { exists z, []. split_and!; [done|apply Forall_singleton; lia|unfold base_number; simpl; lia|by left]. }
  assert (0 < fuel)%nat as Hf'. { destruct fuel; [simpl in Hz; lia|lia]. }
  assert (1 ≤ z / base_value b) as H1 by (apply Z.div_le_lower_bound; lia).
  destruct (IH (z / base_value b) (z mod base_value b :: acc)) as (d & ds & Hp & Hs & Hv & Hd); [|done|].
  { split; [lia|]. apply Z.div_lt_upper_bound; [lia|].
    rewrite Nat2Z.inj_succ, Z.pow_succ_r in Hz by lia.
    assert (0 < 2 ^ Z.of_nat fuel) by (apply Z.pow_pos_nonneg; lia). nia. }
  exists d, (ds ++ [z mod base_value b]). rewrite Hp. split_and!.
  - simpl. by rewrite <-app_assoc.
  - change (d :: ds ++ [z mod base_value b]) with ((d :: ds) ++ [z mod base_value b]).
    apply Forall_app. split; [done|]. apply Forall_singleton, Z.mod_pos_bound; lia.
  - change (d :: ds ++ [z mod base_value b]) with ((d :: ds) ++ [z mod base_value b]).
    rewrite base_number_app, Hv. unfold base_number. simpl.
    rewrite (Z.div_mod z (base_value b)) at 3 by lia. lia.
  - right. destruct Hd as [->|]; [|done]. intros ->. unfold base_number in Hv. simpl in Hv. lia.
Qed.

(** The sixteen digits one by one. *)
Ltac digit_cases d :=
  let Hc := fresh in
  assert (d = 0 ∨ d = 1 ∨ d = 2 ∨ d = 3 ∨ d = 4 ∨ d = 5 ∨ d = 6 ∨ d = 7 ∨ d = 8 ∨ d = 9
    ∨ d = 10 ∨ d = 11 ∨ d = 12 ∨ d = 13 ∨ d = 14 ∨ d = 15) as Hc by lia;
  repeat destruct Hc as [Hc|Hc]; subst d.

Lemma text_digit_special d : 0 ≤ d < 16 →
  (text_digit d = "0"%char → d = 0) ∧ text_digit d ≠ "-"%char.
Proof.
  intros Hd. digit_cases d; repeat split; by vm_compute.
Qed.

Section texts.
Context `{NumberTextSpec}.

Lemma setw_digits k ds : setw k (map text_digit ds) = map text_digit (replicate (k - length ds) 0 ++ ds).
Proof.
  unfold setw. rewrite length_map, map_app. f_equal.
  induction (k - length ds)%nat as [|n IH]; simpl; [done|]. by rewrite IH.
Qed.

(** Reading digits back. *)
Lemma read_all_digits b checked n d ds (x : uint n) : base_digits b (d :: ds) →
  (b = hexadecimal ∨ ds = [] ∨ d ≠ 0) →
  base_number b 0 (d :: ds) = uval x → read_all b checked n (map text_digit (d :: ds)) = Some x.
Proof.
  intros Hs Hz Hv. unfold read_all. rewrite read_number_spec, Hv by done.
  pose proof (uval_range x) as Hx. unfold modulus in Hx.
  rewrite (proj2 (Z.leb_gt _ _)), andb_false_r, Z.mod_small by lia. by rewrite U_uval.
Qed.

Lemma encode_hex_digits {n} (x : uint n) : (0 < n)%nat →
  ∃ d ds, encode_hex x = map text_digit (d :: ds) ∧ length (d :: ds) = (2 * n)%nat ∧
    base_digits hexadecimal (d :: ds) ∧ base_number hexadecimal 0 (d :: ds) = uval x.
Proof.
  intros Hn. pose proof (uval_range x) as Hx.
  destruct (print_number_spec hexadecimal (uval x)) as (d & ds & Hp & Hs & Hv & Hz); [lia|].
  assert (length (d :: ds) ≤ 2 * n)%nat as Hl.
  { apply (base_number_length hexadecimal); [done..| |lia]. rewrite Hv. simpl. unfold modulus in Hx.
    replace (Z.of_nat (n + (n + 0))) with (2 * Z.of_nat n) by lia.
    rewrite Z.pow_mul_r by lia. change (16 ^ 2) with (2 ^ 8). rewrite <-Z.pow_mul_r by lia. lia. }
  unfold encode_hex. rewrite Hp, setw_digits.
  destruct (replicate (2 * n - length (d :: ds)) 0 ++ d :: ds) as [|e es] eqn:E.
  { by destruct (replicate _ _). }
  exists e, es. rewrite <-E. split_and!; [done| | |by rewrite base_number_zeros].
  - rewrite length_app, length_replicate. lia.
  - apply Forall_app. split; [|done]. apply Forall_replicate. simpl. lia.
Qed.

Lemma length_encode_hex {n} (x : uint n) : (0 < n)%nat → length (encode_hex x) = (2 * n)%nat.
Proof. intros Hn. destruct (encode_hex_digits x Hn) as (d & ds & -> & Hl & _). by rewrite length_map. Qed.

Lemma read_all_hex {n} checked (x : uint n) : (0 < n)%nat → read_all hexadecimal checked n (encode_hex x) = Some x.
Proof.
  intros Hn. destruct (encode_hex_digits x Hn) as (d & ds & -> & _ & Hs & Hv).
  apply read_all_digits; auto.
Qed.

Lemma decode_encode_hex_128 (x : u128) : decode_hex_128 (encode_hex x) = Some x.
Proof. unfold decode_hex_128. rewrite length_encode_hex by lia. apply read_all_hex. lia. Qed.
Lemma decode_encode_hex_256 (x : u256) : decode_hex_256 (encode_hex x) = Some x.
Proof. unfold decode_hex_256. rewrite length_encode_hex by lia. apply read_all_hex. lia. Qed.
Lemma decode_encode_hex_512 (x : u512) : decode_hex_512 (encode_hex x) = Some x.
Proof. unfold decode_hex_512. rewrite length_encode_hex by lia. apply read_all_hex. lia. Qed.


Lemma bad_decimal_digits max d ds : base_digits decimal (d :: ds) → (ds = [] ∨ d ≠ 0) →
  (length (d :: ds) ≤ max)%nat → bad_decimal max (map text_digit (d :: ds)) = false.
Proof.
  intros Hs Hz Hl. unfold bad_decimal. rewrite length_map.
  apply Forall_cons in Hs as [Hd _]. simpl in Hd.
  destruct (text_digit_special d) as [Hzero Hm]; [lia|].
  rewrite (proj2 (Nat.ltb_ge _ _)) by lia. cbn [map List.hd_error].
  rewrite (bool_decide_false (Some (text_digit d) = Some "-"%char)) by congruence.
  rewrite orb_false_r. cbn [orb]. destruct Hz as [->|Hne]; [done|].
  rewrite (bool_decide_false (Some (text_digit d) = Some "0"%char)); [apply andb_false_r|].
  intros [= E]. by apply Hne, Hzero.
Qed.

(** The digits printed for a number pass the checks and are read back. *)
Lemma decode_encode_dec {n} max checked (x : uint n) : uval x < 10 ^ Z.of_nat max → (0 < max)%nat →
  bad_decimal max (encode_dec x) = false ∧ read_all decimal checked n (encode_dec x) = Some x.
Proof.
  intros Hm Hpos. pose proof (uval_range x) as Hx. unfold encode_dec.
  destruct (print_number_spec decimal (uval x)) as (d & ds & -> & Hs & Hv & Hz); [lia|]. split.
  - apply bad_decimal_digits; [done..|]. apply (base_number_length decimal); [done..| |done].
    by rewrite Hv.
  - apply read_all_digits; auto.
Qed.

Lemma decode_encode_dec_128 (x : u128) : decode_dec_128 (encode_dec x) = Some x.
Proof.
  destruct (decode_encode_dec 39 true x) as [Hb Hr]; [|lia|].
  - pose proof (uval_range x) as Hx. change (modulus 16) with (2 ^ 128) in Hx.
    change (10 ^ Z.of_nat 39) with (10 ^ 39). lia.
  - unfold decode_dec_128. by rewrite Hb.
Qed.

Lemma decode_encode_dec_256 (x : u256) : decode_dec_256 (encode_dec x) = Some x.
Proof.
  destruct (decode_encode_dec 78 false x) as [Hb Hr]; [|lia|].
  - pose proof (uval_range x) as Hx. change (modulus 32) with (2 ^ 256) in Hx.
    change (10 ^ Z.of_nat 78) with (10 ^ 78). lia.
  - unfold decode_dec_256. by rewrite Hb.
Qed.

(** Amounts, hashes and signatures written in hexadecimal
    have two characters per byte and are read back; so are amounts and
    256-bit numbers written in decimal, which the checks for length, leading
    zero and sign let through. *)
Lemma number_roundtrip (x : u128) (y : u256) (z : u512) :
  length (encode_hex x) = 32%nat ∧ decode_hex_128 (encode_hex x) = Some x ∧
  length (encode_hex y) = 64%nat ∧ decode_hex_256 (encode_hex y) = Some y ∧
  length (encode_hex z) = 128%nat ∧ decode_hex_512 (encode_hex z) = Some z ∧
  decode_dec_128 (encode_dec x) = Some x ∧ decode_dec_256 (encode_dec y) = Some y.
Proof.
  rewrite !length_encode_hex by lia.
  by rewrite decode_encode_hex_128, decode_encode_hex_256, decode_encode_hex_512,
    decode_encode_dec_128, decode_encode_dec_256.
Qed.

(** A decimal text of at most 39 digits above the largest
    amount is an error, while a text of at most 78 digits above the largest
    256-bit number is accepted and stored modulo 2^256. *)
Lemma dec_overflow d ds :
  base_digits decimal (d :: ds) → (ds = [] ∨ d ≠ 0) →
  ((length (d :: ds) ≤ 39)%nat → 2 ^ 128 ≤ base_number decimal 0 (d :: ds) →
     decode_dec_128 (map text_digit (d :: ds)) = None) ∧
  ((length (d :: ds) ≤ 78)%nat →
     decode_dec_256 (map text_digit (d :: ds)) = Some (U 32 (base_number decimal 0 (d :: ds)))).
Proof.
  intros Hs Hz. split; intros Hl.
  - intros Hv. unfold decode_dec_128. rewrite bad_decimal_digits by done. unfold read_all.
    rewrite read_number_spec by auto. change (8 * Z.of_nat 16) with 128.
    by rewrite (proj2 (Z.leb_le _ _)) by done.
  - unfold decode_dec_256. rewrite bad_decimal_digits by done. unfold read_all.
    rewrite read_number_spec by auto. change (8 * Z.of_nat 32) with 256. cbn [andb]. f_equal.
    apply uval_inj. rewrite !uval_U. change (modulus 32) with (2 ^ 256). by rewrite Z.mod_mod.
Qed.
End texts.
