(* ===== verification/BlockProps.v ===== *)
(** * Properties of the readers and writers of blocks

    Binary round trips, agreement of the two binary readers, the texts of a
    proof of work, and property trees. *)

From stdpp Require Import strings.
From S2P Require Import Prelude Crypto Blocks Numbers NumberProps BlockReaders.
From Stdlib Require Import Ascii.

Local Open Scope Z_scope.
#[local] Transparent modulus.

(** ** Binary forms *)

(** C35: every block is read back from its binary form and
    leaves the rest of the stream, with and without a type code; the form
    without has the size of its type, and equality of blocks is equality of
    their forms. *)
Theorem block_roundtrip b b' s :
  deserialize_block (serialize_block b ++ s) = Done (Some (b, s)) ∧
  deserialize_block_typed (Some (block_type_of b)) (block_serialize b ++ s) = Done (Some (b, s)) ∧
  length (block_serialize b) = block_size (block_type_of b) ∧
  (block_eqb b b' = true ↔ serialize_block b = serialize_block b').
Proof.
  split_and!; [apply deserialize_serialize|apply deserialize_typed_serialize|apply length_block_serialize|].
  rewrite block_eqb_eq. split; [by intros ->|]. intros E.
  pose proof (deserialize_serialize b []) as Hb. rewrite E, deserialize_serialize in Hb. by injection Hb.
Qed.

(** Split on the outcome of the next field. *)
Ltac read_next :=
  match goal with
  | |- context [read_be ?n ?s] => destruct (read_be n s) as [[]|]; simpl
  | |- context [read_le ?n ?s] => destruct (read_le n s) as [[]|]; simpl
  end.

(** The member [deserialize] of each block class reads what
    its constructor from a stream reads, and fails when it fails. *)
Lemma readers_agree s :
  send_block_deserialize s = send_deserialize s ∧
  receive_block_deserialize s = receive_deserialize s ∧
  open_block_deserialize s = open_deserialize s ∧
  change_block_deserialize s = change_deserialize s ∧
  state_block_deserialize s = state_deserialize s.
Proof.
  unfold send_block_deserialize, send_deserialize, read_send_hashables,
    receive_block_deserialize, receive_deserialize, read_receive_hashables,
    open_block_deserialize, open_deserialize, read_open_hashables,
    change_block_deserialize, change_deserialize, read_change_hashables,
    state_block_deserialize, state_deserialize, read_state_hashables.
  split_and!; repeat read_next; done.
Qed.

(** ** The text of a proof of work *)

Lemma hex_value_digit d : 0 ≤ d < 16 → hex_value (text_digit d) = Some d.
Proof.
  intros Hd. digit_cases d; repeat split; by vm_compute.
Qed.

Lemma read_hex_digits acc ds : base_digits hexadecimal ds →
  read_hex acc (map text_digit ds) = (base_number hexadecimal acc ds, []).
Proof.
  intros Hs. revert acc. induction Hs as [|d ds Hd _ IH]; intros acc; [done|].
  cbn [map read_hex]. rewrite hex_value_digit by done. apply IH.
Qed.

(** No digit is a blank, a sign or the x of a prefix. *)
Lemma hex_digit_plain d : 0 ≤ d < 16 →
  is_space (text_digit d) = false ∧ text_digit d ≠ "-"%char ∧ text_digit d ≠ "+"%char ∧
  text_digit d ≠ "x"%char ∧ text_digit d ≠ "X"%char.
Proof.
  intros Hd. digit_cases d; repeat split; by vm_compute.
Qed.

Lemma stream_read_digits u d ds : base_digits hexadecimal (d :: ds) →
  stream_read_hex u (map text_digit (d :: ds)) = (U 8 (base_number hexadecimal 0 (d :: ds)), true).
Proof.
  intros Hs. apply Forall_cons in Hs as Hs'. destruct Hs' as [Hd Hds].
  destruct (hex_digit_plain d Hd) as (Hsp & Hm & Hp & _).
  unfold stream_read_hex. cbn [map skip_spaces]. rewrite Hsp. cbn [read_sign].
  rewrite !bool_decide_false by done. cbn beta iota zeta.
  assert (skip_prefix (text_digit d :: map text_digit ds) = map text_digit (d :: ds)) as ->.
  { destruct ds as [|e ds]; [done|]. apply Forall_cons in Hds as [He _].
    destruct (hex_digit_plain e He) as (_ & _ & _ & Hx & HX). cbn [map skip_prefix].
    rewrite (bool_decide_false (text_digit e = _)), (bool_decide_false (text_digit e = "X"%char)) by done.
    by rewrite andb_false_r. }
  by rewrite read_hex_digits.
Qed.

Lemma from_to_string_hex u w : from_string_hex u (to_string_hex w) = Some w.
Proof.
  pose proof (uval_range w) as Hw. change (modulus 8) with (2 ^ 64) in Hw.
  unfold to_string_hex.
  destruct (positional_spec 64 hexadecimal (uval w) []) as (d & ds & Hp & Hs & Hv & Hz);
    [change (Z.of_nat 64) with 64; lia|lia|].
  change (base_value hexadecimal) with 16 in Hp. rewrite Hp, app_nil_r.
  assert (length (d :: ds) ≤ 16)%nat as Hl.
  { apply (base_number_length hexadecimal); [done..| |lia]. rewrite Hv.
    change (base_value hexadecimal ^ Z.of_nat 16) with (2 ^ 64). lia. }
  rewrite setw_digits.
  destruct (replicate (16 - length (d :: ds)) 0 ++ d :: ds) as [|e es] eqn:E; [by destruct (replicate _ _)|].
  assert (length (e :: es) = 16%nat) as Hl16.
  { rewrite <-E, length_app, length_replicate. lia. }
  unfold from_string_hex. rewrite length_map, Hl16. cbn [Nat.eqb Nat.ltb Nat.leb].
  rewrite stream_read_digits.
  - rewrite <-E, base_number_zeros, Hv. by rewrite U_uval.
  - rewrite <-E. apply Forall_app. split; [|done]. apply Forall_replicate. simpl. lia.
Qed.

(** ** Property trees *)

(** A key without the separator of paths. *)
Definition simple_key (k : string) : bool := negb (existsb (Ascii.eqb "."%char) (lit k)).

(** [get] gives the text last put under a key. *)
Class PropertyTreeSpec `{PropertyTree} := {
  ptree_get_put : ∀ k k' t tree, simple_key k = true → simple_key k' = true →
    ptree_get k (ptree_put k' t tree) = if String.eqb k k' then Some t else ptree_get k tree;
}.

Section json.
Context `{NumberTextSpec, Blake2b, PropertyTreeSpec}.
Context (u : u64).

Lemma field_put k k' t tree : simple_key k = true → simple_key k' = true →
  field k (ptree_put k' t tree) = if String.eqb k k' then Done (Some t) else field k tree.
Proof. intros Hk Hk'. unfold field. rewrite ptree_get_put by done. by destruct (String.eqb k k'). Qed.

Lemma hex_encode_128 x : hex_128 (encode_hex x) = rret x.
Proof. unfold hex_128. by rewrite decode_encode_hex_128. Qed.
Lemma hex_encode_256 x : hex_256 (encode_hex x) = rret x.
Proof. unfold hex_256. by rewrite decode_encode_hex_256. Qed.
Lemma hex_encode_512 x : hex_512 (encode_hex x) = rret x.
Proof. unfold hex_512. by rewrite decode_encode_hex_512. Qed.
Lemma hex_work_text w : hex_work u (to_string_hex w) = rret w.
Proof. unfold hex_work. by rewrite from_to_string_hex. Qed.
Lemma dec_encode_128 x : dec_128 (encode_dec x) = rret x.
Proof. unfold dec_128. by rewrite decode_encode_dec_128. Qed.

(** A number in hexadecimal is no account. *)
Lemma link_text x : json_link (encode_hex x) = rret x.
Proof.
  unfold json_link. assert (decode_account (encode_hex x) = Done None) as ->; [|apply hex_encode_256].
  pose proof (length_encode_hex x ltac:(lia)) as Hlen.
  destruct (encode_hex_digits x) as (d & ds & E & Hl & Hs & _); [lia|].
  unfold decode_account. rewrite Hlen. cbn [Nat.ltb Nat.leb Nat.mul Nat.add].
  assert (bdm_prefix (encode_hex x) = false) as ->; [|done]. rewrite E.
  destruct ds as [|e [|f [|g ds]]]; try done. cbn [map bdm_prefix].
  rewrite (bool_decide_false (text_digit f = _)); [by rewrite andb_false_r|].
  apply Forall_cons in Hs as [_ Hs]. apply Forall_cons in Hs as [_ Hs]. apply Forall_cons in Hs as [Hf _].
  simpl in Hf. clear -Hf. digit_cases f; by vm_compute.
Qed.

Lemma account_field x : ∃ t, to_account x = Done t ∧ decode_account t = rret x.
Proof. destruct (account_text x) as (d & ds & Ht & _ & Hd). eauto. Qed.

(** The text of an account is no number in hexadecimal. *)
Lemma account_not_hex x t : to_account x = Done t → hex_256 t = Done None.
Proof.
  destruct (account_text x) as (d & ds & E & Hl & _). intros Ht.
  assert (t = lit "bdm_" ++ map digit (d :: ds)) as -> by congruence. clear E Ht.
  unfold hex_256, decode_hex_256. rewrite length_app, length_map, Hl.
  change (length (lit "bdm_") + 60)%nat with 64%nat. cbn [Nat.eqb negb andb Nat.leb]. unfold read_all.
  change (lit "bdm_") with (map text_digit [11; 13] ++ lit "m_"). rewrite <-app_assoc.
  destruct (read_number _ _ _ _) as [[z all]|] eqn:E; [|done].
  apply read_number_stop in E as ->; [done| |by vm_compute].
  repeat constructor; simpl; lia.
Qed.

(** Evaluate the fields of a tree just written and the texts in them. *)
Ltac json_type :=
  match goal with
  | |- context [bool_decide (lit ?a = lit ?b)] =>
      let v := eval vm_compute in (bool_decide (lit a = lit b)) in
      change (bool_decide (lit a = lit b)) with v
  end; cbn [negb].
Ltac json_step := rewrite field_put by reflexivity; cbn [String.eqb Ascii.eqb Bool.eqb].
Ltac json_read :=
  repeat first [progress cbn [rbind rret] | json_type | json_step
    | rewrite hex_encode_128 | rewrite hex_encode_256 | rewrite hex_encode_512
    | rewrite hex_work_text | rewrite dec_encode_128 | rewrite link_text
    | match goal with H : decode_account _ = rret _ |- _ => rewrite H end].

(** Write a tree: accounts always have a text. *)
Ltac json_write :=
  cbn [block_representative hashables signature work sh_previous sh_destination sh_balance
    rh_previous rh_source oh_source oh_representative oh_account ch_previous ch_representative
    th_account th_previous th_representative th_balance th_link put_all];
  repeat match goal with
  | |- context [to_account ?x] =>
      let t := fresh "t" in let Ht := fresh "Ht" in let Hw := fresh "Hw" in
      destruct (account_field x) as (t & Hw & Ht); rewrite !Hw; cbn [put_all]
  end;
  eexists; split; [reflexivity|].

(** The tree of each class, read by its constructor. *)
Lemma json_send b : ∃ tree, send_tree b = Done tree ∧
  field "type" tree = rret (lit "send") ∧ json_send_block u tree = rret b ∧
  send_deserialize_json u tree = rret b.
Proof.
  destruct b as [[p d a] s w]. unfold send_tree. json_write.
  split_and!; [by json_read|unfold json_send_block, json_send_hashables; by json_read|
    unfold send_deserialize_json, assert_type; by json_read].
Qed.
Lemma json_receive b : ∃ tree, receive_tree b = Done tree ∧
  field "type" tree = rret (lit "receive") ∧ json_receive_block u tree = rret b ∧
  receive_deserialize_json u tree = rret b.
Proof.
  destruct b as [[p c] s w]. unfold receive_tree. json_write.
  split_and!; [by json_read|unfold json_receive_block, json_receive_hashables; by json_read|
    unfold receive_deserialize_json, assert_type; by json_read].
Qed.
Lemma json_open b : ∃ tree, open_tree b = Done tree ∧
  field "type" tree = rret (lit "open") ∧ json_open_block u tree = rret b ∧
  open_deserialize_json u tree = Done None.
Proof.
  destruct b as [[c r a] s w]. unfold open_tree. json_write.
  split_and!; [by json_read|unfold json_open_block, json_open_hashables; by json_read|].
  unfold open_deserialize_json, assert_type. json_read.
  by rewrite (account_not_hex r) by done.
Qed.
Lemma json_change b : ∃ tree, change_tree b = Done tree ∧
  field "type" tree = rret (lit "change") ∧ json_change_block u tree = rret b ∧
  change_deserialize_json u tree = Done None.
Proof.
  destruct b as [[p r] s w]. unfold change_tree. json_write.
  split_and!; [by json_read|unfold json_change_block, json_change_hashables; by json_read|].
  unfold change_deserialize_json, assert_type. json_read.
  by rewrite (account_not_hex r) by done.
Qed.
Lemma json_state b : ∃ tree, state_tree b = Done tree ∧
  field "type" tree = rret (lit "state") ∧ json_state_block u tree = rret b ∧
  state_deserialize_json u tree = rret b.
Proof.
  destruct b as [[a p r n l] s w]. unfold state_tree. json_write.
  split_and!; [by json_read|unfold json_state_block, json_state_hashables; by json_read|
    unfold state_deserialize_json, assert_type; by json_read].
Qed.

(** The property tree written for any block is read back
    as that block by [deserialize_block_json], whatever uninitialised memory
    holds. *)
Lemma json_roundtrip b :
  ∃ tree, block_tree b = Done tree ∧ deserialize_block_json u tree = Done (Some b).
Proof.
  unfold deserialize_block_json.
  destruct b as [b|b|b|b|b]; simpl block_tree;
    [destruct (json_send b) as (tree & -> & Hf & Hb & _)
    |destruct (json_receive b) as (tree & -> & Hf & Hb & _)
    |destruct (json_open b) as (tree & -> & Hf & Hb & _)
    |destruct (json_change b) as (tree & -> & Hf & Hb & _)
    |destruct (json_state b) as (tree & -> & Hf & Hb & _)];
    exists tree; (split; [done|]); rewrite Hf; cbn [rbind rret]; repeat json_type; by rewrite Hb.
Qed.

(** The members [deserialize_json] of send, receive and state
    blocks read the tree their class writes, but those of open and change
    blocks fail on every such tree: they read the representative in
    hexadecimal, and it is written as an account. *)
Lemma json_members (bs : send_block) (br : receive_block) (bo : open_block) (bc : change_block)
    (bt : state_block) :
  (∃ tree, send_tree bs = Done tree ∧ send_deserialize_json u tree = Done (Some bs)) ∧
  (∃ tree, receive_tree br = Done tree ∧ receive_deserialize_json u tree = Done (Some br)) ∧
  (∃ tree, open_tree bo = Done tree ∧ open_deserialize_json u tree = Done None) ∧
  (∃ tree, change_tree bc = Done tree ∧ change_deserialize_json u tree = Done None) ∧
  (∃ tree, state_tree bt = Done tree ∧ state_deserialize_json u tree = Done (Some bt)).
Proof.
  destruct (json_send bs) as (? & ? & _ & _ & ?), (json_receive br) as (? & ? & _ & _ & ?),
    (json_open bo) as (? & ? & _ & _ & ?), (json_change bc) as (? & ? & _ & _ & ?),
    (json_state bt) as (? & ? & _ & _ & ?).
  split_and!; eauto.
Qed.
End json.
