(* ===== verification/MessageProps.v ===== *)
(** * Properties of the messages

    Every message is read back, the parser hands on exactly the messages
    with enough work and accepts no other byte string, and when it trips an
    assertion. *)

From S2P Require Import Prelude Crypto Blocks Votes Messages.

(** ** Lemmas on the parts of a message *)

Section parts.
Context (net : badem_networks).

Lemma length_magic : length (magic_number net) = 2%nat.
Proof. by destruct net. Qed.

Lemma header_read h s : header_deserialize net (header_serialize net h ++ s) = Some (h, s).
Proof.
  destruct h. unfold header_deserialize, header_serialize; simpl. rewrite <-!app_assoc.
  rewrite read_bytes_app_n by apply length_magic. simpl. rewrite bool_decide_true by done. simpl.
  by read_written.
Qed.

Lemma header_sound buffer h s :
  header_deserialize net buffer = Some (h, s) → buffer = header_serialize net h ++ s.
Proof.
  unfold header_deserialize, header_serialize.
  destruct (read_bytes 2 buffer) as [[b r]|] eqn:E; simpl; [|done].
  apply read_bytes_sound in E as [-> _]. case_bool_decide as Hb; simpl; [|done]. subst b.
  intros Hr. read_sound. by rewrite <-!app_assoc.
Qed.

Lemma peers_read peers s : Forall (λ e, ∃ a, ep_address e = address_v6 a) peers →
  ∃ t, peers_serialize peers = Done t ∧ read_peers (length peers) (t ++ s) = Some (peers, s).
Proof.
  induction 1 as [|[ad p] peers [a Ha] _ (t & IHt & IHr)]; simpl in *; [by exists []|]. subst ad.
  rewrite IHt. eexists. split; [done|]. read_written. by rewrite IHr.
Qed.

Lemma peers_sound n s peers r : read_peers n s = Some (peers, r) →
  length peers = n ∧ Forall (λ e, ∃ a, ep_address e = address_v6 a) peers ∧
  ∃ t, peers_serialize peers = Done t ∧ s = t ++ r.
Proof.
  revert s peers. induction n as [|n IH]; intros s peers Hr; simpl in Hr.
  - simplify_eq. by split_and!; [..|exists []].
  - read_sound. destruct (read_peers n _) as [[ps r']|] eqn:E2; simplify_eq/=.
    apply IH in E2 as (<- & Hv & t & -> & ->). split_and!; [done|by constructor; eauto|].
    eexists. split; [done|]. by rewrite <-!app_assoc.
Qed.
End parts.

Lemma typed_sound t s b r : deserialize_block_typed t s = Done (Some (b, r)) →
  t = Some (block_type_of b) ∧ s = block_serialize b ++ r.
Proof.
  unfold deserialize_block_typed. intros Hd. destruct t as [[]|]; try done; injection Hd as Hd.
  - destruct (send_deserialize s) as [[x y]|] eqn:E; simplify_eq/=. split; [done|].
    exact (decode_sound (A:=send_block) _ _ _ E).
  - destruct (receive_deserialize s) as [[x y]|] eqn:E; simplify_eq/=. split; [done|].
    exact (decode_sound (A:=receive_block) _ _ _ E).
  - destruct (open_deserialize s) as [[x y]|] eqn:E; simplify_eq/=. split; [done|].
    exact (decode_sound (A:=open_block) _ _ _ E).
  - destruct (change_deserialize s) as [[x y]|] eqn:E; simplify_eq/=. split; [done|].
    exact (decode_sound (A:=change_block) _ _ _ E).
  - destruct (state_deserialize s) as [[x y]|] eqn:E; simplify_eq/=. split; [done|].
    exact (decode_sound (A:=state_block) _ _ _ E).
Qed.

(** Only a missing block type trips the assertion. *)
Lemma typed_fault t s : is_block_type t = true → ∃ r, deserialize_block_typed t s = Done r.
Proof. destruct t as [[]|]; simpl; eauto; done. Qed.
Lemma typed_abort t s : is_block_type t = false → deserialize_block_typed t s = Fault assertion_failed.
Proof. by destruct t as [[]|]. Qed.

Lemma block_type_is b : is_block_type (Some (block_type_of b)) = true.
Proof. by destruct b. Qed.

(** Setting the block type of a header. *)
Lemma header_block_type_set t h : header_block_type (block_type_set t h) = Some t.
Proof.
  unfold header_block_type, block_type_set, set_extensions. cbn [extensions].
  rewrite uval_U. change (modulus 2) with (2 ^ 16).
  rewrite <-Z.land_ones, <-Z.land_assoc, Z.land_lor_distr_l, <-Z.land_assoc by done.
  change (Z.land (Z.lxor 65535 block_type_mask) (Z.land (Z.ones 16) block_type_mask)) with 0.
  rewrite Z.land_0_r, Z.lor_0_l. by destruct t.
Qed.

(** ** Messages that agree with their header *)

Definition kind (m : message) : message_type :=
  match m with
  | Keepalive _ => mt_keepalive
  | Publish _ => mt_publish
  | Confirm_req _ => mt_confirm_req
  | Confirm_ack _ => mt_confirm_ack
  | Frontier_req _ _ _ => mt_frontier_req
  | Bulk_pull _ _ => mt_bulk_pull
  | Bulk_pull_blocks _ _ _ _ => mt_bulk_pull_blocks
  | Bulk_push => mt_bulk_push
  end.

(** The header names the type of the message and of its block; a keepalive
    message has eight addresses of version 6. *)
Definition agrees (h : message_header) (m : message) : Prop :=
  header_type h = message_type_code (kind m) ∧
  match m with
  | Keepalive peers => length peers = peer_count ∧ Forall (λ e, ∃ a, ep_address e = address_v6 a) peers
  | Publish b | Confirm_req b => header_block_type h = Some (block_type_of b)
  | Confirm_ack v => header_block_type h = Some (block_type_of (v_block v))
  | _ => True
  end.

(** The constructor that reads each kind of message. *)
Definition read_message (t : message_type) : message_reader :=
  match t with
  | mt_keepalive => keepalive_deserialize
  | mt_publish => publish_deserialize
  | mt_confirm_req => confirm_req_deserialize
  | mt_confirm_ack => confirm_ack_read
  | mt_frontier_req => frontier_req_deserialize
  | mt_bulk_pull => bulk_pull_deserialize
  | mt_bulk_pull_blocks => bulk_pull_blocks_deserialize
  | mt_bulk_push => bulk_push_deserialize
  | mt_invalid | mt_not_a_type => λ _ _, Done None
  end.

Lemma make_agrees b v :
  agrees make_keepalive.1 make_keepalive.2 ∧ agrees (make_publish b).1 (make_publish b).2 ∧
  agrees (make_confirm_req b).1 (make_confirm_req b).2 ∧ agrees (make_confirm_ack v).1 (make_confirm_ack v).2.
Proof.
  unfold agrees. simpl. rewrite !header_block_type_set. split_and!; try done.
  repeat constructor; eauto.
Qed.

Lemma message_body net h m s : agrees h m →
  ∃ body, message_serialize net h m = Done (header_serialize net h ++ body) ∧
    read_message (kind m) h (body ++ s) = Done (Some (m, s)).
Proof.
  intros [Ht Hm]. destruct m as [peers|b|b|[sq b a sg]|st age c|st e|mi ma mo c|]; simpl in *.
  - unfold keepalive_serialize. destruct Hm as [Hl Hv].
    destruct (peers_read peers s Hv) as (t & -> & Hr). exists t. split; [done|].
    unfold keepalive_deserialize, expecting. rewrite Ht, u_eqb_refl, <-Hl, Hr. done.
  - eexists. split; [done|]. unfold publish_deserialize, expecting, read_block.
    by rewrite Ht, u_eqb_refl, Hm, deserialize_typed_serialize.
  - eexists. split; [done|]. unfold confirm_req_deserialize, expecting, read_block.
    by rewrite Ht, u_eqb_refl, Hm, deserialize_typed_serialize.
  - unfold confirm_ack_serialize. rewrite Hm, block_type_is. eexists. split; [done|]. unfold confirm_ack_read, read_vote, vote_serialize_typed.
    simpl. by rewrite <-!app_assoc, read_vote_head_app, Hm, deserialize_typed_serialize.
  - eexists. split; [done|]. unfold frontier_req_deserialize, expecting. rewrite Ht, u_eqb_refl. by read_written.
  - eexists. split; [done|]. unfold bulk_pull_deserialize, expecting. rewrite Ht, u_eqb_refl. by read_written.
  - eexists. split; [done|]. unfold bulk_pull_blocks_deserialize, expecting.
    rewrite Ht, u_eqb_refl. by read_written.
  - exists []. unfold bulk_push_serialize. rewrite app_nil_r. split; [done|]. unfold bulk_push_deserialize, expecting. by rewrite Ht, u_eqb_refl.
Qed.

Lemma expecting_inv t f h s x : expecting t f h s = Done x → header_type h = message_type_code t ∧ f s = Done x.
Proof. unfold expecting. destruct (u_eqb_spec (header_type h) (message_type_code t)); [done|by intros [=]]. Qed.

Lemma read_block_inv h f s m r : read_block h f s = Done (Some (m, r)) →
  ∃ b, m = f b ∧ header_block_type h = Some (block_type_of b) ∧ s = block_serialize b ++ r.
Proof.
  unfold read_block. destruct (deserialize_block_typed _ s) as [[[b r']|]|] eqn:E; try done.
  intros [= <- <-]. apply typed_sound in E as [? ?]. eauto.
Qed.

Lemma confirm_ack_inv h s m r : confirm_ack_read h s = Done (Some (m, r)) →
  ∃ v, m = Confirm_ack v ∧ header_block_type h = Some (block_type_of (v_block v)) ∧
    s = vote_serialize_typed v ++ r.
Proof.
  unfold confirm_ack_read, read_vote. destruct (read_vote_head s) as [[[[a sg] sq] s']|] eqn:E; [|done].
  destruct (deserialize_block_typed _ s') as [[[b r']|]|] eqn:Eb; try done.
  intros [= <- <-]. apply typed_sound in Eb as [? ->]. apply read_vote_head_sound in E as ->.
  eexists. split; [done|]. split; [done|]. unfold vote_serialize_typed. simpl. by rewrite <-!app_assoc.
Qed.

#[local] Arguments read_peers : simpl never.

(** What the messages of the parser are read from. *)
Lemma read_message_sound net t h s m r : header_type h = message_type_code t →
  t ∈ [mt_keepalive; mt_publish; mt_confirm_req; mt_confirm_ack] →
  read_message t h s = Done (Some (m, r)) →
  kind m = t ∧ agrees h m ∧ ∃ body, message_serialize net h m = Done (header_serialize net h ++ body) ∧ s = body ++ r.
Proof.
  intros Ht Hin Hr. rewrite !elem_of_cons in Hin.
  destruct Hin as [->|[->|[->|[->|Hin]]]]; simpl in Hr; [..|by apply not_elem_of_nil in Hin].
  - apply expecting_inv in Hr as [_ Hr]. destruct (read_peers peer_count s) as [[ps r']|] eqn:E; simplify_eq/=.
    apply peers_sound in E as (Hl & Hv & body & Hb & ->). split; [done|]. split; [done|].
    exists body. simpl. unfold keepalive_serialize. by rewrite Hb.
  - apply expecting_inv in Hr as [_ Hr]. apply read_block_inv in Hr as (b & -> & Hb & ->).
    split; [done|]. split; [done|]. by eexists.
  - apply expecting_inv in Hr as [_ Hr]. apply read_block_inv in Hr as (b & -> & Hb & ->).
    split; [done|]. split; [done|]. by eexists.
  - apply confirm_ack_inv in Hr as (v & -> & Hv & ->). split; [done|]. split; [done|].
    simpl. unfold confirm_ack_serialize. rewrite Hv, block_type_is. by eexists.
Qed.

Lemma at_end_true s : at_end s = true ↔ s = [].
Proof.
  unfold at_end. destruct s as [|b s]; [by rewrite read_be_short by (simpl; lia)|].
  by rewrite read_be_1.
Qed.

#[local] Transparent read_be read_le read_bytes.
Lemma read_be_long n (s : bytes) : (n ≤ length s)%nat →
  ∃ (x : uint n) r, read_be n s = Some (x, r) ∧ length r = (length s - n)%nat.
Proof.
  intros Hn. unfold read_be, read_bytes. rewrite decide_False by lia. simpl.
  eexists _, _. split; [done|]. apply length_drop.
Qed.
Lemma read_le_long n (s : bytes) : (n ≤ length s)%nat →
  ∃ (x : uint n) r, read_le n s = Some (x, r) ∧ length r = (length s - n)%nat.
Proof.
  intros Hn. unfold read_le, read_bytes. rewrite decide_False by lia. simpl.
  eexists _, _. split; [done|]. apply length_drop.
Qed.
#[local] Opaque read_be read_le read_bytes.

(** When reading a message trips an assertion. *)
Definition faulty (t : message_type) (h : message_header) (s : bytes) : Prop :=
  is_block_type (header_block_type h) = false ∧
  match t with
  | mt_publish | mt_confirm_req => True
  | mt_confirm_ack => ∃ x, read_vote_head s = Some x
  | _ => False
  end.

Lemma read_block_fault h f s : read_block h f s = Fault assertion_failed ↔
  is_block_type (header_block_type h) = false.
Proof.
  unfold read_block. destruct (is_block_type (header_block_type h)) eqn:E.
  - destruct (typed_fault _ s E) as [[[b r]|] ->]; done.
  - by rewrite typed_abort.
Qed.

Lemma read_message_fault t h s : header_type h = message_type_code t →
  t ∈ [mt_keepalive; mt_publish; mt_confirm_req; mt_confirm_ack] →
  read_message t h s = Fault assertion_failed ↔ faulty t h s.
Proof.
  intros Ht Hin. unfold faulty. rewrite !elem_of_cons in Hin.
  destruct Hin as [->|[->|[->|[->|Hin]]]]; simpl; [..|by apply not_elem_of_nil in Hin].
  - unfold keepalive_deserialize, expecting. rewrite Ht, u_eqb_refl. naive_solver.
  - unfold publish_deserialize, expecting. rewrite Ht, u_eqb_refl, read_block_fault. tauto.
  - unfold confirm_req_deserialize, expecting. rewrite Ht, u_eqb_refl, read_block_fault. tauto.
  - unfold confirm_ack_read, read_vote. destruct (read_vote_head s) as [[[[a sg] sq] r]|]; [|naive_solver].
    destruct (is_block_type (header_block_type h)) eqn:E.
    + destruct (typed_fault _ r E) as [[[b r']|] ->]; naive_solver.
    + rewrite typed_abort by done. naive_solver.
Qed.

Section parser.
Context `{Blake2b}.
Context (net : badem_networks).

(** The kinds of messages the parser knows, and its answer for each. *)
Definition datagram (t : message_type) : option parse_status :=
  match t with
  | mt_keepalive => Some invalid_keepalive_message
  | mt_publish => Some invalid_publish_message
  | mt_confirm_req => Some invalid_confirm_req_message
  | mt_confirm_ack => Some invalid_confirm_ack_message
  | _ => None
  end.

Lemma parse_with_work r i w w' h s : (∀ m r', r h s = Done (Some (m, r')) → w m = w' m) →
  parse_with r i w h s = parse_with r i w' h s.
Proof.
  intros Hw. unfold parse_with. destruct (r h s) as [[[m r']|]|] eqn:E; [|done..].
  by rewrite (Hw m r').
Qed.

(** The parser by the kind of message. *)
Lemma deserialize_buffer_kind t i h s : datagram t = Some i → header_type h = message_type_code t →
  deserialize_buffer net (header_serialize net h ++ s) = parse_with (read_message t) i (bad_work net) h s.
Proof.
  intros Hi Ht. unfold deserialize_buffer. rewrite header_read, Ht.
  destruct t; simplify_eq/=.
  1: apply parse_with_work; intros m r Hr;
     apply (read_message_sound net mt_keepalive) in Hr as (Hk & _); [by destruct m|done|set_solver].
  all: repeat match goal with
    | |- context [u_eqb ?a ?b] => let v := eval vm_compute in (u_eqb a b) in change (u_eqb a b) with v
    end; done.
Qed.

(** Any other type is refused. *)
Lemma deserialize_buffer_other h s : (∀ t i, datagram t = Some i → header_type h ≠ message_type_code t) →
  deserialize_buffer net (header_serialize net h ++ s) = Done (invalid_message_type, None).
Proof.
  intros Hn. unfold deserialize_buffer. rewrite header_read.
  rewrite !(proj2 (u_eqb_false _ _)) by (eapply Hn; done). done.
Qed.

Lemma header_kinds h : (∃ t i, datagram t = Some i ∧ header_type h = message_type_code t) ∨
  ∀ t i, datagram t = Some i → header_type h ≠ message_type_code t.
Proof.
  destruct (decide (header_type h = message_type_code mt_keepalive)); [left; by eexists mt_keepalive, _|].
  destruct (decide (header_type h = message_type_code mt_publish)); [left; by eexists mt_publish, _|].
  destruct (decide (header_type h = message_type_code mt_confirm_req)); [left; by eexists mt_confirm_req, _|].
  destruct (decide (header_type h = message_type_code mt_confirm_ack)); [left; by eexists mt_confirm_ack, _|].
  right. intros [] i; by intros [=].
Qed.

(** C37: a message of any kind whose header names its type
    and that of its block is written without tripping an assertion; the
    header and the message are read back and the rest of the stream is left. *)
Theorem message_roundtrip h m s :
  agrees h m →
  ∃ buffer body, message_serialize net h m = Done buffer ∧
    header_deserialize net (buffer ++ s) = Some (h, body) ∧
    read_message (kind m) h body = Done (Some (m, s)).
Proof.
  intros Hm. destruct (message_body net h m s Hm) as (body & Hs & Hr).
  eexists _, (body ++ s). split; [exact Hs|]. split; [|done]. rewrite <-app_assoc. apply header_read.
Qed.

Lemma parser_sound buffer r h m : deserialize_buffer net buffer = Done (r, Some (h, m)) →
  r = parse_success ∧ datagram (kind m) ≠ None ∧ agrees h m ∧ bad_work net m = false ∧
  message_serialize net h m = Done buffer.
Proof.
  intros Hb. destruct (header_deserialize net buffer) as [[h' s]|] eqn:Eh.
  2: { unfold deserialize_buffer in Hb. by rewrite Eh in Hb. }
  apply header_sound in Eh as ->. destruct (header_kinds h') as [(t & i & Hi & Ht)|Hn].
  2: { by rewrite (deserialize_buffer_other h' s Hn) in Hb. }
  rewrite (deserialize_buffer_kind t i h' s Hi Ht) in Hb. unfold parse_with in Hb.
  destruct (read_message t h' s) as [[[m' r']|]|] eqn:Er; try done.
  destruct (at_end r') eqn:Ea; [|done]. apply at_end_true in Ea as ->.
  destruct (bad_work net m') eqn:Ew; simplify_eq/=.
  apply (read_message_sound net t) in Er as (Hk & Ha & body & Hs & ->); [|done|by destruct t; set_solver].
  rewrite Hk, Hi, app_nil_r. done.
Qed.

(** C36: the parser hands a message to the visitor exactly when
    the datagram is, to the last byte, the wire form of a keepalive, publish,
    confirm_req or confirm_ack message that agrees with its header and whose
    block has enough work. *)
Theorem parser_correct buffer h m :
  deserialize_buffer net buffer = Done (parse_success, Some (h, m)) ↔
  datagram (kind m) ≠ None ∧ agrees h m ∧ bad_work net m = false ∧ message_serialize net h m = Done buffer.
Proof.
  split; [by intros (_ & ?)%parser_sound|]. intros (Hk & Ha & Hw & Hs).
  destruct (message_body net h m [] Ha) as (body & Hs' & Hr).
  assert (buffer = header_serialize net h ++ body) as -> by congruence.
  destruct (datagram (kind m)) as [i|] eqn:Hi; [|done]. rewrite app_nil_r in Hr.
  rewrite (deserialize_buffer_kind (kind m) i h body Hi) by apply Ha.
  unfold parse_with. by rewrite Hr, (proj2 (at_end_true [])), Hw by done.
Qed.

(** The size of the fields of a vote before its block. *)
Definition vote_head_size : nat := 32 + 64 + 8.

Lemma read_vote_head_size s : (∃ x, read_vote_head s = Some x) ↔ (vote_head_size ≤ length s)%nat.
Proof.
  unfold vote_head_size. split.
  - intros [[[[a sg] sq] r] E]. apply read_vote_head_sound in E as ->.
    rewrite !length_app, !length_write_be, length_write_le. lia.
  - intros Hl. unfold read_vote_head.
    destruct (read_be_long 32 s) as (a & r & -> & Hr); [lia|]. simpl.
    destruct (read_be_long 64 r) as (sg & r' & -> & Hr'); [lia|]. simpl.
    destruct (read_le_long 8 r') as (sq & r'' & -> & _); [lia|]. simpl. eauto.
Qed.

(** C38: the parser trips an assertion exactly on the publish,
    confirm_req and confirm_ack datagrams with a valid header whose block type
    is none of the five, a confirm_ack only if at least the 104 bytes of an
    account, a signature and a sequence number follow the header.  Datagrams of
    every other kind, keepalives among them, never trip it. *)
Theorem parser_faults buffer :
  deserialize_buffer net buffer = Fault assertion_failed ↔
  ∃ h s, buffer = header_serialize net h ++ s ∧ is_block_type (header_block_type h) = false ∧
    (header_type h = message_type_code mt_publish ∨ header_type h = message_type_code mt_confirm_req ∨
     (header_type h = message_type_code mt_confirm_ack ∧ (vote_head_size ≤ length s)%nat)).
Proof.
  split.
  - intros Hb. destruct (header_deserialize net buffer) as [[h s]|] eqn:Eh.
    2: { unfold deserialize_buffer in Hb. by rewrite Eh in Hb. }
    apply header_sound in Eh as ->. exists h, s. split; [done|].
    destruct (header_kinds h) as [(t & i & Hi & Ht)|Hn].
    2: { by rewrite (deserialize_buffer_other h s Hn) in Hb. }
    rewrite (deserialize_buffer_kind t i h s Hi Ht) in Hb. unfold parse_with in Hb.
    assert (read_message t h s = Fault assertion_failed) as Hr.
    { destruct (read_message t h s) as [[[m r]|]|e]; [|done|congruence].
      by destruct (at_end r), (bad_work net m). }
    apply read_message_fault in Hr as [Hb' Hk]; [|done|by destruct t; set_solver].
    split; [done|]. rewrite <-read_vote_head_size. destruct t; naive_solver.
  - intros (h & s & -> & Hb & Hk).
    assert (∃ t i, datagram t = Some i ∧ header_type h = message_type_code t ∧ faulty t h s)
      as (t & i & Hi & Ht & Hf).
    { unfold faulty. destruct Hk as [Hk|[Hk|[Hk Hl]]].
      - by eexists mt_publish, _.
      - by eexists mt_confirm_req, _.
      - rewrite <-read_vote_head_size in Hl. by eexists mt_confirm_ack, _. }
    rewrite (deserialize_buffer_kind t i h s Hi Ht). unfold parse_with.
    by rewrite (proj2 (read_message_fault t h s Ht ltac:(destruct t; set_solver)) Hf).
Qed.
End parser.
