(* ===== verification/NodeFrame.v ===== *)
(** * What the ledger leaves alone

    The tables of unchecked blocks and of votes and the caches of the store
    are not the ledger's: its operations keep them ([keeps]), and the
    operations that only read keep the whole store ([reads]). *)

From S2P Require Import Prelude Crypto Blocks Common Stats Store Ledger Votes Lmdb Versioning.
From S2P Require Import BlockStore StoreLemmas StoreRefine.

Section keeps.
Context `{LmdbSpec, Blake2b}.
Abbreviation S := block_store.

(** What is not the ledger's. *)
Definition aux (c : S) :=
  (unchecked_cache c, vote_cache c, dups (txn c) unchecked, table (txn c) vote_db).

Definition keeps {A} (m : M S A) : Prop := ∀ c a c', m c = Done (a, c') → aux c' = aux c.
(** The operation only reads. *)
Definition reads {T A} (m : M T A) : Prop := ∀ c a c', m c = Done (a, c') → c' = c.

Lemma reads_keeps {A} (m : M S A) : reads m → keeps m.
Proof. intros Hm c a c' Hr. by rewrite (Hm _ _ _ Hr). Qed.

Lemma reads_ret {T A} (a : A) : reads (T:=T) (mret a).
Proof. by intros c a' c' [= _ <-]. Qed.
Lemma reads_bind {T A B} (m : M T A) (f : A → M T B) : reads m → (∀ a, reads (f a)) → reads (m ≫= f).
Proof.
  intros Hm Hf c b c' (a & c1 & Hr & Hb)%bind_inv. rewrite (Hf _ _ _ _ Hb). by eapply Hm.
Qed.
Lemma reads_gets {T A} (f : T → A) : reads (gets f).
Proof. by intros c a c' [= _ <-]. Qed.
Lemma reads_assert {T} b : reads (T:=T) (assert_ b).
Proof. by intros c a c' [_ ->]%assert_inv. Qed.
Lemma reads_abort {T A} : reads (T:=T) (A:=A) abort.
Proof. by intros c a c'. Qed.
Lemma reads_lift {A} (o : outcome A) : reads (lift o).
Proof. intros c a c'. unfold lift. by destruct o as [x|]; intros [= _ <-]. Qed.
Lemma reads_loop {T A B} n (f : A → M T (A + B)) a : (∀ a, reads (f a)) → reads (loop n f a).
Proof.
  intros Hf. revert a. induction n as [|n IH]; intros a; [by intros c b c'|]. simpl.
  apply reads_bind; [done|]. intros [a'|b]; [done|apply reads_ret].
Qed.
Lemma reads_db_get db k : reads (db_get db k).
Proof. apply reads_gets. Qed.

Lemma keeps_ret {A} (a : A) : keeps (mret a).
Proof. apply reads_keeps, reads_ret. Qed.
Lemma keeps_bind {A B} (m : M S A) (f : A → M S B) : keeps m → (∀ a, keeps (f a)) → keeps (m ≫= f).
Proof.
  intros Hm Hf c b c' (a & c1 & Hr & Hb)%bind_inv. rewrite (Hf _ _ _ _ Hb). by eapply Hm.
Qed.
Lemma keeps_db_put db k v : db ≠ vote_db → keeps (db_put db k v).
Proof.
  intros Hdb c a c'. unfold db_put. destruct (mdb_put_spec db k v (txn c)) as (t' & -> & Ht & Hd).
  intros [= _ <-]. unfold aux. simpl. rewrite Hd, Ht. unfold upd. by rewrite decide_False.
Qed.
Lemma keeps_db_try_del db k : db ≠ vote_db → keeps (db_try_del db k).
Proof.
  intros Hdb c a c'. unfold db_try_del. pose proof (mdb_del_spec db k (txn c)) as Hs.
  case_decide; [|rewrite Hs; by intros [= _ <-]].
  destruct Hs as (t' & -> & Ht & Hd). intros [= _ <-]. unfold aux. simpl. rewrite Hd, Ht.
  unfold upd. by rewrite decide_False.
Qed.
Lemma keeps_block_database t (f : dbi → M S unit) :
  (∀ db, db ≠ vote_db → keeps (f db)) → keeps (block_database t ≫= f).
Proof.
  intros Hf c a c' (db & c1 & Hr & Hb)%bind_inv.
  destruct t; try done; injection Hr as <- <-; (eapply Hf; [|exact Hb]; done).
Qed.
End keeps.

Create HintDb reads discriminated.
#[export] Hint Resolve reads_ret reads_gets reads_assert reads_abort reads_lift reads_db_get : reads.

(** Walks through an operation that only reads. *)
Ltac reads_step :=
  match goal with
  | |- reads (mbind _ _) => apply reads_bind; [|intros ?]
  | |- reads (loop _ _ _) => apply reads_loop; intros ?
  | |- reads (match ?x with _ => _ end) => destruct x
  | |- reads _ => solve [eauto with reads]
  end.
Ltac reads_solve := repeat reads_step.

(** Walks through an operation that keeps what is not the ledger's. *)
Ltac keeps_step :=
  match goal with
  | |- keeps (block_database _ ≫= _) => apply keeps_block_database; intros ? ?
  | |- keeps (mbind _ _) => apply keeps_bind; [|intros ?]
  | |- keeps (match ?x with _ => _ end) => destruct x
  | |- keeps (db_del _ _) => unfold db_del
  | |- keeps (db_put _ _ _) => apply keeps_db_put; done
  | |- keeps (db_try_del _ _) => apply keeps_db_try_del; done
  | |- keeps _ => solve [apply reads_keeps; reads_solve]
  end.
Ltac keeps_solve := repeat keeps_step.

(** ** The methods of the store *)
Section methods.
Context `{LmdbSpec, Blake2b}.

Lemma reads_block_get_raw h : reads (block_get_raw h).
Proof. unfold block_get_raw. reads_solve. Qed.
Hint Resolve reads_block_get_raw : reads.
Lemma reads_block_exists h : reads (lmdb_block_exists h).
Proof. unfold lmdb_block_exists. reads_solve. Qed.
Lemma reads_block_successor h : reads (lmdb_block_successor h).
Proof. unfold lmdb_block_successor. reads_solve. Qed.
Lemma reads_block_get h : reads (lmdb_block_get h).
Proof. unfold lmdb_block_get. reads_solve. Qed.
Hint Resolve reads_block_exists reads_block_successor : reads.
Lemma reads_block_count : reads lmdb_block_count.
Proof. unfold lmdb_block_count, entry_count. reads_solve. Qed.
Lemma reads_frontier_get h : reads (lmdb_frontier_get h).
Proof. unfold lmdb_frontier_get. reads_solve. Qed.
Lemma reads_account_get a : reads (lmdb_account_get a).
Proof. unfold lmdb_account_get. reads_solve. Qed.
Lemma reads_iterator db k : reads (store_iterator_from db k).
Proof. apply reads_gets. Qed.
Hint Resolve reads_iterator : reads.
Lemma reads_entries {K V} (gk : bytes → outcome K) (gv : bytes → outcome V) i : reads (read_entries gk gv i).
Proof. induction i as [|[k v] i IH]; simpl; reads_solve. Qed.
Hint Resolve reads_entries : reads.
Lemma reads_account_exists a : reads (lmdb_account_exists a).
Proof. unfold lmdb_account_exists, latest_iterator. reads_solve. Qed.
Lemma reads_pending_get k : reads (lmdb_pending_get k).
Proof. unfold lmdb_pending_get. reads_solve. Qed.
Lemma reads_pending_exists k : reads (lmdb_pending_exists k).
Proof. unfold lmdb_pending_exists, pending_iterator. reads_solve. Qed.
Lemma reads_block_info_get h : reads (lmdb_block_info_get h).
Proof. unfold lmdb_block_info_get. reads_solve. Qed.
Lemma reads_representation_get a : reads (lmdb_representation_get a).
Proof. unfold lmdb_representation_get. reads_solve. Qed.
Lemma reads_checksum_get p m : reads (lmdb_checksum_get p m).
Proof. unfold lmdb_checksum_get. reads_solve. Qed.
End methods.
#[export] Hint Resolve reads_block_get_raw reads_block_exists reads_block_successor reads_block_get
  reads_block_count reads_frontier_get reads_account_get reads_iterator reads_entries
  reads_account_exists reads_pending_get reads_pending_exists reads_block_info_get
  reads_representation_get reads_checksum_get : reads.

(** ** The ledger on the store keeps the rest *)
Section framed.
Context `{LmdbSpec, Blake2b}.

Definition framed a (c : block_store) (s : astore) : Prop := store_rel c s ∧ aux c = a.

Lemma sim_framed {A} (m : M block_store A) k a : sim store_rel m k → keeps m → sim (framed a) m k.
Proof.
  intros Hs Hk c s [HR Ha]. specialize (Hs c s HR). specialize (Hk c).
  destruct (m c) as [[x c']|], (k s) as [[y s']|]; try done.
  destruct Hs as [-> ?]. split; [done|]. split; [done|]. by rewrite (Hk y c').
Qed.

#[export] Instance framed_store_sim a : StoreSim (framed a).
Proof.
  destruct lmdb_store_sim. constructor; intros; (apply sim_framed; [auto|]); simpl;
    unfold lmdb_block_put, set_predecessor, fill_value, lmdb_block_del, db_del, block_put_raw,
      lmdb_frontier_put, lmdb_frontier_del, lmdb_account_put, lmdb_account_del, lmdb_pending_put,
      lmdb_pending_del, lmdb_block_info_put, lmdb_block_info_del, lmdb_representation_put,
      lmdb_checksum_put, latest_iterator, pending_iterator;
    keeps_solve.
Qed.
End framed.
