(* ===== verification/NodeLedger.v ===== *)
(** * The ledger inside the node

    A call of the ledger on the node's store does what it does on the
    abstract store the tables represent, keeps the rest of the store, and
    the steps it is given are enough. *)

From S2P Require Import Prelude Crypto Blocks Common Stats Store Ledger Votes Lmdb Versioning.
From S2P Require Import BlockStore Messages MultiIndex Node Peers NodeCaches Sending Elections BlockProcessor.
From S2P Require Import StoreLemmas LedgerInv Visitors Commit Process Cascade Reach Accept LedgerProps.
From S2P Require Import StoreRefine NodeFrame.

(** ** Steps *)
Section steps.
Context `{LmdbSpec, Blake2b}.

Definition type_count (t : block_type) (m : gmap (block_type * u256) (block * u256)) : nat :=
  size (filter (λ kv : block_type * u256 * (block * u256), kv.1.1 = t) m).

Lemma type_count_insert t t' h v m : m !! (t', h) = None →
  type_count t (<[(t', h) := v]> m) = if decide (t' = t) then Datatypes.S (type_count t m) else type_count t m.
Proof.
  intros Hn. unfold type_count. case_decide as E.
  - rewrite map_filter_insert_True by done. rewrite map_size_insert_None; [done|].
    apply map_lookup_filter_None. by left.
  - rewrite map_filter_insert_False by done. by rewrite delete_id.
Qed.

Lemma type_counts m : (∀ t h v, m !! (t, h) = Some v → t ∈ get_order) →
  size m = (type_count bt_send m + type_count bt_receive m + type_count bt_open m
            + type_count bt_change m + type_count bt_state m)%nat.
Proof.
  induction m as [|[t h] v m Hn IH] using map_ind; intros Ht.
  - unfold type_count. by rewrite !map_filter_empty.
  - rewrite map_size_insert_None, IH, !type_count_insert by
      (done || (intros t' h' v' E; apply (Ht t' h' v'); rewrite lookup_insert_ne; [done|congruence])).
    assert (t ∈ get_order) as Hin by (apply (Ht t h v), lookup_insert_eq).
    unfold get_order in Hin. rewrite !elem_of_cons, elem_of_nil in Hin.
    repeat case_decide; subst; try done; try lia; naive_solver.
Qed.

Lemma stored_blocks_size c s : store_rel c s → stored_blocks c = size (a_blocks s).
Proof.
  intros Hr. rewrite type_counts.
  - unfold stored_blocks. rewrite !mdb_entries_spec.
    rewrite (rf_blocks _ _ Hr bt_send), (rf_blocks _ _ Hr bt_receive), (rf_blocks _ _ Hr bt_open),
      (rf_blocks _ _ Hr bt_change), (rf_blocks _ _ Hr bt_state) by done.
    by rewrite !encoded_size, !blocks_of_size by apply _.
  - intros t h v E. rewrite <-(rf_types _ _ Hr t h v E). apply block_type_of_order.
Qed.
End steps.

(** ** The tables represent one store *)
Section unique.
Context `{LmdbSpec, Blake2b}.

#[local] Instance account_info_val_inj : Inj (=) (=) account_info_val.
Proof. intros x y E. exact (encode_inj x y E). Qed.
#[local] Instance pending_info_val_inj : Inj (=) (=) pending_info_val.
Proof. intros x y E. exact (encode_inj x y E). Qed.
#[local] Instance block_info_val_inj : Inj (=) (=) block_info_val.
Proof. intros x y E. exact (encode_inj x y E). Qed.

Lemma encoded_inj `{Countable K} {V} (ek : K → bytes) (ev : V → bytes) `{!Inj (=) (=) ek, !Inj (=) (=) ev}
    (m m' : gmap K V) : encoded ek ev m = encoded ek ev m' → m = m'.
Proof. intros E. apply map_eq. intros k. apply (inj (fmap ev)). by rewrite <-!(encoded_lookup ek ev), E. Qed.

Lemma block_val_inj v v' : block_type_of v.1 = block_type_of v'.1 → block_val v = block_val v' → v = v'.
Proof.
  destruct v as [b sc], v' as [b' sc']. unfold block_val. simpl. intros Ht E.
  assert (Hc : ∀ (A : Type) (Hc : Codec A) (x y : A), encode x ++ write_be sc = encode y ++ write_be sc' →
    x = y ∧ sc = sc').
  { intros A Hc x y E'. pose proof (decode_encode x (write_be sc)) as Hx. rewrite E', decode_encode in Hx.
    apply (inj Some), pair_equal_spec in Hx as [-> Hs]. by apply (inj write_be) in Hs as ->. }
  destruct b as [b|b|b|b|b], b' as [b'|b'|b'|b'|b']; try discriminate Ht.
  - by destruct (Hc _ send_codec b b' E) as [-> ->].
  - by destruct (Hc _ receive_codec b b' E) as [-> ->].
  - by destruct (Hc _ open_codec b b' E) as [-> ->].
  - by destruct (Hc _ change_codec b b' E) as [-> ->].
  - by destruct (Hc _ state_codec b b' E) as [-> ->].
Qed.

Lemma store_rel_unique c s s' : store_rel c s → store_rel c s' → s = s'.
Proof.
  intros Hr Hr'.
  assert (Hb : a_blocks s = a_blocks s').
  { apply map_eq. intros [t h]. destruct (block_db t) as [db|] eqn:Ed.
    - pose proof (rf_blocks _ _ Hr t db Ed) as E. rewrite (rf_blocks _ _ Hr' t db Ed) in E.
      apply (f_equal (lookup (write_be h))) in E. rewrite !encoded_lookup, !blocks_of_lookup in E by apply _.
      pose proof (rf_types _ _ Hr t h) as Ht. pose proof (rf_types _ _ Hr' t h) as Ht'.
      destruct (a_blocks s !! (t, h)) as [v|], (a_blocks s' !! (t, h)) as [v'|]; simpl in E; try done.
      injection E as E. f_equal. apply block_val_inj; [|done]. by rewrite Ht, Ht'.
    - assert (Hn : ∀ s, store_rel c s → a_blocks s !! (t, h) = None).
      { intros s0 Hr0. destruct (a_blocks s0 !! (t, h)) as [v|] eqn:E; [|done].
        pose proof (rf_types _ _ Hr0 t h v E) as <-. destruct (block_db_of v.1) as [? ?]. congruence. }
      by rewrite !Hn. }
  destruct Hr, Hr', s, s'. simpl in *. subst. f_equal.
  - apply (encoded_inj write_be write_be). congruence.
  - apply (encoded_inj write_be account_info_val). congruence.
  - apply (encoded_inj pending_key_val pending_info_val). congruence.
  - apply (encoded_inj write_be block_info_val). congruence.
  - apply (encoded_inj write_be write_be). congruence.
  - apply (encoded_inj write_le write_be). congruence.
Qed.
End unique.

(** ** Calls *)
Section calls.
Context `{LmdbSpec, RandomPool, Blake2b, Ed25519, LedgerConstants}.
Implicit Types (n : node) (s : astore) (g : gmap u256 meta) (hist : list u256).

(** The ledger of the node on the store its tables represent. *)
Definition abs (l : ledger block_store) s : ledger astore :=
  Ledger s (stats l) (clock l) (bootstrap_weights l) (bootstrap_weight_max_blocks l)
    (check_bootstrap_weights l).

Lemma abs_rel l s : store_rel (store l) s → ledger_rel (framed (aux (store l))) l (abs l s).
Proof. intros Hr. by split_and!. Qed.

Lemma abs_fuel l s : store_rel (store l) s → ledger_fuel l = enough_fuel (abs l s).
Proof. intros Hr. unfold ledger_fuel, enough_fuel. by rewrite (stored_blocks_size _ _ Hr). Qed.

(** What a node's ledger is after a call that ended in [k']. *)
Definition called n (k' : ledger astore) n' : Prop :=
  ∃ l', n' = set_ledger l' n ∧ store_rel (store l') (store k') ∧ aux (store l') = aux (store (n_ledger n)) ∧
    stats l' = stats k' ∧ clock l' = clock k' ∧ bootstrap_weights l' = bootstrap_weights k' ∧
    bootstrap_weight_max_blocks l' = bootstrap_weight_max_blocks k' ∧
    check_bootstrap_weights l' = check_bootstrap_weights k'.

(** A call whose run on the abstract store is known. *)
Lemma wp_called {A} (m : nat → M (ledger block_store) A) (k : nat → M (ledger astore) A) n s a k'
    (Q : A → node → Prop) :
  (∀ fuel x, sim (ledger_rel (framed x)) (m fuel) (k fuel)) →
  store_rel (store (n_ledger n)) s →
  k (ledger_fuel (n_ledger n)) (abs (n_ledger n) s) = Done (a, k') →
  (∀ n', called n k' n' → Q a n') → wp (on_ledger m) n Q.
Proof.
  intros Hs Hr Hk HQ. unfold wp, on_ledger.
  pose proof (Hs (ledger_fuel (n_ledger n)) (aux (store (n_ledger n))) _ _ (abs_rel _ _ Hr)) as Hm.
  rewrite Hk in Hm. destruct (m _ _) as [[b l']|]; [|done].
  destruct Hm as (-> & (Hr' & Ha) & Hst & Hc & Hb & Hmax & Hch).
  apply HQ. exists l'. by split_and!.
Qed.

(** [process]: the code of the decision table, and the next consistent
    ledger. *)
Definition processed_to s g hist b (r : process_return) s' : Prop :=
  code r = classify s b ∧
  if decide (code r = progress) then
    ∃ m, Inv s' (<[block_hash b := m]> g) (hist ++ [block_hash b]) ∧
      effect s s' b (m_owner m) (m_balance m)
  else s' = s.

Lemma wp_process n s g hist b (Q : process_return → node → Prop) :
  store_rel (store (n_ledger n)) s → Inv s g hist → digest_ok s b →
  (∀ r k' n', called n k' n' → processed_to s g hist b r (store k') → Q r n') →
  wp (on_ledger (λ fuel, process fuel b)) n Q.
Proof.
  intros Hr HI Hd HQ. pose proof (abs_fuel _ _ Hr) as Hf.
  destruct (process_run (abs (n_ledger n) s) g hist (ledger_fuel (n_ledger n)) b HI Hd) as (r & k' & Hp & Hs);
    [by rewrite Hf|].
  eapply (wp_called _ (λ fuel, process fuel b)); [|exact Hr|exact Hp|].
  - intros fuel x. by apply sim_process; apply _.
  - intros n' Hn'. apply (HQ r k' n' Hn'). split.
    + pose proof (classify_ok (ledger_fuel (n_ledger n)) b (abs (n_ledger n) s) g hist HI) as Hc.
      unfold wlp in Hc. by rewrite Hp in Hc.
    + unfold processed in Hs. case_decide; [|done]. destruct Hs as (m & w & HI' & _ & He & _).
      exists m. by split.
Qed.

(** [rollback] of a block other than the genesis block. *)
Lemma wp_rollback n s g hist h (Q : unit → node → Prop) :
  store_rel (store (n_ledger n)) s → Inv s g hist → removable_block s h →
  (∀ k' n' g' hist', called n k' n' → Inv (store k') g' hist' → a_lookup (store k') h = None →
     (length hist' ≤ length hist)%nat → blocks_kept s (store k') → Q tt n') →
  wp (on_ledger (λ fuel, rollback fuel fuel h)) n Q.
Proof.
  intros Hr HI Hb HQ. pose proof (abs_fuel _ _ Hr) as Hf.
  destruct (rollback_run (abs (n_ledger n) s) g hist (ledger_fuel (n_ledger n)) (ledger_fuel (n_ledger n)) h
    HI Hb) as (l1 & l2 & k' & g' & l2' & El & Hp & Hs); [by rewrite Hf..|].
  eapply (wp_called _ (λ fuel, rollback fuel fuel h)); [|exact Hr|exact Hp|].
  - intros fuel x. by apply sim_rollback; apply _.
  - intros n' Hn'. destruct Hs as (Hsub & Hg & Hk & HI'). eapply (HQ k' n' g' _ Hn'); [exact HI'|..].
    + subst hist. by eapply rollback_gone.
    + rewrite El, !length_app. apply sublist_length in Hsub. simpl. lia.
    + done.
Qed.
End calls.
