(* ===== verification/NodeOk.v ===== *)
(** * The invariant of the node

    [node_ok]: the store represents a consistent ledger, every block queued
    or waiting has valid work, the peers are valid and distinct, every active
    root has its election.  [quiet]: a step that touches none of what the
    invariant is about, such as sending. *)

From S2P Require Import Prelude Crypto Blocks Common Stats Store Ledger Votes Lmdb Versioning.
From S2P Require Import BlockStore Messages MultiIndex Node Peers NodeCaches Sending Elections BlockProcessor.
From S2P Require Import StoreLemmas LedgerInv StoreRefine StoreCaches NodeFrame NodeLedger.

(** ** The invariant *)
Section ok.
Context `{NodeConfig, LmdbSpec, RandomPool, MultiIndex, Unordered, Wallets, !ReadableWallets}.
Context `{Blake2b, Ed25519, LedgerConstants}.
Implicit Types (n : node) (c : block_store) (b : block) (e : endpoint).

Definition valid_work b : Prop := work_validate badem_network (block_root b) (block_work b) = false.

(** An endpoint that may be a peer: of version 6, specified, not reserved,
    not the node itself. *)
Definition peer_endpoint e : Prop := not_a_peer e = Done false.

Definition peers_ok (p : peer_container) : Prop :=
  NoDup (pi_endpoint <$> peers p) ∧ ∀ i, i ∈ peers p → peer_endpoint (pi_endpoint i).

(** The election of a root is about that root, and has votes. *)
Definition active_ok (a : active_transactions) : Prop :=
  (∀ r ci, roots a !! r = Some ci → ci_root ci = r ∧
     ∃ x, elections a !! ci_election ci = Some x ∧ votes_id (el_votes x) = r) ∧
  (∀ j x, elections a !! j = Some x → rep_votes (el_votes x) ≠ ∅).

Definition task_ok (a : active_transactions) (t : task) : Prop :=
  match t with
  | Broadcast_winner e => is_Some (elections a !! e)
  | Confirm_req_base _ l _ => ∀ i, i ∈ l → peer_endpoint (pi_endpoint i)
  | _ => True
  end.
(** The alarm holds no function about an election. *)
Definition alarm_ok (t : task) : Prop :=
  match t with
  | Broadcast_winner _ => False
  | Confirm_req_base _ l _ => ∀ i, i ∈ l → peer_endpoint (pi_endpoint i)
  | _ => True
  end.
Lemma alarm_task_ok a t : alarm_ok t → task_ok a t.
Proof. by destruct t. Qed.
Definition tasks_ok n : Prop :=
  (∀ t, t ∈ n_service n → task_ok (n_active n) t) ∧ (∀ w t, (w, t) ∈ n_alarm n → alarm_ok t).

(** The number of blocks is a [size_t]. *)
Definition ledger_ok c : Prop :=
  ∃ s g hist, store_rel c s ∧ Inv s g hist ∧ Z.of_nat (length hist) < 2 ^ 64.
Definition votes_ok c : Prop := ∃ T : gmap u256 vote, table (txn c) vote_db = encoded write_be vote_serialize T.
Definition waiting_ok c : Prop :=
  unchecked_ok c ∧ (∀ h, waits_once c h) ∧ ∀ h b, waits c h b → valid_work b.

Definition gaps_ok (l : list gap_information) : Prop :=
  NoDup (gi_hash <$> l) ∧ (length l ≤ gap_cache_max)%nat ∧ ∀ i, i ∈ l → rep_votes (gi_votes i) ≠ ∅.

Record node_ok n : Prop := {
  ok_ledger : ledger_ok (store (n_ledger n));
  ok_votes : votes_ok (store (n_ledger n));
  ok_waiting : waiting_ok (store (n_ledger n));
  ok_queue : ∀ b, b ∈ bp_blocks (n_block_processor n) → valid_work b;
  ok_peers : peers_ok (n_peers n);
  ok_active : active_ok (n_active n);
  ok_tasks : tasks_ok n;
  ok_gaps : gaps_ok (n_gap_cache n);
  ok_arrival : NoDup (ba_hash <$> n_block_arrival n);
  ok_reps : NoDup (representative_ <$> reps (n_online_reps n));
}.

(** ** Quiet steps *)

(** The store without the cache of votes. *)
Definition tables c := (txn c, unchecked_cache c).

Record quiet n n' : Prop := {
  q_tables : tables (store (n_ledger n')) = tables (store (n_ledger n));
  q_active : n_active n' = n_active n;
  q_gaps : n_gap_cache n' = n_gap_cache n;
  q_arrival : n_block_arrival n' = n_block_arrival n;
  q_reps : n_online_reps n' = n_online_reps n;
  q_processor : n_block_processor n' = n_block_processor n;
  q_service : n_service n' = n_service n;
  q_alarm : ∀ w t, (w, t) ∈ n_alarm n' → (w, t) ∈ n_alarm n ∨ alarm_ok t;
  q_peers : peers_ok (n_peers n) → peers_ok (n_peers n');
  q_check : check_bootstrap_weights (n_ledger n) = false → check_bootstrap_weights (n_ledger n') = false;
}.

Lemma quiet_refl n : quiet n n.
Proof. by constructor; auto. Qed.
Lemma quiet_trans n1 n2 n3 : quiet n1 n2 → quiet n2 n3 → quiet n1 n3.
Proof.
  intros [] []. constructor; try congruence; auto. intros w t Hin.
  destruct (q_alarm1 _ _ Hin) as [|Ht]; auto.
Qed.

Lemma tables_store c c' : tables c' = tables c → c' = set_vote_cache c (vote_cache c').
Proof. destruct c, c'. unfold tables, set_vote_cache. simpl. by intros [= -> ->]. Qed.

Lemma tables_ledger_ok c c' : tables c' = tables c → ledger_ok c → ledger_ok c'.
Proof. intros ->%tables_store. done. Qed.
Lemma tables_votes_ok c c' : tables c' = tables c → votes_ok c → votes_ok c'.
Proof. intros ->%tables_store. done. Qed.
Lemma tables_waiting_ok c c' : tables c' = tables c → waiting_ok c → waiting_ok c'.
Proof. intros ->%tables_store. done. Qed.

Lemma quiet_ok n n' : quiet n n' → node_ok n → node_ok n'.
Proof.
  intros Hq []. pose proof (q_tables _ _ Hq). constructor.
  - by eapply tables_ledger_ok.
  - by eapply tables_votes_ok.
  - by eapply tables_waiting_ok.
  - by rewrite (q_processor _ _ Hq).
  - by apply (q_peers _ _ Hq).
  - by rewrite (q_active _ _ Hq).
  - destruct ok_tasks0 as [Hs Ha]. split.
    + rewrite (q_service _ _ Hq), (q_active _ _ Hq). done.
    + intros w t Hin. destruct (q_alarm _ _ Hq _ _ Hin); eauto.
  - by rewrite (q_gaps _ _ Hq).
  - by rewrite (q_arrival _ _ Hq).
  - by rewrite (q_reps _ _ Hq).
Qed.

(** ** Steps of an election

    They change the elections, the queue of forced blocks and the functions
    posted; for the rest they are quiet. *)

Definition restore n n' : node :=
  set_active (n_active n) (set_block_processor (n_block_processor n) (set_service (n_service n) n')).

Record changed n n' (a : active_transactions) (p : block_processor) (sv : list task) : Prop := {
  ch_quiet : quiet n (restore n n');
  ch_active : n_active n' = a;
  ch_processor : n_block_processor n' = p;
  ch_service : n_service n' = sv;
}.

Lemma changed_refl n : changed n n (n_active n) (n_block_processor n) (n_service n).
Proof. constructor; try done. destruct n. apply quiet_refl. Qed.

Lemma changed_trans n1 n2 n3 a p sv a' p' sv' :
  changed n1 n2 a p sv → changed n2 n3 a' p' sv' → changed n1 n3 a' p' sv'.
Proof.
  intros [[]] [[]]. constructor; try done. simpl in *. constructor; simpl; try congruence; auto.
  intros w t Hin. destruct (q_alarm1 _ _ Hin); auto.
Qed.
Lemma quiet_changed n n' : quiet n n' → changed n n' (n_active n) (n_block_processor n) (n_service n).
Proof. intros Hq. pose proof Hq as []. by constructor; [constructor|..]. Qed.

Lemma changed_ok n n' a p sv : changed n n' a p sv → node_ok n → active_ok a →
  (∀ b, b ∈ bp_blocks p → valid_work b) → (∀ t, t ∈ sv → task_ok a t) → node_ok n'.
Proof.
  intros [[]] []  Ha Hp Hs. simpl in *. subst. constructor; try congruence; auto.
  - by eapply tables_ledger_ok.
  - by eapply tables_votes_ok.
  - by eapply tables_waiting_ok.
  - destruct ok_tasks0 as [_ Hal]. split; [done|]. intros w t Hin. destruct (q_alarm0 _ _ Hin); eauto.
Qed.
End ok.

(** ** Rules for single steps *)
Section rules.
Context `{Lmdb, RandomPool}.
Implicit Types (n : node).

Lemma wp_run_unit {S} (m : M S unit) (s : S) (P : S → Prop) :
  wp m s (λ _, P) → ∃ s', m s = Done (tt, s') ∧ P s'.
Proof. intros ([] & s' & Hm & HP)%wp_run. eauto. Qed.
Lemma wp_gets {S A} (f : S → A) (s : S) (Q : A → S → Prop) : Q (f s) s → wp (gets f) s Q.
Proof. done. Qed.
Lemma wp_modify {S} (f : S → S) (s : S) (Q : unit → S → Prop) : Q tt (f s) → wp (modify f) s Q.
Proof. done. Qed.
Lemma wp_lift_outcome {A} (o : outcome A) a n (Q : A → node → Prop) :
  o = Done a → Q a n → wp (lift_outcome o) n Q.
Proof. by intros ->. Qed.

(** A loop keeps what its body keeps. *)
Lemma wp_each {A} (l : list A) (body : A → M node unit) (I : node → Prop) n :
  I n → (∀ a n, a ∈ l → I n → wp (body a) n (λ _, I)) → wp (each l body) n (λ _, I).
Proof.
  revert n. induction l as [|a l IH]; intros n Hn Hb; [done|]. simpl. apply wp_bind.
  eapply wp_mono; [apply Hb; [by left|done]|]. intros [] n' Hn'. apply IH; [done|].
  intros a' n1 Ha. apply Hb. by right.
Qed.

Lemma set_ledger_same n : set_ledger (n_ledger n) n = n.
Proof. by destruct n. Qed.
Lemma set_store_same (l : ledger block_store) : set_store l (store l) = l.
Proof. by destruct l. Qed.

(** A call of the store that only reads. *)
Lemma wp_store_read {A} (m : M block_store A) a n (Q : A → node → Prop) :
  reads m → (∃ c, m (store (n_ledger n)) = Done (a, c)) → Q a n → wp (on_store m) n Q.
Proof.
  intros Hr [c Hm] HQ. unfold wp, on_store, on_ledger, st. rewrite Hm.
  by rewrite (Hr _ _ _ Hm), set_store_same, set_ledger_same.
Qed.
(** A call of the ledger that only reads. *)
Lemma wp_ledger_read {A} (m : nat → M (ledger block_store) A) a n (Q : A → node → Prop) :
  reads (m (ledger_fuel (n_ledger n))) →
  (∃ l, m (ledger_fuel (n_ledger n)) (n_ledger n) = Done (a, l)) → Q a n → wp (on_ledger m) n Q.
Proof.
  intros Hr [l Hm] HQ. unfold wp, on_ledger. rewrite Hm. by rewrite (Hr _ _ _ Hm), set_ledger_same.
Qed.
End rules.

(** The next step of a sequence. *)
Ltac next := apply wp_bind.
