(* ===== verification/NodeQuiet.v ===== *)
(** * Sending is quiet

    Drawing random peers, building messages and sending them touches nothing
    the invariant of the node is about. *)

From S2P Require Import Prelude Crypto Blocks Common Stats Store Ledger Votes Lmdb Versioning.
From S2P Require Import BlockStore Messages MultiIndex Node Peers NodeCaches Sending Elections BlockProcessor.
From S2P Require Import StoreLemmas LedgerInv StoreRefine StoreCaches MessageProps.
From S2P Require Import NodeFrame NodeLedger NodeOk.

Section quiet.
Context `{NodeConfig, LmdbSpec, RandomPool, MultiIndex, Unordered, Wallets, !ReadableWallets}.
Context `{Blake2b, Ed25519, LedgerConstants}.
Implicit Types (n : node) (c : block_store) (b : block) (e : endpoint).

(** A quiet run with a property of its result. *)
Definition qwp {A} (m : M node A) n (Q : A → Prop) : Prop := wp m n (λ a n', quiet n n' ∧ Q a).

Lemma qwp_ret {A} (a : A) n (Q : A → Prop) : Q a → qwp (mret a) n Q.
Proof. intros HQ. split; [apply quiet_refl|done]. Qed.
Lemma qwp_bind {A B} (m : M node A) (f : A → M node B) n P Q : node_ok n →
  qwp m n P → (∀ a n', node_ok n' → quiet n n' → P a → qwp (f a) n' Q) → qwp (m ≫= f) n Q.
Proof.
  intros Hn Hm Hf. apply wp_bind. eapply wp_mono; [exact Hm|]. intros a n1 [Hq HP].
  eapply wp_mono; [apply (Hf a n1); [by eapply quiet_ok|done|done]|].
  intros r n2 [Hq2 HQ]. split; [by eapply quiet_trans|done].
Qed.
Lemma qwp_mono {A} (m : M node A) n (P Q : A → Prop) : qwp m n P → (∀ a, P a → Q a) → qwp m n Q.
Proof. intros Hm HPQ. eapply wp_mono; [exact Hm|]. intros a n' [? ?]. auto. Qed.
Lemma qwp_each {A} (l : list A) (body : A → M node unit) n : node_ok n →
  (∀ a n', a ∈ l → node_ok n' → qwp (body a) n' (λ _, True)) → qwp (each l body) n (λ _, True).
Proof.
  revert n. induction l as [|a l IH]; intros n Hn Hb; [by apply qwp_ret|]. simpl.
  eapply qwp_bind; [done|apply Hb; [by left|done]|]. intros [] n' Hn' _ _. apply IH; [done|].
  intros a' n1 Ha. apply Hb. by right.
Qed.
Lemma qwp_gets {A} (f : node → A) n (Q : A → Prop) : Q (f n) → qwp (gets f) n Q.
Proof. intros HQ. split; [apply quiet_refl|done]. Qed.
Lemma qwp_lift {A} (o : outcome A) a n (Q : A → Prop) : o = Done a → Q a → qwp (lift_outcome o) n Q.
Proof. intros -> HQ. split; [apply quiet_refl|done]. Qed.

(** Updates of what the invariant does not mention. *)
Lemma qwp_now n : qwp now n (λ _, True).
Proof. by split; [constructor; simpl; auto|]. Qed.
Lemma qwp_emit o n : qwp (emit o) n (λ _, True).
Proof. by split; [constructor; simpl; auto|]. Qed.
Lemma qwp_alarm w t n : alarm_ok t → qwp (alarm_add w t) n (λ _, True).
Proof.
  intros Ht. split; [|done]. constructor; simpl; auto. intros w' t'.
  rewrite elem_of_app, list_elem_of_singleton. intros [|[= -> ->]]; auto.
Qed.
Lemma qwp_stats f n : qwp (on_stats f) n (λ _, True).
Proof. by split; [constructor; simpl; auto|]. Qed.
Lemma qwp_random lo hi n : lo ≤ hi → qwp (random_word32 lo hi) n (λ w, lo ≤ w ≤ hi).
Proof.
  intros Hl. unfold qwp, wp, random_word32. pose proof (generate_word32_range lo hi (n_random_pool n) Hl).
  destruct (generate_word32 lo hi (n_random_pool n)) as [w r]. by split; [constructor; simpl; auto|].
Qed.
Lemma qwp_random_block k n : qwp (random_block k) n (λ _, True).
Proof.
  unfold qwp, wp, random_block. destruct (generate_block k (n_random_pool n)) as [x r].
  by split; [constructor; simpl; auto|].
Qed.
Lemma qwp_crawler s n : qwp (modify (set_rep_crawler s)) n (λ _, True).
Proof. by split; [constructor; simpl; auto|]. Qed.

(** Peers stay valid and distinct when they are stamped. *)
Lemma peers_ok_modify p f e : peers_ok p → (∀ i, pi_endpoint (f i) = pi_endpoint i) →
  peers_ok (Peer_container (mi_modify pi_endpoint e f (peers p)) (attempts p)).
Proof.
  intros [Hn Hv] Hf. split; simpl.
  - rewrite mi_modify_key; [done|]. intros i <-. apply Hf.
  - intros i (j & Hj & [[_ ->]|[_ ->]])%elem_of_mi_modify; [rewrite Hf|]; by apply Hv.
Qed.
Lemma qwp_stamp e f n l : l = peers (n_peers n) → (∀ i, pi_endpoint (f i) = pi_endpoint i) →
  qwp (set_peer_list (mi_modify pi_endpoint e f l)) n (λ _, True).
Proof.
  intros -> Hf. split; [|done]. constructor; simpl; auto. intros Hp. by apply peers_ok_modify.
Qed.

Lemma qwp_rep_request e n : qwp (rep_request e) n (λ _, True).
Proof.
  unfold rep_request, get_peers. apply wp_bind, wp_gets.
  destruct (mi_find pi_endpoint e (peers (n_peers n))); [|by apply qwp_ret].
  split; [|done]. constructor; simpl; auto. intros Hp. by apply (peers_ok_modify (n_peers n)).
Qed.

(** ** Drawing peers *)

(** Endpoints of the peers of a node. *)
Definition endpoints n : list endpoint := pi_endpoint <$> peers (n_peers n).

Lemma wp_random_draws tries count r0 n (Q : gset endpoint → node → Prop) :
  peers (n_peers n) ≠ [] → Z.of_nat (size r0) ≤ Z.max count 0 →
  (∀ r p, Z.of_nat (size r) ≤ Z.max count 0 → (∀ e, e ∈ r → e ∈ r0 ∨ e ∈ endpoints n) →
     Q r (set_random_pool p n)) →
  wp (random_draws tries count r0) n Q.
Proof.
  intros Hne. revert r0 n Hne Q. induction tries as [|tries IH]; intros r0 n Hne Q Hs HQ; simpl.
  { replace n with (set_random_pool (n_random_pool n) n) by (by destruct n). apply HQ; auto. }
  destruct (Z.ltb_spec (Z.of_nat (size r0)) count) as [Hlt|].
  2: { replace n with (set_random_pool (n_random_pool n) n) by (by destruct n). apply HQ; auto. }
  unfold get_peers. apply wp_bind, wp_gets. apply wp_bind. unfold random_word32, wp at 1.
  set (l := peers (n_peers n)) in *.
  assert (0 < length l)%nat by (destruct l; [done|simpl; lia]).
  pose proof (generate_word32_range 0 (Z.of_nat (length l) - 1) (n_random_pool n)) as Hw.
  destruct (generate_word32 0 (Z.of_nat (length l) - 1) (n_random_pool n)) as [w p]. simpl in Hw.
  destruct (l !! Z.to_nat w) as [i|] eqn:Ei.
  2: { apply lookup_ge_None in Ei. lia. }
  apply IH; [done| |].
  - pose proof (size_union_alt {[pi_endpoint i]} r0) as Hu.
    pose proof (subseteq_size (r0 ∖ {[pi_endpoint i]}) r0) as Hd. rewrite size_singleton in Hu.
    specialize (Hd ltac:(set_solver)). lia.
  - intros r p' Hr Hin. apply (HQ r p'); [done|]. intros e He. destruct (Hin e He) as [Hx|Hx]; [|auto].
    apply elem_of_union in Hx as [->%elem_of_singleton|]; [|auto]. right.
    apply list_elem_of_fmap_2. by eapply list_elem_of_lookup_2.
Qed.

Lemma fill_recent_ok order count r0 : Z.of_nat (size r0) ≤ Z.max count 0 →
  Z.of_nat (size (fill_recent order count r0)) ≤ Z.max count 0 ∧
  ∀ e, e ∈ fill_recent order count r0 → e ∈ r0 ∨ e ∈ pi_endpoint <$> order.
Proof.
  revert r0. induction order as [|i order IH]; intros r0 Hs; simpl; [set_solver|].
  destruct (Z.ltb_spec (Z.of_nat (size r0)) count) as [Hlt|]; [|set_solver].
  destruct (IH ({[pi_endpoint i]} ∪ r0)) as [H1' H2'].
  - pose proof (size_union_alt {[pi_endpoint i]} r0) as Hu.
    pose proof (subseteq_size (r0 ∖ {[pi_endpoint i]}) r0) as Hd. rewrite size_singleton in Hu.
    specialize (Hd ltac:(set_solver)). lia.
  - split; [done|]. set_solver.
Qed.

Lemma wp_random_set count n (Q : gset endpoint → node → Prop) :
  (∀ r p, Z.of_nat (size r) ≤ Z.max count 0 → (∀ e, e ∈ r → e ∈ endpoints n) →
     Q r (set_random_pool p n)) →
  wp (random_set count) n Q.
Proof.
  intros HQ. unfold random_set, get_peers. apply wp_bind, wp_gets. apply wp_bind.
  assert (Hfill : ∀ r, Z.of_nat (size r) ≤ Z.max count 0 → (∀ e, e ∈ r → e ∈ endpoints n) → ∀ p,
    Q (fill_recent (by_key last_contact (peers (n_peers n))) count r) (set_random_pool p n)).
  { intros r Hs Hr p. destruct (fill_recent_ok (by_key last_contact (peers (n_peers n))) count r Hs) as [Hf Hin].
    apply HQ; [done|]. intros e He. destruct (Hin e He) as [|Hx]; [auto|].
    unfold endpoints. by rewrite <-(by_key_perm last_contact). }
  case_bool_decide as Hl.
  - replace n with (set_random_pool (n_random_pool n) n) by (by destruct n).
    apply wp_ret, wp_ret, Hfill; rewrite ?size_empty; [lia|set_solver].
  - eapply wp_mono; [apply (wp_random_draws _ _ _ _ (λ r n', (∃ p, n' = set_random_pool p n) ∧
      Z.of_nat (size r) ≤ Z.max count 0 ∧ ∀ e, e ∈ r → e ∈ endpoints n)); [done|rewrite size_empty; lia|]|].
    + intros r p Hs Hr. split_and!; [eauto|done|]. intros e He. destruct (Hr e He); [set_solver|done].
    + intros r n' ([p ->] & Hs & Hr). by apply wp_ret, Hfill.
Qed.

Lemma elem_of_iterate_set s e : e ∈ iterate_set s ↔ e ∈ s.
Proof.
  unfold iterate_set. rewrite list_elem_of_fmap. split.
  - intros ([x []] & -> & Hin). rewrite iterate_perm, elem_of_map_to_list in Hin. simpl.
    by apply lookup_gset_to_gmap_Some in Hin as [? _].
  - intros He. exists (e, tt). split; [done|]. rewrite iterate_perm, elem_of_map_to_list.
    by apply lookup_gset_to_gmap_Some.
Qed.
Lemma length_iterate_set s : length (iterate_set s) = size s.
Proof.
  unfold iterate_set. rewrite length_map, iterate_perm, length_map_to_list.
  by rewrite <-size_dom, dom_gset_to_gmap.
Qed.

Lemma peers_v6 n e : peers_ok (n_peers n) → e ∈ endpoints n → ∃ a, ep_address e = address_v6 a.
Proof.
  intros [_ Hv] (i & -> & Hi)%list_elem_of_fmap. pose proof (Hv i Hi) as Hp. unfold peer_endpoint, not_a_peer in Hp.
  destruct (ep_address (pi_endpoint i)); [done|eauto].
Qed.

Definition unspecified : endpoint := Endpoint (address_v6 (U 16 0)) (U 2 0).

Lemma fill_array_ok from target : (length from ≤ length target)%nat →
  (∀ e, e ∈ from → ∃ a, ep_address e = address_v6 a) →
  fill_array from target = Done (from ++ drop (length from) target).
Proof.
  revert target. induction from as [|e from IH]; intros [|t target] Hl Hv; simpl in *; try done; [lia|].
  destruct (Hv e) as [a ->]; [by left|]. rewrite IH; [done|lia|]. intros x Hx. apply Hv. by right.
Qed.

(** The eight endpoints of a keepalive message: distinct peers, then
    unspecified ones. *)
Lemma wp_random_fill n (Q : list endpoint → node → Prop) : peers_ok (n_peers n) →
  (∀ (s : gset endpoint) p, (size s ≤ peer_count)%nat → (∀ e, e ∈ s → e ∈ endpoints n) →
     Q (iterate_set s ++ replicate (peer_count - size s) unspecified) (set_random_pool p n)) →
  wp random_fill n Q.
Proof.
  intros Hp HQ. unfold random_fill. apply wp_bind, wp_random_set. intros r p Hs Hr.
  assert (size r ≤ peer_count)%nat as Hle by lia.
  apply wp_bind, wp_assert; [by apply Nat.leb_le|].
  rewrite fill_array_ok.
  - rewrite drop_replicate, length_iterate_set. by apply HQ.
  - by rewrite length_replicate, length_iterate_set.
  - intros e He%elem_of_iterate_set. by eapply peers_v6; [|apply Hr].
Qed.

Lemma quiet_random_pool p n : quiet n (set_random_pool p n).
Proof. by constructor; simpl; auto. Qed.

Lemma qwp_list_fanout n : node_ok n →
  qwp list_fanout n (λ l, ∀ e, e ∈ l → peer_endpoint e).
Proof.
  intros Hn. unfold list_fanout, size_sqrt, peers_size, get_peers.
  apply wp_bind, wp_bind, wp_bind, wp_gets, wp_ret, wp_ret, wp_bind, wp_random_set. intros r p _ Hr.
  apply wp_ret. split; [apply quiet_random_pool|]. intros e He%elem_of_iterate_set%Hr.
  apply list_elem_of_fmap in He as (i & -> & Hi). by apply (ok_peers _ Hn).
Qed.

(** ** Messages *)

Lemma qwp_serialized m n : agrees m.1 m.2 → qwp (serialized m) n (λ _, True).
Proof.
  intros Ha. destruct (message_body badem_network m.1 m.2 [] Ha) as (body & Hs & _).
  by eapply qwp_lift.
Qed.

Lemma qwp_send_buffer d e n : qwp (send_buffer d e) n (λ _, True).
Proof. apply qwp_emit. Qed.

Lemma qwp_send_keepalive e n : node_ok n → (∃ a, ep_address e = address_v6 a) →
  qwp (send_keepalive e) n (λ _, True).
Proof.
  intros Hn [a Ha]. unfold send_keepalive. apply wp_bind, wp_assert; [by rewrite Ha|].
  apply wp_bind, wp_random_fill; [by apply ok_peers|]. intros s p Hs Hin.
  eapply wp_mono; [eapply (qwp_bind _ _ (set_random_pool p n) (λ _, True) (λ _, True))|].
  - eapply quiet_ok; [apply quiet_random_pool|done].
  - apply qwp_serialized. split; [done|]. split.
    + rewrite length_app, length_iterate_set, length_replicate. lia.
    + apply Forall_app. split; [|apply Forall_replicate; by eexists].
      apply Forall_forall. intros x Hx%elem_of_iterate_set%Hin. eapply peers_v6; [|done]. by apply ok_peers.
  - intros d n1 _ _ _. apply qwp_send_buffer.
  - intros [] n2 [Hq _]. split; [|done]. eapply quiet_trans; [apply quiet_random_pool|done].
Qed.

Lemma qwp_send_confirm_req e b n : node_ok n → qwp (send_confirm_req e b) n (λ _, True).
Proof.
  intros Hn. unfold send_confirm_req. eapply qwp_bind; [done|apply qwp_serialized, make_agrees|].
  { exact (Vote (U 8 0) b (U 32 0) (U 64 0)). }
  intros d n1 Hn1 _ _. eapply qwp_bind; [done|apply qwp_stats|]. intros [] n2 _ _ _. apply qwp_send_buffer.
Qed.

Lemma qwp_confirm_req_base b l delay n : node_ok n → (∀ i, i ∈ l → peer_endpoint (pi_endpoint i)) →
  qwp (broadcast_confirm_req_base b l delay) n (λ _, True).
Proof.
  intros Hn Hl. unfold broadcast_confirm_req_base. eapply qwp_bind; [done|apply qwp_each; [done|]|].
  - intros i n1 _ Hn1. by apply qwp_send_confirm_req.
  - intros [] n1 Hn1 _ _. case_bool_decide; [by apply qwp_ret|].
    eapply qwp_bind; [done|apply qwp_now|]. intros t n2 Hn2 _ _. apply qwp_alarm.
    intros i Hi. apply Hl. apply list_elem_of_lookup in Hi as (k & Hk).
    apply lookup_take_Some in Hk as [Hk _]. by eapply list_elem_of_lookup_2.
Qed.

Lemma representatives_in count n (Q : list peer_information → node → Prop) :
  (∀ l, (∀ i, i ∈ l → i ∈ peers (n_peers n)) → Q l n) → wp (representatives count) n Q.
Proof.
  intros HQ. unfold representatives, get_peers. apply wp_bind, wp_gets, wp_ret, HQ.
  intros i Hi. apply list_elem_of_lookup in Hi as (k & Hk). apply lookup_take_Some in Hk as [Hk _].
  apply list_elem_of_lookup_2, list_elem_of_In, filter_In in Hk as [Hk _].
  by rewrite <-list_elem_of_In, elem_of_by_key in Hk.
Qed.
Lemma qwp_representatives count n : node_ok n →
  qwp (representatives count) n (λ l, ∀ i, i ∈ l → peer_endpoint (pi_endpoint i)).
Proof.
  intros Hn. apply representatives_in. intros l Hl. split; [apply quiet_refl|].
  intros i Hi. by apply (ok_peers _ Hn), Hl.
Qed.

Lemma qwp_broadcast_confirm_req b n : node_ok n → qwp (broadcast_confirm_req b) n (λ _, True).
Proof.
  intros Hn. unfold broadcast_confirm_req. eapply qwp_bind; [done|by apply qwp_representatives|].
  intros l n1 Hn1 _ Hl. by apply qwp_confirm_req_base.
Qed.

Lemma qwp_republish_vote v n : node_ok n → qwp (republish_vote v) n (λ _, True).
Proof.
  intros Hn. unfold republish_vote. eapply qwp_bind; [done|apply qwp_serialized, (make_agrees (v_block v) v)|].
  intros d n1 Hn1 _ _. eapply qwp_bind; [done|by apply qwp_list_fanout|]. intros l n2 Hn2 _ _.
  apply qwp_each; [done|]. intros e n3 _ _. apply qwp_send_buffer.
Qed.

(** ** Weights *)

Definition cleared (l : ledger block_store) : ledger block_store :=
  Ledger (store l) (stats l) (clock l) (bootstrap_weights l) (bootstrap_weight_max_blocks l) false.

Lemma st_read {A} (m : M block_store A) (l : ledger block_store) a c :
  reads m → m (store l) = Done (a, c) → st m l = Done (a, l).
Proof. intros Hr Hm. unfold st. by rewrite Hm, (Hr _ _ _ Hm), set_store_same. Qed.

(** A method of the store that reads what the represented store says. *)
Lemma sim_read_run {A} (m : M block_store A) (f : astore → A) c s :
  sim store_rel m (gets f) → store_rel c s → ∃ c', m c = Done (f s, c').
Proof.
  intros Hs Hr. specialize (Hs c s Hr). unfold gets in Hs. destruct (m c) as [[a c']|]; [|done].
  destruct Hs as [-> _]. eauto.
Qed.

Lemma weight_run_node (l : ledger block_store) s a : store_rel (store l) s →
  ∃ w l', weight a l = Done (w, l') ∧ (l' = l ∨ l' = cleared l) ∧
    (check_bootstrap_weights l = false → l' = l ∧ w = default (U 16 0) (a_rep s !! a)).
Proof.
  intros Hr.
  destruct (sim_read_run _ _ _ _ (representation_get_sim a) Hr) as [c Hc].
  assert (Hrep : ∀ l', store l' = store l →
    st (representation_get a) l' = Done (default (U 16 0) (a_rep s !! a), l')).
  { intros l' El. eapply st_read; [apply reads_representation_get|]. rewrite El. exact Hc. }
  unfold weight. unfold mbind at 1, M_bind at 1, gets at 1.
  destruct (check_bootstrap_weights l); [|rewrite Hrep by done; eexists _, l; eauto].
  destruct (sim_read_run _ (λ s, _) _ _ block_count_sim Hr) as [c' Hc'].
  rewrite (bind_done _ _ _ _ _ (st_read _ _ _ _ reads_block_count Hc')).
  unfold mbind at 1, M_bind at 1, gets at 1. destruct (u_ltb _ _).
  - unfold mbind at 1, M_bind at 1, gets at 1. destruct (bootstrap_weights l !! a).
    + eexists _, l. split; [done|]. split; [by left|done].
    + rewrite Hrep by done. eexists _, l. split; [done|]. split; [by left|done].
  - unfold mbind at 1, M_bind at 1, clear_check_bootstrap_weights, modify.
    change (Ledger (store l) (stats l) (clock l) (bootstrap_weights l) (bootstrap_weight_max_blocks l) false)
      with (cleared l). rewrite Hrep by done. eexists _, (cleared l). split; [done|]. split; [by right|done].
Qed.

Lemma quiet_ledger n l' : store l' = store (n_ledger n) →
  (check_bootstrap_weights (n_ledger n) = false → check_bootstrap_weights l' = false) →
  quiet n (set_ledger l' n).
Proof. intros Hs Hc. constructor; simpl; auto. by rewrite Hs. Qed.

Lemma qwp_weight a n : node_ok n → qwp (ledger_weight a) n (λ _, True).
Proof.
  intros Hn. destruct (ok_ledger _ Hn) as (s & g & hist & Hr & _).
  destruct (weight_run_node (n_ledger n) s a Hr) as (w & l' & Hw & Hl & _).
  unfold qwp, wp, ledger_weight, on_ledger. rewrite Hw. split; [|done].
  by destruct Hl as [->| ->]; apply quiet_ledger.
Qed.

(** The totals of an election: every block voted for, and only such. *)
Lemma tally_totals_node (l : ledger block_store) s acc : store_rel (store l) s → ∀ votes_l,
  ∃ t l', tally_totals votes_l acc l = Done (t, l') ∧ (l' = l ∨ l' = cleared l) ∧
    (check_bootstrap_weights l = false → l' = l) ∧ (acc ≠ ∅ ∨ votes_l ≠ [] → t ≠ ∅).
Proof.
  intros Hr votes_l. revert acc l Hr. induction votes_l as [|[a b] votes_l IH]; intros acc l Hr; simpl.
  { eexists _, l. split; [done|]. split_and!; [by left|done|]. by intros [|]. }
  destruct (weight_run_node l s a Hr) as (w & l1 & Hw & Hl1 & Hc1).
  rewrite (bind_done _ _ _ _ _ Hw).
  destruct (IH (add_vote acc b w) l1) as (t & l' & Ht & Hl & Hc & Hne); [by destruct Hl1 as [->| ->]|].
  exists t, l'. split; [done|]. split_and!.
  - destruct Hl1 as [->| ->], Hl as [->| ->]; auto.
  - intros Hf. destruct (Hc1 Hf) as [-> _]. auto.
  - intros _. apply Hne. left. unfold add_vote.
    destruct (acc !! block_hash b) as [[b0 t0]|]; apply insert_non_empty.
Qed.
End quiet.
