(* ===== verification/NodeSends.v ===== *)
(** * Votes, tallies and random blocks in the node

    The calls of the ledger and the store the network functions make end and
    are quiet. *)

From S2P Require Import Prelude Crypto Blocks Common Stats Store Ledger Votes Lmdb Versioning.
From S2P Require Import BlockStore Messages MultiIndex Node Peers NodeCaches Sending Elections BlockProcessor.
From S2P Require Import StoreLemmas LedgerInv VoteProps StoreRefine StoreCaches MessageProps.
From S2P Require Import NodeFrame NodeLedger NodeOk NodeQuiet.

Section sends.
Context `{NodeConfig, LmdbSpec, RandomPool, MultiIndex, Unordered, Wallets, !ReadableWallets}.
Context `{Blake2b, Ed25519, LedgerConstants}.
Implicit Types (n : node) (c : block_store) (b : block) (e : endpoint).

(** ** Tallies *)

Lemma by_total_nonempty (t : gmap u256 (block * u128)) : t ≠ ∅ → foldl by_total ∅ (iterate t) ≠ ∅.
Proof.
  intros (h & [b k] & Ht)%map_choose. destruct (by_total_some (iterate t) ∅) as [_ Hs].
  destruct (Hs h b k) as [x Hx]; [by apply iterate_in|]. intros E. by rewrite E, lookup_empty in Hx.
Qed.

Lemma tally_run_node (l : ledger block_store) s vs : store_rel (store l) s → rep_votes vs ≠ ∅ →
  ∃ t l', tally vs l = Done (t, l') ∧ (l' = l ∨ l' = cleared l) ∧
    (check_bootstrap_weights l = false → l' = l) ∧ t ≠ ∅.
Proof.
  intros Hr Hne. destruct (tally_totals_node l s ∅ Hr (iterate (rep_votes vs))) as (t & l' & Ht & Hl & Hc & Hn).
  exists (foldl by_total ∅ (iterate t)), l'. unfold tally. rewrite (bind_done _ _ _ _ _ Ht).
  split_and!; [done..|]. apply by_total_nonempty, Hn. right. intros E.
  apply map_choose in Hne as (a & b & Ha%iterate_in). rewrite E in Ha. set_solver.
Qed.

Lemma qwp_tally vs n : node_ok n → rep_votes vs ≠ ∅ → qwp (on_ledger (λ _, tally vs)) n (λ t, t ≠ ∅).
Proof.
  intros Hn Hne. destruct (ok_ledger _ Hn) as (s & g & hist & Hr & _).
  destruct (tally_run_node (n_ledger n) s vs Hr Hne) as (t & l' & Ht & Hl & Hc & Hx).
  unfold qwp, wp, on_ledger. rewrite Ht. split; [|done].
  by destruct Hl as [->| ->]; apply quiet_ledger.
Qed.
Lemma qwp_winner vs n : node_ok n → rep_votes vs ≠ ∅ → qwp (on_ledger (λ _, winner vs)) n (λ _, True).
Proof.
  intros Hn Hne. destruct (ok_ledger _ Hn) as (s & g & hist & Hr & _).
  destruct (tally_run_node (n_ledger n) s vs Hr Hne) as (t & l' & Ht & Hl & Hc & Hx).
  unfold qwp, wp, on_ledger, winner. rewrite (bind_done _ _ _ _ _ Ht).
  destruct (greatest_max t Hx) as (k & b & -> & _). split; [|done].
  by destruct Hl as [->| ->]; apply quiet_ledger.
Qed.

(** The totals in order: the first is the greatest. *)
Lemma decreasing_in t k b : (k, b) ∈ decreasing t ↔ t !! k = Some b.
Proof. unfold decreasing. by rewrite merge_sort_Permutation, elem_of_map_to_list. Qed.
Lemma decreasing_nonempty t : t ≠ ∅ → decreasing t ≠ [].
Proof.
  intros (k & b & Ht)%map_choose E. apply decreasing_in in Ht. rewrite E in Ht. set_solver.
Qed.

(** ** The cache of votes *)

Lemma quiet_store n c' : tables c' = tables (store (n_ledger n)) →
  quiet n (set_ledger (set_store (n_ledger n) c') n).
Proof. intros Ht. by constructor; simpl; auto. Qed.

Lemma votes_ok_known c : votes_ok c → ∃ V, votes_known c V.
Proof. intros [T HT]. exists (vote_cache c ∪ T). by exists T. Qed.

Lemma qwp_vote_generate a key b n : node_ok n → qwp (on_store (vote_generate a key b)) n (λ v, v_block v = b).
Proof.
  intros Hn. destruct (votes_ok_known _ (ok_votes _ Hn)) as [V HV].
  unfold qwp, wp, on_store, on_ledger, st, vote_generate.
  rewrite (bind_done _ _ _ _ _ (vote_current_run a _ _ HV)). split; [|done]. by apply quiet_store.
Qed.
Lemma qwp_vote_max v n : node_ok n → qwp (on_store (vote_max v)) n (λ _, True).
Proof.
  intros Hn. destruct (votes_ok_known _ (ok_votes _ Hn)) as [V HV].
  unfold qwp, wp, on_store, on_ledger, st, vote_max.
  rewrite (bind_done _ _ _ _ _ (vote_current_run (v_account v) _ _ HV)). split; [|done]. by apply quiet_store.
Qed.

(** ** The representatives of the node *)

(** Every account of the list is readable when the wallet is unlocked. *)
Definition readable (pubs : list u256) (fetch : u256 → option u256) (unlocked : bool) : Prop :=
  unlocked = true → ∀ a, a ∈ pubs → is_Some (fetch a).
Lemma wallets_readable : Forall (λ w, readable (w_accounts w) (w_fetch w) (w_unlocked w)) wallet_items.
Proof. apply Forall_forall. intros w Hw Hu a Ha. by apply readable_wallets. Qed.

(** An account with weight whose key cannot be fetched trips the assertion. *)
Lemma each_key_unreadable {A} pub pubs fetch (action : u256 → u256 → A → M node A) acc n w n1 :
  ledger_weight pub n = Done (w, n1) → is_zero w = false → fetch pub = None →
  each_key (pub :: pubs) fetch true action acc n = Fault assertion_failed.
Proof. intros Hw Hz Hf. simpl. unfold mbind, M_bind. by rewrite Hw, Hz, Hf. Qed.

Lemma qwp_foreach {A} (action : u256 → u256 → A → M node A) acc n : node_ok n →
  (∀ pub prv acc n', node_ok n' → qwp (action pub prv acc) n' (λ _, True)) →
  qwp (foreach_representative action acc) n (λ _, True).
Proof.
  intros Hn Ha. unfold foreach_representative.
  assert (Hk : ∀ pubs fetch u acc n, node_ok n → readable pubs fetch u →
    qwp (each_key pubs fetch u action acc) n (λ _, True)).
  { clear -Ha. intros pubs fetch u. induction pubs as [|pub pubs IH]; intros acc n Hn Hf; simpl; [by apply qwp_ret|].
    eapply qwp_bind; [done|by apply qwp_weight|]. intros w n1 Hn1 _ _.
    eapply (qwp_bind _ _ _ (λ _, True)); [done| |].
    - destruct (_ && u) eqn:Eu; [|by apply qwp_ret]. apply andb_true_iff in Eu as [_ Eu].
      destruct (Hf Eu pub) as [prv ->]; [by left|by apply Ha].
    - intros acc' n2 Hn2 _ _. apply IH; [done|]. intros Eu a Hin. apply Hf; [done|by right]. }
  revert acc n Hn. pose proof wallets_readable as Hr. induction Hr as [|w items Hw _ IH]; intros acc n Hn; simpl; [by apply qwp_ret|].
  eapply qwp_bind; [done|by apply Hk|]. intros acc' n1 Hn1 _ _. by apply IH.
Qed.

Lemma qwp_confirm_block to b n : node_ok n → qwp (confirm_block to b) n (λ _, True).
Proof.
  intros Hn. unfold confirm_block. destruct enable_voting; [|by apply qwp_ret].
  apply qwp_foreach; [done|]. intros pub prv acc n1 Hn1.
  eapply qwp_bind; [done|by apply qwp_vote_generate|]. intros v n2 Hn2 _ _.
  eapply qwp_bind; [done|apply qwp_serialized, (make_agrees b v)|]. intros d n3 Hn3 _ _.
  eapply qwp_bind; [done|apply qwp_each; [done|]|].
  - intros e n4 _ _. apply qwp_send_buffer.
  - intros [] n4 _ _ _. by apply qwp_ret.
Qed.

Lemma qwp_republish_block b n : node_ok n → qwp (republish_block b) n (λ _, True).
Proof.
  intros Hn. unfold republish_block. eapply qwp_bind; [done|by apply qwp_list_fanout|].
  intros to n1 Hn1 _ _. eapply qwp_bind; [done|by apply qwp_confirm_block|]. intros [] n2 Hn2 _ _; [by apply qwp_ret|].
  eapply qwp_bind; [done|apply qwp_serialized, (make_agrees b (Vote (U 8 0) b (U 32 0) (U 64 0)))|].
  intros d n3 Hn3 _ _. apply qwp_each; [done|]. intros e n4 _ _. apply qwp_send_buffer.
Qed.

(** ** A random block *)

Lemma range_elem {V} (k : bytes) (m : gmap bytes V) x v : (x, v) ∈ Lmdb.range k m → m !! x = Some v.
Proof.
  unfold Lmdb.range. rewrite merge_sort_Permutation, elem_of_map_to_list. by intros [? _]%map_lookup_filter_Some.
Qed.
Lemma range_first_all {V} (m : gmap bytes V) : m ≠ ∅ → Lmdb.range [] m ≠ [].
Proof.
  intros (k & v & Hm)%map_choose E. assert ((k, v) ∈ Lmdb.range [] m) as Hin; [|rewrite E in Hin; set_solver].
  unfold Lmdb.range. rewrite merge_sort_Permutation, elem_of_map_to_list. apply map_lookup_filter_Some.
  split; [done|]. by destruct k.
Qed.

Lemma block_random_in_run random ty db c s g hist : store_rel c s → Inv s g hist →
  block_db ty = Some db → blocks_of ty (a_blocks s) ≠ ∅ →
  ∃ b, block_random_in random db c = Done (Some b, c).
Proof.
  intros Hr HI Hdb Hne. set (m := encoded write_be block_val (blocks_of ty (a_blocks s))).
  assert (Hm : m ≠ ∅).
  { apply map_choose in Hne as (h & v & Hv). intros E. 
    assert (m !! write_be h = Some (block_val v)) as Hx
      by (unfold m; rewrite encoded_lookup by apply _; by rewrite Hv).
    by rewrite E, lookup_empty in Hx. }
  assert (Hit : ∀ k, store_iterator_from db k c = Done (Lmdb.range k m, c)).
  { intros k. unfold store_iterator_from, gets. by rewrite mdb_cursor_spec, (rf_blocks _ _ Hr ty db Hdb). }
  assert (∃ k v rest k0, Lmdb.range k0 m = (k, v) :: rest ∧ ((if bool_decide (Lmdb.range (write_be random) m = [])
    then store_iterator_first db else mret (Lmdb.range (write_be random) m)) c = Done ((k, v) :: rest, c)))
    as (k & v & rest & k0 & Hk & Hrun).
  { case_bool_decide as E.
    - destruct (Lmdb.range [] m) as [|[k v] rest] eqn:E0; [by destruct (range_first_all m Hm)|].
      exists k, v, rest, []. split; [done|]. unfold store_iterator_first. by rewrite Hit, E0.
    - destruct (Lmdb.range (write_be random) m) as [|[k v] rest] eqn:E0; [done|]. by exists k, v, rest, (write_be random). }
  assert (Hx : m !! k = Some v) by (apply (range_elem k0); rewrite Hk; by left).
  unfold m, encoded in Hx. apply lookup_kmap_Some in Hx as (h & -> & Hv); [|apply _].
  rewrite lookup_fmap, blocks_of_lookup in Hv. apply fmap_Some in Hv as ([b sc] & Hb & _).
  unfold block_random_in. rewrite (bind_done _ _ _ _ _ (Hit _)), (bind_done _ _ _ _ _ Hrun).
  unfold mbind, M_bind, lift. rewrite val_uint256_write.
  destruct (sim_read_run _ _ _ _ (block_get_sim h) Hr) as [c' Hg].
  rewrite Hg, (reads_block_get h _ _ _ Hg).
  assert (a_lookup s h = Some (b, sc)) as ->; [|by exists b].
  pose proof (rf_types _ _ Hr _ _ _ Hb) as Hty. simpl in Hty.
  apply wf_lookup; [by apply (inv_wf _ _ _ HI)|]. by rewrite Hty.
Qed.

Lemma table_size_small s t : Z.of_nat (type_count t (a_blocks s)) < 2 ^ 64 →
  uval (table_size s t) = Z.of_nat (type_count t (a_blocks s)).
Proof.
  intros Ht. unfold table_size. rewrite uval_U_small; [done|].
  change (modulus 8) with (2 ^ 64). unfold type_count in *. lia.
Qed.

(** The table chosen for a region has blocks. *)
Lemma block_random_run region random c s g hist : store_rel c s → Inv s g hist →
  Z.of_nat (length hist) < 2 ^ 64 → 0 ≤ region < Z.of_nat (length hist) →
  ∃ b, block_random region random c = Done (Some b, c).
Proof.
  intros Hr HI Hs Hreg. rewrite (inv_size _ _ _ HI), (type_counts (a_blocks s)) in Hs, Hreg.
  2,3: (intros t h v E; rewrite <-(rf_types _ _ Hr t h v E); apply block_type_of_order).
  destruct (sim_read_run _ (λ s, _) _ _ block_count_sim Hr) as [c' Hc].
  unfold block_random. rewrite (bind_done _ _ _ _ _ Hc), (reads_block_count _ _ _ Hc). simpl.
  pose proof (table_size_small s) as Hu.
  assert (Hne : ∀ ty, (0 < type_count ty (a_blocks s))%nat → blocks_of ty (a_blocks s) ≠ ∅).
  { intros ty Hp E. unfold type_count in Hp. rewrite <-blocks_of_size, E, map_size_empty in Hp. lia. }
  repeat match goal with |- context [if ?x <? uval (table_size s ?t) then _ else _] =>
    destruct (Z.ltb_spec x (uval (table_size s t))) as [?Hlt|?Hge]; rewrite Hu in * by lia;
    [eapply (block_random_in_run random t); [done|done|done|apply Hne; lia]|] end.
  eapply (block_random_in_run random bt_state); [done|done|done|]. apply Hne. lia.
Qed.

Lemma history_positive s g hist : Inv s g hist → (0 < length hist)%nat.
Proof. intros HI. destruct (inv_genesis _ _ _ HI) as (h0 & b0 & sc0 & rest & -> & _). simpl. lia. Qed.

Lemma qwp_store_block_random n : node_ok n → qwp store_block_random n (λ r, is_Some r).
Proof.
  intros Hn. destruct (ok_ledger _ Hn) as (s & g & hist & Hr & HI & Hsz).
  destruct (sim_read_run _ (λ s, _) _ _ block_count_sim Hr) as [c' Hc].
  unfold store_block_random. apply wp_bind.
  eapply wp_store_read; [apply reads_block_count|eauto|].
  pose proof (history_positive _ _ _ HI) as Hpos.
  set (counts := Block_counts _ _ _ _ _).
  assert (uval (block_counts_sum counts) = Z.of_nat (length hist)) as Hsum.
  { rewrite (inv_size _ _ _ HI), (type_counts (a_blocks s)) in *;
      [|intros t h v E; rewrite <-(rf_types _ _ Hr t h v E); apply block_type_of_order..].
    unfold block_counts_sum. simpl.
    repeat (rewrite uval_add_small; rewrite ?table_size_small by lia);
      change (modulus 8) with (2 ^ 64); rewrite ?table_size_small by lia; try lia. }
  rewrite Hsum. set (hi := (Z.of_nat (length hist) - 1) mod 2 ^ 32).
  assert (0 ≤ hi ≤ Z.of_nat (length hist) - 1) as Hhi.
  { subst hi. split; [apply Z.mod_pos_bound; lia|]. apply Z.mod_le; lia. }
  eapply (qwp_bind _ _ _ _ _ Hn); [apply (qwp_random 0 hi); lia|]. intros region n1 Hn1 Hq1 Hreg.
  eapply (qwp_bind _ _ _ _ _ Hn1); [apply qwp_random_block|]. intros random n2 Hn2 Hq2 _. cbv beta in Hreg.
  destruct (block_random_run region (U 32 (be_val random)) (store (n_ledger n2)) s g hist) as [b Hb];
    [|done|done|lia|].
  - pose proof (quiet_trans _ _ _ Hq1 Hq2) as Hq. apply q_tables in Hq.
    unfold store_rel in *. by injection Hq as -> _.
  - unfold qwp, wp, on_store, on_ledger, st. rewrite Hb. split; [|eauto].
    rewrite set_store_same, set_ledger_same. apply quiet_refl.
Qed.

Lemma qwp_rep_query to n : node_ok n → qwp (rep_query to) n (λ _, True).
Proof.
  intros Hn. unfold rep_query. eapply qwp_bind; [done|by apply qwp_store_block_random|].
  intros ob n1 Hn1 _ [b ->]. eapply (qwp_bind _ _ _ (λ _, True)); [done|by split; [constructor; simpl; auto|]|].
  intros [] n2 Hn2 _ _. eapply qwp_bind; [done|apply qwp_each; [done|]|].
  - intros e n3 _ Hn3. eapply qwp_bind; [done|apply qwp_rep_request|]. intros [] n4 Hn4 _ _.
    by apply qwp_send_confirm_req.
  - intros [] n3 Hn3 _ _. eapply qwp_bind; [done|apply qwp_now|]. intros t n4 _ _ _. by apply qwp_alarm.
Qed.
End sends.
