(* ===== verification/NodePeers.v ===== *)
(** * Peers stay valid and distinct

    Every operation on the peers keeps them valid endpoints without
    duplicates, and is quiet. *)

From S2P Require Import Prelude Crypto Blocks Common Stats Store Ledger Votes Lmdb Versioning BlockStore Messages.
From S2P Require Import MultiIndex Node Peers NodeCaches Sending Elections BlockProcessor Receiving StoreLemmas.
From S2P Require Import LedgerInv StoreRefine StoreCaches MessageProps NodeFrame NodeLedger NodeOk.
From S2P Require Import NodeQuiet NodeSends.

Section peers.
Context `{NodeConfig, LmdbSpec, RandomPool, MultiIndex, Unordered, Wallets, !ReadableWallets}.
Context `{Blake2b, Ed25519, LedgerConstants}.
Implicit Types (n : node) (b : block) (e : endpoint).

Definition version6 e : Prop := ∃ a, ep_address e = address_v6 a.

Lemma not_a_peer_run e : version6 e → ∃ r, not_a_peer e = Done r.
Proof.
  intros [a Ha]. unfold not_a_peer, reserved_address. rewrite Ha.
  destruct (is_zero a); [eauto|]. destruct (_ || _); eauto.
Qed.
Lemma reserved_address_run e : version6 e → ∃ r, reserved_address badem_network e = Done r.
Proof. intros [a Ha]. unfold reserved_address. rewrite Ha. eauto. Qed.
Lemma peer_version6 e : peer_endpoint e → version6 e.
Proof. unfold peer_endpoint, not_a_peer. destruct (ep_address e) eqn:Ha; [done|]. by exists a. Qed.
Lemma to_mapped_version6 e : version6 (to_mapped e).
Proof. unfold to_mapped, version6. destruct (ep_address e) eqn:Ha; simpl; eauto. Qed.

Lemma peers_ok_insert p e v t : peers_ok p → peer_endpoint e →
  peers_ok (Peer_container (mi_insert pi_endpoint (make_peer e v t) (peers p)).1 (attempts p)).
Proof.
  intros [Hn Hv] He. split; simpl; [by apply mi_insert_nodup|].
  intros i [->|Hi]%elem_of_mi_insert; [done|by apply Hv].
Qed.

Lemma qwp_set_peers n l : (peers_ok (n_peers n) → peers_ok (Peer_container l (attempts (n_peers n)))) →
  qwp (set_peer_list l) n (λ _, True).
Proof. intros Hp. by split; [constructor; simpl; auto|]. Qed.
Lemma qwp_set_attempts n l : qwp (set_attempts l) n (λ _, True).
Proof. by split; [constructor; simpl; auto|]. Qed.

(** Readings of the clock leave the rest. *)
Lemma wp_now n (Q : Z → node → Prop) :
  Q (n_steady n 0%nat) (set_steady (λ i, n_steady n (Datatypes.S i)) n) → wp now n Q.
Proof. done. Qed.
Lemma quiet_steady n f : quiet n (set_steady f n).
Proof. by constructor; simpl; auto. Qed.

Lemma quiet_qwp {A} (m : M node A) n n1 (Q : A → Prop) : quiet n n1 → qwp m n1 Q →
  wp m n1 (λ a n', quiet n n' ∧ Q a).
Proof.
  intros Hq Hm. eapply wp_mono; [exact Hm|]. intros a n' [Hq' ?]. split; [by eapply quiet_trans|done].
Qed.

Lemma qwp_peer_observer e n : node_ok n → version6 e → qwp (peer_observer e) n (λ _, True).
Proof.
  intros Hn He. unfold peer_observer. eapply qwp_bind; [done|by apply qwp_send_keepalive|].
  intros [] n1 Hn1 _ _. by apply qwp_rep_query.
Qed.

Lemma qwp_peers_insert e v n : node_ok n → version6 e → qwp (peers_insert peer_observer e v) n (λ _, True).
Proof.
  intros Hn He. unfold peers_insert. destruct (not_a_peer_run e He) as [r Hr].
  apply wp_bind. eapply wp_lift_outcome; [exact Hr|]. destruct r; [by apply qwp_ret|].
  destruct (v <? _); [by apply qwp_ret|]. unfold get_peers. apply wp_bind, wp_gets.
  destruct (mi_find pi_endpoint e (peers (n_peers n))); apply wp_bind, wp_now.
  - apply quiet_qwp; [apply quiet_steady|]. eapply qwp_bind.
    + eapply quiet_ok; [apply quiet_steady|done].
    + apply qwp_set_peers. intros Hp. by apply (peers_ok_modify (n_peers n)).
    + intros [] n1 _ _ _. by apply qwp_ret.
  - apply quiet_qwp; [apply quiet_steady|]. eapply qwp_bind.
    + eapply quiet_ok; [apply quiet_steady|done].
    + apply qwp_set_peers. intros Hp. by apply (peers_ok_insert (n_peers n)).
    + intros [] n1 Hn1 _ _. eapply qwp_bind; [done|by apply qwp_peer_observer|].
      intros [] n2 _ _ _. by apply qwp_ret.
Qed.

Lemma qwp_contacted e v n : node_ok n → qwp (contacted peer_observer e v) n (λ _, True).
Proof.
  intros Hn. unfold contacted. eapply qwp_bind; [done|apply qwp_peers_insert; [done|apply to_mapped_version6]|].
  intros r n1 _ _ _. by apply qwp_ret.
Qed.

Lemma qwp_reachout e n : node_ok n → version6 e → qwp (reachout e) n (λ _, True).
Proof.
  intros Hn He. unfold reachout. destruct (not_a_peer_run e He) as [r Hr].
  apply wp_bind. eapply wp_lift_outcome; [exact Hr|]. destruct r; [by apply qwp_ret|].
  unfold known_peer, get_peers, get_attempts.
  apply wp_bind, wp_bind, wp_gets, wp_ret, wp_bind, wp_gets, wp_bind, wp_now.
  apply quiet_qwp; [apply quiet_steady|]. eapply qwp_bind.
  - eapply quiet_ok; [apply quiet_steady|done].
  - apply qwp_set_attempts.
  - intros [] n1 _ _ _. by apply qwp_ret.
Qed.

Lemma qwp_merge_peers l n : node_ok n → (∀ e, e ∈ l → version6 e) → qwp (merge_peers l) n (λ _, True).
Proof.
  revert n. induction l as [|e l IH]; intros n Hn Hl; [by apply qwp_ret|]. cbn [merge_peers].
  eapply qwp_bind; [done|apply qwp_reachout; [done|apply Hl; by left]|]. intros error n1 Hn1 _ _.
  eapply (qwp_bind _ _ _ (λ _, True)); [done| |].
  - destruct error; [by apply qwp_ret|]. apply qwp_send_keepalive; [done|]. apply Hl. by left.
  - intros [] n2 Hn2 _ _. apply IH; [done|]. intros x Hx. apply Hl. by right.
Qed.

Lemma qwp_heard_from e v n : node_ok n → version6 e → qwp (heard_from e v) n (λ _, True).
Proof.
  intros Hn He. unfold heard_from. eapply qwp_bind; [done|by apply qwp_contacted|].
  intros [] n1 Hn1 _ _. eapply qwp_bind; [done|by apply qwp_peers_insert|]. intros r n2 _ _ _. by apply qwp_ret.
Qed.

Lemma touch_response_endpoint t a w i : pi_endpoint (touch_response t a w i) = pi_endpoint i.
Proof. unfold touch_response. by destruct (u_ltb _ _). Qed.

Lemma qwp_rep_response e a w n : node_ok n → qwp (rep_response e a w) n (λ _, True).
Proof.
  intros Hn. unfold rep_response, get_peers. apply wp_bind, wp_gets.
  destruct (mi_find pi_endpoint e (peers (n_peers n))); [|by apply qwp_ret]. apply wp_bind, wp_now.
  apply quiet_qwp; [apply quiet_steady|]. eapply qwp_bind.
  - eapply quiet_ok; [apply quiet_steady|done].
  - apply qwp_set_peers. intros Hp. apply (peers_ok_modify (n_peers n)); [done|]. apply touch_response_endpoint.
  - intros [] n1 _ _ _. by apply qwp_ret.
Qed.

Lemma qwp_bootstrap_peer n : node_ok n → qwp bootstrap_peer n (λ _, True).
Proof.
  intros Hn. unfold bootstrap_peer, get_peers. apply wp_bind, wp_gets.
  destruct (List.find _ _) as [i|]; [|by apply qwp_ret]. apply wp_bind, wp_now.
  apply quiet_qwp; [apply quiet_steady|]. eapply qwp_bind.
  - eapply quiet_ok; [apply quiet_steady|done].
  - apply qwp_set_peers. intros Hp. by apply (peers_ok_modify (n_peers n)).
  - intros [] n1 _ _ _. by apply qwp_ret.
Qed.

(** ** Purging *)

Lemma from_cutoff_in {E} (key : E → Z) cutoff l x : x ∈ from_cutoff key cutoff l → x ∈ l.
Proof.
  induction l as [|y l IH]; simpl; [done|]. destruct (key y <? cutoff); [|done]. intros ?%IH. by right.
Qed.

Lemma qwp_stamp_attempts order n : node_ok n → qwp (stamp_attempts order) n (λ _, True).
Proof.
  revert n. induction order as [|i order IH]; intros n Hn; [by apply qwp_ret|]. cbn [stamp_attempts].
  unfold get_peers. apply wp_bind, wp_now, wp_bind, wp_gets.
  apply quiet_qwp; [apply quiet_steady|]. eapply qwp_bind.
  - eapply quiet_ok; [apply quiet_steady|done].
  - apply qwp_set_peers. intros Hp. by apply (peers_ok_modify (n_peers n)).
  - intros [] n1 Hn1 _ _. by apply IH.
Qed.

Lemma peers_ok_filter p f : peers_ok p → peers_ok (Peer_container (List.filter f (peers p)) (attempts p)).
Proof.
  intros [Hn Hv]. split; simpl.
  - clear Hv. induction (peers p) as [|i l IH]; simpl; [done|]. apply NoDup_cons in Hn as [Hi Hn].
    destruct (f i); simpl; [|by apply IH]. apply NoDup_cons. split; [|by apply IH].
    intros (j & Ej & Hj)%list_elem_of_fmap. apply Hi. rewrite Ej. apply list_elem_of_fmap_2.
    rewrite list_elem_of_In, filter_In, <-list_elem_of_In in Hj. by destruct Hj.
  - intros i Hi. rewrite list_elem_of_In, filter_In, <-list_elem_of_In in Hi. by apply Hv, Hi.
Qed.

Lemma qwp_purge_list cutoff n : node_ok n →
  qwp (purge_list cutoff) n (λ l, ∀ i, i ∈ l → peer_endpoint (pi_endpoint i)).
Proof.
  intros Hn. unfold purge_list, get_peers at 1. apply wp_bind, wp_gets.
  eapply (qwp_bind _ _ _ (λ _, True)); [done|apply qwp_set_peers; intros Hp; by apply peers_ok_filter|].
  intros [] n1 Hn1 _ _. eapply qwp_bind; [done|by apply qwp_stamp_attempts|]. intros [] n2 Hn2 _ _.
  unfold get_attempts. apply wp_bind, wp_gets. eapply (qwp_bind _ _ _ (λ _, True)); [done|apply qwp_set_attempts|].
  intros [] n3 Hn3 _ _. eapply (qwp_bind _ _ _ (λ _, True)); [done| |].
  - case_bool_decide; [apply qwp_emit|by apply qwp_ret].
  - intros [] n4 _ _ _. apply qwp_ret. intros i Hi%from_cutoff_in. rewrite elem_of_by_key in Hi.
    by apply (ok_peers _ Hn).
Qed.

Lemma qwp_keepalive_all l n : node_ok n → (∀ i, i ∈ l → peer_endpoint (pi_endpoint i)) →
  qwp (keepalive_all l) n (λ _, True).
Proof.
  revert n. induction l as [|i l IH]; intros n Hn Hl; [by apply qwp_ret|]. cbn [keepalive_all].
  eapply qwp_bind; [done|apply qwp_now|]. intros t n1 Hn1 _ _. destruct (_ <? _); [|by apply qwp_ret].
  eapply qwp_bind; [done|apply qwp_send_keepalive; [done|]|].
  - apply peer_version6, Hl. by left.
  - intros [] n2 Hn2 _ _. apply IH; [done|]. intros x Hx. apply Hl. by right.
Qed.

Lemma qwp_keepalive_preconfigured l n : node_ok n → qwp (keepalive_preconfigured l) n (λ _, True).
Proof. intros Hn. apply qwp_each; [done|]. intros a n1 Ha Hn1. apply qwp_emit. Qed.

Lemma qwp_keepalive_resolved found n : node_ok n → qwp (keepalive_resolved found) n (λ _, True).
Proof.
  intros Hn. destruct found as [l|]; [|by apply qwp_ret].
  apply qwp_each; [done|]. intros e n1 He Hn1. apply qwp_send_keepalive; [done|apply to_mapped_version6].
Qed.

Lemma qwp_ongoing_keepalive n0 : node_ok n0 → qwp ongoing_keepalive n0 (λ _, True).
Proof.
  intros Hn0. unfold ongoing_keepalive.
  eapply qwp_bind; [done|by apply qwp_keepalive_preconfigured|]. intros [] n Hn _ _. eapply qwp_bind; [done|apply qwp_now|]. intros t n1 Hn1 _ _.
  eapply qwp_bind; [done|by apply qwp_purge_list|]. intros l n2 Hn2 _ Hl.
  eapply qwp_bind; [done|by apply qwp_keepalive_all|]. intros [] n3 Hn3 _ _.
  eapply qwp_bind; [done|apply qwp_now|]. intros t' n4 _ _ _. by apply qwp_alarm.
Qed.

Lemma qwp_ongoing_rep_crawl on n : node_ok n → qwp (ongoing_rep_crawl on) n (λ _, True).
Proof.
  intros Hn. unfold ongoing_rep_crawl. eapply qwp_bind; [done|apply qwp_now|]. intros t n1 Hn1 _ _.
  unfold rep_crawl, get_peers. apply wp_bind, wp_bind, wp_gets, wp_ret.
  eapply qwp_bind; [done|by apply qwp_rep_query|]. intros [] n2 _ _ _.
  destruct on; [by apply qwp_alarm|by apply qwp_ret].
Qed.
End peers.

(** ** What the caches of the node remember *)

Section caches.
Context `{NodeConfig, LmdbSpec, RandomPool, MultiIndex, Unordered, Wallets, !ReadableWallets}.
Context `{Blake2b, Ed25519, LedgerConstants}.
Implicit Types (n : node) (l : list block_arrival_info) (i : block_arrival_info).

(** ** Blocks that arrived lately *)

(** Young enough to be kept whatever the size. *)
Definition young (t : Z) i : Prop := t ≤ ba_arrival i + arrival_time_min.

Record retained (t : Z) l l' : Prop := {
  rt_sub i : i ∈ l' → i ∈ l;
  rt_young i : i ∈ l → young t i → i ∈ l';
  rt_order i j : i ∈ l' → j ∈ l → j ∉ l' → ba_arrival j ≤ ba_arrival i;
  rt_many : Z.min (Z.of_nat (length l)) arrival_size_min ≤ Z.of_nat (length l');
  rt_few : Z.of_nat (length l') ≤ arrival_size_min ∨ ∀ i, i ∈ l' → young t i;
}.

Lemma drop_arrivals_retained rounds t l : NoDup (ba_hash <$> l) → (length l ≤ rounds)%nat →
  retained t l (drop_arrivals rounds t l).
Proof.
  assert (Hsame : ∀ l, Z.of_nat (length l) ≤ arrival_size_min ∨ (∀ i, i ∈ l → young t i) → retained t l l).
  { intros l' Hl. constructor; [done|done|by intros i j _ ? ?|lia|done]. }
  revert l. induction rounds as [|rounds IH]; intros l Hd Hlen; cbn [drop_arrivals].
  { apply Hsame. left. unfold arrival_size_min. lia. }
  destruct (Z.ltb_spec arrival_size_min (Z.of_nat (length l))) as [Hbig|]; [|by apply Hsame; left].
  destruct (by_key ba_arrival l) as [|x r] eqn:Ek.
  { apply by_key_nil in Ek as ->. unfold arrival_size_min in Hbig. simpl in Hbig. lia. }
  destruct (by_key_first _ _ _ _ Ek) as [Hx Hmin].
  destruct (Z.ltb_spec (ba_arrival x + arrival_time_min) t) as [Hold|Hy].
  2: { apply Hsame. right. intros i Hi. unfold young. specialize (Hmin i Hi). lia. }
  pose proof (length_mi_erase_one ba_hash (ba_hash x) l Hd (list_elem_of_fmap_2 ba_hash _ _ Hx)) as Hlen'.
  destruct (IH (mi_erase ba_hash (ba_hash x) l)) as [Hsub Hyoung Horder Hmany Hfew];
    [by apply mi_erase_nodup|lia|].
  assert (Hone : ∀ j, j ∈ l → ba_hash j = ba_hash x → j = x).
  { intros j Hj Ej. pose proof (mi_find_elem ba_hash (ba_hash x) l j Hd Hj Ej).
    pose proof (mi_find_elem ba_hash (ba_hash x) l x Hd Hx eq_refl). congruence. }
  constructor; [| | |lia|done].
  - intros i [Hi _]%Hsub%elem_of_mi_erase. done.
  - intros i Hi Hyi. apply Hyoung; [|done]. apply elem_of_mi_erase. split; [done|].
    intros E. unfold young in Hyi. rewrite (Hone i Hi E) in Hyi. lia.
  - intros i j Hi Hj Hnj. destruct (decide (ba_hash j = ba_hash x)) as [E|E].
    + rewrite (Hone j Hj E). apply Hmin. by apply Hsub, elem_of_mi_erase in Hi as [? _].
    + apply Horder; [done| |done]. by apply elem_of_mi_erase.
Qed.

(** [block_arrival::recent] answers whether the block is
    among the arrivals it keeps.  It keeps every arrival of the last 300
    seconds and at least the 8192 latest ones, drops older ones first, and
    keeps more than 8192 only while all of them are younger. *)
Lemma arrival_retention n h :
  NoDup (ba_hash <$> n_block_arrival n) →
  ∃ r n', block_arrival_recent h n = Done (r, n') ∧
    retained (n_steady n 0%nat) (n_block_arrival n) (n_block_arrival n') ∧
    (r = true ↔ ∃ i, i ∈ n_block_arrival n' ∧ ba_hash i = h).
Proof.
  intros Hd. unfold block_arrival_recent, mbind, M_bind, now, gets, modify. eexists _, _. split; [done|]. simpl.
  split; [by apply drop_arrivals_retained|]. rewrite bool_decide_eq_true, mi_find_is_some, list_elem_of_fmap. naive_solver.
Qed.

(** ** The peers named in a keepalive message *)

Lemma iterate_set_nodup (s : gset endpoint) : NoDup (iterate_set s).
Proof.
  unfold iterate_set. change (map fst) with (fmap (M:=list) (fst (A:=endpoint) (B:=unit))).
  rewrite iterate_perm. apply NoDup_fst_map_to_list.
Qed.

(** The array of a keepalive message holds eight
    endpoints: first distinct peers of the node, then only the unspecified
    endpoint. *)
Lemma random_fill_peers n :
  node_ok n → ∃ array n', random_fill n = Done (array, n') ∧ length array = peer_count ∧
    ∃ known, array = known ++ replicate (peer_count - length known) unspecified ∧ NoDup known ∧
      ∀ e, e ∈ known → e ∈ endpoints n ∧ peer_endpoint e.
Proof.
  intros Hn. apply wp_run. apply wp_random_fill; [apply Hn|]. intros known p Hsz Hin.
  rewrite <-length_iterate_set. rewrite <-length_iterate_set in Hsz. split.
  - rewrite length_app, length_replicate. lia.
  - exists (iterate_set known). split_and!; [done|apply iterate_set_nodup|].
    intros e He%elem_of_iterate_set. split; [auto|]. apply Hin, list_elem_of_fmap in He as (i & -> & Hi).
    by apply (ok_peers _ Hn).
Qed.
End caches.
