(* ===== verification/NodeElections.v ===== *)
(** * What the steps of an election do

    Tallying, confirming and voting, as transitions of the election, of the
    queue of forced blocks and of the functions posted. *)

From S2P Require Import Prelude Crypto Blocks Common Stats Store Ledger Votes Lmdb Versioning.
From S2P Require Import BlockStore Messages MultiIndex Node Peers NodeCaches Sending Elections BlockProcessor.
From S2P Require Import Receiving StoreLemmas LedgerInv VoteProps StoreRefine StoreCaches.
From S2P Require Import NodeFrame NodeLedger NodeOk NodeQuiet NodeSends NodePeers.

Section elections.
Context `{NodeConfig, LmdbSpec, RandomPool, MultiIndex, Unordered, Wallets, !ReadableWallets}.
Context `{Blake2b, Ed25519, LedgerConstants}.
Implicit Types (n : node) (b : block) (e : nat) (x : election) (a : active_transactions).

(** ** Stake and quorum *)

Definition stake n : u128 :=
  if u_ltb (online_stake_total (n_online_reps n)) online_weight_minimum then online_weight_minimum
  else online_stake_total (n_online_reps n).
Definition margin n : u128 := U 16 (uval (stake n) / 100 * uval online_weight_quorum).
Definition second_total (rest : list (u128 * block)) : u128 :=
  match rest with (t, _) :: _ => t | [] => U 16 0 end.
Definition quorum n (top : u128) (rest : list (u128 * block)) : bool :=
  u_ltb (u_add (second_total rest) (margin n)) top.
Definition sum_totals (l : list (u128 * block)) : u128 := foldl (λ acc i, u_add acc (fst i)) (U 16 0) l.

Lemma wp_online_stake n (Q : u128 → node → Prop) : Q (stake n) n → wp online_stake n Q.
Proof. done. Qed.
Lemma wp_have_quorum n top b rest (Q : bool → node → Prop) :
  Q (quorum n top rest) n → wp (have_quorum ((top, b) :: rest)) n Q.
Proof. unfold have_quorum, delta. intros HQ. apply wp_bind, wp_bind, wp_online_stake, wp_ret, wp_ret. exact HQ. Qed.

(** ** Access *)

Definition with_election a e x : active_transactions :=
  Active_transactions (roots a) (confirmed a) (<[e := x]> (elections a)).

Lemma wp_get_election e x n (Q : election → node → Prop) :
  elections (n_active n) !! e = Some x → Q x n → wp (get_election e) n Q.
Proof. intros Hx HQ. unfold wp, get_election. by rewrite Hx. Qed.
Lemma wp_update_election e x f n (Q : unit → node → Prop) :
  elections (n_active n) !! e = Some x → Q tt (set_active (with_election (n_active n) e (f x)) n) →
  wp (update_election e f) n Q.
Proof. intros Hx HQ. unfold update_election. apply wp_bind. by eapply wp_get_election. Qed.

Lemma with_election_lookup a e x y : elections a !! e = Some y →
  elections (with_election a e x) !! e = Some x.
Proof. intros Hy. simpl. apply list_lookup_insert_eq. by eapply lookup_lt_Some. Qed.
Lemma with_election_twice a e x y : with_election (with_election a e x) e y = with_election a e y.
Proof. unfold with_election. simpl. by rewrite list_insert_insert_eq. Qed.
Lemma with_election_same a e x : elections a !! e = Some x → with_election a e x = a.
Proof. intros Hx. destruct a as [r c l]. unfold with_election. simpl in *. by rewrite list_insert_id. Qed.

(** An election replaced by one about the same root that has votes. *)
Lemma with_election_ok a e x y : active_ok a → elections a !! e = Some y →
  votes_id (el_votes x) = votes_id (el_votes y) → rep_votes (el_votes x) ≠ ∅ →
  active_ok (with_election a e x).
Proof.
  intros [Hr Hv] Hy Hid Hne. split; simpl.
  - intros r ci Hci. destruct (Hr r ci Hci) as (? & z & Hz & Hzr). split; [done|].
    destruct (decide (ci_election ci = e)) as [<-|Hd].
    + exists x. rewrite list_lookup_insert_eq by (by eapply lookup_lt_Some). split; [done|]. congruence.
    + exists z. by rewrite list_lookup_insert_ne.
  - intros j z Hz. destruct (decide (j = e)) as [->|].
    + rewrite list_lookup_insert_eq in Hz by (by eapply lookup_lt_Some). by injection Hz as <-.
    + rewrite list_lookup_insert_ne in Hz by done. by eapply Hv.
Qed.
Lemma with_election_task a e x t : task_ok a t → task_ok (with_election a e x) t.
Proof.
  destruct t; simpl; try done. rewrite <-!not_eq_None_Some, !lookup_ge_None, length_insert. done.
Qed.

(** ** Confirming *)

(** The election after its votes are tallied: [top] leads, with [block_l]. *)
Definition overtaken x (totals : list (u128 * block)) block_l : bool :=
  u_leb online_weight_minimum (sum_totals totals) && negb (block_eqb block_l (es_winner (status x))).
Definition retallied x (totals : list (u128 * block)) top block_l : election :=
  if overtaken x totals block_l then set_winner block_l (set_tally top x) else set_tally top x.
Definition newly n x top rest : bool := quorum n top rest && negb (el_confirmed x).
Definition settled n x top block_l rest : election :=
  let x2 := retallied x ((top, block_l) :: rest) top block_l in
  if newly n x top rest then set_confirmed x2 else x2.

Definition forcing (p : block_processor) (l : list block) : block_processor :=
  Block_processor (bp_blocks p) (l ++ bp_forced p) (bp_stopped p).

Lemma changed_set n l' a p sv : store l' = store (n_ledger n) →
  (check_bootstrap_weights (n_ledger n) = false → check_bootstrap_weights l' = false) →
  changed n (set_service sv (set_block_processor p (set_active a (set_ledger l' n)))) a p sv.
Proof. intros Hs Hc. constructor; try done. constructor; simpl; auto. by rewrite Hs. Qed.

Lemma wp_confirm_if_quorum e x n (Q : unit → node → Prop) :
  node_ok n → elections (n_active n) !! e = Some x →
  (∀ t l' top block_l rest n', tally (el_votes x) (n_ledger n) = Done (t, l') →
     decreasing t = (top, block_l) :: rest →
     changed n n' (with_election (n_active n) e (settled n x top block_l rest))
       (forcing (n_block_processor n) (if overtaken x ((top, block_l) :: rest) block_l then [block_l] else []))
       (n_service n ++ if newly n x top rest
          then [Confirmed (es_winner (status (settled n x top block_l rest))) (el_action x)] else []) →
     Q tt n') →
  wp (confirm_if_quorum e) n Q.
Proof.
  intros Hn Hx HQ. destruct (ok_ledger _ Hn) as (s & g & hist & Hr & _).
  destruct (tally_run_node (n_ledger n) s (el_votes x) Hr) as (t & l' & Ht & Hl & Hc & Hne).
  { by apply (ok_active _ Hn) in Hx. }
  unfold confirm_if_quorum. apply wp_bind. eapply wp_get_election; [done|]. apply wp_bind.
  unfold wp at 1, on_ledger. rewrite Ht. cbv zeta.
  destruct (decreasing t) as [|[top block_l] rest] eqn:Ed; [by destruct (decreasing_nonempty t Hne)|].
  apply wp_bind. eapply wp_update_election; [exact Hx|]. cbn [fst snd].
  set (n1 := set_active _ _).
  assert (Hx1 : elections (n_active n1) !! e = Some (set_tally top x))
    by (by eapply with_election_lookup).
  change (foldl (λ acc i, u_add acc (fst i)) (U 16 0) ((top, block_l) :: rest))
    with (sum_totals ((top, block_l) :: rest)).
  change (u_leb online_weight_minimum (sum_totals ((top, block_l) :: rest)) &&
    negb (block_eqb block_l (es_winner (status x)))) with (overtaken x ((top, block_l) :: rest) block_l).
  apply wp_bind.
  set (x2 := retallied x ((top, block_l) :: rest) top block_l).
  set (p2 := forcing (n_block_processor n)
    (if overtaken x ((top, block_l) :: rest) block_l then [block_l] else [])).
  set (n2 := set_block_processor p2 (set_active (with_election (n_active n) e x2) (set_ledger l' n))).
  assert (Hstep : wp (if overtaken x ((top, block_l) :: rest) block_l
    then force block_l;; update_election e (set_winner block_l) else mret tt) n1 (λ _ n', n' = n2)).
  { subst n2 p2 x2. unfold retallied. destruct (overtaken x _ block_l).
    - apply wp_bind. unfold force. apply wp_modify. eapply wp_update_election; [exact Hx1|].
      unfold n1. simpl. by rewrite with_election_twice.
    - apply wp_ret. unfold n1, forcing. simpl. by destruct n as [? ? ? ? ? ? ? [] ? ? ? ? ?]. }
  eapply wp_mono; [exact Hstep|]. intros [] n' ->. apply wp_bind, wp_have_quorum.
  change (quorum n2 top rest) with (quorum n top rest).
  assert (Hx2 : elections (n_active n2) !! e = Some x2) by (by eapply with_election_lookup).
  assert (Hl' : store l' = store (n_ledger n) ∧
    (check_bootstrap_weights (n_ledger n) = false → check_bootstrap_weights l' = false)) by (by destruct Hl as [->| ->]).
  assert (Hcf : el_confirmed x2 = el_confirmed x) by (subst x2; unfold retallied; by destruct (overtaken _ _ _)).
  assert (Hac : el_action x2 = el_action x) by (subst x2; unfold retallied; by destruct (overtaken _ _ _)).
  specialize (HQ t l' top block_l rest). unfold settled, newly in HQ. fold x2 in HQ. fold p2 in HQ.
  destruct (quorum n top rest); simpl in HQ.
  2: { apply HQ; [done|done|]. rewrite app_nil_r. destruct Hl' as [Hs' Hc'].
       exact (changed_set n l' (with_election (n_active n) e x2) p2 (n_service n) Hs' Hc'). }
  unfold confirm_once. apply wp_bind. eapply wp_get_election; [exact Hx2|]. rewrite Hcf.
  destruct (el_confirmed x); simpl in HQ.
  { apply HQ; [done|done|]. rewrite app_nil_r. destruct Hl' as [Hs' Hc'].
    exact (changed_set n l' (with_election (n_active n) e x2) p2 (n_service n) Hs' Hc'). }
  apply wp_bind. unfold put_election, background. apply wp_modify, wp_modify. apply HQ; [done|done|].
  simpl. rewrite Hac. destruct Hl' as [Hs' Hc']. constructor; try done.
  - constructor; simpl; auto. by rewrite Hs'.
  - simpl. by rewrite <-(with_election_twice (n_active n) e x2).
Qed.

(** ** Voting *)

(** The weight a vote needs to count. *)
Definition heavy n (w : u128) : bool :=
  match badem_network with badem_test_network => true | _ => uval (stake n) / 1000 <? uval w end.
Definition recorded x (v : vote) (t : Z) : election :=
  set_votes (votes_vote v (el_votes x)).2
    (set_last_vote (v_account v) (Vote_info t (v_sequence v) (block_hash (v_block v))) x).

(** The seconds a representative waits between votes: one with at least 5
    percent of the stake, 5 with at least 1 percent, 15 below. *)
Definition wait_seconds (weight_ supply : Z) : Z :=
  if decide (20 * (weight_ + 1) ≤ supply) then
    if decide (100 * (weight_ + 1) ≤ supply) then 15 else 5
  else 1.
Lemma vote_cooldown_wait (w s : u128) : vote_cooldown (uval w) (uval s) = wait_seconds (uval w) (uval s).
Proof.
  pose proof (uval_range s) as [Hs _]. revert Hs. generalize (uval w) (uval s). intros w' supply Hs.
  unfold vote_cooldown, wait_seconds.
  pose proof (Z.div_mod supply 100 ltac:(done)). pose proof (Z.mod_pos_bound supply 100 ltac:(done)).
  pose proof (Z.div_mod supply 20 ltac:(done)). pose proof (Z.mod_pos_bound supply 20 ltac:(done)).
  destruct (Z.ltb_spec w' (supply / 100)), (Z.ltb_spec w' (supply / 20)); repeat case_decide; lia.
Qed.

(** The vote [i] of the representative is not older than that, by the clock
    when the vote is looked at. *)
Definition too_soon n (w : u128) (i : vote_info) : Prop :=
  n_steady n 0%nat - seconds (wait_seconds (uval w) (uval (stake n))) < vi_time i.
(** The time recorded with a vote: the clock is read once more when the
    representative has voted before. *)
Definition vote_time n x v : Z :=
  n_steady n (match last_votes x !! v_account v with Some _ => 1 | None => 0 end)%nat.

(** What a vote does to an election: whether it is a replay, the election
    afterwards, the blocks forced and the functions posted.  [w] is the
    weight of the representative. *)
Inductive vote_outcome n (w : u128) x (v : vote) : bool → election → list block → list task → Prop :=
| vote_light : heavy n w = false → vote_outcome n w x v false x [] []
| vote_replayed i : heavy n w = true → last_votes x !! v_account v = Some i →
    vote_info_lt i v = false → vote_outcome n w x v true x [] []
| vote_cooling i : heavy n w = true → last_votes x !! v_account v = Some i →
    vote_info_lt i v = true → too_soon n w i →
    vote_outcome n w x v false x [] []
| vote_counted l0 totals l' top block_l rest : heavy n w = true →
    (∀ i, last_votes x !! v_account v = Some i → vote_info_lt i v = true ∧ ¬ too_soon n w i) →
    let x1 := recorded x v (vote_time n x v) in
    tally (el_votes x1) l0 = Done (totals, l') → tables (store l0) = tables (store (n_ledger n)) →
    (check_bootstrap_weights (n_ledger n) = false → check_bootstrap_weights l0 = false) →
    decreasing totals = (top, block_l) :: rest →
    vote_outcome n w x v false (settled n x1 top block_l rest)
      (if overtaken x1 ((top, block_l) :: rest) block_l then [block_l] else [])
      (if newly n x1 top rest
       then [Confirmed (es_winner (status (settled n x1 top block_l rest))) (el_action x)] else []).

(** Both clock readings of a vote, in the order they are made. *)
Lemma vote_decision x v n cooldown (Q : bool * bool → node → Prop) :
  (∀ n', quiet n n' →
     (∀ i, last_votes x !! v_account v = Some i → vote_info_lt i v = true → n_steady n' 0%nat = n_steady n 1%nat) →
     (last_votes x !! v_account v = None → n_steady n' 0%nat = n_steady n 0%nat) →
     match last_votes x !! v_account v with
     | None => Q (true, false) n'
     | Some i => if vote_info_lt i v
         then Q (vi_time i <=? n_steady n 0%nat - seconds cooldown, false) n' else Q (false, true) n'
     end) →
  wp match last_votes x !! v_account v with
     | None => mret (true, false)
     | Some last_vote =>
         if vote_info_lt last_vote v then
           t ← now; mret (vi_time last_vote <=? t - seconds cooldown, false)
         else mret (false, true)
     end n Q.
Proof.
  intros HQ. destruct (last_votes x !! v_account v) as [i|]; [|by apply wp_ret, HQ; [apply quiet_refl|..]].
  destruct (vote_info_lt i v) eqn:Ei.
  - apply wp_bind, wp_now, wp_ret. specialize (HQ (set_steady (λ i, n_steady n (Datatypes.S i)) n)).
    apply HQ; [apply quiet_steady|done..].
  - apply wp_ret. specialize (HQ n). apply HQ; [apply quiet_refl|intros i' [= <-]; by rewrite Ei|done].
Qed.

Lemma recorded_nonempty x v t : rep_votes (el_votes (recorded x v t)) ≠ ∅ ∧
  votes_id (el_votes (recorded x v t)) = votes_id (el_votes x).
Proof.
  pose proof (votes_vote_result v (el_votes x)) as Hv. unfold recorded, set_votes. simpl.
  destruct (votes_vote v (el_votes x)) as [r vs]. simpl. destruct Hv as (-> & -> & _).
  split; [apply insert_non_empty|done].
Qed.

Lemma quiet_margin n n' : quiet n n' → stake n' = stake n ∧ margin n' = margin n.
Proof. intros Hq. unfold margin, stake. by rewrite (q_reps _ _ Hq). Qed.
Lemma quiet_settled n n' x top block_l rest : quiet n n' →
  settled n' x top block_l rest = settled n x top block_l rest ∧ newly n' x top rest = newly n x top rest.
Proof.
  intros Hq. unfold settled, newly, quorum. destruct (quiet_margin _ _ Hq) as [_ ->]. done.
Qed.

(** The part of [election::vote] that counts the vote. *)
Lemma wp_count_vote e x v n (Q : unit → node → Prop) : node_ok n →
  elections (n_active n) !! e = Some x →
  (∀ l0 totals l' top block_l rest n', let x1 := recorded x v (n_steady n 0%nat) in
     tally (el_votes x1) l0 = Done (totals, l') → tables (store l0) = tables (store (n_ledger n)) →
     (check_bootstrap_weights (n_ledger n) = false → check_bootstrap_weights l0 = false) →
     decreasing totals = (top, block_l) :: rest →
     changed n n' (with_election (n_active n) e (settled n x1 top block_l rest))
       (forcing (n_block_processor n) (if overtaken x1 ((top, block_l) :: rest) block_l then [block_l] else []))
       (n_service n ++ if newly n x1 top rest
          then [Confirmed (es_winner (status (settled n x1 top block_l rest))) (el_action x)] else []) →
     Q tt n') →
  wp (t ← now;
      update_election e (set_last_vote (v_account v) (Vote_info t (v_sequence v) (block_hash (v_block v))));;
      republish_vote v;;
      update_election e (λ x, set_votes (votes_vote v (el_votes x)).2 x);;
      confirm_if_quorum e) n Q.
Proof.
  intros Hn Hx HQ. apply wp_bind, wp_now. set (t := n_steady n 0%nat).
  pose proof (quiet_steady n (λ i, n_steady n (Datatypes.S i))) as Hq1. set (n1 := set_steady _ n) in *.
  apply wp_bind. eapply wp_update_election; [exact Hx|].
  set (xa := set_last_vote _ _ x). set (n2 := set_active _ n1).
  assert (Hn2 : node_ok n2).
  { eapply (changed_ok n n2 (with_election (n_active n) e xa) (n_block_processor n) (n_service n)).
    - eapply changed_trans; [apply quiet_changed, Hq1|]. constructor; try done. by constructor; simpl; auto.
    - done.
    - eapply with_election_ok; [apply ok_active, Hn|exact Hx|done|]. by apply (ok_active _ Hn) in Hx.
    - apply ok_queue, Hn.
    - intros t' Ht'. apply with_election_task. by apply (ok_tasks _ Hn). }
  apply wp_bind. eapply wp_mono; [exact (qwp_republish_vote v n2 Hn2)|]. intros [] n3 [Hq3 _].
  assert (Hx3 : elections (n_active n3) !! e = Some xa).
  { rewrite (q_active _ _ Hq3). by eapply with_election_lookup. }
  apply wp_bind. eapply wp_update_election; [exact Hx3|].
  set (xb := set_votes _ xa). assert (xb = recorded x v t) as Exb by done.
  set (n4 := set_active _ n3).
  assert (Hchg : changed n n4 (with_election (n_active n) e xb) (n_block_processor n) (n_service n)).
  { eapply changed_trans; [apply quiet_changed, Hq1|]. eapply (changed_trans _ n2).
    - constructor; try done. by constructor; simpl; auto.
    - eapply changed_trans; [apply quiet_changed, Hq3|]. constructor; try done.
      + by constructor; simpl; auto.
      + simpl. rewrite (q_active _ _ Hq3). simpl. by rewrite with_election_twice.
      + exact (q_processor _ _ Hq3).
      + exact (q_service _ _ Hq3). }
  destruct (recorded_nonempty x v t) as [Hne Hid].
  assert (Hn4 : node_ok n4).
  { eapply (changed_ok _ _ _ _ _ Hchg Hn).
    - eapply with_election_ok; [apply ok_active, Hn|exact Hx|by rewrite Exb|by rewrite Exb].
    - apply ok_queue, Hn.
    - intros t' Ht'. apply with_election_task. by apply (ok_tasks _ Hn). }
  assert (Hx4 : elections (n_active n4) !! e = Some xb) by (by eapply with_election_lookup).
  eapply wp_confirm_if_quorum; [exact Hn4|exact Hx4|].
  intros totals l' top block_l rest n5 Ht Hd Hc5. rewrite Exb in Ht, Hc5.
  assert (Hq4 : quiet n (restore n n4)) by apply Hchg.
  assert (Hset : settled n4 (recorded x v t) top block_l rest = settled n (recorded x v t) top block_l rest ∧
    newly n4 (recorded x v t) top rest = newly n (recorded x v t) top rest).
  { unfold settled, newly, quorum, margin, stake.
    assert (n_online_reps n4 = n_online_reps n) as -> by (exact (q_reps _ _ Hq4)). done. }
  destruct Hset as [-> ->] in Hc5.
  eapply (HQ (n_ledger n4)); [exact Ht|exact (q_tables _ _ Hq4)|exact (q_check _ _ Hq4)|exact Hd|].
  pose proof (changed_trans _ _ _ _ _ _ _ _ _ Hchg Hc5) as Hc.
  rewrite (ch_active _ _ _ _ _ Hchg), (ch_processor _ _ _ _ _ Hchg), (ch_service _ _ _ _ _ Hchg),
    with_election_twice in Hc. exact Hc.
Qed.

(** A vote counted at a quiet successor. *)
Lemma vote_counted_quiet n n' w x v l0 totals l' top block_l rest : quiet n n' → heavy n w = true →
  (∀ i, last_votes x !! v_account v = Some i → vote_info_lt i v = true ∧ ¬ too_soon n w i) →
  let x1 := recorded x v (vote_time n x v) in
  tally (el_votes x1) l0 = Done (totals, l') → tables (store l0) = tables (store (n_ledger n')) →
  (check_bootstrap_weights (n_ledger n') = false → check_bootstrap_weights l0 = false) →
  decreasing totals = (top, block_l) :: rest →
  vote_outcome n w x v false (settled n' x1 top block_l rest)
    (if overtaken x1 ((top, block_l) :: rest) block_l then [block_l] else [])
    (if newly n' x1 top rest
     then [Confirmed (es_winner (status (settled n' x1 top block_l rest))) (el_action x)] else []).
Proof.
  intros Hq Hh Hi x1 Ht Htab Hck Hd. destruct (quiet_settled n n' x1 top block_l rest Hq) as [-> ->].
  eapply vote_counted; [done|done|exact Ht|by rewrite Htab, (q_tables _ _ Hq)| |done].
  intros Hf. apply Hck. by apply (q_check _ _ Hq).
Qed.

Lemma forcing_nil p : forcing p [] = p.
Proof. by destruct p. Qed.

Lemma wp_election_vote e x v n (Q : bool → node → Prop) : node_ok n →
  elections (n_active n) !! e = Some x → vote_validate v = false →
  (∀ w l' r x' fa sa n', weight (v_account v) (n_ledger n) = Done (w, l') →
     vote_outcome n w x v r x' fa sa →
     changed n n' (with_election (n_active n) e x') (forcing (n_block_processor n) fa) (n_service n ++ sa) →
     Q r n') →
  wp (election_vote e v) n Q.
Proof.
  intros Hn Hx Hv HQ. unfold election_vote. apply wp_bind, wp_assert; [by rewrite Hv|].
  apply wp_bind, wp_online_stake. apply wp_bind.
  destruct (ok_ledger _ Hn) as (s & g & hist & Hr & _).
  destruct (weight_run_node (n_ledger n) s (v_account v) Hr) as (w & l1 & Hw & Hl1 & _).
  unfold ledger_weight, on_ledger, wp at 1. rewrite Hw. set (n1 := set_ledger l1 n).
  assert (Hq1 : quiet n n1) by (destruct Hl1 as [->| ->]; by apply quiet_ledger).
  assert (Hn1 : node_ok n1) by (by eapply quiet_ok).
  assert (Hx1 : elections (n_active n1) !! e = Some x) by done.
  assert (Hsame : ∀ r n', quiet n1 n' → vote_outcome n w x v r x [] [] → Q r n').
  { intros r n' Hq Ho. eapply HQ; [exact Hw|exact Ho|].
    rewrite (with_election_same _ _ _ Hx), forcing_nil, app_nil_r.
    by eapply quiet_changed, quiet_trans. }
  change (match badem_network with badem_test_network => true
          | _ => uval (stake n) / 1000 <? uval w end) with (heavy n w).
  destruct (heavy n w) eqn:Hh; [|apply wp_ret, Hsame; [apply quiet_refl|by apply vote_light]].
  cbv zeta. set (cooldown := vote_cooldown (uval w) (uval (stake n))).
  apply wp_bind. eapply wp_get_election; [exact Hx1|]. apply wp_bind, vote_decision.
  intros n2 Hq2 Hs1 Hs0. assert (Hn2 : node_ok n2) by (by eapply quiet_ok).
  pose proof (quiet_trans _ _ _ Hq1 Hq2) as Hq12.
  assert (Hx2 : elections (n_active n2) !! e = Some x) by (by rewrite (q_active _ _ Hq12)).
  assert (Hcount : (∀ i, last_votes x !! v_account v = Some i → vote_info_lt i v = true ∧ ¬ too_soon n w i) →
    wp (t ← now;
        update_election e (set_last_vote (v_account v) (Vote_info t (v_sequence v) (block_hash (v_block v))));;
        republish_vote v;;
        update_election e (λ x, set_votes (votes_vote v (el_votes x)).2 x);;
        confirm_if_quorum e) n2 (λ _ n', wp (mret false) n' Q)).
  { intros Hi. assert (Et : n_steady n2 0%nat = vote_time n x v).
    { unfold vote_time. destruct (last_votes x !! v_account v) as [i|] eqn:E; [|by rewrite Hs0].
      destruct (Hi i eq_refl) as [Hlt _]. by rewrite (Hs1 i eq_refl Hlt). }
    eapply wp_count_vote; [done|done|]. rewrite Et.
    intros l0 totals l' top block_l rest n3 x1 Ht Htab Hck Hd Hc. apply wp_ret.
    eapply HQ; [exact Hw|by eapply (vote_counted_quiet n n2 w x v l0)|].
    eapply changed_trans; [apply quiet_changed, Hq12|].
    rewrite (q_active _ _ Hq12), (q_processor _ _ Hq12), (q_service _ _ Hq12) in Hc. exact Hc. }
  subst cooldown. rewrite vote_cooldown_wait.
  destruct (last_votes x !! v_account v) as [i|] eqn:Ei; [|by apply wp_bind, Hcount].
  destruct (vote_info_lt i v) eqn:Elt.
  2: { apply wp_bind, wp_ret, wp_ret, Hsame; [done|]. by eapply vote_replayed. }
  change (n_steady n1 0%nat) with (n_steady n 0%nat).
  destruct (Z.leb_spec (vi_time i) (n_steady n 0%nat - seconds (wait_seconds (uval w) (uval (stake n))))) as [Hle|Hgt].
  - apply wp_bind, Hcount. intros i' [= <-]. split; [done|]. unfold too_soon. lia.
  - apply wp_bind, wp_ret, wp_ret, Hsame; [done|]. by eapply vote_cooling.
Qed.

(** The invariant after a vote. *)
Lemma vote_outcome_ok n n' e w x v r x' fa sa : node_ok n → elections (n_active n) !! e = Some x →
  vote_outcome n w x v r x' fa sa →
  changed n n' (with_election (n_active n) e x') (forcing (n_block_processor n) fa) (n_service n ++ sa) →
  node_ok n'.
Proof.
  intros Hn Hx Ho Hc.
  assert (Hv : votes_id (el_votes x') = votes_id (el_votes x) ∧ rep_votes (el_votes x') ≠ ∅).
  { assert (rep_votes (el_votes x) ≠ ∅) by (by apply (ok_active _ Hn) in Hx).
    destruct Ho; try done. destruct (recorded_nonempty x v (vote_time n x v)).
    unfold settled, retallied. destruct (newly _ _ _ _), (overtaken _ _ _); done. }
  assert (Ht : ∀ t a', t ∈ sa → task_ok a' t).
  { intros t a' Hin. destruct Ho; try by apply not_elem_of_nil in Hin.
    destruct (newly _ _ _ _); [by apply list_elem_of_singleton in Hin as ->|by apply not_elem_of_nil in Hin]. }
  eapply (changed_ok _ _ _ _ _ Hc Hn).
  - eapply with_election_ok; [apply ok_active, Hn|exact Hx|apply Hv|apply Hv].
  - apply ok_queue, Hn.
  - intros t [Hin|Hin]%elem_of_app; [|by apply Ht]. apply with_election_task. by apply (ok_tasks _ Hn).
Qed.
End elections.
