(* ===== verification/NodeQuorum.v ===== *)
(** * What a vote does to an election

    The outcome of [election::vote], the order of the votes of a
    representative, confirmation at most once, and the meaning of a quorum. *)

From S2P Require Import Prelude Crypto Blocks Common Stats Store Ledger Votes Lmdb Versioning.
From S2P Require Import BlockStore Messages MultiIndex Node Peers NodeCaches Sending Elections BlockProcessor.
From S2P Require Import Receiving StoreLemmas LedgerInv VoteProps StoreRefine StoreCaches MessageProps.
From S2P Require Import Commit NodeFrame NodeLedger NodeOk NodeQuiet NodeSends NodePeers NodeElections.

(** ** Totals *)
Section totals.
Context `{Blake2b} (w : u256 → u128).

Lemma votes_for_two h h' l : h ≠ h' → votes_for w h l + votes_for w h' l ≤ all_votes w l.
Proof.
  intros Hne. induction l as [|[a b] l IH]; simpl; [done|]. pose proof (uval_range (w a)).
  destruct (decide (block_hash b = h)), (decide (block_hash b = h')); [congruence|lia..].
Qed.
End totals.

Section tally.
Context `{NodeConfig, LmdbSpec, RandomPool, MultiIndex, Unordered, Wallets, !ReadableWallets}.
Context `{Blake2b, Ed25519, LedgerConstants}.
Implicit Types (n : node) (s : astore) (x : election) (v : vote) (vs : votes).

Lemma tally_totals_exact (l : ledger block_store) s acc reps : store_rel (store l) s →
  check_bootstrap_weights l = false →
  tally_totals reps acc l = Done (add_votes (stored_weight s) acc reps, l).
Proof.
  intros Hr Hc. revert acc. induction reps as [|[a b] reps IH]; intros acc; [done|]. simpl.
  destruct (weight_run_node l s a Hr) as (w & l' & Hw & _ & He). destruct (He Hc) as [-> ->].
  by rewrite (bind_done _ _ _ _ _ Hw), IH.
Qed.

(** The totals of a tally: each is the exact support of a block, every block
    voted for has its total among them, and two of them fit 128 bits. *)
Definition exact_tally s vs (t : gmap u128 block) : Prop :=
  (∀ k b, t !! k = Some b → uval k = support s vs b ∧ ∃ a, rep_votes vs !! a = Some b) ∧
  (∀ a b, rep_votes vs !! a = Some b → ∃ k, is_Some (t !! k) ∧ uval k = support s vs b) ∧
  (∀ k k' b b', t !! k = Some b → t !! k' = Some b' → k ≠ k' → uval k + uval k' < 2 ^ 128).

Lemma tally_exact (l : ledger block_store) s g hist vs : store_rel (store l) s → Inv s g hist →
  check_bootstrap_weights l = false → ∃ t, tally vs l = Done (t, l) ∧ exact_tally s vs t.
Proof.
  intros Hr HI Hc. set (w := stored_weight s). set (T := add_votes w ∅ (iterate (rep_votes vs))).
  assert (Hall : all_votes w (iterate (rep_votes vs)) < 2 ^ 128).
  { unfold w. rewrite all_votes_sum. pose proof (weights_bounded _ _ _ (rep_votes vs) HI). lia. }
  assert (HT : totals_of w T (iterate (rep_votes vs))).
  { apply (add_votes_ok w _ ∅ []); [apply totals_empty|done]. }
  assert (Hin : ∀ k b, foldl by_total ∅ (iterate T) !! k = Some b →
    T !! block_hash b = Some (b, k) ∧ uval k = votes_for w (block_hash b) (iterate (rep_votes vs)) ∧
    ∃ a, rep_votes vs !! a = Some b).
  { intros k b [Hk|[h Hh]]%by_total_lookup; [by rewrite lookup_empty in Hk|]. apply iterate_in in Hh.
    pose proof (HT h) as Hx. rewrite Hh in Hx. destruct Hx as (<- & Ht & a & Ha). split_and!; [done..|].
    exists a. by apply iterate_in. }
  exists (foldl by_total ∅ (iterate T)). split; [|split_and!].
  - unfold tally. by rewrite (bind_done _ _ _ _ _ (tally_totals_exact l s ∅ _ Hr Hc)).
  - intros k b (_ & Hk & Ha)%Hin. split; [|done]. rewrite Hk. unfold w. apply votes_for_support.
  - intros a b Ha. pose proof (HT (block_hash b)) as Hx. destruct (T !! block_hash b) as [[b0 k]|] eqn:E.
    + destruct Hx as (_ & Hk & _). exists k. split; [|rewrite Hk; apply votes_for_support].
      destruct (by_total_some (iterate T) ∅) as [_ Hsome]. by apply (Hsome (block_hash b) b0), iterate_in.
    + exfalso. apply (Hx a b); [by apply iterate_in|done].
  - intros k k' b b' (E & Hk & _)%Hin (E' & Hk' & _)%Hin Hne.
    assert (block_hash b ≠ block_hash b') as Hh by (intros Eh; rewrite Eh in E; congruence).
    rewrite Hk, Hk'. pose proof (votes_for_two w _ _ (iterate (rep_votes vs)) Hh). lia.
Qed.

(** ** Quorum *)

#[local] Instance total_ge_trans : Transitive total_ge.
Proof. intros a b c. unfold total_ge. lia. Qed.
#[local] Instance total_ge_total : Total total_ge.
Proof. intros a b. unfold total_ge. lia. Qed.

Lemma decreasing_first t top b rest : decreasing t = (top, b) :: rest →
  t !! top = Some b ∧ (∀ k b', t !! k = Some b' → k = top ∨ (k, b') ∈ rest) ∧
  (∀ k b', (k, b') ∈ rest → t !! k = Some b' ∧ uval k < uval top ∧ uval k ≤ uval (second_total rest)).
Proof.
  intros E. pose proof (decreasing_in t) as Hin. rewrite E in Hin.
  assert (Hs : StronglySorted total_ge ((top, b) :: rest)) by (rewrite <-E; apply (StronglySorted_merge_sort _)).
  apply StronglySorted_inv in Hs as [Hs Hall]. rewrite Forall_forall in Hall.
  assert (Hd : NoDup ((top, b) :: rest).*1).
  { rewrite <-E. unfold decreasing. rewrite merge_sort_Permutation. apply NoDup_fst_map_to_list. }
  split_and!.
  - apply Hin. by left.
  - intros k b' Hk%Hin. apply elem_of_cons in Hk as [[= -> ->]|Hk]; auto.
  - intros k b' Hk. split_and!; [apply Hin; by right| |].
    + pose proof (Hall _ Hk) as Hge. unfold total_ge in Hge. simpl in Hge, Hd.
      assert (k ≠ top). { intros ->. apply NoDup_cons in Hd as [Hd _]. by apply Hd, (list_elem_of_fmap_2 fst _ _ Hk). }
      assert (uval k ≠ uval top) by (intros ?%uval_inj; done). lia.
    + destruct rest as [|[k0 b0] rest]; [by apply elem_of_nil in Hk|]. simpl.
      apply elem_of_cons in Hk as [[= -> ->]|Hk]; [done|].
      apply StronglySorted_inv in Hs as [_ Hall']. rewrite Forall_forall in Hall'. apply (Hall' _ Hk).
Qed.

(** The margin a block must lead by. *)
Definition exact_margin n : Z := uval (stake n) / 100 * uval online_weight_quorum.

Lemma margin_exact n : uval online_weight_quorum ≤ 50 →
  uval (margin n) = exact_margin n ∧ 2 * exact_margin n < 2 ^ 128.
Proof.
  intros Hq. pose proof (uval_range (stake n)) as Hs. pose proof (uval_range online_weight_quorum) as Ho.
  rewrite modulus_16 in Hs.
  assert (Hm : 0 ≤ exact_margin n ∧ 2 * exact_margin n < 2 ^ 128).
  { unfold exact_margin. pose proof (Z.div_pos (uval (stake n)) 100).
    pose proof (Z.mul_div_le (uval (stake n)) 100). nia. }
  split; [|lia]. unfold margin. fold (exact_margin n). apply uval_U_small. rewrite modulus_16. lia.
Qed.

(** The second total and the margin fit 128 bits: the weights of two blocks
    do. *)
Lemma quorum_lead n s vs t top b rest : exact_tally s vs t → decreasing t = (top, b) :: rest →
  uval online_weight_quorum ≤ 50 →
  quorum n top rest = true ↔ uval (second_total rest) + exact_margin n < uval top.
Proof.
  intros (_ & _ & Hpair) Ed Hq. destruct (margin_exact n Hq) as [Hm Hm2].
  destruct (decreasing_first _ _ _ _ Ed) as (Ht & _ & Hrest).
  assert (Hsec : 2 * uval (second_total rest) < 2 ^ 128).
  { destruct rest as [|[k b'] rest]; [by rewrite uval_zero|]. cbn [second_total].
    destruct (Hrest k b') as (Hk & Hlt & _); [by left|].
    assert (k ≠ top) by (intros ->; lia). pose proof (Hpair _ _ _ _ Hk Ht ltac:(done)). lia. }
  pose proof (uval_range (second_total rest)). assert (0 ≤ exact_margin n) by (rewrite <-Hm; apply uval_range).
  unfold quorum.
  assert (Hsum : uval (u_add (second_total rest) (margin n)) = uval (second_total rest) + exact_margin n).
  { rewrite uval_add, Hm. change (modulus 16) with (2 ^ 128). apply Z.mod_small. lia. }
  destruct (u_ltb_spec (u_add (second_total rest) (margin n)) top); rewrite Hsum in *; naive_solver lia.
Qed.

(** The answers of [node::online_stake] and [election::have_quorum]. *)
Lemma online_stake_run n : online_stake n = Done (stake n, n).
Proof. done. Qed.
Lemma have_quorum_run n top b rest : have_quorum ((top, b) :: rest) n = Done (quorum n top rest, n).
Proof. done. Qed.
Lemma stake_max n : uval (stake n) = Z.max (uval (online_stake_total (n_online_reps n))) (uval online_weight_minimum).
Proof. unfold stake. destruct (u_ltb_spec (online_stake_total (n_online_reps n)) online_weight_minimum); lia. Qed.

(** C26: past the bootstrap phase and with a quorum of at most 50
    percent, [node::delta] answers that share of the online stake, which is
    never below the minimum; the leading total of a tally is the exact weight
    behind its block and no block has more; [election::have_quorum] answers
    yes exactly when the leading total exceeds the margin by itself and the
    weight behind every block of smaller total by more than the margin; no
    sum wraps at 128 bits. *)
Theorem quorum_exact n s vs :
  node_ok n → store_rel (store (n_ledger n)) s → check_bootstrap_weights (n_ledger n) = false →
  uval online_weight_quorum ≤ 50 → rep_votes vs ≠ ∅ →
  ∃ t top b rest supply d q, tally vs (n_ledger n) = Done (t, n_ledger n) ∧ decreasing t = (top, b) :: rest ∧
    uval top = support s vs b ∧
    (∀ a b', rep_votes vs !! a = Some b' → support s vs b' ≤ uval top) ∧
    online_stake n = Done (supply, n) ∧
    uval supply = Z.max (uval (online_stake_total (n_online_reps n))) (uval online_weight_minimum) ∧
    delta n = Done (d, n) ∧ uval d = uval supply / 100 * uval online_weight_quorum ∧
    have_quorum (decreasing t) n = Done (q, n) ∧
    (q = true ↔ uval d < uval top ∧
       ∀ a b', rep_votes vs !! a = Some b' → support s vs b' < uval top → support s vs b' + uval d < uval top).
Proof.
  intros Hn Hr Hc Hq Hne. destruct (ok_ledger _ Hn) as (s0 & g & hist & Hr0 & HI & _).
  pose proof (store_rel_unique _ _ _ Hr Hr0) as <-.
  destruct (tally_exact (n_ledger n) s g hist vs Hr HI Hc) as (t & Ht & He).
  pose proof He as (Hin & Hall & _). apply map_choose in Hne as (a0 & b0 & Ha0).
  destruct (decreasing t) as [|[top b] rest] eqn:Ed.
  { destruct (Hall _ _ Ha0) as (k & [b' Hk] & _). apply decreasing_in in Hk. rewrite Ed in Hk. by apply elem_of_nil in Hk. }
  destruct (decreasing_first _ _ _ _ Ed) as (Htop & Hcov & Hrest).
  exists t, top, b, rest, (stake n), (margin n), (quorum n top rest). destruct (margin_exact n Hq) as [Hmg _].
  assert (Hplace : ∀ a b', rep_votes vs !! a = Some b' → support s vs b' = uval top ∨
    support s vs b' < uval top ∧ support s vs b' ≤ uval (second_total rest)).
  { intros a b' (k & [b2 Hk] & <-)%Hall. destruct (Hcov _ _ Hk) as [->|Hk']; [by left|].
    right. by apply (Hrest k b2). }
  split_and!; [done..|by apply Hin| |done|apply stake_max|done|exact Hmg|by rewrite Ed, have_quorum_run|].
  - intros a b' Ha. destruct (Hplace a b' Ha); lia.
  - rewrite Hmg. rewrite (quorum_lead n s vs t top b rest He Ed Hq). pose proof (uval_range (second_total rest)). split.
    + intros Hlt. split; [lia|]. intros a b' Ha Hs. destruct (Hplace a b' Ha); lia.
    + intros [Hm Hlt]. destruct rest as [|[k b2] rest]; [by rewrite uval_zero|]. cbn [second_total] in *.
      destruct (Hrest k b2) as (Hk & Hk2 & _); [by left|]. destruct (Hin _ _ Hk) as [Hs [a Ha]].
      rewrite Hs in *. by apply (Hlt a).
Qed.

(** ** Votes *)

(** C27: a valid vote has one of four outcomes, and which one is
    decided by the weight, the last vote of the representative and the clock
    as the vote is looked at: the representative is too light; the vote is not
    newer than its last one (the only case reported as a replay); the last one
    is less than 1, 5 or 15 seconds old, by the share of the stake the
    representative has; or the vote is recorded with the time of the clock and
    counted.  Only in the last case does the election change: the leading
    block of the new tally is forced into the ledger when it is not the winner
    and enough weight voted, and the winner is confirmed when there is a
    quorum.  Nothing else of the node changes that the invariant is about. *)
Theorem election_vote_outcome e x v n :
  node_ok n → elections (n_active n) !! e = Some x → vote_validate v = false →
  ∃ w l' r x' fa sa n', weight (v_account v) (n_ledger n) = Done (w, l') ∧
    election_vote e v n = Done (r, n') ∧ vote_outcome n w x v r x' fa sa ∧ node_ok n' ∧
    changed n n' (with_election (n_active n) e x') (forcing (n_block_processor n) fa) (n_service n ++ sa).
Proof.
  intros Hn Hx Hv.
  assert (Hw : wp (election_vote e v) n (λ r n', ∃ w l' x' fa sa, weight (v_account v) (n_ledger n) = Done (w, l') ∧
    vote_outcome n w x v r x' fa sa ∧ node_ok n' ∧
    changed n n' (with_election (n_active n) e x') (forcing (n_block_processor n) fa) (n_service n ++ sa))).
  { eapply wp_election_vote; [done|exact Hx|done|]. intros w l' r x' fa sa n' Hw Ho Hc.
    exists w, l', x', fa, sa. split_and!; [done..| |done]. by eapply vote_outcome_ok. }
  apply wp_run in Hw as (r & n' & Hr & w & l' & x' & fa & sa & ? & ? & ? & ?).
  exists w, l', r, x', fa, sa, n'. by split_and!.
Qed.

Lemma settled_votes n x top b rest : last_votes (settled n x top b rest) = last_votes x ∧
  el_votes (settled n x top b rest) = el_votes x.
Proof. unfold settled, retallied. by destruct (overtaken _ _ _), (newly _ _ _ _). Qed.
Lemma settled_confirmed n x top b rest : el_confirmed (settled n x top b rest) = el_confirmed x || quorum n top rest.
Proof.
  unfold settled, retallied, newly. by destruct (overtaken _ _ _), (quorum _ _ _), (el_confirmed x) eqn:E; simpl; rewrite ?E.
Qed.

(** A confirmed election stays confirmed and posts no second confirmation;
    the first one is posted when it becomes confirmed. *)
Lemma outcome_once n w x v r x' fa sa : vote_outcome n w x v r x' fa sa →
  (el_confirmed x = true → el_confirmed x' = true ∧ sa = []) ∧
  (el_confirmed x = false → if el_confirmed x' then sa = [Confirmed (es_winner (status x')) (el_action x)] else sa = []).
Proof.
  intros []; try (split; intros Ec; by rewrite ?Ec).
  rewrite settled_confirmed. unfold newly. subst x1. simpl.
  split; intros ->; simpl; [by rewrite andb_false_r|]. rewrite andb_true_r. by destruct (quorum _ _ _).
Qed.

(** The last vote of every representative only moves forward. *)
Lemma outcome_newer n w x v r x' fa sa : vote_outcome n w x v r x' fa sa →
  ∀ a i, last_votes x !! a = Some i → ∃ i', last_votes x' !! a = Some i' ∧
    (i' = i ∨ a = v_account v ∧ vi_sequence i' = v_sequence v ∧ vi_hash i' = block_hash (v_block v) ∧ vote_info_lt i v = true).
Proof.
  intros Ho a i Hi. destruct Ho as [| | |l0 totals l' top block_l rest Hh Hn x1]; try by eauto.
  destruct (settled_votes n x1 top block_l rest) as [-> _]. subst x1. simpl.
  destruct (decide (a = v_account v)) as [->|Hne].
  - rewrite lookup_insert_eq. eexists. split; [done|]. right. by destruct (Hn i Hi).
  - rewrite lookup_insert_ne by done. eauto.
Qed.

(** C14: whatever valid vote an election receives, it is
    confirmed at most once: a confirmation is posted exactly when the election
    becomes confirmed, and never again; the last vote kept of each
    representative only moves to a higher sequence number or hash. *)
Theorem confirmed_once e x v n :
  node_ok n → elections (n_active n) !! e = Some x → vote_validate v = false →
  ∃ r n' x', election_vote e v n = Done (r, n') ∧ elections (n_active n') !! e = Some x' ∧
    n_service n' = n_service n ++ (if el_confirmed x' && negb (el_confirmed x)
      then [Confirmed (es_winner (status x')) (el_action x)] else []) ∧
    (el_confirmed x = true → el_confirmed x' = true) ∧
    ∀ a i, last_votes x !! a = Some i → ∃ i', last_votes x' !! a = Some i' ∧
      (i' = i ∨ a = v_account v ∧ vi_sequence i' = v_sequence v ∧
         vi_hash i' = block_hash (v_block v) ∧ vote_info_lt i v = true).
Proof.
  intros Hn Hx Hv. assert (Hw : wp (election_vote e v) n (λ _ n', ∃ w l' r x' fa sa,
    weight (v_account v) (n_ledger n) = Done (w, l') ∧ vote_outcome n w x v r x' fa sa ∧
    changed n n' (with_election (n_active n) e x') (forcing (n_block_processor n) fa) (n_service n ++ sa))).
  { eapply wp_election_vote; [done|exact Hx|done|]. eauto 10. }
  apply wp_run in Hw as (r & n' & Hr & w & l' & r' & x' & fa & sa & _ & Ho & Hc). exists r, n', x'.
  rewrite (ch_active _ _ _ _ _ Hc), (ch_service _ _ _ _ _ Hc).
  destruct (outcome_once _ _ _ _ _ _ _ _ Ho) as [Hyes Hno].
  split_and!; [done|by eapply with_election_lookup| | |by eapply outcome_newer].
  - f_equal. destruct (el_confirmed x); [by destruct Hyes as [-> ->]|]. specialize (Hno eq_refl).
    rewrite andb_true_r. by destruct (el_confirmed x').
  - intros E. by apply Hyes.
Qed.

(** When less weight voted than the minimum, the leading block does not
    become the winner, and yet the old winner is confirmed when the leading
    block has the margin. *)
Lemma confirmed_behind n x top b rest :
  u_leb online_weight_minimum (sum_totals ((top, b) :: rest)) = false →
  quorum n top rest = true → el_confirmed x = false →
  es_winner (status (settled n x top b rest)) = es_winner (status x) ∧ newly n x top rest = true.
Proof.
  intros Hs Hq Hc. unfold settled, retallied, overtaken, newly. by rewrite Hs, Hq, Hc.
Qed.
End tally.
