(* ===== verification/NodeSafe.v ===== *)
(** * Voting, announcing and the caches keep the invariant *)

From S2P Require Import Prelude Crypto Blocks Common Stats Store Ledger Votes Lmdb Versioning.
From S2P Require Import BlockStore Messages MultiIndex Node Peers NodeCaches Sending Elections BlockProcessor.
From S2P Require Import Receiving StoreLemmas LedgerInv VoteProps StoreRefine StoreCaches MessageProps.
From S2P Require Import NodeFrame NodeLedger NodeOk NodeQuiet NodeSends NodePeers NodeElections.

Section safe.
Context `{NodeConfig, LmdbSpec, RandomPool, MultiIndex, Unordered, Wallets, !ReadableWallets}.
Context `{Blake2b, Ed25519, LedgerConstants}.
Implicit Types (n : node) (b : block) (x : election) (v : vote).

(** The run ends without a fault and keeps the invariant. *)
Definition safe {A} (m : M node A) n : Prop := wp m n (λ _ n', node_ok n').

Lemma safe_ret {A} (a : A) n : node_ok n → safe (mret a) n.
Proof. done. Qed.
Lemma safe_bind {A B} (m : M node A) (f : A → M node B) n :
  safe m n → (∀ a n', node_ok n' → safe (f a) n') → safe (m ≫= f) n.
Proof. intros Hm Hf. apply wp_bind. eapply wp_mono; [exact Hm|]. intros a n' Hn'. by apply Hf. Qed.
Lemma qwp_safe {A} (m : M node A) n P : node_ok n → qwp m n P → safe m n.
Proof. intros Hn Hm. eapply wp_mono; [exact Hm|]. intros a n' [Hq _]. by eapply quiet_ok. Qed.
Lemma safe_bind_q {A B} (m : M node A) (f : A → M node B) n P : node_ok n → qwp m n P →
  (∀ a n', node_ok n' → quiet n n' → P a → safe (f a) n') → safe (m ≫= f) n.
Proof.
  intros Hn Hm Hf. apply wp_bind. eapply wp_mono; [exact Hm|]. intros a n' [Hq HP].
  apply Hf; [by eapply quiet_ok|done|done].
Qed.
Lemma safe_each {A} (l : list A) (body : A → M node unit) n : node_ok n →
  (∀ a n', a ∈ l → node_ok n' → safe (body a) n') → safe (each l body) n.
Proof. intros Hn Hb. by apply wp_each. Qed.

(** ** Caches *)

Lemma ok_set_gaps n l : node_ok n → gaps_ok l → node_ok (set_gap_cache l n).
Proof. intros [] Hl. by constructor. Qed.
Lemma ok_set_arrival n l : node_ok n → NoDup (ba_hash <$> l) → node_ok (set_block_arrival l n).
Proof. intros [] Hl. by constructor. Qed.
Lemma ok_set_reps n o : node_ok n → NoDup (representative_ <$> reps o) → node_ok (set_online_reps o n).
Proof. intros [] Hl. by constructor. Qed.

Lemma gaps_ok_modify l h f : gaps_ok l → (∀ i, gi_hash (f i) = gi_hash i) →
  (∀ i, i ∈ l → rep_votes (gi_votes (f i)) ≠ ∅) → gaps_ok (mi_modify gi_hash h f l).
Proof.
  intros (Hn & Hl & Hv) Hf Hr. split_and!.
  - rewrite mi_modify_key; [done|]. intros i <-. apply Hf.
  - by rewrite length_mi_modify.
  - intros i (j & Hj & [[_ ->]|[_ ->]])%elem_of_mi_modify; auto.
Qed.
Lemma gaps_ok_erase l h : gaps_ok l → gaps_ok (mi_erase gi_hash h l).
Proof.
  intros (Hn & Hl & Hv). split_and!.
  - by apply mi_erase_nodup.
  - pose proof (length_mi_erase gi_hash h l). lia.
  - intros i [Hi _]%elem_of_mi_erase. auto.
Qed.
(** An entry more than the cache holds makes the oldest one go. *)
Lemma gaps_ok_insert l t b : gaps_ok l → mi_find gi_hash (block_hash b) l = None →
  let l' := (mi_insert gi_hash (Gap_information t (block_hash b) (make_votes b)) l).1 in
  gaps_ok (if Nat.ltb gap_cache_max (length l') then
    match by_key gi_arrival l' with i :: _ => mi_erase gi_hash (gi_hash i) l' | [] => l' end else l').
Proof.
  intros (Hn & Hl & Hv) Hf l'.
  assert (Hn' : NoDup (gi_hash <$> l')) by (by apply mi_insert_nodup).
  assert (Hv' : ∀ i, i ∈ l' → rep_votes (gi_votes i) ≠ ∅).
  { intros i [->|Hi]%elem_of_mi_insert; [apply map_non_empty_singleton|auto]. }
  pose proof (length_mi_insert gi_hash (Gap_information t (block_hash b) (make_votes b)) l) as Hle.
  fold l' in Hle. destruct (Nat.ltb_spec gap_cache_max (length l')) as [Hgt|]; [|split_and!; [done|lia|done]].
  destruct (by_key gi_arrival l') as [|i r] eqn:Ek.
  - apply by_key_nil in Ek. rewrite Ek in Hgt. simpl in Hgt. lia.
  - destruct (by_key_first _ _ _ _ Ek) as [Hi _]. split_and!; [by apply mi_erase_nodup| |].
    + pose proof (length_mi_erase_in gi_hash (gi_hash i) l' (list_elem_of_fmap_2 _ _ _ Hi)). lia.
    + intros j [Hj _]%elem_of_mi_erase. auto.
Qed.

Lemma safe_gap_cache_add b n : node_ok n → safe (gap_cache_add b) n.
Proof.
  intros Hn. unfold gap_cache_add. apply wp_bind, wp_gets, wp_bind, wp_now.
  pose proof (quiet_ok _ _ (quiet_steady n (λ i, n_steady n (Datatypes.S i))) Hn) as Hn1.
  pose proof (ok_gaps _ Hn) as Hg.
  destruct (mi_find gi_hash (block_hash b) (n_gap_cache n)) eqn:Ef; apply wp_modify.
  - apply ok_set_gaps; [done|]. apply gaps_ok_modify; [done..|]. destruct Hg as (_ & _ & Hv). exact Hv.
  - apply ok_set_gaps; [done|]. by apply gaps_ok_insert.
Qed.

Lemma safe_gap_cache_erase h n : node_ok n → safe (gap_cache_erase h) n.
Proof.
  intros Hn. unfold gap_cache_erase. apply wp_modify, ok_set_gaps; [done|]. apply gaps_ok_erase, ok_gaps, Hn.
Qed.

Lemma qwp_bootstrap_threshold n : qwp bootstrap_threshold n (λ _, True).
Proof. unfold bootstrap_threshold. apply wp_bind, wp_online_stake. by apply qwp_ret. Qed.

Lemma safe_gap_cache_vote v n : node_ok n → safe (gap_cache_vote v) n.
Proof.
  intros Hn. unfold gap_cache_vote. apply wp_bind, wp_gets.
  destruct (mi_find gi_hash (block_hash (v_block v)) (n_gap_cache n)) as [g|] eqn:Ef; [|by apply safe_ret].
  cbv zeta. pose proof (votes_vote_result v (gi_votes g)) as Hr.
  destruct (votes_vote v (gi_votes g)) as [r vs]. destruct Hr as (Hv & _ & _). cbn [snd].
  assert (Hne : rep_votes vs ≠ ∅) by (rewrite Hv; apply insert_non_empty).
  apply wp_bind, wp_modify. set (n1 := set_gap_cache _ n).
  assert (Hn1 : node_ok n1).
  { apply ok_set_gaps; [done|]. apply gaps_ok_modify; [apply ok_gaps, Hn|done|done]. }
  eapply safe_bind_q; [done|by apply qwp_winner|]. intros w n2 Hn2 _ _.
  eapply safe_bind_q; [done|apply qwp_bootstrap_threshold|]. intros th n3 Hn3 _ _.
  destruct (u_ltb _ _); [|by apply safe_ret]. eapply safe_bind_q; [done|apply qwp_now|].
  intros t n4 Hn4 _ _. by eapply qwp_safe, qwp_alarm.
Qed.

Lemma safe_drop_reps order t n : node_ok n → safe (drop_reps order t) n.
Proof.
  revert n. induction order as [|i order IH]; intros n Hn; [by apply safe_ret|]. cbn [drop_reps].
  destruct (_ <? _); [|by apply safe_ret]. eapply safe_bind_q; [done|by apply qwp_weight|].
  intros w n1 Hn1 _ _. apply wp_bind, wp_modify, IH, ok_set_reps; [done|].
  apply mi_erase_nodup, ok_reps, Hn1.
Qed.

Lemma safe_online_reps_vote v n : node_ok n → safe (online_reps_vote v) n.
Proof.
  intros Hn. unfold online_reps_vote. eapply safe_bind_q; [done|apply qwp_now|]. intros t n1 Hn1 _ _.
  apply wp_bind, wp_gets. eapply safe_bind; [by apply safe_drop_reps|]. intros [] n2 Hn2.
  apply wp_bind, wp_gets. cbv zeta. pose proof (ok_reps _ Hn2) as Hr. destruct (mi_find _ _ _) eqn:Ef.
  - apply wp_modify, ok_set_reps; [done|]. simpl. rewrite mi_modify_key; [done|]. by intros i <-.
  - eapply safe_bind_q; [done|by apply qwp_weight|]. intros w n3 Hn3 _ _.
    apply wp_modify, ok_set_reps; [done|]. by apply mi_insert_nodup.
Qed.

Lemma qwp_sum_weights l total n : node_ok n → qwp (sum_weights l total) n (λ _, True).
Proof.
  revert total n. induction l as [|i l IH]; intros total n Hn; [by apply qwp_ret|]. cbn [sum_weights].
  eapply qwp_bind; [done|by apply qwp_weight|]. intros w n1 Hn1 _ _. by apply IH.
Qed.
Lemma safe_recalculate_stake n : node_ok n → safe recalculate_stake n.
Proof.
  intros Hn. unfold recalculate_stake. apply wp_bind, wp_gets.
  eapply safe_bind_q; [done|by apply qwp_sum_weights|]. intros total n1 Hn1 _ _.
  apply wp_bind, wp_modify. eapply safe_bind_q; [|apply qwp_now|].
  - apply ok_set_reps; [done|]. apply (ok_reps _ Hn).
  - intros t n2 Hn2 _ _. by eapply qwp_safe, qwp_alarm.
Qed.

Lemma drop_arrivals_nodup rounds t l : NoDup (ba_hash <$> l) → NoDup (ba_hash <$> drop_arrivals rounds t l).
Proof.
  revert l. induction rounds as [|rounds IH]; intros l Hl; simpl; [done|].
  destruct (_ <? _); [|done]. destruct (by_key ba_arrival l) as [|i r]; [done|].
  destruct (_ <? _); [|done]. by apply IH, mi_erase_nodup.
Qed.
Lemma safe_arrival_recent h n : node_ok n → safe (block_arrival_recent h) n.
Proof.
  intros Hn. unfold block_arrival_recent. eapply safe_bind_q; [done|apply qwp_now|]. intros t n1 Hn1 _ _.
  apply wp_bind, wp_gets, wp_bind, wp_modify, wp_ret, ok_set_arrival; [done|].
  apply drop_arrivals_nodup, ok_arrival, Hn1.
Qed.
Lemma safe_arrival_add h n : node_ok n → safe (block_arrival_add h) n.
Proof.
  intros Hn. unfold block_arrival_add. eapply safe_bind_q; [done|apply qwp_now|]. intros t n1 Hn1 _ _.
  apply wp_bind, wp_gets. pose proof (mi_insert_nodup ba_hash (Block_arrival_info t h) _ (ok_arrival _ Hn1)) as Hd.
  destruct (mi_insert _ _ _) as [l r]. by apply wp_bind, wp_modify, wp_ret, ok_set_arrival.
Qed.

(** ** Votes *)

Lemma ok_root n r ci : node_ok n → roots (n_active n) !! r = Some ci →
  ci_root ci = r ∧ ∃ x, elections (n_active n) !! ci_election ci = Some x ∧ votes_id (el_votes x) = r.
Proof. intros Hn. apply (ok_active _ Hn). Qed.

Lemma safe_active_vote v n : node_ok n → vote_validate v = false → safe (active_vote v) n.
Proof.
  intros Hn Hv. unfold active_vote. apply wp_bind, wp_gets.
  destruct (roots (n_active n) !! block_root (v_block v)) as [ci|] eqn:Er; [|by apply safe_ret].
  destruct (ok_root _ _ _ Hn Er) as (_ & x & Hx & _).
  eapply wp_election_vote; [done|exact Hx|done|]. intros w l' r x' fa sa n' _ Ho Hc.
  by eapply vote_outcome_ok.
Qed.

Lemma qwp_winners l n : node_ok n →
  (∀ r ci, (r, ci) ∈ l → is_Some (elections (n_active n) !! ci_election ci)) →
  qwp (winners l) n (λ _, True).
Proof.
  induction l as [|[r ci] l IH]; intros Hn Hl; [by apply qwp_ret|]. cbn [winners].
  destruct (Hl r ci) as [x Hx]; [by left|]. apply wp_bind. eapply wp_get_election; [exact Hx|].
  eapply qwp_bind; [done|apply IH; [done|]|].
  - intros r' ci' Hin. apply (Hl r'). by right.
  - intros rest n1 _ _ _. by apply qwp_ret.
Qed.
Lemma qwp_list_blocks n : node_ok n → qwp list_blocks n (λ _, True).
Proof.
  intros Hn. unfold list_blocks. apply wp_bind, wp_gets, qwp_winners; [done|].
  intros r ci Hin%iterate_in. destruct (ok_root _ _ _ Hn Hin) as (_ & x & Hx & _). eauto.
Qed.

Lemma qwp_observe_representative v from n : node_ok n → qwp (observe_representative v from) n (λ _, True).
Proof.
  intros Hn. unfold observe_representative. eapply qwp_bind; [done|by apply qwp_weight|]. intros w n1 Hn1 _ _.
  apply wp_bind, wp_online_stake. destruct (_ <? _); [|by apply qwp_ret].
  unfold rep_crawler_exists. apply wp_bind, wp_gets. case_bool_decide; [|by apply qwp_ret].
  eapply qwp_bind; [done|by apply qwp_rep_response|]. intros [] n2 Hn2 _ _; [|by apply qwp_ret].
  eapply qwp_bind; [done|by apply qwp_list_blocks|]. intros l n3 Hn3 _ _.
  apply qwp_each; [done|]. intros b n4 _ Hn4. by apply qwp_send_confirm_req.
Qed.

Lemma safe_observers_vote v from n : node_ok n → safe (observers_vote v from) n.
Proof.
  intros Hn. unfold observers_vote. eapply safe_bind; [by apply safe_gap_cache_vote|]. intros [] n1 Hn1.
  eapply safe_bind; [by apply safe_online_reps_vote|]. intros [] n2 Hn2.
  by eapply qwp_safe, qwp_observe_representative.
Qed.

Lemma safe_vote_processor_vote v from n : node_ok n → safe (vote_processor_vote v from) n.
Proof.
  intros Hn. unfold vote_processor_vote. eapply safe_bind.
  - destruct (vote_validate v) eqn:Hv; simpl; [by apply safe_ret|].
    eapply safe_bind_q; [done|by apply qwp_vote_max|]. intros mx n1 Hn1 _ _.
    eapply safe_bind; [by apply safe_active_vote|]. intros replayed n2 Hn2. eapply safe_bind.
    + destruct (negb replayed || _); [by apply safe_observers_vote|by apply safe_ret].
    + intros [] n3 Hn3. eapply safe_bind.
      * destruct (u_ltb _ _); [|by apply safe_ret].
        eapply safe_bind_q; [done|apply qwp_serialized, (make_agrees (v_block mx) mx)|].
        intros d n4 Hn4 _ _. by eapply qwp_safe, qwp_send_buffer.
      * intros [] n4 Hn4. by apply safe_ret.
  - intros c n1 Hn1. eapply safe_bind.
    + destruct vote_logging; [by eapply qwp_safe, qwp_stats|by apply safe_ret].
    + intros [] n2 Hn2. by apply safe_ret.
Qed.

(** ** Broadcasting *)

Lemma safe_foreach {A} (action : u256 → u256 → A → M node A) acc n : node_ok n →
  (∀ pub prv acc n', node_ok n' → safe (action pub prv acc) n') →
  safe (foreach_representative action acc) n.
Proof.
  intros Hn Ha. unfold foreach_representative.
  assert (Hk : ∀ pubs fetch u acc n, node_ok n → readable pubs fetch u →
    safe (each_key pubs fetch u action acc) n).
  { clear -Ha. intros pubs fetch u. induction pubs as [|pub pubs IH]; intros acc n Hn Hf; simpl; [by apply safe_ret|].
    eapply safe_bind_q; [done|by apply qwp_weight|]. intros w n1 Hn1 _ _. eapply safe_bind.
    - destruct (_ && u) eqn:Eu; [|by apply safe_ret]. apply andb_true_iff in Eu as [_ Eu].
      destruct (Hf Eu pub) as [prv ->]; [by left|by apply Ha].
    - intros acc' n2 Hn2. apply IH; [done|]. intros Eu a Hin. apply Hf; [done|by right]. }
  revert acc n Hn. pose proof wallets_readable as Hr. induction Hr as [|w items Hw _ IH]; intros acc n Hn; simpl; [by apply safe_ret|].
  eapply safe_bind; [by apply Hk|]. intros acc' n1 Hn1. by apply IH.
Qed.

Lemma safe_compute_rep_votes b n : node_ok n → safe (compute_rep_votes b) n.
Proof.
  intros Hn. unfold compute_rep_votes. destruct enable_voting; [|by apply safe_ret].
  apply safe_foreach; [done|]. intros pub prv acc n1 Hn1.
  eapply safe_bind_q; [done|by apply qwp_vote_generate|]. intros v n2 Hn2 _ _.
  eapply safe_bind; [by apply safe_vote_processor_vote|]. intros c n3 Hn3. by apply safe_ret.
Qed.

Lemma safe_broadcast_winner e n : node_ok n → is_Some (elections (n_active n) !! e) →
  safe (broadcast_winner e) n.
Proof.
  intros Hn [x Hx]. unfold broadcast_winner. apply wp_bind. eapply wp_get_election; [exact Hx|].
  eapply safe_bind_q; [done|apply qwp_tally; [done|]|].
  - by apply (ok_active _ Hn) in Hx.
  - intros t n1 Hn1 _ _. cbv zeta. eapply safe_bind; [by apply safe_compute_rep_votes|].
    intros [] n2 Hn2. by eapply qwp_safe, qwp_republish_block.
Qed.
End safe.
