(* ===== verification/NodeAnnounce.v ===== *)
(** * Starting and announcing elections

    What [active_transactions::start] and [announce_votes] do to the active
    roots: which elections go on, which end, what is announced. *)

From S2P Require Import Prelude Crypto Blocks Common Stats Store Ledger Votes Lmdb Versioning.
From S2P Require Import BlockStore Messages MultiIndex Node Peers NodeCaches Sending Elections BlockProcessor.
From S2P Require Import Receiving StoreLemmas LedgerInv VoteProps StoreRefine StoreCaches MessageProps.
From S2P Require Import NodeFrame NodeLedger NodeOk NodeQuiet NodeSends NodePeers NodeElections NodeSafe Queries.

Section announce.
Context `{NodeConfig, LmdbSpec, RandomPool, MultiIndex, Unordered, Wallets, !ReadableWallets}.
Context `{Blake2b, Ed25519, LedgerConstants}.
Implicit Types (n : node) (b : block) (x : election) (a : active_transactions) (ci : conflict_info) (s : astore).

(** ** Starting *)

Definition started a (bs : block * option block) action : active_transactions :=
  Active_transactions
    (<[block_root (fst bs) := Conflict_info (block_root (fst bs)) (length (elections a)) (U 4 0) bs]> (roots a))
    (confirmed a) (elections a ++ [make_election (fst bs) action]).

Lemma wp_active_start bs action n (Q : bool → node → Prop) :
  (is_Some (roots (n_active n) !! block_root (fst bs)) → Q true n) →
  (roots (n_active n) !! block_root (fst bs) = None → Q false (set_active (started (n_active n) bs action) n)) →
  wp (active_start bs action) n Q.
Proof.
  intros Hs Hn. unfold active_start. apply wp_bind, wp_gets. destruct (roots _ !! _) eqn:E; [apply Hs; eauto|].
  apply wp_bind, wp_modify, wp_ret. by apply Hn.
Qed.

Lemma started_ok a bs action : active_ok a → active_ok (started a bs action).
Proof.
  intros [Hr He]. split; simpl.
  - intros r ci [[<- <-]|[Hne Hl]]%lookup_insert_Some; simpl.
    + split; [done|]. exists (make_election (fst bs) action). split; [|done].
      rewrite lookup_app_r, Nat.sub_diag by done. done.
    + destruct (Hr _ _ Hl) as (Hc & x & Hx & Hid). split; [done|]. exists x. split; [|done].
      apply lookup_app_l_Some. exact Hx.
  - intros j x [Hx|[_ Hx]]%lookup_app_Some; [by eapply He|].
    apply list_lookup_singleton_Some in Hx as [_ <-]. simpl. apply map_non_empty_singleton.
Qed.
Lemma started_task a bs action t : task_ok a t → task_ok (started a bs action) t.
Proof. destruct t; try done. intros [x Hx]. exists x. by apply lookup_app_l_Some. Qed.

Lemma ok_set_active n a : node_ok n → active_ok a →
  (∀ t, t ∈ n_service n → task_ok a t) → node_ok (set_active a n).
Proof. intros [] Ha Ht. constructor; try done. destruct ok_tasks as [_ Hal]. by split. Qed.

Lemma safe_active_start bs action n : node_ok n → safe (active_start bs action) n.
Proof.
  intros Hn. apply wp_active_start; [done|]. intros _. apply ok_set_active; [done|apply started_ok, Hn|].
  intros t Ht. by apply started_task, (ok_tasks _ Hn).
Qed.

(** ** Announcing *)

(** An election ends when its root is gone, or when it is confirmed and was
    announced often enough. *)
Definition retires s ci x : bool :=
  negb (rooted s (votes_id (el_votes x))) ||
  (el_confirmed x && (announcement_min - 1 <=? uval (announcements ci))).

Definition announced ci : conflict_info :=
  Conflict_info (ci_root ci) (ci_election ci) (u_add (announcements ci) (U 4 1)) (confirm_req_options ci).

Definition history s ci x (l : list election_status) : list election_status :=
  if retires s ci x && el_confirmed x then confirmed_push (status x) l else l.

Definition announced_one s ci x a : active_transactions :=
  Active_transactions (alter announced (ci_root ci) (roots a)) (history s ci x (confirmed a)) (elections a).
Definition broadcasts s ci x : list task := if retires s ci x then [] else [Broadcast_winner (ci_election ci)].

Lemma reads_root_exists r : reads (root_exists r : M block_store bool).
Proof.
  unfold root_exists. simpl. pose proof reads_block_exists. pose proof reads_account_exists.
  apply reads_bind; [apply reads_block_exists|]. intros [].
  - apply reads_ret.
  - apply reads_account_exists.
Qed.

Lemma wp_root_exists n s r (Q : bool → node → Prop) : store_rel (store (n_ledger n)) s →
  Q (rooted s r) n → wp (on_store (root_exists r)) n Q.
Proof.
  intros Hr HQ. apply (wp_store_read _ (rooted s r)); [apply reads_root_exists| |done].
  pose proof (sim_root_exists store_rel r _ _ Hr) as Hs. rewrite root_exists_run in Hs.
  destruct (root_exists r (store (n_ledger n))) as [[e c]|]; [|done]. destruct Hs as [-> _]. eauto.
Qed.

Lemma drop_voted_in rounds j vs l i : i ∈ drop_voted rounds j vs l → i ∈ l.
Proof.
  revert j l. induction rounds as [|rounds IH]; intros j l; [done|]. cbn [drop_voted].
  destruct (l !! j) as [y|] eqn:Ej; [|done]. case_bool_decide; [|apply IH].
  destruct (last l) as [z|] eqn:El; [|done]. intros Hi%IH.
  apply list_elem_of_lookup in Hi as [k Hk]. apply lookup_take_Some in Hk as [Hk _].
  apply list_lookup_insert_Some in Hk as [(_ & -> & _)|[_ Hk]].
  - rewrite last_lookup in El. by apply list_elem_of_lookup_2 in El.
  - by apply list_elem_of_lookup_2 in Hk.
Qed.

Lemma qwp_request ci x n : node_ok n →
  qwp (if uval (announcements ci) mod announcement_min =? 2 then
         l ← representatives (2 ^ 64 - 1);
         let l := drop_voted (length l) 0 (el_votes x) l in
         if bool_decide (l = []) then mret tt
         else
           broadcast_confirm_req_base (fst (confirm_req_options ci)) l 0;;
           match snd (confirm_req_options ci) with
           | Some b => broadcast_confirm_req_base b l 0
           | None => mret tt
           end
       else mret tt) n (λ _, True).
Proof.
  intros Hn. destruct (_ =? _); [|by apply qwp_ret].
  eapply qwp_bind; [done|by apply qwp_representatives|]. intros l n1 Hn1 _ Hl. cbv zeta.
  set (l' := drop_voted _ _ _ _). assert (Hl' : ∀ i, i ∈ l' → peer_endpoint (pi_endpoint i)).
  { intros i Hi%drop_voted_in. auto. }
  case_bool_decide; [by apply qwp_ret|].
  eapply qwp_bind; [done|by apply qwp_confirm_req_base|]. intros [] n2 Hn2 _ _.
  destruct (snd _); [by apply qwp_confirm_req_base|by apply qwp_ret].
Qed.

Lemma tables_store_rel c c' s : tables c' = tables c → store_rel c s → store_rel c' s.
Proof. intros ->%tables_store. done. Qed.
Lemma changed_store_rel n n' a p sv s : changed n n' a p sv →
  store_rel (store (n_ledger n)) s → store_rel (store (n_ledger n')) s.
Proof. intros [Hq]. apply tables_store_rel, (q_tables _ _ Hq). Qed.

(** A change of the active roots alone. *)
Lemma changed_active n n' a p sv a' : changed n n' a p sv →
  changed n (set_active a' n') a' p sv.
Proof. by intros [[] ? ? ?]; constructor; [constructor|..]. Qed.
Lemma changed_service n n' a p sv t : changed n n' a p sv →
  changed n (set_service (n_service n' ++ t) n') a p (sv ++ t).
Proof. intros [[] ? ? ?]. constructor; [by constructor|done..|]. simpl. by f_equal. Qed.
Lemma changed_quiet n n' n2 a p sv : changed n n' a p sv → quiet n' n2 → changed n n2 a p sv.
Proof.
  intros Hc Hq. pose proof (changed_trans _ _ _ _ _ _ _ _ _ Hc (quiet_changed _ _ Hq)) as Ht.
  by rewrite (ch_active _ _ _ _ _ Hc), (ch_processor _ _ _ _ _ Hc), (ch_service _ _ _ _ _ Hc) in Ht.
Qed.

Lemma wp_announce_one n s ci x (Q : option u256 → node → Prop) :
  node_ok n → store_rel (store (n_ledger n)) s → elections (n_active n) !! ci_election ci = Some x →
  (∀ n', changed n n' (announced_one s ci x (n_active n)) (n_block_processor n)
     (n_service n ++ broadcasts s ci x) →
   Q (if retires s ci x then Some (votes_id (el_votes x)) else None) n') →
  wp (announce_one ci) n Q.
Proof.
  intros Hn Hs Hx HQ. unfold announce_one. apply wp_bind. eapply wp_get_election; [exact Hx|].
  apply wp_bind. eapply wp_root_exists; [exact Hs|]. fold (retires s ci x).
  unfold announced_one, broadcasts, history in HQ. destruct (retires s ci x); simpl in HQ.
  - rewrite app_nil_r in HQ. apply wp_bind, wp_bind. destruct (el_confirmed x).
    + apply wp_modify, wp_ret, wp_bind, wp_gets, wp_bind, wp_modify, wp_ret, HQ.
      eapply changed_active, changed_active, changed_refl.
    + apply wp_ret, wp_ret, wp_bind, wp_gets, wp_bind, wp_modify, wp_ret, HQ.
      eapply changed_active, changed_refl.
  - apply wp_bind, wp_bind, wp_modify, wp_bind. set (n1 := set_service _ n).
    assert (Hc1 : changed n n1 (n_active n) (n_block_processor n) (n_service n ++ [Broadcast_winner (ci_election ci)])).
    { apply changed_service, changed_refl. }
    assert (Hn1 : node_ok n1).
    { eapply changed_ok; [exact Hc1|done|apply Hn|apply Hn|]. intros t [Ht| ->%list_elem_of_singleton]%elem_of_app.
      - by apply (ok_tasks _ Hn).
      - simpl. by rewrite Hx. }
    eapply wp_mono; [by apply qwp_request|]. intros [] n2 [Hq2 _]. pose proof (changed_quiet _ _ _ _ _ _ Hc1 Hq2) as Hc2.
    apply wp_ret, wp_bind, wp_gets, wp_bind, wp_modify, wp_ret, HQ.
    rewrite (ch_active _ _ _ _ _ Hc2). by eapply changed_active.
Qed.

(** ** A round of announcements *)

Definition ends s (xs : list election) ci : bool :=
  match xs !! ci_election ci with Some x => retires s ci x | None => false end.

(** The elections that end having been confirmed. *)
Definition finished s (xs : list election) (l : list (u256 * conflict_info)) : list election_status :=
  status <$> filter (λ x, el_confirmed x = true)
    (omap (λ e, if ends s xs e.2 then xs !! ci_election e.2 else None) l).
Definition going s (xs : list election) (l : list (u256 * conflict_info)) : list (u256 * conflict_info) :=
  filter (λ e, ends s xs e.2 = false) l.
Definition gone s (xs : list election) (l : list (u256 * conflict_info)) : list (u256 * conflict_info) :=
  filter (λ e, ends s xs e.2 = true) l.

Definition announced_all s a (l : list (u256 * conflict_info)) : active_transactions :=
  Active_transactions (foldl (λ m e, alter announced e.1 m) (roots a) l)
    (foldl (flip confirmed_push) (confirmed a) (finished s (elections a) l)) (elections a).
Definition broadcasts_all s a (l : list (u256 * conflict_info)) : list task :=
  (λ e, Broadcast_winner (ci_election e.2)) <$> going s (elections a) l.

Lemma announced_one_ok s ci x a : active_ok a → active_ok (announced_one s ci x a).
Proof.
  intros [Hr He]. split; [|exact He]. simpl. intros r c Hc.
  apply lookup_alter_Some in Hc as [(_ & c0 & Hc0 & ->)|[_ Hc0]]; by destruct (Hr _ _ Hc0).
Qed.

Lemma announced_all_cons s a r ci x l : elections a !! ci_election ci = Some x → ci_root ci = r →
  announced_all s a ((r, ci) :: l) = announced_all s (announced_one s ci x a) l ∧
  broadcasts_all s a ((r, ci) :: l) = broadcasts s ci x ++ broadcasts_all s a l ∧
  (gone s (elections a) ((r, ci) :: l)).*1 =
    (if retires s ci x then [r] else []) ++ (gone s (elections a) l).*1.
Proof.
  intros Hx <-. assert (He : ends s (elections a) ci = retires s ci x) by (unfold ends; by rewrite Hx).
  unfold announced_all, broadcasts_all, gone, going, broadcasts, announced_one, history, finished.
  rewrite !filter_cons. simpl. rewrite He, Hx. destruct (retires s ci x); simpl; [|done].
  split_and!; [|done..]. f_equal. rewrite filter_cons. by destruct (el_confirmed x).
Qed.

Lemma wp_announce_all n s l (inactive : list u256) (Q : list u256 → node → Prop) :
  node_ok n → store_rel (store (n_ledger n)) s →
  (∀ r ci, (r, ci) ∈ l → ci_root ci = r ∧
     ∃ x, elections (n_active n) !! ci_election ci = Some x ∧ votes_id (el_votes x) = r) →
  (∀ n', changed n n' (announced_all s (n_active n) l) (n_block_processor n)
     (n_service n ++ broadcasts_all s (n_active n) l) → node_ok n' →
   Q (inactive ++ (gone s (elections (n_active n)) l).*1) n') →
  wp (announce_all l inactive) n Q.
Proof.
  revert n inactive Q. induction l as [|[r ci] l IH]; intros n inactive Q Hn Hs Hl HQ; cbn [announce_all].
  - apply wp_ret. rewrite <-(app_nil_r inactive). apply HQ; [|done].
    replace (announced_all s (n_active n) []) with (n_active n) by (by destruct (n_active n)).
    rewrite app_nil_r. apply changed_refl.
  - destruct (Hl r ci) as (Hr & x & Hx & Hid); [by left|].
    destruct (announced_all_cons s (n_active n) r ci x l Hx Hr) as (Ea & Eb & Eg).
    rewrite Ea, Eb, Eg in HQ. apply wp_bind. eapply wp_announce_one; [done|exact Hs|exact Hx|].
    intros n1 Hc. rewrite Hid.
    assert (Hn1 : node_ok n1).
    { eapply changed_ok; [exact Hc|done|by apply announced_one_ok, Hn|apply Hn|].
      intros t [Ht|Ht]%elem_of_app; [by apply (ok_tasks _ Hn) in Ht; destruct t|].
      unfold broadcasts in Ht. destruct (retires s ci x); [by apply elem_of_nil in Ht|].
      apply list_elem_of_singleton in Ht as ->. simpl. by rewrite Hx. }
    pose proof (ch_active _ _ _ _ _ Hc) as Ha.
    apply IH; [done|by eapply changed_store_rel| |].
    + rewrite Ha. intros r' ci' Hin. apply Hl. by right.
    + rewrite Ha, (ch_processor _ _ _ _ _ Hc), (ch_service _ _ _ _ _ Hc). cbn [elections announced_one].
      intros n2 Hc2 Hn2. rewrite <-app_assoc.
      replace (option_list (if retires s ci x then Some r else None)) with (if retires s ci x then [r] else [])
        by (by destruct (retires s ci x)).
      apply HQ; [|done]. rewrite (app_assoc (n_service n)). by eapply changed_trans.
Qed.

Definition without (rs : list u256) a : active_transactions :=
  Active_transactions (filter (λ e, e.1 ∉ rs) (roots a)) (confirmed a) (elections a).

Lemma without_cons r rs a : without (r :: rs) a =
  without rs (Active_transactions (delete r (roots a)) (confirmed a) (elections a)).
Proof.
  unfold without. f_equal. apply map_eq. intros k. simpl. apply option_eq. intros c.
  rewrite !map_lookup_filter_Some, lookup_delete_Some, not_elem_of_cons. simpl. naive_solver.
Qed.
Lemma without_ok rs a : active_ok a → active_ok (without rs a).
Proof.
  intros [Hr He]. split; [|exact He]. simpl. intros r ci [Hl _]%map_lookup_filter_Some. by apply Hr.
Qed.

Lemma wp_erase_all rs n (Q : unit → node → Prop) : NoDup rs →
  (∀ r, r ∈ rs → is_Some (roots (n_active n) !! r)) → Q tt (set_active (without rs (n_active n)) n) →
  wp (erase_all rs) n Q.
Proof.
  revert n. induction rs as [|r rs IH]; intros n Hd Hr HQ; cbn [erase_all].
  - apply wp_ret. replace (set_active (without [] (n_active n)) n) with n in HQ; [done|].
    unfold without. rewrite map_filter_id by (intros; apply not_elem_of_nil). by destruct n as [? ? []].
  - apply NoDup_cons in Hd as [Hn Hd]. apply wp_bind, wp_gets, wp_bind.
    rewrite bool_decide_true by (apply Hr; by left). apply wp_ret, wp_bind, wp_modify.
    apply IH; [done| |].
    + intros r' Hr'. simpl. rewrite lookup_delete_ne by (by intros ->). apply Hr. by right.
    + by rewrite without_cons in HQ.
Qed.

(** The roots after a round over all of them. *)
Lemma announced_roots (l : list (u256 * conflict_info)) (m : gmap u256 conflict_info) : NoDup l.*1 →
  ∀ r, foldl (λ m e, alter announced e.1 m) m l !! r =
    if decide (r ∈ l.*1) then announced <$> m !! r else m !! r.
Proof.
  revert m. induction l as [|[k c] l IH]; intros m Hd r; simpl; [done|].
  apply NoDup_cons in Hd as [Hk Hd]. rewrite IH by done. rewrite lookup_alter.
  destruct (decide (k = r)) as [->|Hne].
  - rewrite decide_False by done. by rewrite decide_True by (by left).
  - destruct (decide (r ∈ l.*1)); [by rewrite decide_True by (by right)|].
    rewrite decide_False; [done|]. by intros [?|?]%elem_of_cons.
Qed.

Lemma iterate_nodup (m : gmap u256 conflict_info) : NoDup (iterate m).*1.
Proof. rewrite iterate_perm. apply NoDup_fst_map_to_list. Qed.
Lemma iterate_key (m : gmap u256 conflict_info) r : r ∈ (iterate m).*1 ↔ is_Some (m !! r).
Proof.
  rewrite list_elem_of_fmap. split.
  - intros ([k c] & -> & Hin%iterate_in). eauto.
  - intros [c Hc]. exists (r, c). split; [done|]. by rewrite iterate_perm, elem_of_map_to_list.
Qed.

(** After the round and the erasures: the roots that go on. *)
Lemma round_roots s a : let l := iterate (roots a) in
  roots (without (gone s (elections a) l).*1 (announced_all s a l)) =
    announced <$> filter (λ e, ends s (elections a) e.2 = false) (roots a).
Proof.
  intros l. apply map_eq. intros r. apply option_eq. intros c. simpl.
  rewrite map_lookup_filter_Some, lookup_fmap, announced_roots by apply iterate_nodup. simpl.
  assert (Hg : r ∈ (gone s (elections a) l).*1 ↔ ∃ ci, roots a !! r = Some ci ∧ ends s (elections a) ci = true).
  { rewrite list_elem_of_fmap. split.
    - intros ([k ci] & -> & [He Hin%iterate_in]%list_elem_of_filter). eauto.
    - intros (ci & Hci & He). exists (r, ci). split; [done|]. apply list_elem_of_filter.
      split; [done|]. by apply iterate_in. }
  rewrite Hg. pose proof (iterate_key (roots a) r) as Hk. fold l in Hk.
  destruct (roots a !! r) as [ci|] eqn:Er.
  - rewrite decide_True by (apply Hk; eauto). simpl. destruct (ends s (elections a) ci) eqn:Ee.
    + rewrite map_lookup_filter, Er. simpl. rewrite option_guard_False by (simpl; congruence). simpl.
      split; [intros [_ []]; eauto|done].
    + rewrite map_lookup_filter, Er. simpl. rewrite option_guard_True by done. simpl.
      split; [by intros [? _]|]. intros Hc. split; [done|]. intros (c' & [= <-] & ?). congruence.
  - rewrite map_lookup_filter, Er. simpl. split; [|done]. intros [Hd _]. by destruct (decide _).
Qed.

Definition round_active s a : active_transactions :=
  let l := iterate (roots a) in without (gone s (elections a) l).*1 (announced_all s a l).

Lemma wp_announce_votes n s : node_ok n → store_rel (store (n_ledger n)) s →
  wp announce_votes n (λ _ n', node_ok n' ∧ changed n n' (round_active s (n_active n))
    (n_block_processor n) (n_service n ++ broadcasts_all s (n_active n) (iterate (roots (n_active n))))).
Proof.
  intros Hn Hs. set (a := n_active n). set (l := iterate (roots a)).
  unfold announce_votes. apply wp_bind, wp_gets, wp_bind. eapply wp_announce_all; [done|exact Hs| |].
  { intros r ci Hin%iterate_in. by apply (ok_root _ _ _ Hn). }
  intros n1 Hc Hn1. fold a l in Hc |- *. simpl. pose proof (ch_active _ _ _ _ _ Hc) as Ha.
  apply wp_bind, wp_erase_all.
  - eapply sublist_NoDup; [apply (iterate_nodup (roots a))|]. apply fmap_sublist, sublist_filter.
  - rewrite Ha. intros r ([k ci] & -> & [_ Hin]%list_elem_of_filter)%list_elem_of_fmap. simpl.
    rewrite announced_roots by apply iterate_nodup.
    rewrite decide_True by (exact (list_elem_of_fmap_2 fst _ _ Hin)).
    apply iterate_in in Hin. simpl. rewrite Hin. eauto.
  - rewrite Ha. fold l. set (n2 := set_active _ n1).
    assert (Hc2 : changed n n2 (round_active s a) (n_block_processor n) (n_service n ++ broadcasts_all s a l))
      by (by eapply changed_active).
    assert (Hn2 : node_ok n2).
    { apply ok_set_active; [done| |].
      - apply without_ok. rewrite <-Ha. apply Hn1.
      - intros t Ht. apply (ok_tasks _ Hn1) in Ht. rewrite Ha in Ht. by destruct t. }
    assert (Hq : qwp (t ← now; alarm_add (t + announce_interval) Announce_votes) n2 (λ _, True)).
    { eapply qwp_bind; [done|apply qwp_now|]. intros t n3 _ _ _. by apply qwp_alarm. }
    unfold qwp in Hq. eapply wp_mono; [exact Hq|]. intros [] n3 [Hq3 _].
    split; [by eapply quiet_ok|by eapply changed_quiet].
Qed.

Lemma ok_store_rel n : node_ok n → ∃ s, store_rel (store (n_ledger n)) s.
Proof. intros Hn. destruct (ok_ledger _ Hn) as (s & _ & _ & Hs & _). eauto. Qed.
Lemma safe_announce_votes n : node_ok n → safe announce_votes n.
Proof.
  intros Hn. destruct (ok_store_rel _ Hn) as [s Hs]. eapply wp_mono; [by apply (wp_announce_votes n s)|].
  by intros [] n' [? _].
Qed.

(** C29: [announce_votes] ends exactly the elections whose
    root is gone or which are confirmed and were announced three times; every
    other root keeps its election and is announced once more, a broadcast of
    its winner being posted; the confirmed elections that end are recorded; the
    elections, the block queues and the tables do not change. *)
Theorem announce_votes_exact n s :
  node_ok n → store_rel (store (n_ledger n)) s →
  let a := n_active n in let l := iterate (roots a) in
  ∃ n', announce_votes n = Done (tt, n') ∧ node_ok n' ∧
    roots (n_active n') = announced <$> filter (λ e, ends s (elections a) e.2 = false) (roots a) ∧
    confirmed (n_active n') = foldl (flip confirmed_push) (confirmed a) (finished s (elections a) l) ∧
    elections (n_active n') = elections a ∧
    n_service n' = n_service n ++ ((λ e, Broadcast_winner (ci_election e.2)) <$> going s (elections a) l) ∧
    n_block_processor n' = n_block_processor n ∧
    tables (store (n_ledger n')) = tables (store (n_ledger n)).
Proof.
  intros Hn Hs a l. apply wp_run_unit. eapply wp_mono; [by apply (wp_announce_votes n s)|].
  intros [] n' [Hn' Hc]. split; [done|].
  rewrite (ch_active _ _ _ _ _ Hc), (ch_processor _ _ _ _ _ Hc), (ch_service _ _ _ _ _ Hc).
  split_and!; try done; [apply round_roots|apply (q_tables _ _ (ch_quiet _ _ _ _ _ Hc))].
Qed.
End announce.
