(* ===== verification/NodeProcessor.v ===== *)
(** * The block processor keeps the invariant and empties its queue *)

From S2P Require Import Prelude Crypto Blocks Common Stats Store Ledger Votes Lmdb Versioning.
From S2P Require Import BlockStore Messages MultiIndex Node Peers NodeCaches Sending Elections BlockProcessor.
From S2P Require Import Receiving StoreLemmas LedgerInv Commit Cascade Reach Accept Queries.
From S2P Require Import VoteProps StoreRefine StoreCaches MessageProps.
From S2P Require Import NodeFrame NodeLedger NodeOk NodeQuiet NodeSends NodePeers NodeElections NodeSafe NodeAnnounce.

Section processor.
Context `{NodeConfig, LmdbSpec, RandomPool, MultiIndex, Unordered, Wallets, !ReadableWallets}.
Context `{Blake2b, Ed25519, LedgerConstants}.
Implicit Types (n : node) (b : block) (c : block_store) (s : astore) (h : u256) (X : list (u256 * block)).

(** ** Blocks that wait *)

(** The blocks that wait for another one, each with the hash it waits for. *)
Definition waiting n (X : list (u256 * block)) : Prop :=
  NoDup X ∧ ∀ h b, (h, b) ∈ X ↔ waits (store (n_ledger n)) h b.

(** There is such a list: the cache and the table are finite. *)
Lemma stored_finite c : unchecked_ok c → ∃ L : list (u256 * block), ∀ h b, serialize_block b ∈ stored_values c h → (h, b) ∈ L.
Proof.
  intros Hok. set (m := dups (txn c) unchecked). unfold unchecked_ok in Hok. fold m in Hok.
  assert (Hl : ∀ l : list (bytes * gset bytes), (∀ k vs, (k, vs) ∈ l → m !! k = Some vs) →
    ∃ L : list (u256 * block), ∀ k vs h b, (k, vs) ∈ l → k = write_be h → serialize_block b ∈ vs → (h, b) ∈ L).
  { induction l as [|[k vs] l IH]; intros Hl; [exists []; by intros ???? ?%elem_of_nil|].
    destruct IH as [L HL]; [intros; apply Hl; by right|].
    destruct (Hok k vs) as ([h ->] & _ & Hv); [apply Hl; by left|].
    destruct (blocks_of_values (elements vs)) as [bs Hbs]; [intros v Hv'%elem_of_elements; by apply Hv|].
    exists ((pair h <$> bs) ++ L). intros k' vs' h' b [[= -> ->]|Hin]%elem_of_cons Hk Hb; apply elem_of_app.
    - left. apply (inj write_be) in Hk as <-. apply elem_of_elements in Hb. rewrite Hbs in Hb.
      apply list_elem_of_fmap in Hb as (b' & ->%serialize_block_inj & Hb'). by apply list_elem_of_fmap_2.
    - right. by eapply HL. }
  destruct (Hl (map_to_list m)) as [L HL]; [by intros k vs ?%elem_of_map_to_list|].
  exists L. intros h b. unfold stored_values. fold m. destruct (m !! write_be h) as [vs|] eqn:E; simpl; [|set_solver].
  intros Hb. apply (HL (write_be h) vs); [by apply elem_of_map_to_list|done..].
Qed.

Lemma waiting_exists n : unchecked_ok (store (n_ledger n)) → ∃ X, waiting n X.
Proof.
  intros Hok. set (c := store (n_ledger n)) in *. destruct (stored_finite c Hok) as [L HL].
  set (K := flat (map_to_list (unchecked_cache c)) ++ L).
  assert (HK : ∀ h b, waits c h b → (h, b) ∈ K).
  { intros h b [Hb|Hb]; apply elem_of_app; [left|right; by apply HL]. unfold cached_unchecked in Hb.
    destruct (unchecked_cache c !! h) as [bs|] eqn:E; [|by apply elem_of_nil in Hb]. simpl in Hb.
    unfold flat. apply list_elem_of_join. exists (pair h <$> bs). split; [by apply list_elem_of_fmap_2|].
    apply list_elem_of_fmap. exists (h, bs). split; [done|]. by apply elem_of_map_to_list. }
  assert (Hd : ∀ e : u256 * block, Decision (waits c e.1 e.2)) by (intros e; unfold waits; apply _).
  exists (remove_dups (filter (λ e : u256 * block, waits c e.1 e.2) K)). split; [apply NoDup_remove_dups|].
  intros h b. rewrite elem_of_remove_dups, list_elem_of_filter. simpl. naive_solver.
Qed.

Definition queued n : list block := bp_forced (n_block_processor n) ++ bp_blocks (n_block_processor n).

Definition with_store n c : node := set_ledger (set_store (n_ledger n) c) n.

Lemma tables_rel c c' s : (∀ db, db ≠ vote_db → table (txn c') db = table (txn c) db) →
  store_rel c s → store_rel c' s.
Proof.
  intros Ht []. constructor; try done; try by rewrite Ht. intros ty db Hdb. rewrite Ht; [by apply rf_blocks|].
  by destruct ty; simplify_eq/=.
Qed.

Lemma ok_with_store n c : node_ok n →
  (∀ db, db ≠ vote_db → table (txn c) db = table (txn (store (n_ledger n))) db) →
  votes_ok c → waiting_ok c → node_ok (with_store n c).
Proof.
  intros [] Ht Hv Hw. constructor; try done. destruct ok_ledger as (s & g & hist & Hs & HI).
  exists s, g, hist. split; [|done]. by eapply tables_rel.
Qed.

Lemma wp_on_store {A} (m : M block_store A) n (Q : A → node → Prop) :
  wp m (store (n_ledger n)) (λ a c, Q a (with_store n c)) → wp (on_store m) n Q.
Proof. unfold wp, on_store, on_ledger, st, with_store. by destruct (m _) as [[a c]|]. Qed.

Lemma waits_once_add c h b : (∀ h', waits_once c h') → ¬ waits c h b →
  ∀ h', waits_once (set_unchecked_cache c (<[h := cached_unchecked h c ++ [b]]> (unchecked_cache c))) h'.
Proof.
  intros Ho Hn h'. unfold waits_once. rewrite cached_insert. destruct (Ho h') as [Hd Hx].
  case_decide as E; [subst h'|by split]. unfold waits in Hn. split.
  - apply NoDup_app. split_and!; [done| |apply NoDup_singleton]. set_solver.
  - intros b' [?| ->%list_elem_of_singleton]%elem_of_app; [by apply Hx|]. unfold stored_values in *. simpl. tauto.
Qed.

(** The block is put aside, unless one with its hash waits there already. *)
Definition kept_aside X h b X' : Prop :=
  X' = X ∧ (∃ b', (h, b') ∈ X ∧ block_hash b' = block_hash b) ∨
  X' = (h, b) :: X ∧ ∀ b', (h, b') ∈ X → block_hash b' ≠ block_hash b.

Lemma wp_unchecked_put h b n X (Q : unit → node → Prop) :
  node_ok n → valid_work b → waiting n X →
  (∀ c X', node_ok (with_store n c) → waiting (with_store n c) X' → kept_aside X h b X' →
     (∀ s, store_rel (store (n_ledger n)) s → store_rel c s) → Q tt (with_store n c)) →
  wp (on_store (unchecked_put h b)) n Q.
Proof.
  intros Hn Hv HX HQ. apply wp_on_store. destruct (ok_waiting _ Hn) as (Hok & Ho & Hw).
  destruct (unchecked_put_run h b _ Hok) as (c' & Hp & Hc). unfold wp. rewrite Hp.
  destruct Hc as [[Hex ->]|[Hno ->]].
  - assert (Es : with_store n (store (n_ledger n)) = n) by (unfold with_store; by rewrite set_store_same, set_ledger_same).
    apply (HQ _ X); rewrite ?Es; auto. left. split; [done|].
    destruct Hex as (b' & Hb' & E). exists b'. split; [by apply HX|done].
  - apply (HQ _ ((h, b) :: X)); try done.
    + apply ok_with_store; [done..|apply Hn|]. split_and!; [done| |].
      * apply waits_once_add; [done|]. intros Hb. by apply (Hno b).
      * intros h' b' [?|[-> ->]]%cached_add; [by eapply Hw|done].
    + destruct HX as [Hd HX]. split.
      * apply NoDup_cons. split; [|done]. rewrite HX. intros Hb. by apply (Hno b).
      * intros h' b'. simpl. rewrite cached_add, elem_of_cons, HX. naive_solver.
    + right. split; [done|]. intros b' Hb'%HX. by apply Hno.
Qed.

(** ** Blocks released *)

Definition enqueue (bs : list block) (p : block_processor) : block_processor :=
  Block_processor (bs ++ bp_blocks p) (bp_forced p) (bp_stopped p).
Definition set_processor_store n c p : node := set_block_processor p (with_store n c).

Lemma ok_set_blocks n p : node_ok n → (∀ b, b ∈ bp_blocks p → valid_work b) → node_ok (set_block_processor p n).
Proof. intros [] Hp. by constructor. Qed.

Lemma wp_processor_add b n (Q : unit → node → Prop) : valid_work b →
  Q tt (set_block_processor (enqueue [b] (n_block_processor n)) n) → wp (processor_add b) n Q.
Proof. intros Hv HQ. unfold processor_add. rewrite Hv. simpl. apply wp_bind, wp_gets, wp_modify, HQ. Qed.

(** A node whose store and queue differ. *)
Definition requeued n n' : Prop :=
  ∃ c p, n' = set_block_processor p (with_store n c) ∧ bp_forced p = bp_forced (n_block_processor n) ∧
    bp_stopped p = bp_stopped (n_block_processor n) ∧ ∀ s, store_rel (store (n_ledger n)) s → store_rel c s.
Lemma requeued_refl n : requeued n n.
Proof. exists (store (n_ledger n)), (n_block_processor n). split_and!; [|done..]. by destruct n as [[]]. Qed.
Lemma requeued_trans n1 n2 n3 : requeued n1 n2 → requeued n2 n3 → requeued n1 n3.
Proof.
  intros (c & p & -> & Hf & Hp & Hs) (c' & p' & -> & Hf' & Hp' & Hs').
  exists c', p'. split_and!; [done|by rewrite Hf'|by rewrite Hp'|].
  intros s Hr. by apply Hs', Hs.
Qed.

Lemma wp_requeue h bs n X (Q : unit → node → Prop) : node_ok n → waiting n X → NoDup bs →
  (∀ b, b ∈ bs → waits (store (n_ledger n)) h b) →
  (∀ n' X', node_ok n' → requeued n n' → waiting n' X' → X ≡ₚ map (pair h) bs ++ X' →
     bp_blocks (n_block_processor n') = rev bs ++ bp_blocks (n_block_processor n) → Q tt n') →
  wp (requeue h (map Some bs)) n Q.
Proof.
  revert n X. induction bs as [|b bs IH]; intros n X Hn HX Hd Hbs HQ; cbn [map requeue].
  { apply wp_ret, (HQ n X); auto using requeued_refl. }
  apply NoDup_cons in Hd as [Hb Hd]. destruct (ok_waiting _ Hn) as (Hok & Ho & Hw).
  destruct (unchecked_del_run h b _ Hok) as (c & Hdel & Hok' & Ht & Hvc & Ho' & Hw').
  apply wp_bind, wp_on_store. unfold wp at 1. rewrite Hdel.
  assert (Hvb : valid_work b) by (apply (Hw h), Hbs; by left).
  assert (Hn1 : node_ok (with_store n c)).
  { apply ok_with_store; [done|auto| |].
    - destruct (ok_votes _ Hn) as [T HT]. exists T. by rewrite Ht.
    - split_and!; [done|auto|]. intros h' b' [? _]%Hw'. by eapply Hw. }
  apply wp_bind, wp_processor_add; [done|]. set (n1 := set_block_processor _ _).
  assert (Hn1' : node_ok n1).
  { apply ok_set_blocks; [done|]. intros b' [->|Hb']%elem_of_cons; [done|]. by apply (ok_queue _ Hn). }
  destruct HX as [HdX HX]. assert (Hin : (h, b) ∈ X) by (apply HX, Hbs; by left).
  apply elem_of_Permutation in Hin as [X' HX']. rewrite HX' in HdX.
  apply NoDup_cons in HdX as [Hni HdX].
  assert (HX1 : waiting n1 X').
  { split; [done|]. intros h' b'. simpl. rewrite Hw', <-HX, HX', elem_of_cons. split; [|naive_solver].
    intros Hin. split; [by right|]. by intros -> ->. }
  apply (IH n1 X'); [done..| |].
  - intros b' Hb'. simpl. apply Hw'. split; [apply Hbs; by right|]. by intros _ ->.
  - intros n2 X2 Hn2 Hr2 HX2 HP Hb2. apply (HQ n2 X2); [done| |done| |].
    + eapply requeued_trans; [|exact Hr2]. exists c, (enqueue [b] (n_block_processor n)).
      split_and!; [done..|]. intros s. apply tables_rel. auto.
    + by rewrite HX', HP.
    + rewrite Hb2. simpl. by rewrite <-app_assoc.
Qed.

Lemma waiting_same n n' X : (∀ h b, waits (store (n_ledger n')) h b ↔ waits (store (n_ledger n)) h b) →
  waiting n X → waiting n' X.
Proof. intros Hs [Hd HX]. split; [done|]. intros h b. by rewrite Hs. Qed.
Lemma tables_waits c c' h b : tables c' = tables c → waits c' h b ↔ waits c h b.
Proof. by intros ->%tables_store. Qed.

(** ** Steps that leave the queue and the waiting blocks alone *)

Record stays n n' : Prop := {
  st_ok : node_ok n';
  st_processor : n_block_processor n' = n_block_processor n;
  st_waits h b : waits (store (n_ledger n')) h b ↔ waits (store (n_ledger n)) h b;
  st_rel s : store_rel (store (n_ledger n)) s → store_rel (store (n_ledger n')) s;
}.
Lemma tables_stays n n' : node_ok n' → n_block_processor n' = n_block_processor n →
  tables (store (n_ledger n')) = tables (store (n_ledger n)) → stays n n'.
Proof.
  intros Hn Hp Ht. constructor; [done..|intros h b; by apply tables_waits|].
  intros s. by apply tables_store_rel.
Qed.
Lemma stays_refl n : node_ok n → stays n n.
Proof. by constructor. Qed.
Lemma stays_trans n1 n2 n3 : stays n1 n2 → stays n2 n3 → stays n1 n3.
Proof.
  intros [] []. constructor; [done|congruence| |auto]. intros h b. by rewrite st_waits1.
Qed.
Lemma quiet_stays n n' : node_ok n → quiet n n' → stays n n'.
Proof. intros Hn Hq. apply tables_stays; [by eapply quiet_ok|apply Hq..]. Qed.
Lemma stays_waiting n n' X : stays n n' → waiting n X → waiting n' X.
Proof. intros []. by apply waiting_same. Qed.
Lemma stays_queued n n' : stays n n' → queued n' = queued n.
Proof. intros [_ Hp _ _]. unfold queued. by rewrite Hp. Qed.
(** Caches and elections. *)
Lemma stays_gap_cache_add b n : node_ok n → wp (gap_cache_add b) n (λ _, stays n).
Proof.
  intros Hn. pose proof (safe_gap_cache_add b n Hn) as Hs. unfold safe, gap_cache_add in *.
  apply wp_bind, wp_gets, wp_bind, wp_now. destruct (mi_find _ _ _) eqn:Ef; apply wp_modify.
  all: apply tables_stays; [|done..]; revert Hs; unfold wp, mbind, M_bind, gets, now, modify; by rewrite Ef.
Qed.
Lemma stays_gap_cache_erase h n : node_ok n → wp (gap_cache_erase h) n (λ _, stays n).
Proof. intros Hn. apply wp_modify. apply tables_stays; [by apply (safe_gap_cache_erase h n)|done..]. Qed.
Lemma stays_arrival_recent h n : node_ok n → wp (block_arrival_recent h) n (λ _, stays n).
Proof.
  intros Hn. pose proof (safe_arrival_recent h n Hn) as Hs. unfold safe, block_arrival_recent in *.
  apply wp_bind, wp_now, wp_bind, wp_gets, wp_bind, wp_modify, wp_ret. by apply tables_stays.
Qed.
Lemma stays_active_start bs action n : node_ok n → wp (active_start bs action) n (λ _, stays n).
Proof.
  intros Hn. apply wp_active_start; [by intros _; apply stays_refl|]. intros E. apply tables_stays; [|done..].
  pose proof (safe_active_start bs action n Hn) as Hs. revert Hs. unfold safe, active_start, wp, mbind, M_bind, gets.
  by rewrite E.
Qed.
Lemma stays_broadcast b n : node_ok n → wp (broadcast_confirm_req b) n (λ _, stays n).
Proof.
  intros Hn. eapply wp_mono; [by apply qwp_broadcast_confirm_req|]. intros [] n' [Hq _]. by apply quiet_stays.
Qed.

(** The blocks that waited for the hash, all of them and no others, are now in
    front of the queue; the others still wait. *)
Definition freed n X h n' X' : Prop := ∃ bs,
  X ≡ₚ map (pair h) bs ++ X' ∧ (∀ b, (h, b) ∉ X') ∧
  bp_blocks (n_block_processor n') = rev bs ++ bp_blocks (n_block_processor n).

(** What releasing the blocks that wait for a hash does. *)
Record released n X h n' X' : Prop := {
  rl_ok : node_ok n';
  rl_forced : bp_forced (n_block_processor n') = bp_forced (n_block_processor n);
  rl_stopped : bp_stopped (n_block_processor n') = bp_stopped (n_block_processor n);
  rl_waiting : waiting n' X';
  rl_freed : freed n X h n' X';
  rl_rel s : store_rel (store (n_ledger n)) s → store_rel (store (n_ledger n')) s;
}.

Lemma wp_queue_unchecked h n X (Q : unit → node → Prop) : node_ok n → waiting n X →
  (∀ n' X', released n X h n' X' → Q tt n') → wp (queue_unchecked h) n Q.
Proof.
  intros Hn HX HQ. unfold queue_unchecked. apply wp_bind, wp_on_store.
  destruct (ok_waiting _ Hn) as (Hok & Ho & _).
  destruct (unchecked_get_run h _ Hok) as (bs & Hg & Hbs & Hd). unfold wp at 1. rewrite Hg.
  unfold with_store. rewrite set_store_same, set_ledger_same. apply wp_bind.
  eapply wp_requeue; [done|exact HX|by apply Hd|by intros b ?%Hbs|].
  intros n1 X1 Hn1 (c & p & -> & Hf & Hp & Hs) HX1 HP Hb.
  eapply wp_mono; [by apply stays_gap_cache_erase|]. intros [] n2 Hst.
  apply (HQ n2 X1). constructor.
  - apply Hst.
  - by rewrite (st_processor _ _ Hst).
  - by rewrite (st_processor _ _ Hst).
  - by eapply stays_waiting.
  - exists bs. split_and!; [done| |by rewrite (st_processor _ _ Hst)].
    intros b Hin. destruct HX as [HdX HX]. rewrite HP in HdX. apply NoDup_app in HdX as (_ & Hno & _).
    apply (Hno (h, b)); [|done]. apply list_elem_of_In, in_map, list_elem_of_In, Hbs, HX. rewrite HP. set_solver.
  - intros s Hr. by apply (st_rel _ _ Hst), Hs.
Qed.

(** ** The ledger *)

Lemma aux_waits c c' : aux c' = aux c →
  (∀ h b, waits c' h b ↔ waits c h b) ∧ (waiting_ok c → waiting_ok c') ∧ (votes_ok c → votes_ok c').
Proof.
  unfold aux. intros [= Hu Hv Hd Ht].
  assert (Hw : ∀ h, cached_unchecked h c' = cached_unchecked h c ∧ stored_values c' h = stored_values c h).
  { intros h. unfold cached_unchecked, stored_values. by rewrite Hu, Hd. }
  split_and!.
  - intros h b. unfold waits. by destruct (Hw h) as [-> ->].
  - intros (Hok & Ho & Hx). unfold waiting_ok, unchecked_ok, waits_once, waits. rewrite Hd.
    split_and!; [done| |]; intros h; destruct (Hw h) as [-> ->]; [apply Ho|apply Hx].
  - intros [T HT]. exists T. by rewrite Ht.
Qed.

Lemma called_ok n k' n' g hist : node_ok n → called n k' n' → Inv (store k') g hist →
  Z.of_nat (length hist) < 2 ^ 64 → node_ok n'.
Proof.
  intros [] (l' & -> & Hs & Ha & _) HI Hl. destruct (aux_waits _ _ Ha) as (_ & Hw & Hv).
  constructor; simpl; auto. by exists (store k'), g, hist.
Qed.
Lemma called_waiting n k' n' X : called n k' n' → waiting n X → waiting n' X.
Proof. intros (l' & -> & _ & Ha & _). by apply waiting_same, aux_waits. Qed.
Lemma called_processor n k' n' : called n k' n' → n_block_processor n' = n_block_processor n.
Proof. by intros (l' & -> & _). Qed.
Lemma called_rel n k' n' : called n k' n' → store_rel (store (n_ledger n')) (store k').
Proof. by intros (l' & -> & Hs & _). Qed.

(** A query of the ledger. *)
Lemma wp_query {A} (m : nat → M (ledger block_store) A) (k : nat → M (ledger astore) A) n s
    (Q : A → node → Prop) :
  (∀ fuel x, sim (ledger_rel (framed x)) (m fuel) (k fuel)) → node_ok n →
  store_rel (store (n_ledger n)) s →
  wp (k (ledger_fuel (n_ledger n))) (abs (n_ledger n) s) (λ a k', k' = abs (n_ledger n) s ∧
    ∀ n', stays n n' → Q a n') →
  wp (on_ledger m) n Q.
Proof.
  intros Hs Hn Hr (a & k' & Hk & -> & HQ)%wp_run. destruct (ok_ledger _ Hn) as (s' & g & hist & Hr' & HI & Hl).
  pose proof (store_rel_unique _ _ _ Hr Hr') as ->.
  eapply wp_called; [exact Hs|exact Hr|exact Hk|]. intros n' Hc. apply HQ.
  pose proof (called_rel _ _ _ Hc) as Hrel. constructor.
  - by eapply called_ok.
  - by eapply called_processor.
  - destruct Hc as (l' & -> & _ & Ha & _). by apply aux_waits.
  - intros s1 Hs1. by rewrite (store_rel_unique _ _ _ Hs1 Hr).
Qed.

Lemma wp_block_exists n s h (Q : bool → node → Prop) : store_rel (store (n_ledger n)) s →
  Q (bool_decide (is_Some (a_lookup s h))) n → wp (on_store (lmdb_block_exists h)) n Q.
Proof.
  intros Hr HQ. eapply wp_store_read; [apply reads_block_exists| |exact HQ].
  exact (sim_read_run _ _ _ _ (block_exists_sim h) Hr).
Qed.

(** ** Forks *)

Lemma stays_process_fork b n s g hist : node_ok n → store_rel (store (n_ledger n)) s → Inv s g hist →
  classify s b = fork → foreign s b = false → wp (process_fork b) n (λ _, stays n).
Proof.
  intros Hn Hr HI Hc Hf. unfold process_fork. apply wp_bind. eapply wp_block_exists; [exact Hr|].
  case_bool_decide as Hex; [by apply wp_ret, stays_refl|]. apply wp_bind. eapply wp_root_exists; [exact Hr|].
  destruct (rooted s (block_root b)); [|by apply wp_ret, stays_refl]. apply wp_bind.
  apply (wp_query _ (λ _, forked_block b) n s); [intros _ x; by apply sim_forked_block; apply _|done..|].
  apply (wp_forked_block (abs (n_ledger n) s) g hist); [done..|by apply eq_None_not_Some|].
  intros r x sc _ _. split; [done|]. intros n1 Hst1. apply wp_bind.
  eapply wp_mono; [apply stays_active_start, Hst1|]. intros [] n2 Hst2; simpl.
  - apply wp_ret. by eapply stays_trans.
  - eapply wp_mono; [apply stays_broadcast, Hst2|]. intros [] n3 Hst3. by do 2 (eapply stays_trans; [done|]).
Qed.

(** ** One block *)

(** What the ledger assumes of a block: its digest collides with no sentinel
    and no block rolled back, the number of blocks fits its type, and the
    block is no state block after the head of another account. *)
Definition fine n b : Prop := valid_work b ∧ ∀ s, store_rel (store (n_ledger n)) s →
  digest_ok s b ∧ foreign s b = false ∧ Z.of_nat (size (a_blocks s)) + 1 < 2 ^ 64.

(** What a gap leaves: the block waits. *)
Definition put_aside n X h b n' X' : Prop :=
  queued n' = queued n ∧ kept_aside X h b X'.

Definition handled n X b (r : process_result) n' X' : Prop :=
  match r with
  | progress | old => freed n X (block_hash b) n' X'
  | gap_previous => put_aside n X (block_previous b) b n' X'
  | gap_source => put_aside n X (missing_source b) b n' X'
  | _ => queued n' = queued n ∧ X' = X
  end.

Definition received n X b s (r : process_return) n' X' : Prop :=
  node_ok n' ∧ bp_forced (n_block_processor n') = bp_forced (n_block_processor n) ∧
  bp_stopped (n_block_processor n') = bp_stopped (n_block_processor n) ∧ waiting n' X' ∧
  code r = classify s b ∧ handled n X b (code r) n' X' ∧
  ∃ s', store_rel (store (n_ledger n')) s' ∧
    if decide (code r = progress) then ∃ a bal, effect s s' b a bal else s' = s.

(** The ledger has answered; what is left changes neither tables nor chains. *)
Definition answered n X b s (r : process_return) n1 s1 : Prop :=
  node_ok n1 ∧ n_block_processor n1 = n_block_processor n ∧ waiting n1 X ∧
  (∀ h b, waits (store (n_ledger n1)) h b ↔ waits (store (n_ledger n)) h b) ∧
  code r = classify s b ∧ store_rel (store (n_ledger n1)) s1 ∧
  if decide (code r = progress) then ∃ a bal, effect s s1 b a bal else s1 = s.

Lemma wp_ledger_process n X b s g hist (Q : process_return → node → Prop) :
  node_ok n → waiting n X → store_rel (store (n_ledger n)) s → Inv s g hist → fine n b →
  (∀ r n1 s1, answered n X b s r n1 s1 → Q r n1) → wp (on_ledger (λ fuel, process fuel b)) n Q.
Proof.
  intros Hn HX Hr HI [_ Hf] HQ. destruct (Hf s Hr) as (Hd & _ & Hsz). eapply wp_process; [exact Hr|exact HI|exact Hd|].
  intros r k' n1 Hc [Hcode Hp]. apply (HQ r n1 (store k')).
  assert (Hw : ∀ h b, waits (store (n_ledger n1)) h b ↔ waits (store (n_ledger n)) h b).
  { destruct Hc as (l' & -> & _ & Ha & _). by apply aux_waits. }
  split_and!; [|by eapply called_processor|by eapply called_waiting|done|done|by eapply called_rel|].
  - rewrite <-(inv_size _ _ _ HI) in Hsz. case_decide; [destruct Hp as (m & HI' & _)|].
    + eapply called_ok; [exact Hn|exact Hc|exact HI'|]. rewrite length_app. simpl. lia.
    + eapply called_ok; [exact Hn|exact Hc|rewrite Hp; exact HI|]. lia.
  - case_decide; [destruct Hp as (m & _ & He); eauto|done].
Qed.

Lemma answered_stays n X b s r n1 s1 n2 : answered n X b s r n1 s1 → stays n1 n2 → answered n X b s r n2 s1.
Proof.
  intros (Hn1 & Hp & HX & Hw & Hc & Hs & He) Hst.
  split_and!; [apply Hst| |by eapply stays_waiting| |done|by apply (st_rel _ _ Hst)|done].
  - by rewrite (st_processor _ _ Hst).
  - intros h b'. by rewrite (st_waits _ _ Hst).
Qed.

Lemma received_stays n X b s r n1 s1 n' : answered n X b s r n1 s1 → stays n1 n' →
  handled n X b (code r) n' X → received n X b s r n' X.
Proof.
  intros (Hn1 & Hp & HX & _ & Hc & Hs & He) Hst Hh. split_and!; [apply Hst| | |by eapply stays_waiting|done|done|].
  - by rewrite (st_processor _ _ Hst), Hp.
  - by rewrite (st_processor _ _ Hst), Hp.
  - exists s1. split; [by apply (st_rel _ _ Hst)|done].
Qed.
Lemma received_released n X b s r n1 s1 n' X' : answered n X b s r n1 s1 →
  released n1 X (block_hash b) n' X' → code r = progress ∨ code r = old → received n X b s r n' X'.
Proof.
  intros (Hn1 & Hp & HX & Hw & Hc & Hs & He) [] Hcode.
  split_and!; [done|by rewrite rl_forced0, Hp|by rewrite rl_stopped0, Hp|done|done| |].
  - assert (handled n X b progress n' X') as Hh by (unfold handled, freed; by rewrite <-Hp).
    by destruct Hcode as [-> | ->].
  - exists s1. split; [by apply rl_rel0|done].
Qed.

Lemma received_aside n X b s r n1 s1 n2 h c X' n' : answered n X b s r n1 s1 → s1 = s →
  stays n1 n2 → waiting (with_store n2 c) X' → kept_aside X h b X' →
  (∀ s, store_rel (store (n_ledger n2)) s → store_rel c s) → stays (with_store n2 c) n' →
  (code r = gap_previous ∧ h = block_previous b) ∨ (code r = gap_source ∧ h = missing_source b) →
  received n X b s r n' X'.
Proof.
  intros (Hn1 & Hp & HX & Hw & Hc & Hs & He) -> Hst HX' Hlen Hrel Hst' Hcode.
  assert (Hp' : n_block_processor n' = n_block_processor n).
  { rewrite (st_processor _ _ Hst'). simpl. by rewrite (st_processor _ _ Hst). }
  assert (Ha : put_aside n X h b n' X').
  { split; [unfold queued; by rewrite Hp'|done]. }
  split_and!; [apply Hst'|by rewrite Hp'|by rewrite Hp'|by eapply stays_waiting|done| |].
  - destruct Hcode as [[-> ->]|[-> ->]]; done.
  - exists s. split; [|done]. apply (st_rel _ _ Hst'), Hrel, (st_rel _ _ Hst), Hs.
Qed.

Lemma wp_put_aside n X b s r n1 s1 n2 h : answered n X b s r n1 s1 → s1 = s → stays n1 n2 → valid_work b →
  (code r = gap_previous ∧ h = block_previous b) ∨ (code r = gap_source ∧ h = missing_source b) →
  wp (on_store (unchecked_put h b);; gap_cache_add b) n2 (λ _ n', ∃ X', received n X b s r n' X').
Proof.
  intros Ha Hs Hst Hv Hcode. apply wp_bind. eapply wp_unchecked_put; [apply Hst|done|eapply stays_waiting; [done|apply Ha]|].
  intros c X' Hok HX' Hlen Hrel. eapply wp_mono; [by apply stays_gap_cache_add|]. intros [] n' Hst'.
  exists X'. by eapply received_aside.
Qed.

Lemma answered_same n X b s r n1 s1 : answered n X b s r n1 s1 → code r ≠ progress → s1 = s.
Proof. intros (_ & _ & _ & _ & _ & _ & He) Hne. by rewrite decide_False in He. Qed.

Lemma wp_process_receive_one n X b s g hist :
  node_ok n → waiting n X → store_rel (store (n_ledger n)) s → Inv s g hist → fine n b →
  wp (process_receive_one b) n (λ r n', ∃ X', received n X b s r n' X').
Proof.
  intros Hn HX Hr HI Hf. unfold process_receive_one. apply wp_bind.
  eapply wp_ledger_process; [exact Hn|exact HX|exact Hr|exact HI|exact Hf|]. intros r n1 s1 Ha.
  pose proof Ha as (Hn1 & Hp1 & HX1 & Hw1 & Hc & Hs1 & _). destruct Hf as [Hv Hf]. destruct (Hf s Hr) as (_ & Hfo & _).
  assert (Hrest : ∀ n', stays n1 n' → match code r with progress | old | gap_previous | gap_source => False
      | _ => True end → ∃ X', received n X b s r n' X').
  { intros n' Hst Hcode. exists X. eapply received_stays; [done..|].
    assert (queued n' = queued n) by (rewrite (stays_queued _ _ Hst); unfold queued; by rewrite Hp1).
    by destruct (code r). }
  apply wp_bind. pose proof (answered_same _ _ _ _ _ _ _ Ha) as Hsame.
  destruct (code r) eqn:Ecode; try (apply wp_ret, wp_ret, Hrest; [by apply stays_refl|done]).
  - (* progress *) apply wp_bind. eapply wp_mono; [by apply stays_arrival_recent|]. intros recent n2 Hst2.
    apply wp_bind. eapply (wp_mono _ _ (λ _, stays n1)).
    { destruct recent; [|by apply wp_ret]. apply wp_bind. eapply wp_mono; [apply stays_active_start, Hst2|].
      intros started n3 Hst3. apply wp_ret. by eapply stays_trans. }
    intros [] n3 Hst3. pose proof (answered_stays _ _ _ _ _ _ _ _ Ha Hst3) as Ha3.
    eapply wp_queue_unchecked; [apply Ha3..|]. intros n4 X4 Hl. apply wp_ret. exists X4.
    eapply received_released; eauto.
  - (* old *) eapply wp_queue_unchecked; [apply Ha..|]. intros n4 X4 Hl. apply wp_ret. exists X4.
    eapply received_released; eauto.
  - (* fork *) apply wp_bind. eapply wp_mono; [by apply stays_arrival_recent|]. intros recent n2 Hst2.
    eapply (wp_mono _ _ (λ _, stays n1)); [|intros [] n3 Hst3; by apply wp_ret, Hrest].
    destruct recent; [by apply wp_ret|]. rewrite Hsame in Hs1 by done.
    eapply wp_mono; [eapply stays_process_fork; [apply Hst2|by apply (st_rel _ _ Hst2)|exact HI|done|done]|].
    intros [] n3 Hst3. by eapply stays_trans.
  - (* gap_previous *) eapply wp_mono; [eapply wp_put_aside; [exact Ha|by apply Hsame|by apply stays_refl|done|by auto]|].
    intros [] n2 Hn2. by apply wp_ret.
  - (* gap_source *) rewrite Hsame in Hs1 by done. apply wp_bind.
    apply (wp_query _ (λ fuel, ledger_block_source fuel b) n1 s); [intros fuel x; by apply sim_block_source; apply _|done..|].
    apply (wp_missing_source (abs (n_ledger n1) s) g hist); [exact HI|done| |].
    { rewrite (abs_fuel _ _ Hs1). unfold enough_fuel. simpl. lia. }
    split; [done|]. intros n2 Hst2.
    eapply wp_mono; [eapply wp_put_aside; [exact Ha|by apply Hsame|exact Hst2|done|by auto]|].
    intros [] n3 Hn3. by apply wp_ret.
Qed.
End processor.
