(* ===== verification/NodeDrain.v ===== *)
(** * The queue of the block processor is emptied *)

From S2P Require Import Prelude Crypto Blocks Common Stats Store Ledger Votes Lmdb Versioning.
From S2P Require Import BlockStore Messages MultiIndex Node Peers NodeCaches Sending Elections BlockProcessor.
From S2P Require Import Receiving StoreLemmas LedgerInv Commit Cascade Reach Accept Queries.
From S2P Require Import VoteProps StoreRefine StoreCaches MessageProps.
From S2P Require Import NodeFrame NodeLedger NodeOk NodeQuiet NodeSends NodePeers NodeElections NodeSafe NodeAnnounce.
From S2P Require Import NodeProcessor.

Section drain.
Context `{NodeConfig, LmdbSpec, RandomPool, MultiIndex, Unordered, Wallets, !ReadableWallets}.
Context `{Blake2b, Ed25519, LedgerConstants}.
Implicit Types (n : node) (b : block) (c : block_store) (s : astore) (h : u256) (X : list (u256 * block)).

(** ** A forced block *)

(** The block in the place of a forced one is not the genesis block. *)
Definition replaceable n b : Prop := ∀ s rival, store_rel (store (n_ledger n)) s →
  at_root s (block_root b) = Some rival → block_hash rival = block_hash b ∨ genesis_open rival = false.

Lemma at_root_stored s g hist r b : Inv s g hist → at_root s r = Some b →
  ∃ sc, a_lookup s (block_hash b) = Some (b, sc).
Proof.
  intros HI E. assert (∃ h sc, a_lookup s h = Some (b, sc)) as (h & sc & Eb).
  { unfold at_root in E. destruct (a_accounts s !! r) as [i|].
    - destruct (a_lookup s (open_block_hash i)) as [[b' sc]|] eqn:Eb; simplify_eq/=; eauto.
    - destruct (a_lookup s r) as [[pb x]|]; [|done].
      destruct (a_lookup s x) as [[b' sc]|] eqn:Eb; simplify_eq/=; eauto. }
  exists sc. by rewrite (wf_lookup_hash _ _ _ _ (inv_wf _ _ _ HI) Eb).
Qed.

(** What making room for a forced block does: nothing, or the block in its
    place is gone, with what depended on it. *)
Record vacated n b s n' s' : Prop := {
  vc_ok : node_ok n';
  vc_processor : n_block_processor n' = n_block_processor n;
  vc_waits h b' : waits (store (n_ledger n')) h b' ↔ waits (store (n_ledger n)) h b';
  vc_rel : store_rel (store (n_ledger n')) s';
  vc_kept : blocks_kept s s';
  vc_place : match at_root s (block_root b) with
    | Some rival => if decide (block_hash rival = block_hash b) then s' = s
                    else a_lookup s' (block_hash rival) = None
    | None => s' = s
    end;
}.

Lemma wp_replace_successor n b s : node_ok n → store_rel (store (n_ledger n)) s → replaceable n b →
  wp (replace_successor b) n (λ _ n', ∃ s', vacated n b s n' s').
Proof.
  intros Hn Hr Hb. destruct (ok_ledger _ Hn) as (s0 & g & hist & Hr0 & HI & Hl).
  pose proof (store_rel_unique _ _ _ Hr Hr0) as <-. unfold replace_successor. apply wp_bind.
  apply (wp_query _ (λ _, successor (block_root b)) n s); [intros _ x; by apply sim_successor; apply _|done..|].
  apply (wp_successor (abs (n_ledger n) s) g hist HI). split; [done|]. intros n1 Hst. cbn [store abs].
  assert (Hk : blocks_kept s s) by (intros x y z ?; eauto).
  assert (Hsame : match at_root s (block_root b) with
    | Some rival => block_hash rival = block_hash b | None => True end → ∃ s', vacated n b s n1 s').
  { intros Hm. exists s. constructor; [apply Hst..|by apply (st_rel _ _ Hst)|done|].
    destruct (at_root _ _); [by rewrite decide_True|done]. }
  destruct (at_root s (block_root b)) as [rival|] eqn:Ea; [|by apply wp_ret, Hsame].
  destruct (u_eqb_spec (block_hash rival) (block_hash b)) as [E|E]; [by apply wp_ret, Hsame|].
  destruct (at_root_stored _ _ _ _ _ HI Ea) as [sc Eb].
  eapply (wp_rollback _ s g hist); [by apply (st_rel _ _ Hst)|exact HI| |].
  { exists rival, sc. split; [done|]. by destruct (Hb _ _ Hr Ea). }
  intros k' n' g' hist' Hc HI' Hgone Hlen Hkept. exists (store k'). constructor.
  - eapply called_ok; [apply Hst|exact Hc|exact HI'|]. lia.
  - by rewrite (called_processor _ _ _ Hc), (st_processor _ _ Hst).
  - intros h b'. rewrite <-(st_waits _ _ Hst). destruct Hc as (l' & -> & _ & Ha & _). by apply aux_waits.
  - by eapply called_rel.
  - done.
  - by rewrite Ea, decide_False.
Qed.

(** C23: before a forced block is handed to the ledger, the
    block in its place, if there is another one, is rolled back with
    everything that depended on it; no other block appears, the queues and the
    waiting blocks stay. *)
Theorem forced_replaces n b s :
  node_ok n → store_rel (store (n_ledger n)) s → replaceable n b →
  ∃ n' s', replace_successor b n = Done (tt, n') ∧ vacated n b s n' s'.
Proof.
  intros Hn Hs Hb. pose proof (wp_replace_successor n b s Hn Hs Hb) as ([] & n' & Hr & s' & Hv)%wp_run. eauto.
Qed.

(** C22: what the block processor does with a block follows
    the answer of the decision table.  An accepted or known block puts the
    blocks that waited for its hash, all of them and no others, in front of
    the queue, and the others still wait; a block with a gap waits under the
    missing hash, unless a block of its hash already does; any other block
    changes neither what is queued nor what waits.  The ledger changes only
    for an accepted block.  The block is [fine]: its work is valid, its digest
    collides with no other and it is no state block after the head of another
    account, on which the source fails an assertion. *)
Theorem receive_one_effect n X b s :
  node_ok n → waiting n X → store_rel (store (n_ledger n)) s → fine n b →
  ∃ r n' X', process_receive_one b n = Done (r, n') ∧ received n X b s r n' X'.
Proof.
  intros Hn HX Hs Hf. destruct (ok_ledger _ Hn) as (s0 & g & hist & Hs0 & HI & _).
  pose proof (store_rel_unique _ _ _ Hs Hs0) as <-.
  pose proof (wp_process_receive_one n X b s g hist Hn HX Hs HI Hf) as (r & n' & Hr & X' & Hx)%wp_run. eauto.
Qed.

(** ** One round *)

Lemma wp_done {A B} (m : M node A) (f : A → M node B) n a n' (Q : B → node → Prop) :
  m n = Done (a, n') → wp (m ≫= f) n Q ↔ wp (f a) n' Q.
Proof. intros Hm. unfold wp, mbind, M_bind. by rewrite Hm. Qed.

(** The conditions hold in each of the next [k] rounds. *)
Fixpoint calm (k : nat) n : Prop :=
  match k with
  | O => True
  | Datatypes.S k =>
      match take_block n with
      | Done (Some (b, forced), n1) =>
          (if forced : bool then replaceable n1 b else True) ∧
          match (if forced : bool then replace_successor b else mret tt) n1 with
          | Done (_, n2) => fine n2 b ∧
              match process_receive_one b n2 with Done (_, n3) => calm k n3 | Fault _ => True end
          | Fault _ => True
          end
      | _ => True
      end
  end.

(** A bound on the rounds that empty the queue: a block put aside leaves the
    queue, any other one also leaves the blocks that wait. *)
Definition rounds_bound n X : nat :=
  let mu := (length (queued n) + length X)%nat in (length (queued n) + mu * mu)%nat.

Lemma take_block_run n : take_block n =
  match bp_forced (n_block_processor n), bp_blocks (n_block_processor n) with
  | b :: forced, blocks => Done (Some (b, true), set_block_processor (Block_processor blocks forced (bp_stopped (n_block_processor n))) n)
  | [], b :: blocks => Done (Some (b, false), set_block_processor (Block_processor blocks [] (bp_stopped (n_block_processor n))) n)
  | [], [] => Done (None, n)
  end.
Proof. unfold take_block, mbind, M_bind, gets. by destruct (bp_forced _), (bp_blocks _). Qed.

(** The state after the block in front is taken. *)
Definition took n b n1 : Prop :=
  node_ok n1 ∧ length (queued n) = Datatypes.S (length (queued n1)) ∧ n_ledger n1 = n_ledger n ∧
  bp_stopped (n_block_processor n1) = bp_stopped (n_block_processor n) ∧ b ∈ queued n.

Lemma take_block_cases n : node_ok n →
  (queued n = [] ∧ take_block n = Done (None, n)) ∨
  ∃ b forced n1, take_block n = Done (Some (b, forced), n1) ∧ took n b n1.
Proof.
  intros Hn. rewrite take_block_run. unfold took, queued. pose proof (ok_queue _ Hn) as Hq.
  destruct (bp_forced (n_block_processor n)) as [|b forced]; [destruct (bp_blocks (n_block_processor n)) as [|b blocks]|].
  - by left.
  - right. eexists b, false, _. split_and!; [done|apply ok_set_blocks; [done|]|done..|set_solver].
    intros b' Hb'. apply Hq. by right.
  - right. eexists b, true, _. split_and!; [done|by apply ok_set_blocks|done..|set_solver].
Qed.

(** A round lowers the bound. *)
Lemma round_bound q q' x x' mu : (mu = Datatypes.S q + x)%nat →
  (q' = q ∧ x' ≤ Datatypes.S x ∨ q' + x' = q + x)%nat →
  (q' + (q' + x') * (q' + x') < Datatypes.S q + mu * mu)%nat.
Proof. intros -> [[-> Hx]|Hs]; nia. Qed.

Lemma handled_lengths n X b r n' X' : bp_forced (n_block_processor n') = bp_forced (n_block_processor n) →
  handled n X b r n' X' →
  length (queued n') = length (queued n) ∧ (length X' ≤ Datatypes.S (length X))%nat ∨
  (length (queued n') + length X' = length (queued n) + length X)%nat.
Proof.
  intros Hf Hh. assert (Ha : ∀ h, put_aside n X h b n' X' →
    length (queued n') = length (queued n) ∧ (length X' ≤ Datatypes.S (length X))%nat).
  { intros h [-> [[-> _]|[-> _]]]; simpl; split; [done|lia|done|lia]. }
  unfold handled in Hh. destruct r; try (left; eapply Ha, Hh); try (left; destruct Hh as [-> ->]; split; [done|lia]).
  all: right; destruct Hh as (bs & HP & _ & Hb); unfold queued;
    rewrite Hb, HP, Hf, !length_app, length_map, length_rev; lia.
Qed.

Lemma vacate_run n b forced : node_ok n → (if forced : bool then replaceable n b else True) →
  ∃ n', (if forced then replace_successor b else mret tt) n = Done (tt, n') ∧ node_ok n' ∧
    n_block_processor n' = n_block_processor n ∧
    ∀ h b', waits (store (n_ledger n')) h b' ↔ waits (store (n_ledger n)) h b'.
Proof.
  intros Hn Hb. destruct forced; [|exists n; by split_and!]. destruct (ok_store_rel _ Hn) as [s Hs].
  pose proof (wp_replace_successor n b s Hn Hs Hb) as ([] & n' & Hr & s' & [])%wp_run.
  exists n'. by split_and!.
Qed.

Lemma wp_process_next n X k : node_ok n → waiting n X → calm (Datatypes.S k) n →
  wp process_next n (λ more n', node_ok n' ∧ bp_stopped (n_block_processor n') = bp_stopped (n_block_processor n) ∧
    if more : bool then ∃ X', waiting n' X' ∧ calm k n' ∧ (rounds_bound n' X' < rounds_bound n X)%nat
    else queued n = [] ∧ n' = n).
Proof.
  intros Hn HX Hc. unfold process_next. cbn [calm] in Hc. apply wp_bind.
  destruct (take_block_cases n Hn) as [[Hq Ht]|(b & forced & n1 & Ht & Hn1 & Hlen & Hl & Hsp & _)];
    unfold wp at 1; rewrite Ht in *; [by apply wp_ret|]. destruct Hc as [Hf Hc].
  destruct (vacate_run n1 b forced Hn1 Hf) as (n2 & Hrun & Hn2 & Hp2 & Hw2).
  rewrite Hrun in Hc. destruct Hc as [Hfine Hc]. apply (wp_done _ _ _ _ _ _ Hrun).
  destruct (ok_ledger _ Hn2) as (s & g & hist & Hs & HI & _).
  assert (HX2 : waiting n2 X) by (eapply waiting_same; [|exact HX]; intros h b'; by rewrite Hw2, Hl).
  pose proof (wp_process_receive_one n2 X b s g hist Hn2 HX2 Hs HI Hfine) as Hw.
  apply wp_run in Hw as (r & n3 & Hr & X3 & Hn3 & Hf3 & Hsp3 & HX3 & _ & Hh & _). rewrite Hr in Hc.
  apply (wp_done _ _ _ _ _ _ Hr). apply wp_ret. split_and!; [done|by rewrite Hsp3, Hp2|].
  exists X3. split_and!; [done..|]. apply (handled_lengths _ _ _ _ _ _ Hf3) in Hh.
  assert (Hq2 : queued n2 = queued n1) by (unfold queued; by rewrite Hp2). rewrite Hq2 in Hh.
  unfold rounds_bound. rewrite Hlen. by eapply round_bound.
Qed.

(** ** The thread *)

(** Rounds left: enough to empty the queue, all of them calm. *)
Definition draining k n X : Prop :=
  node_ok n ∧ waiting n X ∧ calm k n ∧ (rounds_bound n X ≤ k)%nat.

Lemma draining_empty n X : draining 0 n X → queued n = [].
Proof. intros (_ & _ & _ & Hb). unfold rounds_bound in Hb. apply nil_length_inv. lia. Qed.

Lemma calm_empty k n : node_ok n → queued n = [] → calm k n.
Proof.
  intros Hn Hq. destruct k; [done|]. cbn [calm]. rewrite take_block_run. unfold queued in Hq.
  apply app_eq_nil in Hq as [-> ->]. done.
Qed.

Lemma wp_process_rounds count k n X : draining k n X →
  wp (process_rounds count) n (λ _ n', bp_stopped (n_block_processor n') = bp_stopped (n_block_processor n) ∧
    ∃ k' X', draining k' n' X' ∧ (k' ≤ k)%nat ∧ (queued n ≠ [] → (0 < count)%nat → (k' < k)%nat)).
Proof.
  revert k n X. induction count as [|count IH]; intros k n X Hd.
  { apply wp_ret. split; [done|]. exists k, X. split_and!; [done..|lia]. }
  cbn [process_rounds]. apply wp_bind. pose proof Hd as (Hn & HX & Hc & Hb). destruct k as [|k].
  - pose proof (draining_empty _ _ Hd) as Hq.
    eapply wp_mono; [eapply (wp_process_next n X 0); [done..|by apply calm_empty]|].
    intros [] n' (Hn' & Hs & Hm); [|].
    + destruct Hm as (X' & _ & _ & Hlt). lia.
    + destruct Hm as [_ ->]. apply wp_ret. split; [done|]. exists 0%nat, X. by split_and!.
  - eapply wp_mono; [by eapply (wp_process_next n X k)|]. intros [] n' (Hn' & Hs & Hm).
    + destruct Hm as (X' & HX' & Hc' & Hlt). eapply wp_mono; [apply (IH k n' X'); split_and!; [done..|lia]|].
      intros [] n2 (Hs2 & k2 & X2 & Hd2 & Hle & _). split; [congruence|]. exists k2, X2. split_and!; [done|lia..].
    + destruct Hm as [Hq ->]. apply wp_ret. split; [done|]. exists (Datatypes.S k), X. by split_and!.
Qed.

Lemma have_blocks_run n : have_blocks n = Done (negb (bool_decide (queued n = [])), n).
Proof.
  unfold have_blocks, gets, queued. do 2 f_equal. destruct (bp_forced _), (bp_blocks _); done.
Qed.

Lemma wp_process_blocks calls k n X : draining k n X → bp_stopped (n_block_processor n) = false →
  (k ≤ calls)%nat → wp (process_blocks calls) n (λ _ n', queued n' = [] ∧ node_ok n').
Proof.
  revert k n X. induction calls as [|calls IH]; intros k n X Hd Hs Hle.
  - assert (k = 0%nat) as -> by lia. apply wp_ret. split; [by eapply draining_empty|apply Hd].
  - cbn [process_blocks]. apply wp_bind, wp_gets. rewrite Hs. apply wp_bind.
    unfold wp at 1. rewrite have_blocks_run. case_bool_decide as Hq; simpl.
    { apply wp_ret. split; [done|apply Hd]. }
    apply wp_bind. eapply wp_mono; [by apply (wp_process_rounds (Z.to_nat 16384) k n X)|].
    intros [] n' (Hs' & k' & X' & Hd' & _ & Hlt). apply (IH k' n' X'); [done|congruence|].
    specialize (Hlt Hq ltac:(lia)). lia.
Qed.

(** ** Blocks taken

    The turns of the thread are rounds that follow each other, and a round on
    an empty queue does nothing. *)

Lemma process_next_empty n : queued n = [] → process_next n = Done (false, n).
Proof.
  unfold queued. intros [Hf Hb]%app_eq_nil. unfold process_next.
  assert (Ht : take_block n = Done (None, n)) by (rewrite take_block_run; by rewrite Hf, Hb).
  unfold mbind at 1, M_bind at 1. by rewrite Ht.
Qed.
Lemma process_rounds_empty k n : queued n = [] → process_rounds k n = Done (tt, n).
Proof.
  intros Hq. destruct k; [done|]. cbn [process_rounds]. unfold mbind at 1, M_bind at 1. by rewrite process_next_empty.
Qed.
Lemma process_next_stop n n' : process_next n = Done (false, n') → queued n = [] ∧ n' = n.
Proof.
  destruct (decide (queued n = [])) as [Hq|Hq]; [rewrite process_next_empty by done; by intros [= <-]|].
  unfold process_next, mbind, M_bind. rewrite take_block_run. unfold queued in Hq.
  destruct (bp_forced _) as [|b l]; [destruct (bp_blocks _) as [|b l]; [done|]|]; cbn beta iota.
  - simpl. by destruct (process_receive_one _ _) as [[]|].
  - destruct (replace_successor _ _) as [[[] ?]|]; [|done]. by destruct (process_receive_one _ _) as [[]|].
Qed.

Lemma process_rounds_add (a k : nat) n n1 : process_rounds a n = Done (tt, n1) → process_rounds (a + k) n = process_rounds k n1.
Proof.
  revert n. induction a as [|a IH]; intros n; [by intros [= ->]|]. simpl. unfold mbind, M_bind.
  destruct (process_next n) as [[[] n2]|] eqn:E; [apply IH| |done].
  intros [= ->]. apply process_next_stop in E as [Hq ->]. by rewrite process_rounds_empty.
Qed.
Lemma process_blocks_rounds calls n n' : process_blocks calls n = Done (tt, n') → ∃ m, process_rounds m n = Done (tt, n').
Proof.
  revert n. induction calls as [|calls IH]; intros n; [exists 0%nat; done|]. cbn [process_blocks]. unfold mbind, M_bind, gets.
  destruct (bp_stopped _); [exists 0%nat; done|]. rewrite have_blocks_run.
  destruct (negb _); [|exists 0%nat; done]. unfold process_receive_many.
  destruct (process_rounds (Z.to_nat 16384) n) as [[[] n1]|] eqn:E; [|done]. intros (m & Hm)%IH.
  exists (Z.to_nat 16384 + m)%nat. by rewrite (process_rounds_add _ _ _ _ E).
Qed.

(** As many rounds as the bound says empty the queue. *)
Lemma wp_rounds_drain k n X : draining k n X → wp (process_rounds k) n (λ _ n', queued n' = []).
Proof.
  revert n X. induction k as [|k IH]; intros n X Hd; [by eapply wp_ret, draining_empty|].
  destruct Hd as (Hn & HX & Hc & Hb). cbn [process_rounds]. apply wp_bind.
  eapply wp_mono; [by eapply (wp_process_next n X k)|]. intros [] n' (Hn' & _ & Hm).
  - destruct Hm as (X' & HX' & Hc' & Hlt). apply (IH n' X'). split_and!; [done..|lia].
  - destruct Hm as [Hq ->]. by apply wp_ret.
Qed.

(** C10: left alone, the thread of the block processor empties its
    queues.  With [q] blocks queued and [w] blocks waiting for others, it does
    so by taking at most [q + (q + w)^2] blocks, however many it takes in a
    turn of its loop: a block is handed to the ledger again only when the
    block it waited for was accepted or was known.  The blocks taken are
    [calm]: none is a state block after the head of another account, a forced
    one is no rival of the genesis block, digests do not collide. *)
Theorem queue_drains n X calls :
  node_ok n → waiting n X → bp_stopped (n_block_processor n) = false →
  calm (rounds_bound n X) n → (rounds_bound n X ≤ calls)%nat →
  ∃ n', process_rounds (rounds_bound n X) n = Done (tt, n') ∧ queued n' = [] ∧
    process_blocks calls n = Done (tt, n') ∧ node_ok n'.
Proof.
  intros Hn HX Hs Hc Hle. assert (Hd : draining (rounds_bound n X) n X) by done.
  pose proof (wp_process_blocks calls _ n X Hd Hs Hle) as ([] & n1 & Hb & Hq1 & Hn1)%wp_run.
  pose proof (wp_rounds_drain _ n X Hd) as ([] & n2 & Hr & Hq2)%wp_run.
  destruct (process_blocks_rounds _ _ _ Hb) as [m Hm]. assert (n1 = n2) as <-; [|by exists n1].
  pose proof (process_rounds_add m (rounds_bound n X) n n1 Hm) as E1.
  pose proof (process_rounds_add (rounds_bound n X) m n n2 Hr) as E2.
  rewrite (process_rounds_empty _ n1 Hq1) in E1. rewrite (process_rounds_empty _ n2 Hq2), Nat.add_comm, E1 in E2. congruence.
Qed.
End drain.
