(* ===== verification/NodeReceive.v ===== *)
(** * Datagrams and posted functions keep the invariant *)

From S2P Require Import Prelude Crypto Blocks Common Stats Store Ledger Votes Lmdb Versioning.
From S2P Require Import BlockStore Messages MultiIndex Node Peers NodeCaches Sending Elections BlockProcessor.
From S2P Require Import Receiving StoreLemmas LedgerInv Accounts Commit Cascade Reach Accept Queries.
From S2P Require Import VoteProps StoreRefine StoreCaches MessageProps.
From S2P Require Import NodeFrame NodeLedger NodeOk NodeQuiet NodeSends NodePeers NodeElections NodeSafe NodeAnnounce.
From S2P Require Import NodeProcessor NodeDrain.

Section receive.
Context `{NodeConfig, LmdbSpec, RandomPool, MultiIndex, Unordered, Wallets, !ReadableWallets}.
Context `{Blake2b, Ed25519, LedgerConstants}.
Implicit Types (n : node) (b : block) (c : block_store) (s : astore) (h : u256) (e : endpoint).

(** ** Messages *)

Lemma safe_processor_add b n : node_ok n → valid_work b → safe (processor_add b) n.
Proof.
  intros Hn Hv. apply wp_processor_add; [done|]. apply ok_set_blocks; [done|].
  intros b' [->|Hb']%elem_of_cons; [done|]. by apply (ok_queue _ Hn).
Qed.
Lemma safe_process_active b n : node_ok n → valid_work b → safe (process_active b) n.
Proof.
  intros Hn Hv. unfold process_active. eapply safe_bind; [by apply safe_arrival_add|].
  intros [] n1 Hn1; [by apply safe_ret|by apply safe_processor_add].
Qed.

Lemma safe_count_in d n : node_ok n → safe (count_in d) n.
Proof. intros Hn. by eapply qwp_safe, qwp_stats. Qed.

Lemma safe_heard_from e v n : node_ok n → version6 e → safe (heard_from e v) n.
Proof. intros Hn He. by eapply qwp_safe, qwp_heard_from. Qed.

Lemma safe_confirm_req_answer b e n : node_ok n →
  safe (x ← on_ledger (λ _, successor (block_root b));
        match x with Some x => confirm_block [e] x;; mret tt | None => mret tt end) n.
Proof.
  intros Hn. destruct (ok_ledger _ Hn) as (s & g & hist & Hs & HI & _). apply wp_bind.
  apply (wp_query _ (λ _, successor (block_root b)) n s); [intros _ x; by apply sim_successor; apply _|done..|].
  apply (wp_successor (abs (n_ledger n) s) g hist HI). split; [done|]. intros n1 Hst.
  destruct (at_root _ _); [|apply safe_ret, Hst]. eapply safe_bind; [|by intros; apply safe_ret].
  eapply qwp_safe; [apply Hst|apply qwp_confirm_block, Hst].
Qed.

(** What the parser promises of a message. *)
Definition message_ok (m : message) : Prop :=
  match m with
  | Keepalive l => ∀ e, e ∈ l → version6 e
  | Publish b | Confirm_req b => valid_work b
  | Confirm_ack v => valid_work (v_block v)
  | _ => False
  end.

Lemma safe_visit_message sender hd m n : node_ok n → version6 sender → message_ok m →
  safe (visit_message sender hd m) n.
Proof.
  intros Hn Hs Hm. unfold visit_message. destruct m; try done; simpl in Hm.
  all: eapply safe_bind; [by apply safe_count_in|]; intros [] n1 Hn1.
  - eapply safe_bind; [by eapply qwp_safe, qwp_contacted|]. intros [] n2 Hn2. by eapply qwp_safe, qwp_merge_peers.
  - eapply safe_bind; [by apply safe_heard_from|]. intros [] n2 Hn2. by apply safe_process_active.
  - eapply safe_bind; [by apply safe_heard_from|]. intros [] n2 Hn2.
    eapply safe_bind; [by apply safe_process_active|]. intros [] n3 Hn3. by apply safe_confirm_req_answer.
  - eapply safe_bind; [by apply safe_heard_from|]. intros [] n2 Hn2.
    eapply safe_bind; [by apply safe_process_active|]. intros [] n3 Hn3.
    eapply safe_bind; [by apply safe_vote_processor_vote|]. intros r n4 Hn4. by apply safe_ret.
Qed.

Lemma parsed_ok buffer r hd m : deserialize_buffer badem_network buffer = Done (r, Some (hd, m)) → message_ok m.
Proof.
  intros (_ & Hk & [_ Ha] & Hw & _)%parser_sound. unfold valid_work. destruct m; simpl in *; try done.
  destruct Ha as [_ Ha]. by rewrite Forall_forall in Ha.
Qed.

(** ** Datagrams *)

Lemma safe_receive_action error on remote buffer r n : node_ok n → version6 remote →
  deserialize_buffer badem_network buffer = Done r → safe (receive_action error on remote buffer) n.
Proof.
  intros Hn Hv Hp. unfold receive_action. destruct (negb error && on); simpl.
  - destruct (reserved_address_run remote Hv) as [reserved Hr].
    apply wp_bind. eapply wp_lift_outcome; [exact Hr|].
    eapply safe_bind; [|intros [] n1 Hn1; by eapply qwp_safe, qwp_emit].
    destruct (negb reserved && _); [|by eapply qwp_safe, qwp_stats].
    apply wp_bind. eapply wp_lift_outcome; [exact Hp|]. destruct r as [st o]. cbn [fst snd].
    eapply safe_bind.
    + destruct o as [[hd m]|]; [|by apply safe_ret]. apply safe_visit_message; [done..|]. by eapply parsed_ok.
    + intros [] n1 Hn1. destruct st; try by eapply qwp_safe, qwp_stats.
      eapply safe_bind; [by eapply qwp_safe, qwp_stats|]. intros [] n2 Hn2. by eapply qwp_safe, qwp_stats.
  - destruct on; [|by apply safe_ret]. eapply safe_bind_q; [done|apply qwp_now|]. intros t n1 Hn1 _ _.
    by eapply qwp_safe, qwp_alarm.
Qed.

(** ** Confirmed blocks *)

(** The block stored under the digest of a block is that block. *)
Definition genuine n b : Prop := ∀ s b' sc, store_rel (store (n_ledger n)) s →
  a_lookup s (block_hash b) = Some (b', sc) → b' = b.

Lemma stays_scan_wallets items b account n s : node_ok n → store_rel (store (n_ledger n)) s →
  is_Some (a_lookup s (block_hash b)) → wp (scan_wallets items b account) n (λ _, stays n).
Proof.
  intros Hn Hs Hb. revert n Hn Hs. induction items as [|w items IH]; intros n Hn Hs; cbn [scan_wallets].
  { by apply wp_ret, stays_refl. }
  apply wp_bind. eapply (wp_mono _ _ (λ _, stays n)).
  - case_bool_decide; [|by apply wp_ret, stays_refl]. apply wp_bind.
    eapply wp_store_read; [apply reads_pending_get|exact (sim_read_run _ _ _ _ (pending_get_sim _) Hs)|].
    destruct (a_pending s !! _).
    + eapply wp_mono; [by apply qwp_emit|]. intros [] n' [Hq _]. by apply quiet_stays.
    + apply wp_bind. eapply wp_block_exists; [exact Hs|]. apply wp_assert; [by apply bool_decide_eq_true|].
      by apply stays_refl.
  - intros [] n1 Hst. eapply wp_mono; [apply IH; [apply Hst|by apply (st_rel _ _ Hst)]|].
    intros [] n2 Hst2. by eapply stays_trans.
Qed.

Lemma stays_emit o n : node_ok n → wp (emit o) n (λ _, stays n).
Proof. intros Hn. eapply wp_mono; [by apply qwp_emit|]. intros [] n' [Hq _]. by apply quiet_stays. Qed.

Lemma stays_next {A B} (m : M node A) (f : A → M node B) n n1 : stays n n1 →
  wp m n1 (λ _, stays n1) → (∀ a n2, stays n n2 → wp (f a) n2 (λ _, stays n)) → wp (m ≫= f) n1 (λ _, stays n).
Proof.
  intros Hst Hm Hf. apply wp_bind. eapply wp_mono; [exact Hm|]. intros a n2 Hst2. apply Hf. by eapply stays_trans.
Qed.

(** The queries about a stored block. *)
Lemma stays_owner n s g hist h m : node_ok n → store_rel (store (n_ledger n)) s → Inv s g hist → g !! h = Some m →
  wp (on_ledger (λ fuel, ledger_account fuel h)) n (λ a n', a = m_owner m ∧ stays n n').
Proof.
  intros Hn Hs HI Em. apply (wp_query _ (λ fuel, ledger_account fuel h) n s); [intros fuel x; by apply sim_ledger_account; apply _|done..|].
  eapply (wp_ledger_account (abs (n_ledger n) s) g hist); [exact HI|exact Em| |done].
  rewrite (abs_fuel _ _ Hs). unfold enough_fuel. simpl. lia.
Qed.
Lemma stays_amount n s g hist h b sc m : node_ok n → store_rel (store (n_ledger n)) s → Inv s g hist →
  a_lookup s h = Some (b, sc) → g !! h = Some m →
  wp (on_ledger (λ fuel, ledger_amount fuel h)) n (λ a n', a = U 16 (amount_of g b m) ∧ stays n n').
Proof.
  intros Hn Hs HI Eb Em. apply (wp_query _ (λ fuel, ledger_amount fuel h) n s); [intros fuel x; by apply sim_ledger_amount; apply _|done..|].
  eapply (wp_amount_of (abs (n_ledger n) s) g hist HI); [exact Eb|exact Em| |done].
  rewrite (abs_fuel _ _ Hs). unfold enough_fuel. simpl. lia.
Qed.
Lemma stays_is_send n s g hist t sc : node_ok n → store_rel (store (n_ledger n)) s → Inv s g hist →
  a_lookup s (block_hash (BState t)) = Some (BState t, sc) →
  wp (on_ledger (λ fuel, is_send fuel t)) n (λ a n', a = sends g (BState t) ∧ stays n n').
Proof.
  intros Hn Hs HI Eb. apply (wp_query _ (λ fuel, is_send fuel t) n s); [intros fuel x; by apply sim_is_send; apply _|done..|].
  destruct (inv_dom _ _ _ HI (block_hash (BState t))) as [[m Em] _]; [by rewrite Eb|].
  destruct (inv_block _ _ _ HI _ _ _ _ Eb Em) as (_ & _ & _ & _ & Hf & _). unfold follows in Hf. cbn [links block_previous] in Hf.
  apply (wp_is_send (abs (n_ledger n) s) g hist HI); [|rewrite (abs_fuel _ _ Hs); unfold enough_fuel; simpl; lia|done].
  cbn [store abs]. destruct (is_zero (th_previous (hashables t))) eqn:Hz; simpl in Hf.
  - left. by apply is_zero_true.
  - right. destruct Hf as (pb & pm & -> & _). eauto.
Qed.

Lemma stays_process_confirmed b n : node_ok n → genuine n b → wp (process_confirmed b) n (λ _, stays n).
Proof.
  intros Hn Hg. destruct (ok_ledger _ Hn) as (s & g & hist & Hs & HI & _). unfold process_confirmed.
  apply wp_bind. eapply wp_block_exists; [exact Hs|]. case_bool_decide as Hex; [|by apply wp_ret, stays_refl].
  pose proof Hex as [[b' sc] Eb]. pose proof (Hg _ _ _ Hs Eb) as ->.
  destruct (inv_dom _ _ _ HI (block_hash b)) as [[m Em] _]; [done|].
  eapply (stays_next _ _ n n); [by apply stays_refl| |intros [] n1 Hst1].
  { unfold confirmed_visit. destruct b; try (by apply wp_ret, stays_refl); by eapply stays_scan_wallets. }
  eapply (stays_next _ _ n n1); [done|eapply wp_mono; [eapply stays_owner; [apply Hst1|by apply (st_rel _ _ Hst1)|exact HI|exact Em]|by intros a n' [_ ?]]|intros account n2 Hst2].
  eapply (stays_next _ _ n n2); [done|eapply wp_mono; [eapply stays_amount; [apply Hst2|by apply (st_rel _ _ Hst2)|exact HI|exact Eb|exact Em]|by intros a n' [_ ?]]|intros amount_l n3 Hst3].
  eapply (stays_next _ _ n n3); [done| |intros [is_state_send dest] n4 Hst4].
  { destruct b as [| | | |t]; try (apply wp_ret, stays_refl, Hst3).
    apply wp_bind. eapply wp_mono; [eapply stays_is_send; [apply Hst3|by apply (st_rel _ _ Hst3)|exact HI|exact Eb]|].
    intros a n' [_ Hst']. by apply wp_ret. }
  eapply (stays_next _ _ n n4); [done|apply stays_emit, Hst4|intros [] n5 Hst5]. cbn [fst snd].
  destruct (negb (is_zero amount_l)); [|by apply wp_ret].
  eapply (stays_next _ _ n n5); [done|apply stays_emit, Hst5|intros [] n6 Hst6].
  destruct (negb (is_zero dest)); [|by apply wp_ret].
  eapply wp_mono; [apply stays_emit, Hst6|]. intros [] n7 Hst7. by eapply stays_trans.
Qed.

Lemma stays_safe {A} (m : M node A) n : wp m n (λ _, stays n) → safe m n.
Proof. intros Hm. eapply wp_mono; [exact Hm|]. intros a n' Hst. apply Hst. Qed.

(** ** Functions posted *)

Lemma safe_confirmation_run in_progress a n : node_ok n → safe (confirmation_run in_progress a) n.
Proof.
  intros Hn. destruct (ok_store_rel _ Hn) as [s Hs]. unfold confirmation_run.
  destruct a as [|root]; [by apply safe_ret|]. destruct in_progress; [|by apply safe_ret]. apply wp_bind.
  eapply wp_store_read; [apply reads_frontier_get|exact (sim_read_run _ _ _ _ (frontier_get_sim _) Hs)|].
  destruct (is_zero _); simpl; [|by eapply qwp_safe, qwp_emit]. apply wp_bind.
  eapply wp_store_read; [apply reads_account_exists|exact (sim_read_run _ _ _ _ (account_exists_sim _) Hs)|].
  destruct (bool_decide _); [by eapply qwp_safe, qwp_emit|by apply safe_ret].
Qed.

Lemma safe_flush n : node_ok n → safe (on_store flush) n.
Proof.
  intros Hn. destruct (votes_ok_known _ (ok_votes _ Hn)) as [V HV]. destruct (ok_waiting _ Hn) as (Hok & Ho & Hw).
  apply wp_on_store. eapply wp_mono; [by apply (wp_flush _ V)|]. intros [] c (_ & Hu & (T & HT & _) & Hok' & Hw' & Ht).
  apply ok_with_store; [done..|by exists T|]. split_and!; [done| |].
  - intros h. unfold waits_once, cached_unchecked. rewrite Hu, lookup_empty. simpl. split; [apply NoDup_nil_2|].
    by intros b ?%elem_of_nil.
  - intros h b Hb%Hw'. by eapply Hw.
Qed.

Definition task_genuine n (t : task) : Prop :=
  match t with Confirmed winner _ => genuine n winner | _ => True end.

Lemma safe_run_task in_progress on t n : node_ok n → task_ok (n_active n) t → task_genuine n t →
  safe (run_task in_progress on t) n.
Proof.
  intros Hn Ht Hg. unfold run_task. destruct t as [e|w a| | |h|h|b l d| | | |].
  - by apply safe_broadcast_winner.
  - eapply safe_bind; [by apply stays_safe, stays_process_confirmed|]. intros [] n1 Hn1. by apply safe_confirmation_run.
  - by apply safe_announce_votes.
  - by apply safe_recalculate_stake.
  - unfold rep_crawler_remove. apply wp_modify. eapply quiet_ok; [|exact Hn]. by constructor; auto.
  - destruct (ok_store_rel _ Hn) as [s Hs]. apply wp_bind. eapply wp_block_exists; [exact Hs|].
    case_bool_decide; [by apply safe_ret|by eapply qwp_safe, qwp_emit].
  - by eapply qwp_safe, qwp_confirm_req_base.
  - by eapply qwp_safe, qwp_ongoing_rep_crawl.
  - eapply safe_bind; [by apply safe_flush|]. intros [] n1 Hn1.
    eapply safe_bind_q; [done|apply qwp_now|]. intros t n2 Hn2 _ _. by eapply qwp_safe, qwp_alarm.
  - by eapply qwp_safe, qwp_ongoing_keepalive.
  - by eapply qwp_safe, qwp_emit.
Qed.

Lemma ok_set_service n l : node_ok n → (∀ t, t ∈ l → t ∈ n_service n) → node_ok (set_service l n).
Proof. intros [] Hl. constructor; try done. destruct ok_tasks as [Hs Ha]. split; [|done]. intros t Ht. by apply Hs, Hl. Qed.

Lemma safe_service_run in_progress on n : node_ok n →
  (∀ t l, n_service n = t :: l → task_genuine n t) → safe (service_run in_progress on) n.
Proof.
  intros Hn Hg. unfold service_run. apply wp_bind, wp_gets. destruct (n_service n) as [|t l] eqn:E; [by apply safe_ret|].
  apply wp_bind, wp_modify. eapply safe_bind; [|intros [] n' Hn'; by apply safe_ret].
  apply safe_run_task.
  - apply ok_set_service; [done|]. rewrite E. intros x Hx. by right.
  - apply (ok_tasks _ Hn). rewrite E. by left.
  - specialize (Hg _ _ eq_refl). by destruct t.
Qed.

Lemma safe_alarm_step n : node_ok n → safe alarm_step n.
Proof.
  intros Hn. unfold alarm_step. apply wp_bind, wp_gets. destruct (by_key fst (n_alarm n)) as [|[w t] rest] eqn:E; [by apply safe_ret|].
  pose proof (by_key_perm fst (n_alarm n)) as Hp. rewrite E in Hp.
  apply wp_bind, wp_now. destruct (_ <=? _); [|apply wp_ret; eapply quiet_ok; [apply quiet_steady|done]].
  apply wp_bind, wp_modify, wp_bind, wp_modify, wp_ret.
  destruct Hn. constructor; try done. destruct ok_tasks as [Hs Ha]. split; simpl.
  - intros x [Hx| ->%list_elem_of_singleton]%elem_of_app; [by apply Hs|]. apply alarm_task_ok, (Ha w).
    rewrite <-Hp. by left.
  - intros w' t' Hin. apply (Ha w'). rewrite <-Hp. by right.
Qed.
End receive.
