(* ===== verification/NodeReach.v ===== *)
(** * The node as a whole: what its threads do, in any order

    The threads of the node take steps that hold a lock or a transaction; the
    steps interleave in any order.  Whatever the order, the steps that are
    [expected] fail no assertion and keep the invariant. *)

From S2P Require Import Prelude Crypto Blocks Common Stats Store Ledger Votes Lmdb Versioning.
From S2P Require Import BlockStore Messages MultiIndex Node Peers NodeCaches Sending Elections BlockProcessor.
From S2P Require Import Receiving StoreLemmas LedgerInv Accounts Commit Cascade Reach Accept Queries.
From S2P Require Import VoteProps StoreRefine StoreCaches MessageProps.
From S2P Require Import NodeFrame NodeLedger NodeOk NodeQuiet NodeSends NodePeers NodeElections NodeSafe NodeAnnounce.
From S2P Require Import NodeProcessor NodeDrain NodeReceive.

(** A step of a thread: a datagram arrives, the service runs a function, the
    alarm posts one, the block processor takes a block, a bootstrap client
    delivers a block, an election is asked for, the name of a peer was
    resolved. *)
Inductive event : Set :=
| Datagram (error on : bool) (remote : endpoint) (buffer : bytes)
| Service (in_progress on : bool)
| Alarm
| Process_next
| Deliver (b : block)
| Block_confirm (b : block)
| Resolved (found : option (list endpoint)).

Section reach.
Context `{NodeConfig, LmdbSpec, RandomPool, MultiIndex, Unordered, Wallets, !ReadableWallets}.
Context `{Blake2b, Ed25519, LedgerConstants}.
Implicit Types (n : node).

Definition perform (ev : event) : M node unit :=
  match ev with
  | Datagram error on remote buffer => receive_action error on remote buffer
  | Service in_progress on => service_run in_progress on;; mret tt
  | Alarm => alarm_step;; mret tt
  | Process_next => process_next;; mret tt
  | Deliver b => processor_add b
  | Block_confirm b => block_confirm b
  | Resolved found => keepalive_resolved found
  end.

(** What the steps rely on.  The socket is of version 6; the parser is known
    to fail on some datagrams, and those are left out; so are confirmed blocks
    other than the one stored under their digest, and blocks of the queue that
    are not [fine] or, forced, not [replaceable]; a bootstrap client checks the
    work of a block. *)
Definition expected n (ev : event) : Prop :=
  match ev with
  | Datagram _ _ remote buffer => version6 remote ∧ ∃ r, deserialize_buffer badem_network buffer = Done r
  | Service _ _ => ∀ t l, n_service n = t :: l → task_genuine n t
  | Process_next => calm 1 n
  | Deliver b => valid_work b
  | Alarm | Block_confirm _ | Resolved _ => True
  end.

Inductive node_steps n : node → Prop :=
| steps_none : node_steps n n
| steps_one n1 n2 ev : node_steps n n1 → expected n1 ev → perform ev n1 = Done (tt, n2) → node_steps n n2.

Lemma safe_process_next n : node_ok n → calm 1 n → safe process_next n.
Proof.
  intros Hn Hc. destruct (waiting_exists n) as [X HX]; [apply (ok_waiting _ Hn)|].
  eapply wp_mono; [by apply (wp_process_next n X 0)|]. by intros more n' [? _].
Qed.

Lemma safe_perform ev n : node_ok n → expected n ev → safe (perform ev) n.
Proof.
  intros Hn He. destruct ev as [error on remote buffer|in_progress on| | |b|b|found]; simpl in *.
  - destruct He as [Hv [r Hr]]. by eapply safe_receive_action.
  - eapply safe_bind; [by apply safe_service_run|]. intros a n' Hn'. by apply safe_ret.
  - eapply safe_bind; [by apply safe_alarm_step|]. intros a n' Hn'. by apply safe_ret.
  - eapply safe_bind; [by apply safe_process_next|]. intros a n' Hn'. by apply safe_ret.
  - by apply safe_processor_add.
  - eapply safe_bind; [by apply safe_active_start|]. intros a n' Hn'. by eapply qwp_safe, qwp_broadcast_confirm_req.
  - by eapply qwp_safe, qwp_keepalive_resolved.
Qed.

Lemma node_steps_ok n n' : node_ok n → node_steps n n' → node_ok n'.
Proof.
  intros Hn. induction 1 as [|n1 n2 ev Hs IH He Hp]; [done|].
  pose proof (safe_perform ev n1 IH He) as Hw. unfold safe, wp in Hw. by rewrite Hp in Hw.
Qed.

(** C9: from a consistent state, after any sequence of expected steps
    of the node's threads in any order, the next expected step ends without a
    failed assertion and leaves a consistent state: the ledger is consistent,
    the peers are valid and distinct, every active root has its election, every
    block queued or waiting has valid work.  A step is [expected] when it is
    none of those the code is known to fail on or whose input it trusts: the
    remote address of a datagram is of version 6 and the parser does not fault
    on it ([parser_faults] says when it does); a confirmed block is the one
    stored under its digest; the block taken from the queue is no state block
    after the head of another account ([forked_block] asserts on it), its
    digest does not collide and, if forced, it is no rival of the genesis
    block; a block delivered by a bootstrap client has valid work.  The unlocked
    wallets hold no account that is only watched ([ReadableWallets]): the loop
    over the representatives asserts that their keys can be fetched. *)
Theorem node_never_fails n0 n ev :
  node_ok n0 → node_steps n0 n → expected n ev →
  ∃ n', perform ev n = Done (tt, n') ∧ node_ok n'.
Proof. intros Hn0 Hs He. apply wp_run_unit, safe_perform; [by eapply node_steps_ok|done]. Qed.

(** C30: every peer the node knows, whatever it received and from
    whom, has an address of version 6 that is neither unspecified nor
    reserved and is not the node itself, and no endpoint is listed twice. *)
Theorem peers_valid n0 n :
  node_ok n0 → node_steps n0 n →
  NoDup (pi_endpoint <$> peers (n_peers n)) ∧
  ∀ i, i ∈ peers (n_peers n) → not_a_peer (pi_endpoint i) = Done false.
Proof. intros Hn0 Hs. apply (ok_peers _ (node_steps_ok _ _ Hn0 Hs)). Qed.
End reach.
