(* ===== verification/BootstrapChains.v ===== *)
(** * What a bootstrap server sends

    The blocks between the head of an account and an earlier block, the
    accounts in order, as the store has them; and that the server, with enough
    steps, writes exactly those. *)

From S2P Require Import Prelude Crypto Blocks Common Stats Store Ledger Votes Lmdb Versioning.
From S2P Require Import BlockStore Messages MultiIndex Node Peers NodeCaches Sending Elections BlockProcessor.
From S2P Require Import BootstrapServer StoreLemmas LedgerInv Visitors Accounts StoreRefine.
From S2P Require Import NodeFrame NodeLedger NodeOk NodeQuiet NodeProcessor NodeReceive.

(** ** Chains *)

Section chains.
Context `{Blake2b, LedgerConstants}.
Context (s : astore) (g : gmap u256 meta) (hist : list u256).
Implicit Types (h e : u256) (b : block) (bs : list block).

(** The blocks from a hash back to another one, which is left out, or to the
    first block of the account. *)
Inductive chain_down e : u256 → list block → Prop :=
| chain_end : chain_down e e []
| chain_first h b sc : h ≠ e → a_lookup s h = Some (b, sc) → block_previous b = U 32 0 → chain_down e h [b]
| chain_next h b sc bs : h ≠ e → a_lookup s h = Some (b, sc) → block_previous b ≠ U 32 0 →
    chain_down e (block_previous b) bs → chain_down e h (b :: bs).

Context (HI : Inv s g hist).

Lemma links_previous h b sc : a_lookup s h = Some (b, sc) →
  if links b then block_previous b ≠ U 32 0 else block_previous b = U 32 0.
Proof.
  intros Eb. destruct (inv_dom _ _ _ HI h) as [[m Em] _]; [by rewrite Eb|].
  destruct (inv_block _ _ _ HI _ _ _ _ Eb Em) as (_ & _ & _ & _ & Hf & _). unfold follows in Hf.
  destruct (links b); [|by destruct Hf]. destruct Hf as (pb & pm & Ep & Epm & _).
  intros E0. rewrite E0 in Ep, Epm. by destruct (inv_block _ _ _ HI _ _ _ _ Ep Epm) as [? _].
Qed.

(** Every chain ends: a predecessor was accepted earlier. *)
Lemma chain_exists_rank k e h l1 l2 : hist = l1 ++ h :: l2 → (length l1 < k)%nat →
  ∃ bs, chain_down e h bs ∧ (length bs ≤ S (length l1))%nat.
Proof.
  revert h l1 l2. induction k as [|k IH]; intros h l1 l2 El Hk; [lia|].
  destruct (decide (h = e)) as [->|Hne]; [exists []; split; [constructor|simpl; lia]|].
  assert (is_Some (g !! h)) as [m Em] by (apply (inv_hist _ _ _ HI); rewrite El; set_solver).
  destruct (meta_block _ _ _ HI _ _ Em) as (b & sc & Eb). pose proof (links_previous _ _ _ Eb) as Hl.
  destruct (links b) eqn:Hlb.
  - destruct (inv_order _ _ _ HI _ _ _ _ _ El Eb) as [Hp _].
    destruct (hist_rank _ _ _ HI _ _ _ _ El (Hp Hlb)) as (k1 & k2 & Ek & Hlt & _).
    destruct (IH _ _ _ Ek) as (bs & Hc & Hb); [lia|]. exists (b :: bs). split; [by econstructor|simpl; lia].
  - exists [b]. split; [by eapply chain_first|simpl; lia].
Qed.
Lemma chain_exists e h : is_Some (a_lookup s h) → ∃ bs, chain_down e h bs ∧ (length bs ≤ size (a_blocks s))%nat.
Proof.
  intros Hh%(inv_dom _ _ _ HI). destruct (hist_split _ _ _ HI _ Hh) as (l1 & l2 & El).
  destruct (chain_exists_rank (S (length l1)) e h l1 l2 El) as (bs & Hc & Hl); [lia|].
  exists bs. split; [done|]. rewrite <-(inv_size _ _ _ HI), El, length_app. simpl. lia.
Qed.

(** From the head of an account the chain passes every block of the account. *)
Lemma chain_up k e h bs l1 l2 m : hist = l1 ++ h :: l2 → (length l2 < k)%nat → (e = h ∨ e ∈ l1) →
  g !! h = Some m → chain_down e h bs → (∀ b, last bs = Some b → block_previous b = e) →
  ∃ i bs', a_accounts s !! m_owner m = Some i ∧ chain_down e (head i) bs' ∧
    ∀ b, last bs' = Some b → block_previous b = e.
Proof.
  revert h bs l1 l2 m. induction k as [|k IH]; intros h bs l1 l2 m El Hk He Em Hc Hlast; [lia|].
  destruct (meta_block _ _ _ HI _ _ Em) as (b & sc & Eb).
  destruct (inv_succ _ _ _ HI _ _ _ _ Eb Em) as [(_ & i & Ei & <-)|(b' & sc' & Eb' & Hlb & Hp)]; [eauto|].
  destruct (inv_dom _ _ _ HI sc) as [[m' Em'] _]; [by rewrite Eb'|].
  destruct (hist_split _ _ _ HI sc) as (k1 & k2 & Ek); [eauto|].
  destruct (inv_order _ _ _ HI _ _ _ _ _ Ek Eb') as [Hpre _]. specialize (Hpre Hlb). rewrite Hp in Hpre.
  destruct (NoDup_before _ _ _ _ _ _ _ (inv_nodup _ _ _ HI) El Ek Hpre) as (q & -> & Hk1).
  rewrite length_app in Hk. simpl in Hk.
  destruct (inv_block _ _ _ HI _ _ _ _ Eb' Em') as (_ & _ & _ & _ & Hf & _).
  unfold follows in Hf. rewrite Hlb, Hp in Hf. destruct Hf as (? & pm & _ & Epm & _ & Ho & _).
  assert (pm = m) as -> by congruence.
  rewrite <-Ho. assert (Hin : e ∈ l1 ++ h :: q) by (destruct He as [->|?]; set_solver).
  eapply (IH sc (b' :: bs) (l1 ++ h :: q) k2 m'); [by rewrite <-Hk1|lia|by right|done| |].
  - pose proof (links_previous _ _ _ Eb') as Hz. rewrite Hlb in Hz.
    econstructor; [|exact Eb'|exact Hz|by rewrite Hp]. intros ->.
    pose proof (inv_nodup _ _ _ HI) as Hnd. rewrite Ek, Hk1 in Hnd.
    apply NoDup_app in Hnd as (_ & Hd & _). apply (Hd _ Hin). by left.
  - destruct bs as [|b0 bs]; simpl; [|done]. intros ? [= <-]. inversion Hc; congruence.
Qed.
Lemma chain_to e m : g !! e = Some m → ∃ i bs, a_accounts s !! m_owner m = Some i ∧
  chain_down e (head i) bs ∧ ∀ b, last bs = Some b → block_previous b = e.
Proof.
  intros Em. destruct (hist_split _ _ _ HI e) as (l1 & l2 & El); [eauto|].
  eapply (chain_up (S (length l2)) e e []); [done|lia|by left|done|constructor|done].
Qed.

Lemma chain_det e h bs bs' : chain_down e h bs → chain_down e h bs' → bs = bs'.
Proof.
  intros Hc. revert bs'. induction Hc as [|h b sc Hne Eb Hp|h b sc bs Hne Eb Hp Hc IH]; intros bs' Hc'.
  - by inversion Hc'.
  - inversion Hc'; congruence.
  - inversion Hc'; simplify_eq; f_equal; auto.
Qed.
Lemma chain_stored e h bs : chain_down e h bs → ∀ b, b ∈ bs → ∃ sc, a_lookup s (block_hash b) = Some (b, sc).
Proof.
  assert (Hh : ∀ h b sc, a_lookup s h = Some (b, sc) → ∃ sc, a_lookup s (block_hash b) = Some (b, sc)).
  { intros h' b sc Eb. exists sc. by rewrite (wf_lookup_hash _ _ _ _ (inv_wf _ _ _ HI) Eb). }
  induction 1; intros b' Hb'; [by apply elem_of_nil in Hb'|apply list_elem_of_singleton in Hb' as ->; eauto|].
  apply elem_of_cons in Hb' as [->|]; eauto.
Qed.
End chains.

(** ** Accounts in order *)

Section accounts.
Context {V : Type}.
Implicit Types (m : gmap u256 V) (l : list (u256 * V)) (x : u256).

Definition key_lt (p q : u256 * V) : Prop := uval p.1 < uval q.1.

Lemma elem_of_cursor a m x v : (x, v) ∈ cursor hash_le a m ↔ m !! x = Some v ∧ uval a ≤ uval x.
Proof.
  unfold cursor. rewrite merge_sort_Permutation, elem_of_map_to_list. by rewrite map_lookup_filter_Some.
Qed.
Lemma NoDup_cursor a m : NoDup (cursor hash_le a m).*1.
Proof. unfold cursor. rewrite merge_sort_Permutation. apply NoDup_fst_map_to_list. Qed.

Lemma sorted_strict l : StronglySorted (entry_le hash_le) l → NoDup l.*1 → StronglySorted key_lt l.
Proof.
  induction 1 as [|[x v] l Hs IH Ha]; intros Hn; [constructor|]. apply NoDup_cons in Hn as [Hx Hn].
  constructor; [auto|]. rewrite Forall_forall in *. intros [y w] Hy. specialize (Ha _ Hy).
  unfold entry_le, hash_le, key_lt in *. simpl in *.
  assert (uval x ≠ uval y); [|lia]. intros E%uval_inj. apply Hx. subst. apply list_elem_of_fmap. by exists (y, w).
Qed.
Lemma cursor_sorted a m : StronglySorted key_lt (cursor hash_le a m).
Proof.
  apply sorted_strict; [|apply NoDup_cursor]. unfold cursor.
  assert (Transitive (entry_le (V:=V) hash_le)) by (intros p q r; unfold entry_le, hash_le; lia).
  assert (Total (entry_le (V:=V) hash_le)) by (intros p q; unfold entry_le, hash_le; lia).
  apply (StronglySorted_merge_sort _).
Qed.
Lemma sorted_unique l l' : StronglySorted key_lt l → StronglySorted key_lt l' →
  (∀ p, p ∈ l ↔ p ∈ l') → l = l'.
Proof.
  intros Hs Hs' Hp. eapply (StronglySorted_unique_strong key_lt); [|done..|].
  - unfold key_lt. intros p q _ _. lia.
  - apply NoDup_Permutation; [| |done].
    all: match goal with Hx : StronglySorted _ ?k |- NoDup ?k => revert Hx end.
    all: clear; induction 1 as [|p l Hs IH Ha]; constructor; [|done].
    all: intros Hp; rewrite Forall_forall in Ha; specialize (Ha _ Hp); unfold key_lt in Ha; lia.
Qed.

(** The position after the first account. *)
Lemma cursor_after a m x v l : cursor hash_le a m = (x, v) :: l → uval x < 2 ^ 256 - 1 →
  cursor hash_le (u_add x (U 32 1)) m = l.
Proof.
  intros Hc Hx. pose proof (cursor_sorted a m) as Hs. rewrite Hc in Hs. apply StronglySorted_inv in Hs as [Hs Ha].
  rewrite Forall_forall in Ha.
  apply sorted_unique; [apply cursor_sorted|done|]. intros [y w]. rewrite elem_of_cursor.
  assert (Hy : (y, w) ∈ (x, v) :: l ↔ m !! y = Some w ∧ uval a ≤ uval y) by (by rewrite <-Hc, elem_of_cursor).
  rewrite elem_of_cons in Hy. pose proof (uval_range x) as Hr.
  assert (E1 : uval (U 32 1) = 1) by (apply uval_U_small; vm_compute; intuition congruence).
  assert (Ex : uval (u_add x (U 32 1)) = uval x + 1).
  { assert (Em : modulus 32 = 2 ^ 256) by reflexivity. rewrite uval_add_small; rewrite E1; [done|lia]. }
  rewrite Ex. assert (Hax : uval a ≤ uval x).
  { apply (elem_of_cursor a m x v). rewrite Hc. by left. }
  split.
  - intros [Hm Hle]. destruct (proj2 Hy) as [[= -> ->]|]; [split; [done|lia]|lia|done].
  - intros Hin. specialize (Ha _ Hin). unfold key_lt in Ha. simpl in Ha.
    destruct (proj1 Hy) as [Hm _]; [by right|]. split; [done|lia].
Qed.
Lemma cursor_all m x v : (x, v) ∈ cursor hash_le (U 32 0) m ↔ m !! x = Some v.
Proof. rewrite elem_of_cursor, uval_zero. pose proof (uval_range x). intuition lia. Qed.
Lemma length_cursor a m : (length (cursor hash_le a m) ≤ size m)%nat.
Proof.
  unfold cursor. rewrite (Permutation_length (merge_sort_Permutation _ _)), length_map_to_list.
  apply map_size_filter.
Qed.
End accounts.
