(* ===== verification/BootstrapServed.v ===== *)
(** * The answers of a bootstrap server

    Whatever is asked of it, the server ends its answer without a failed
    assertion and leaves the ledger and the queues as they are; what it writes
    is the chain asked for, or the frontiers of all accounts. *)

From S2P Require Import Prelude Crypto Blocks Common Stats Store Ledger Votes Lmdb Versioning BlockStore Messages.
From S2P Require Import MultiIndex Node Peers NodeCaches Sending Elections BlockProcessor BootstrapServer StoreLemmas.
From S2P Require Import LedgerInv Visitors Accounts StoreRefine MessageProps NodeFrame NodeLedger NodeOk.
From S2P Require Import NodeQuiet NodeProcessor NodeReceive BootstrapChains NodeElections NodeSafe.

Section answers.
Context `{NodeConfig, LmdbSpec, RandomPool, MultiIndex, Unordered, Wallets, !ReadableWallets}.
Context `{Blake2b, Ed25519, LedgerConstants}.
Implicit Types (n : node) (s : astore) (h e : u256) (b : block) (bs : list block).

(** A run on a node with the given ledger that leaves ledger and queues
    alone. *)
Definition answers {A} s (m : M node A) (Q : A → Prop) : Prop := ∀ n, node_ok n →
  store_rel (store (n_ledger n)) s → wp m n (λ a n', stays n n' ∧ Q a).

Lemma answers_ret {A} s (a : A) (Q : A → Prop) : Q a → answers s (mret a) Q.
Proof. intros HQ n Hn Hs. apply wp_ret. split; [by apply stays_refl|done]. Qed.
Lemma answers_bind {A B} s (m : M node A) (f : A → M node B) P Q :
  answers s m P → (∀ a, P a → answers s (f a) Q) → answers s (m ≫= f) Q.
Proof.
  intros Hm Hf n Hn Hs. apply wp_bind. eapply wp_mono; [by apply Hm|]. intros a n1 [Hst HP].
  eapply wp_mono; [apply (Hf a HP n1); [apply Hst|by apply (st_rel _ _ Hst)]|]. intros c n2 [Hst2 HQ].
  split; [by eapply stays_trans|done].
Qed.
Lemma answers_mono {A} s (m : M node A) (P Q : A → Prop) : answers s m P → (∀ a, P a → Q a) → answers s m Q.
Proof. intros Hm HPQ n Hn Hs. eapply wp_mono; [by apply Hm|]. intros a n' [? ?]. auto. Qed.
Lemma answers_quiet {A} s (m : M node A) (Q : A → Prop) : (∀ n, node_ok n → qwp m n Q) → answers s m Q.
Proof. intros Hm n Hn Hs. eapply wp_mono; [by apply Hm|]. intros a n' [Hq HQ]. split; [by apply quiet_stays|done]. Qed.
Lemma answers_read {A} s (m : M block_store A) (f : astore → A) (Q : A → Prop) :
  reads m → sim store_rel m (gets f) → Q (f s) → answers s (on_store m) Q.
Proof.
  intros Hr Hm HQ n Hn Hs. eapply wp_store_read; [done|by eapply sim_read_run|]. split; [by apply stays_refl|done].
Qed.
Lemma answers_loop {A B} s k (body : A → M node (A + B)) a (Q : B → Prop) :
  answers s (body a) (λ r, match r with inl a' => answers s (loop k body a') Q | inr c => Q c end) →
  answers s (loop (Datatypes.S k) body a) Q.
Proof.
  intros Hb. simpl. eapply answers_bind; [exact Hb|]. intros [a'|c] HQ; [exact HQ|by apply answers_ret].
Qed.
Lemma answers_lift {A} s (o : outcome A) a (Q : A → Prop) : o = Done a → Q a → answers s (lift_outcome o) Q.
Proof. intros Ho HQ. apply answers_quiet. intros n Hn. by eapply qwp_lift. Qed.
Lemma answers_stats s f (Q : unit → Prop) : Q tt → answers s (on_stats f) Q.
Proof. intros HQ. apply answers_quiet. intros n Hn. eapply qwp_mono; [apply qwp_stats|]. by intros []. Qed.

Lemma answers_run {A} s (m : M node A) (Q : A → Prop) n : answers s m Q → node_ok n →
  store_rel (store (n_ledger n)) s → ∃ a n', m n = Done (a, n') ∧ stays n n' ∧ Q a.
Proof. intros Hm Hn Hs. destruct (proj1 (wp_run _ _ _) (Hm n Hn Hs)) as (a & n' & ? & ? & ?). eauto. Qed.

(** ** Serving *)

Lemma serve_more {T} s k (send : T → M node (bytes * option T)) out srv w srv' Q :
  answers s (send srv) (λ r, r = (w, Some srv')) →
  answers s (loop k (serve_step send) (out ++ w, srv')) Q →
  answers s (loop (Datatypes.S k) (serve_step send) (out, srv)) Q.
Proof.
  intros Hs Hk. apply answers_loop. unfold serve_step at 1. eapply answers_bind; [exact Hs|].
  intros ? ->. by apply answers_ret.
Qed.
Lemma serve_last {T} s k (send : T → M node (bytes * option T)) out srv w (Q : bytes → Prop) :
  answers s (send srv) (λ r, r = (w, None)) → Q (out ++ w) →
  answers s (loop (Datatypes.S k) (serve_step send) (out, srv)) Q.
Proof.
  intros Hs HQ. apply answers_loop. unfold serve_step at 1. eapply answers_bind; [exact Hs|].
  intros ? ->. by apply answers_ret.
Qed.

(** ** Pulls *)

Lemma send_next_end s e : answers s (bulk_pull_send_next (Bulk_pull_server e e)) (λ r, r = (not_a_block, None)).
Proof.
  unfold bulk_pull_send_next, bulk_pull_get_next. simpl. rewrite u_eqb_refl.
  eapply (answers_bind _ _ _ (λ r, r = (None, Bulk_pull_server e e))); [by apply answers_ret|].
  intros ? ->. by apply answers_ret.
Qed.
Lemma send_next_block s e h b sc : h ≠ e → a_lookup s h = Some (b, sc) →
  answers s (bulk_pull_send_next (Bulk_pull_server e h))
    (λ r, r = (serialize_block b, Some (Bulk_pull_server e (if is_zero (block_previous b) then e else block_previous b)))).
Proof.
  intros Hne Eb. unfold bulk_pull_send_next, bulk_pull_get_next. simpl.
  rewrite (proj2 (u_eqb_false h e) Hne). 
  eapply (answers_bind _ _ _ (λ r, r = (Some b, Bulk_pull_server e (if is_zero (block_previous b) then e
    else block_previous b)))); [|intros ? ->; by apply answers_ret].
  eapply (answers_bind _ _ _ (λ r, r = Some b)); [|intros ? ->; by apply answers_ret].
  eapply answers_read; [apply reads_block_get|apply block_get_sim|]. simpl. by rewrite Eb.
Qed.

Definition chain_bytes bs : bytes := concat (serialize_block <$> bs).
Lemma chain_bytes_cons b bs out rest :
  (out ++ serialize_block b) ++ chain_bytes bs ++ rest = out ++ chain_bytes (b :: bs) ++ rest.
Proof. unfold chain_bytes. simpl. by rewrite <-!app_assoc. Qed.

Lemma serve_chain s e h bs out k : chain_down s e h bs → (length bs < k)%nat →
  answers s (loop k (serve_step bulk_pull_send_next) (out, Bulk_pull_server e h))
    (λ r, r = out ++ chain_bytes bs ++ not_a_block).
Proof.
  intros Hc. revert out k.
  assert (Hend : ∀ out k, answers s (loop (Datatypes.S k) (serve_step bulk_pull_send_next) (out, Bulk_pull_server e e))
    (λ r, r = out ++ chain_bytes [] ++ not_a_block)) by (intros out k; eapply serve_last; [apply send_next_end|done]).
  induction Hc as [|h b sc Hne Eb Hp|h b sc bs Hne Eb Hp Hc IH]; intros out [|k] Hk; simpl in Hk; try lia; [apply Hend| |].
  - eapply serve_more; [by eapply send_next_block|]. rewrite Hp, is_zero_0. destruct k as [|k]; [lia|].
    eapply answers_mono; [apply Hend|]. intros r ->. by rewrite chain_bytes_cons.
  - eapply serve_more; [by eapply send_next_block|]. apply is_zero_false in Hp. rewrite Hp.
    eapply answers_mono; [apply IH; lia|]. intros r ->. by rewrite chain_bytes_cons.
Qed.

(** Where a pull starts and ends. *)
Lemma answers_owner s g hist h m : Inv s g hist → g !! h = Some m →
  answers s (on_ledger (λ fuel, ledger_account fuel h)) (λ a, a = m_owner m).
Proof.
  intros HI Em n Hn Hs. eapply wp_mono; [by eapply stays_owner|]. intros a n' [-> ?]. done.
Qed.

(** The stored end, if there is one. *)
Definition pull_bound s e : u256 := if bool_decide (is_Some (a_lookup s e)) then e else U 32 0.
Definition pull_from s (g : gmap u256 meta) (a e : u256) : bulk_pull_server :=
  let e := pull_bound s e in
  match a_accounts s !! a with
  | Some i => Bulk_pull_server e (if is_zero e || bool_decide (m_owner <$> g !! e = Some a) then head i else e)
  | None => Bulk_pull_server e e
  end.
Lemma answers_set_current_end s g hist a e : Inv s g hist →
  answers s (set_current_end a e) (λ srv, srv = pull_from s g a e).
Proof.
  intros HI. unfold set_current_end.
  eapply (answers_bind _ _ _ (λ r, r = bool_decide (is_Some (a_lookup s e)))).
  { by eapply answers_read; [apply reads_block_exists|apply block_exists_sim|]. }
  intros ? ->. fold (pull_bound s e). eapply (answers_bind _ _ _ (λ r, r = a_accounts s !! a)).
  { by eapply answers_read; [apply reads_account_get|apply account_get_sim|]. }
  intros ? ->. unfold pull_from. destruct (a_accounts s !! a) as [i|]; [|by apply answers_ret].
  destruct (is_zero (pull_bound s e)) eqn:Hz; simpl; [by apply answers_ret|].
  assert (is_Some (a_lookup s (pull_bound s e))) as [m Em]%(inv_dom _ _ _ HI).
  { revert Hz. unfold pull_bound. case_bool_decide; [done|]. by rewrite is_zero_0. }
  eapply answers_bind; [by eapply answers_owner|]. intros ? ->. rewrite Em. simpl.
  destruct (u_eqb_spec (m_owner m) a) as [->|Hne].
  - rewrite bool_decide_true by done. by apply answers_ret.
  - rewrite bool_decide_false by congruence. by apply answers_ret.
Qed.

Lemma pull_from_chain s g hist a e : Inv s g hist → let srv := pull_from s g a e in
  ∃ bs, chain_down s (bps_end srv) (bps_current srv) bs ∧ (length bs ≤ size (a_blocks s))%nat.
Proof.
  intros HI. unfold pull_from. destruct (a_accounts s !! a) as [i|] eqn:Ei; simpl; [|exists []; split; [constructor|simpl; lia]].
  destruct (_ || _); [|exists []; split; [constructor|simpl; lia]].
  destruct (inv_account _ _ _ HI _ _ Ei) as (b & m & Eb & _). eapply chain_exists; [exact HI|by rewrite Eb].
Qed.

Lemma answers_pull s g hist a e k : Inv s g hist → (size (a_blocks s) < k)%nat → let srv := pull_from s g a e in
  answers s (respond k (Bulk_pull a e))
    (λ r, ∃ bs, chain_down s (bps_end srv) (bps_current srv) bs ∧ r = chain_bytes bs ++ not_a_block).
Proof.
  intros HI Hk srv. unfold respond. eapply answers_bind; [by eapply answers_set_current_end|]. intros ? ->.
  destruct (pull_from_chain s g hist a e HI) as (bs & Hc & Hl). fold srv in Hc |- *. unfold serve.
  eapply answers_mono; [destruct srv as [e' h]; apply (serve_chain _ _ _ bs); [exact Hc|lia]|]. intros r ->. eauto.
Qed.
(** ** Frontiers *)

Lemma reads_latest_from a : reads (latest_from a).
Proof. unfold latest_from, latest_iterator. reads_solve. Qed.
Lemma latest_from_sim a : sim store_rel (latest_from a) (gets (λ s, hd_error (cursor hash_le a (a_accounts s)))).
Proof.
  apply sim_read. intros c s Hr. unfold latest_from, latest_iterator.
  rewrite (bind_done _ _ _ _ _ (iterator_encoded _ _ _ hash_le hash_le_bytes a _ _ (rf_accounts _ _ Hr))).
  destruct (cursor hash_le a (a_accounts s)) as [|[k i] l]; [done|]. simpl.
  unfold mbind, M_bind, lift. rewrite val_uint256_write. by rewrite (of_val_encode i : account_info_of_val (account_info_val i) = Done i).
Qed.

(** No account is the greatest number: the position after it would be 0. *)
Definition no_last s : Prop := a_accounts s !! U 32 (2 ^ 256 - 1) = None.

Definition at_frontier s (current : u256) (i : account_info) (l : list (u256 * account_info)) : Prop :=
  (∃ a, cursor hash_le a (a_accounts s) = l) ∧
  match l with
  | [] => current = U 32 0
  | e :: _ => e = (current, i)
  end.

Lemma cursor_next s g hist current i l : Inv s g hist → no_last s → at_frontier s current i ((current, i) :: l) →
  current ≠ U 32 0 ∧ cursor hash_le (u_add current (U 32 1)) (a_accounts s) = l.
Proof.
  intros HI Hl [[a Hc] _]. assert (Hi : a_accounts s !! current = Some i).
  { apply (elem_of_cursor a _ current i). rewrite Hc. by left. }
  destruct (inv_account _ _ _ HI _ _ Hi) as (b & m & Eb & Em & Ho & _).
  destruct (inv_block _ _ _ HI _ _ _ _ Eb Em) as (_ & _ & _ & Hz & _). split; [congruence|].
  eapply cursor_after; [exact Hc|]. pose proof (uval_range current) as Hr.
  assert (E : modulus 32 = 2 ^ 256) by reflexivity. rewrite E in Hr.
  assert (uval current ≠ 2 ^ 256 - 1); [|lia]. intros Ec. revert Hl. unfold no_last. rewrite <-Ec, U_uval. by rewrite Hi.
Qed.

Definition frontier_at srv l s : Prop := at_frontier s (frs_current srv) (frs_info srv) l.

Lemma answers_frontier_next s srv : answers s (frontier_server_next srv)
  (λ srv', frontier_at srv' (cursor hash_le (u_add (frs_current srv) (U 32 1)) (a_accounts s)) s).
Proof.
  unfold frontier_server_next.
  eapply (answers_bind _ _ _ (λ r, r = hd_error (cursor hash_le (u_add (frs_current srv) (U 32 1)) (a_accounts s)))).
  { by eapply answers_read; [apply reads_latest_from|apply latest_from_sim|]. }
  intros ? ->. unfold frontier_at, at_frontier.
  destruct (cursor hash_le _ _) as [|[a i] l] eqn:Hc; simpl; apply answers_ret; simpl; eauto.
Qed.

Definition frontier_bytes (l : list (u256 * account_info)) : bytes :=
  concat ((λ p, write_be p.1 ++ write_be (head p.2)) <$> l).
Definition frontier_end : bytes := write_be (U 32 0 : u256) ++ write_be (U 32 0 : u256).

Lemma serve_frontiers s g hist srv l out k : Inv s g hist → no_last s → frontier_at srv l s → (length l < k)%nat →
  answers s (loop k (serve_step frontier_send_next) (out, srv)) (λ r, r = out ++ frontier_bytes l ++ frontier_end).
Proof.
  intros HI Hl. revert srv out k. induction l as [|[a i] l IH]; intros srv out [|k] Ha Hk; simpl in Hk; try lia.
  - destruct Ha as [_ Hz]. eapply serve_last; [|done]. unfold frontier_send_next. rewrite Hz, is_zero_0. by apply answers_ret.
  - pose proof Ha as [_ [= -> ->]]. destruct (cursor_next _ _ _ _ _ _ HI Hl Ha) as [Hz%is_zero_false Hc].
    apply answers_loop. unfold serve_step at 1, frontier_send_next. simpl. rewrite Hz. simpl.
    eapply (answers_bind _ _ _ (λ r, ∃ srv', r = (write_be (frs_current srv) ++ write_be (head (frs_info srv)), Some srv') ∧
      frontier_at srv' l s)).
    { eapply answers_bind; [apply answers_frontier_next|]. rewrite Hc. intros srv' Hs. apply answers_ret. eauto. }
    intros ? (srv' & -> & Hs). apply answers_ret. simpl.
    eapply answers_mono; [apply IH; [exact Hs|lia]|]. intros r ->. unfold frontier_bytes. simpl. by rewrite <-!app_assoc.
Qed.

Lemma skip_old_at s g hist k age t srv l : Inv s g hist → no_last s → frontier_at srv l s → (length l < k)%nat →
  answers s (loop k (skip_step age t) srv) (λ srv', ∃ l', frontier_at srv' l' s ∧ (length l' ≤ length l)%nat).
Proof.
  intros HI Hl. revert srv k. induction l as [|[a i] l IH]; intros srv [|k] Ha Hk; simpl in Hk; try lia; apply answers_loop; unfold skip_step at 1.
  - pose proof Ha as [_ Hz]. rewrite Hz, is_zero_0. apply answers_ret. by exists [].
  - pose proof Ha as [_ [= -> ->]]. destruct (cursor_next _ _ _ _ _ _ HI Hl Ha) as [_ Hc].
    destruct (_ && _); [|apply answers_ret; by exists ((frs_current srv, frs_info srv) :: l)].
    eapply answers_bind; [apply answers_frontier_next|]. rewrite Hc. intros srv' Hs. apply answers_ret.
    eapply answers_mono; [apply IH; [exact Hs|lia]|]. intros srv2 (l' & ? & ?). exists l'. split; [done|simpl; lia].
Qed.

(** The frontiers of all accounts, however old. *)
Lemma answers_frontiers s g hist start count k : Inv s g hist → no_last s → (size (a_accounts s) < k)%nat →
  answers s (respond k (Frontier_req start (U 4 (2 ^ 32 - 1)) count))
    (λ r, r = frontier_bytes (cursor hash_le start (a_accounts s)) ++ frontier_end).
Proof.
  intros HI Hl Hk. unfold respond, make_frontier_req_server. apply (answers_bind _ _ _ (λ srv, frontier_at srv (cursor hash_le start (a_accounts s)) s)).
  - eapply answers_bind; [apply answers_frontier_next|]. cbn [frs_current]. rewrite u_add_sub. intros srv Hs.
    unfold skip_old. rewrite (proj2 (Z.eqb_eq _ _)) by reflexivity. by apply answers_ret.
  - intros srv Hs. unfold serve. eapply answers_mono; [eapply serve_frontiers; [exact HI|exact Hl|exact Hs|]|by intros ? ->].
    pose proof (length_cursor start (a_accounts s)). lia.
Qed.
Lemma answers_frontier_req s g hist start age count k : Inv s g hist → no_last s → (size (a_accounts s) < k)%nat →
  answers s (respond k (Frontier_req start age count)) (λ _, True).
Proof.
  intros HI Hl Hk. unfold respond, make_frontier_req_server. pose proof (length_cursor start (a_accounts s)) as Hlen.
  apply (answers_bind _ _ _ (λ srv, ∃ l, frontier_at srv l s ∧ (length l < k)%nat)).
  - eapply answers_bind; [apply answers_frontier_next|]. cbn [frs_current]. rewrite u_add_sub. intros srv Hs.
    unfold skip_old. destruct (_ =? _); [apply answers_ret; eexists; split; [exact Hs|lia]|].
    eapply (answers_bind _ _ _ (λ _, True)).
    { apply answers_quiet. intros n Hn. by split; [constructor; simpl; auto|]. }
    intros t _. eapply answers_mono; [eapply skip_old_at; [exact HI|exact Hl|exact Hs|lia]|].
    intros srv' (l' & ? & ?). exists l'. split; [done|lia].
  - intros srv (l & Hs & Hk'). unfold serve. eapply answers_mono; [by eapply serve_frontiers|done].
Qed.
(** ** Ranges *)

(** The blocks of a range of hashes up to the first one that is gone; [left]
    is how many may still be sent, [None] when there is no limit. *)
Fixpoint range_blocks s (max_hash : u256) (left : option nat) (keys : list u256) : list block :=
  match left, keys with
  | Some O, _ | _, [] => []
  | _, h :: keys =>
      if u_ltb h max_hash then
        match a_lookup s h with
        | Some (b, _) => b :: range_blocks s max_hash (pred <$> left) keys
        | None => []
        end
      else []
  end.
Lemma length_range s max_hash left keys : (length (range_blocks s max_hash left keys) ≤ length keys)%nat.
Proof.
  revert left. induction keys as [|h keys IH]; intros [[|c]|]; simpl; try lia.
  all: destruct (u_ltb _ _); simpl; [|lia]; destruct (a_lookup s h) as [[b sc]|]; simpl; [|lia].
  all: specialize (IH (pred <$> (Some (Datatypes.S c)))) || specialize (IH None); simpl in *; lia.
Qed.

Definition range_checksum (c : u256) bs : u256 := foldl (λ c b, u_xor c (block_hash b)) c bs.
Definition range_bytes (mode : u8) (c : u256) bs : bytes :=
  if uval mode =? list_mode then chain_bytes bs ++ not_a_block
  else if uval mode =? checksum_mode then not_a_block ++ write_be (range_checksum c bs) ++ not_a_block
  else not_a_block.

(** How many blocks a server may still send. *)
Definition range_left (count sent : u32) : option nat :=
  if is_zero count then None else Some (Z.to_nat (uval count - uval sent)).
Definition range_counted (count sent : u32) : u32 := if negb (is_zero count) then u_add sent (U 4 1) else sent.

Lemma range_left_step count sent : is_zero count = true ∨ uval sent ≤ uval count →
  if negb (is_zero count) && u_leb count sent then range_left count sent = Some O
  else range_left count sent ≠ Some O ∧
    pred <$> range_left count sent = range_left count (range_counted count sent) ∧
    (is_zero count = true ∨ uval (range_counted count sent) ≤ uval count).
Proof.
  unfold range_left, range_counted. destruct (is_zero count) eqn:Hz; simpl; [by auto|].
  intros [|Hle]; [done|]. destruct (u_leb_spec count sent) as [Hc|Hc]; [do 2 f_equal; lia|].
  pose proof (uval_range count) as Hr. assert (E1 : uval (U 4 1) = 1) by reflexivity.
  assert (Ea : uval (u_add sent (U 4 1)) = uval sent + 1) by (rewrite uval_add_small; rewrite E1; [done|lia]).
  rewrite Ea. split_and!; [intros [= E]; lia| |right; lia]. simpl. f_equal. lia.
Qed.

Abbreviation range_server := Bulk_pull_blocks_server.

Lemma range_finish s max_hash mode count stream sent c out k stream' sent' (Q : bytes → Prop) :
  answers s (bulk_pull_blocks_get_next (range_server max_hash mode count stream sent c))
    (λ r, r = (None, range_server max_hash mode count stream' sent' c)) →
  Q (out ++ range_bytes mode c []) →
  answers s (loop (Datatypes.S k) (serve_step bulk_pull_blocks_send_next)
    (out, range_server max_hash mode count stream sent c)) Q.
Proof.
  intros Hg HQ. eapply serve_last; [|exact HQ]. unfold bulk_pull_blocks_send_next. eapply answers_bind; [exact Hg|].
  intros ? ->. unfold range_bytes. simpl. destruct (Z.eqb_spec (uval mode) list_mode) as [->|]; [by apply answers_ret|].
  destruct (_ =? checksum_mode); by apply answers_ret.
Qed.

Lemma serve_range s max_hash mode count keys sent c out k :
  is_zero count = true ∨ uval sent ≤ uval count → (length keys < k)%nat →
  answers s (loop k (serve_step bulk_pull_blocks_send_next)
    (out, range_server max_hash mode count (write_be <$> keys) sent c))
    (λ r, r = out ++ range_bytes mode c (range_blocks s max_hash (range_left count sent) keys)).
Proof.
  revert sent c out k. induction keys as [|h keys IH]; intros sent c out [|k] Hs Hk; simpl in Hk; try lia;
    pose proof (range_left_step _ _ Hs) as Hl.
  - eapply range_finish; [|by destruct (range_left count sent) as [[]|]].
    unfold bulk_pull_blocks_get_next. simpl. by destruct (_ && _); apply answers_ret.
  - destruct (negb (is_zero count) && u_leb count sent) eqn:Hb.
    { rewrite Hl. eapply range_finish; [|done]. unfold bulk_pull_blocks_get_next. simpl. rewrite Hb. by apply answers_ret. }
    destruct Hl as (Hne & Hp & Hs'). set (sent' := range_counted count sent) in *.
    assert (Er : range_blocks s max_hash (range_left count sent) (h :: keys) =
      if u_ltb h max_hash then match a_lookup s h with
        | Some (b, _) => b :: range_blocks s max_hash (range_left count sent') keys | None => [] end else []).
    { rewrite <-Hp. simpl. by destruct (range_left count sent) as [[|j]|]. }
    rewrite Er. clear Er Hp.
    assert (Hg : answers s (bulk_pull_blocks_get_next (range_server max_hash mode count (write_be <$> h :: keys) sent c))
      (λ r, if u_ltb h max_hash
        then r = (fst <$> a_lookup s h, range_server max_hash mode count (write_be <$> keys) sent' c)
        else r = (None, range_server max_hash mode count (write_be <$> h :: keys) sent' c))).
    { unfold bulk_pull_blocks_get_next. cbn [bpb_max_count bpb_sent_count bpb_stream bpb_max_hash bpb_mode bpb_checksum].
      rewrite Hb. cbn [fmap list_fmap]. eapply (answers_bind _ _ _ (λ r, r = h)).
      { eapply answers_lift; [apply val_uint256_write|done]. }
      intros ? ->. destruct (u_ltb h max_hash); [|by apply answers_ret].
      eapply (answers_bind _ _ _ (λ r, r = fst <$> a_lookup s h)); [|intros ? ->; by apply answers_ret].
      by eapply answers_read; [apply reads_block_get|apply block_get_sim|]. }
    destruct (u_ltb h max_hash); [|by eapply range_finish].
    destruct (a_lookup s h) as [[b sc]|]; [|by eapply range_finish].
    apply answers_loop. unfold serve_step at 1, bulk_pull_blocks_send_next at 1. cbn [fst snd].
    set (c' := if uval mode =? list_mode then c else if uval mode =? checksum_mode then u_xor c (block_hash b) else c).
    eapply (answers_bind _ _ _ (λ r, r = (if uval mode =? list_mode then serialize_block b else [],
      Some (range_server max_hash mode count (write_be <$> keys) sent' c')))).
    { eapply answers_bind; [exact Hg|]. intros ? ->. simpl. unfold c'.
      destruct (_ =? list_mode); [by apply answers_ret|]. by destruct (_ =? checksum_mode); apply answers_ret. }
    intros ? ->. apply answers_ret. simpl. eapply answers_mono; [apply IH; [done|lia]|]. intros r ->.
    unfold range_bytes, c'. destruct (Z.eqb_spec (uval mode) list_mode) as [Em|Em].
    + rewrite chain_bytes_cons. done.
    + rewrite app_nil_r. by destruct (_ =? checksum_mode).
Qed.

(** The hashes of [blocks_info] from a hash on. *)
Definition range_keys s (min_hash : u256) : list u256 := (cursor hash_le min_hash (a_info s)).*1.
Lemma answers_range s min_hash max_hash mode count k : (size (a_info s) < k)%nat →
  answers s (respond k (Bulk_pull_blocks min_hash max_hash mode count))
    (λ r, r = range_bytes mode (U 32 0) (range_blocks s (if u_ltb max_hash min_hash then min_hash else max_hash)
      (if is_zero count then None else Some (Z.to_nat (uval count))) (range_keys s min_hash))).
Proof.
  intros Hk. unfold respond. eapply (answers_bind _ _ _ (λ srv, srv = range_server
    (if u_ltb max_hash min_hash then min_hash else max_hash) mode count (write_be <$> range_keys s min_hash) (U 4 0) (U 32 0))).
  - unfold set_params.
    eapply (answers_bind _ _ _ (λ i, map fst i = write_be <$> range_keys s min_hash)); [|intros i ->; by apply answers_ret].
    eapply answers_read; [unfold block_info_iterator; apply reads_iterator| |].
    + apply sim_read. intros c s' Hr. unfold block_info_iterator.
      exact (iterator_encoded _ _ _ hash_le hash_le_bytes min_hash _ _ (rf_info _ _ Hr)).
    + simpl. unfold range_keys. rewrite <-!list_fmap_compose. done.
  - intros ? ->. unfold serve. eapply answers_mono; [apply serve_range|].
    + rewrite uval_zero. pose proof (uval_range count). right. lia.
    + unfold range_keys. rewrite length_fmap. pose proof (length_cursor min_hash (a_info s)). lia.
    + intros r ->. simpl. unfold range_left. rewrite uval_zero, Z.sub_0_r. done.
Qed.
End answers.

(** ** Requests to a bootstrap server

    A request the clients write is read back by the server and answered; and
    whatever bytes arrive, a session ends without a failed assertion. *)

Section sessions.
Context `{NodeConfig, LmdbSpec, RandomPool, MultiIndex, Unordered, Wallets, !ReadableWallets}.
Context `{Blake2b, Ed25519, LedgerConstants}.
Implicit Types (n : node) (s : astore) (h e : u256) (b : block) (bs : list block).

Lemma length_header hd : length (header_serialize badem_network hd) = 8%nat.
Proof. unfold header_serialize. rewrite !length_app. by destruct badem_network. Qed.

(** The size of the body of a request that has one. *)
Definition request_size (t : message_type) : option (stat.detail * nat) :=
  match t with
  | mt_bulk_pull => Some (stat.bulk_pull, 32 + 32)
  | mt_bulk_pull_blocks => Some (stat.bulk_pull_blocks, 32 + 32 + 1 + 4)
  | mt_frontier_req => Some (stat.frontier_req, 32 + 4 + 4)
  | _ => None
  end%nat.

Lemma message_type_code_inj t t' : message_type_code t = message_type_code t' → t = t'.
Proof. intros E%(f_equal uval). by destruct t; destruct t'; first [done|vm_compute in E]. Qed.
Lemma type_code_eqb t t' : u_eqb (message_type_code t) (message_type_code t') = true ↔ t = t'.
Proof. rewrite u_eqb_true. split; [apply message_type_code_inj|by intros ->]. Qed.

Lemma header_action_request buffer hd rest t d size : header_deserialize badem_network buffer = Some (hd, rest) →
  header_type hd = message_type_code t → request_size t = Some (d, size) →
  receive_header_action buffer = (count_bootstrap d;; mret (read_request hd size)).
Proof.
  intros Hd Ht Hs. unfold receive_header_action. rewrite Hd, Ht. by destruct t; simplify_eq/=.
Qed.
Lemma header_action_push buffer hd rest : header_deserialize badem_network buffer = Some (hd, rest) →
  header_type hd = message_type_code mt_bulk_push →
  receive_header_action buffer = (count_bootstrap stat.bulk_push;; mret push_request).
Proof. intros Hd Ht. unfold receive_header_action. by rewrite Hd, Ht. Qed.
Lemma request_action t d size hd body : header_type hd = message_type_code t → request_size t = Some (d, size) →
  receive_request_action hd body = (r ← lift_outcome (read_message t hd body); mret (fst <$> r)).
Proof. intros Ht Hs. unfold receive_request_action. rewrite Ht. by destruct t; simplify_eq/=. Qed.

(** A request is read back and answered. *)
Lemma answers_receive s m d size body (c : connection) : request_size (kind m) = Some (d, size) → length body = size →
  read_message (kind m) (make_header (kind m)) body = Done (Some (m, [])) →
  cn_stream c = header_serialize badem_network (make_header (kind m)) ++ body → cn_requests c = [] →
  answers s (receive_request c) (λ c', c' = Connection [m] (Some m) true [] (cn_written c)).
Proof.
  intros Hm Hlen Hb Hst Hq. set (hd := make_header (kind m)) in *. unfold receive_request.
  rewrite Hst, (take_app_length' _ body 8), (drop_app_length' _ body 8) by (by rewrite length_header).
  rewrite (proj2 (Nat.ltb_ge _ _)) by (rewrite length_app, length_header; lia).
  rewrite (header_action_request _ hd [] (kind m) d size); [|by rewrite <-(app_nil_r (header_serialize _ _)), header_read|done..].
  eapply (answers_bind _ _ _ (λ r, r = read_request hd size)).
  { eapply (answers_bind _ _ _ (λ _, True)); [by apply answers_stats|]. intros _ _. by apply answers_ret. }
  intros ? ->. rewrite (proj2 (Nat.ltb_ge _ _)) by lia. rewrite take_ge, drop_ge by lia.
  rewrite (request_action _ _ _ _ _ (eq_refl : header_type hd = message_type_code (kind m)) Hm).
  eapply (answers_bind _ _ _ (λ r, r = Some m)).
  { eapply (answers_bind _ _ _ (λ r, r = Some (m, []))); [by eapply answers_lift|]. intros ? ->. by apply answers_ret. }
  intros ? ->. eapply (answers_bind _ _ _ (λ c', c' = Connection [m] (Some m) (cn_reading c) [] (cn_written c))); [|by intros ? ->; apply answers_ret].
  unfold add_request. simpl. rewrite Hq, bool_decide_true by done. unfold run_next. simpl.
  assert (is_request m = true) as -> by by destruct m. by apply answers_ret.
Qed.

Lemma answers_session s k m d size (Q : bytes → Prop) : request_size (kind m) = Some (d, size) →
  answers s (respond k m) Q →
  ∃ request, message_serialize badem_network (make_header (kind m)) m = Done request ∧ answers s (session k request) Q.
Proof.
  intros Hm Hr. set (hd := make_header (kind m)).
  destruct (message_body badem_network hd m []) as (body & Hs & Hb); [by destruct m|].
  exists (header_serialize badem_network hd ++ body). split; [done|].
  assert (Hlen : length body = size).
  { assert (length (header_serialize badem_network hd ++ body) = (8 + size)%nat) as Hl; [|by rewrite length_app, length_header in Hl; lia].
    destruct m; simplify_eq/=; rewrite <-Hs;
      unfold frontier_req_serialize, bulk_pull_serialize, bulk_pull_blocks_serialize;
      by rewrite !length_app, length_header, ?length_write_be, ?length_write_le. }
  rewrite app_nil_r in Hb. unfold session. rewrite length_app, length_header.
  apply answers_loop. eapply answers_bind; [by eapply (answers_receive s m d size body)|]. intros ? ->. apply answers_ret.
  apply answers_loop. eapply (answers_bind _ _ _ (λ c, cn_answering c = None ∧ cn_reading c = true ∧ cn_stream c = [] ∧ Q (cn_written c))).
  { assert (Ha : answers s (answer ← respond k m; finish_request (set_written ([] ++ answer) (Connection [m] (Some m) true [] [])))
      (λ c, cn_answering c = None ∧ cn_reading c = true ∧ cn_stream c = [] ∧ Q (cn_written c))).
    { eapply answers_bind; [exact Hr|]. intros answer HQ. by apply answers_ret. }
    by destruct m. }
  intros [q an rd st wr] (Ha & Hrd & Hst & HQ). simpl in Ha, Hrd, Hst, HQ. subst. apply answers_ret.
  apply answers_loop. eapply (answers_bind _ _ _ (λ c, c = Connection q None false [] wr)); [by apply answers_ret|].
  intros ? ->. apply answers_ret. apply answers_loop. by apply answers_ret.
Qed.

(** A body of the right size is a request. *)
Lemma body_request t d size hd body : header_type hd = message_type_code t → request_size t = Some (d, size) →
  length body = size → ∃ m, read_message t hd body = Done (Some (m, [])) ∧ kind m = t.
Proof.
  intros Ht Hs Hl. destruct t; simplify_eq/=.
  - destruct (read_be_long 32 body) as (x & r & Ex & Hx); [lia|].
    destruct (read_be_long 32 r) as (y & r' & Ey & Hy); [lia|].
    assert (r' = []) as -> by (apply length_zero_iff_nil; lia).
    exists (Bulk_pull x y). unfold bulk_pull_deserialize, expecting. rewrite Ht, u_eqb_refl, Ex. simpl. by rewrite Ey.
  - destruct (read_be_long 32 body) as (x & r & Ex & Hx); [lia|].
    destruct (read_le_long 4 r) as (y & r' & Ey & Hy); [lia|].
    destruct (read_le_long 4 r') as (z & r2 & Ez & Hz); [lia|].
    assert (r2 = []) as -> by (apply length_zero_iff_nil; lia).
    exists (Frontier_req x y z). unfold frontier_req_deserialize, expecting. rewrite Ht, u_eqb_refl, Ex. simpl. rewrite Ey. simpl. by rewrite Ez.
  - destruct (read_be_long 32 body) as (x & r & Ex & Hx); [lia|].
    destruct (read_be_long 32 r) as (y & r' & Ey & Hy); [lia|].
    destruct (read_be_long 1 r') as (z & r2 & Ez & Hz); [lia|].
    destruct (read_le_long 4 r2) as (u & r3 & Eu & Hu); [lia|].
    assert (r3 = []) as -> by (apply length_zero_iff_nil; lia).
    exists (Bulk_pull_blocks x y z u). unfold bulk_pull_blocks_deserialize, expecting.
    rewrite Ht, u_eqb_refl, Ex. simpl. rewrite Ey. simpl. rewrite Ez. simpl. by rewrite Eu.
Qed.
End sessions.
