(* ===== verification/BootstrapPushes.v ===== *)
(** * Blocks pushed over a connection

    What a client pushes arrives at the server; and a server asked for
    anything at all ends its answer. *)

From S2P Require Import Prelude Crypto Blocks Common Stats Store Ledger Votes Lmdb Versioning.
From S2P Require Import BlockStore Messages MultiIndex Node Peers NodeCaches Sending Elections BlockProcessor.
From S2P Require Import BootstrapServer BootstrapClient StoreLemmas LedgerInv StoreRefine MessageProps.
From S2P Require Import NodeFrame NodeLedger NodeOk NodeQuiet NodePeers NodeElections NodeSafe NodeProcessor NodeReceive.
From S2P Require Import BootstrapChains BootstrapServed.

Section pushes.
Context `{NodeConfig, LmdbSpec, RandomPool, MultiIndex, Unordered, Wallets, !ReadableWallets}.
Context `{Blake2b, Ed25519, LedgerConstants}.
Implicit Types (n : node) (s : astore) (h e : u256) (b : block) (bs : list block) (c : connection).

Definition arrived n : list u256 := ba_hash <$> n_block_arrival n.

(** The blocks of a list that had not arrived, the last one first. *)
Fixpoint fresh (seen : list u256) bs (acc : list block) : list block :=
  match bs with
  | [] => acc
  | b :: bs => if decide (block_hash b ∈ seen) then fresh seen bs acc else fresh (seen ++ [block_hash b]) bs (b :: acc)
  end.
Fixpoint seen_after (seen : list u256) bs : list u256 :=
  match bs with
  | [] => seen
  | b :: bs => seen_after (if decide (block_hash b ∈ seen) then seen else seen ++ [block_hash b]) bs
  end.

(** Blocks went to the queue, unless they had arrived before. *)
Record delivered n bs n' : Prop := {
  de_ok : node_ok n';
  de_rel s : store_rel (store (n_ledger n)) s → store_rel (store (n_ledger n')) s;
  de_arrived : arrived n' = seen_after (arrived n) bs;
  de_queue : bp_blocks (n_block_processor n') = fresh (arrived n) bs (bp_blocks (n_block_processor n));
}.
Lemma delivered_refl n : node_ok n → delivered n [] n.
Proof. by constructor. Qed.
Lemma fresh_app seen bs bs' acc : fresh seen (bs ++ bs') acc = fresh (seen_after seen bs) bs' (fresh seen bs acc).
Proof. revert seen acc. induction bs as [|b bs IH]; intros seen acc; simpl; [done|]. by destruct (decide _); rewrite IH. Qed.
Lemma seen_app seen bs bs' : seen_after seen (bs ++ bs') = seen_after (seen_after seen bs) bs'.
Proof. revert seen. induction bs as [|b bs IH]; intros seen; simpl; [done|]. by rewrite IH. Qed.
Lemma delivered_trans n bs n1 bs' n2 : delivered n bs n1 → delivered n1 bs' n2 → delivered n (bs ++ bs') n2.
Proof.
  intros [] []. constructor; [done|auto| |].
  - by rewrite seen_app, <-de_arrived0.
  - by rewrite fresh_app, <-de_arrived0, <-de_queue0.
Qed.

Lemma wp_process_active n b : node_ok n → valid_work b → wp (process_active b) n (λ _, delivered n [b]).
Proof.
  intros Hn Hv. unfold process_active, block_arrival_add. apply wp_bind, wp_bind, wp_now, wp_bind, wp_gets.
  simpl. pose proof (mi_insert_key ba_hash (Block_arrival_info (n_steady n 0%nat) (block_hash b)) (n_block_arrival n)) as Hk.
  pose proof (mi_insert_new ba_hash (Block_arrival_info (n_steady n 0%nat) (block_hash b)) (n_block_arrival n)) as Hnew.
  pose proof (mi_insert_nodup ba_hash (Block_arrival_info (n_steady n 0%nat) (block_hash b)) _ (ok_arrival _ Hn)) as Hd.
  destruct (mi_insert _ _ _) as [l r]. simpl in *. apply wp_bind, wp_modify, wp_ret.
  set (n1 := set_block_arrival _ _).
  assert (Hn1 : node_ok n1).
  { apply ok_set_arrival; [|done]. eapply quiet_ok; [|exact Hn]. by constructor; simpl; auto. }
  destruct r; simpl.
  - assert (Hni : block_hash b ∉ ba_hash <$> n_block_arrival n) by tauto.
    apply wp_processor_add; [done|]. rewrite decide_False in Hk by done. constructor; simpl.
    + apply ok_set_blocks; [done|]. intros b' [->|Hb']%elem_of_cons; [done|]. by apply (ok_queue _ Hn).
    + done.
    + unfold arrived. simpl. by rewrite decide_False.
    + unfold arrived. by rewrite decide_False.
  - assert (Hin : block_hash b ∈ ba_hash <$> n_block_arrival n).
    { destruct (decide (block_hash b ∈ ba_hash <$> n_block_arrival n)) as [|Hni]; [done|]. by apply Hnew in Hni. }
    apply wp_ret. rewrite decide_True in Hk by done. constructor; simpl; [done|done| |].
    + unfold arrived. simpl. by rewrite decide_True.
    + unfold arrived. by rewrite decide_True.
Qed.

(** One block that is read. *)
Lemma stays_delivered n n' : stays n n' → n_block_arrival n' = n_block_arrival n → delivered n [] n'.
Proof. intros [] Ha. constructor; [done|done| |]; simpl; unfold arrived; congruence. Qed.

Lemma wp_push_received_block n t buffer : node_ok n → is_block_type (Some t) = true →
  wp (push_received_block t buffer) n (λ more n', ∃ bs, delivered n bs n' ∧
    ∀ b, deserialize_block_typed (Some t) buffer = Done (Some (b, [])) → valid_work b → more = true ∧ bs = [b]).
Proof.
  intros Hn Ht. destruct (typed_fault (Some t) buffer Ht) as [r Hr].
  unfold push_received_block, block_received. apply wp_bind, wp_bind. eapply wp_lift_outcome; [exact Hr|]. apply wp_ret.
  destruct r as [[b rest]|].
  - unfold work_validate_block. destruct (work_validate _ _ _) eqn:Hv.
    + apply wp_ret. exists []. split; [by apply delivered_refl|]. rewrite Hr. unfold valid_work. naive_solver congruence.
    + apply wp_bind. eapply wp_mono; [by apply wp_process_active|]. intros [] n' Hd. apply wp_ret. exists [b].
      split; [done|]. rewrite Hr. naive_solver.
  - apply wp_ret. exists []. split; [by apply delivered_refl|]. rewrite Hr. naive_solver.
Qed.

(** ** A stream of blocks *)

Lemma type_read_size code t size : type_read code = read_body t size →
  size = block_size t ∧ is_block_type (Some t) = true.
Proof. unfold type_read. by destruct (block_type_of_byte code) as [[]|]; intros [= <- <-]. Qed.
Lemma type_read_block b : type_read (block_type_byte (block_type_of b)) = read_body (block_type_of b) (block_size (block_type_of b)).
Proof. by destruct b. Qed.
Lemma serialize_block_cons b : serialize_block b = block_type_byte (block_type_of b) :: block_serialize b.
Proof. done. Qed.

Lemma wp_push_received_type code n (Q : type_action → node → Prop) : node_ok n →
  (∀ n', delivered n [] n' → Q (type_read code) n') → wp (push_received_type code) n Q.
Proof.
  intros Hn HQ. unfold push_received_type. apply wp_bind. destruct (type_read code); try by apply wp_ret, wp_ret, HQ, delivered_refl.
  unfold count_bootstrap. eapply wp_mono; [apply (qwp_stats _ n)|]. intros [] n' [Hq _]. apply wp_ret, HQ.
  apply stays_delivered; [by apply quiet_stays|apply Hq].
Qed.

Lemma wp_push_step stream n (Q : bytes + bool * bytes → node → Prop) : node_ok n →
  (∀ r bs n', delivered n bs n' → (∀ rest, r = inl rest → (length rest < length stream)%nat) →
     (∀ r', r = inr r' → (length r'.2 ≤ length stream)%nat) →
     (∀ b rest, stream = serialize_block b ++ rest → valid_work b → r = inl rest ∧ bs = [b]) →
     (∀ rest, stream = not_a_block ++ rest → r = inr (true, rest) ∧ bs = []) → Q r n') →
  wp (push_step stream) n Q.
Proof.
  intros Hn HQ. destruct stream as [|code stream]; cbn [push_step].
  { apply wp_ret, (HQ _ []); [by apply delivered_refl|done|by intros ? [= <-]|done..]. }
  apply wp_bind, wp_push_received_type; [done|]. intros n1 Hd1.
  destruct (type_read code) as [t size| |] eqn:Et.
  - destruct (type_read_size _ _ _ Et) as [-> Ht]. destruct (Nat.ltb_spec (length stream) (block_size t)) as [Hl|Hl].
    + apply wp_ret, (HQ _ []); [done|done|intros ? [= <-]; simpl; lia| |].
      * intros b rest [= -> ->] _. rewrite type_read_block in Et. injection Et as <-.
        rewrite length_app, length_block_serialize in Hl. lia.
      * by intros rest [= -> ->].
    + apply wp_bind. eapply wp_mono; [apply wp_push_received_block; [apply Hd1|done]|].
      intros more n2 (bs & Hd2 & Hmore). apply wp_ret, (HQ _ bs).
      * exact (delivered_trans _ _ _ _ _ Hd1 Hd2).
      * destruct more; [|done]. intros rest [= <-]. rewrite length_drop. simpl. lia.
      * destruct more; [done|]. intros r' [= <-]. simpl. rewrite length_drop. lia.
      * intros b rest [= -> ->] Hv. rewrite type_read_block in Et. injection Et as <-.
        rewrite (take_app_length' _ _ (block_size (block_type_of b))) in Hmore by (by rewrite length_block_serialize).
        rewrite (drop_app_length' _ _ (block_size (block_type_of b))) by (by rewrite length_block_serialize).
        destruct (Hmore b) as [-> ->]; [|done|done].
        by rewrite <-(app_nil_r (block_serialize b)), deserialize_typed_serialize.
      * by intros rest [= -> ->].
  - apply wp_ret, (HQ _ []); [done|done|intros ? [= <-]; simpl; lia| |by intros rest [= _ ->]].
    intros b rest [= -> ->]. by rewrite type_read_block in Et.
  - apply wp_ret, (HQ _ []); [done|done|intros ? [= <-]; simpl; lia| |by intros rest [= -> ->]].
    intros b rest [= -> ->]. by rewrite type_read_block in Et.
Qed.

(** Whatever arrives, reading it ends. *)
Lemma wp_push_received_rest k stream n : node_ok n → (length stream < k)%nat →
  wp (push_receive k stream) n (λ r n', ∃ bs, delivered n bs n' ∧ (length r.2 ≤ length stream)%nat).
Proof.
  unfold push_receive. revert stream n. induction k as [|k IH]; intros stream n Hn Hk; [lia|].
  apply wp_loop, wp_push_step; [done|]. intros r bs n' Hd Hrest Hlen _ _. destruct r as [rest|r]; [|eauto].
  specialize (Hrest rest eq_refl).
  eapply wp_mono; [apply IH; [apply Hd|lia]|]. intros r2 n2 (bs2 & Hd2 & Hr2).
  exists (bs ++ bs2). split; [by eapply delivered_trans|lia].
Qed.
(** Blocks that are pushed arrive in order. *)
Lemma wp_push_blocks k bs rest n : node_ok n → Forall valid_work bs → (length bs < k)%nat →
  wp (push_receive k (chain_bytes bs ++ not_a_block ++ rest)) n (λ r n', r = (true, rest) ∧ delivered n bs n').
Proof.
  unfold push_receive. revert k n. induction bs as [|b bs IH]; intros [|k] n Hn Hv Hk; simpl in Hk; try lia; apply wp_loop, wp_push_step; [done| |done|].
  - intros r bs n' Hd _ _ _ Hend. by destruct (Hend rest eq_refl) as [-> ->].
  - apply Forall_cons in Hv as [Hb Hv]. intros r bs1 n1 Hd _ _ Hblock _.
    destruct (Hblock b (chain_bytes bs ++ not_a_block ++ rest)) as [-> ->]; [|done|].
    { symmetry. exact (chain_bytes_cons b bs [] (not_a_block ++ rest)). }
    eapply wp_mono; [apply IH; [apply Hd|done|lia]|]. intros r n2 [-> Hd2]. split; [done|].
    exact (delivered_trans _ [b] _ _ _ Hd Hd2).
Qed.

(** ** Any request *)

Definition enough_steps s (request : bytes) (k : nat) : Prop :=
  (size (a_blocks s) < k ∧ size (a_accounts s) < k ∧ size (a_info s) < k ∧ length request < k)%nat.

Lemma answers_request s g hist k m d size : Inv s g hist → no_last s → enough_steps s [] k →
  request_size (kind m) = Some (d, size) → answers s (respond k m) (λ _, True).
Proof.
  intros HI Hl (Hb & Ha & Hi & _) Hm. destruct m; simplify_eq/=.
  - by eapply answers_frontier_req.
  - eapply answers_mono; [by eapply answers_pull|done].
  - eapply answers_mono; [by apply answers_range|done].
Qed.

Lemma header_cases buffer :
  (∃ hd rest t d size, header_deserialize badem_network buffer = Some (hd, rest) ∧
     header_type hd = message_type_code t ∧ request_size t = Some (d, size)) ∨
  (∃ hd rest, header_deserialize badem_network buffer = Some (hd, rest) ∧ header_type hd = message_type_code mt_bulk_push) ∨
  receive_header_action buffer = mret no_request.
Proof.
  destruct (header_deserialize badem_network buffer) as [[hd rest]|] eqn:Hd.
  2: { right; right. unfold receive_header_action. by rewrite Hd. }
  destruct (u_eqb_spec (header_type hd) (message_type_code mt_bulk_pull)) as [Ht|N1].
  { left. eexists hd, rest, mt_bulk_pull, _, _. done. }
  destruct (u_eqb_spec (header_type hd) (message_type_code mt_bulk_pull_blocks)) as [Ht|N2].
  { left. eexists hd, rest, mt_bulk_pull_blocks, _, _. done. }
  destruct (u_eqb_spec (header_type hd) (message_type_code mt_frontier_req)) as [Ht|N3].
  { left. eexists hd, rest, mt_frontier_req, _, _. done. }
  destruct (u_eqb_spec (header_type hd) (message_type_code mt_bulk_push)) as [Ht|N4]; [right; left; eauto|].
  right; right. unfold receive_header_action. rewrite Hd.
  by rewrite (proj2 (u_eqb_false _ _) N1), (proj2 (u_eqb_false _ _) N2), (proj2 (u_eqb_false _ _) N3), (proj2 (u_eqb_false _ _) N4).
Qed.

Definition unharmed s n : Prop := node_ok n ∧ store_rel (store (n_ledger n)) s.

Lemma answers_unharmed {A} s (m : M node A) n (P : A → Prop) : answers s m P → unharmed s n →
  wp m n (λ a n', P a ∧ unharmed s n').
Proof.
  intros Hm [Hn Hs]. eapply wp_mono; [by apply Hm|]. intros a n' [Hst HP]. split; [done|].
  split; [apply Hst|by apply (st_rel _ _ Hst)].
Qed.

(** ** The queue of requests *)

Lemma add_request_eq m c : is_request m = true → add_request m c =
  mret (Connection (cn_requests c ++ [m]) (if decide (cn_requests c = []) then Some m else cn_answering c)
    (cn_reading c) (cn_stream c) (cn_written c)).
Proof.
  intros Hm. destruct c as [q an rd st wr]. unfold add_request. simpl. case_bool_decide as Hq.
  - subst q. unfold run_next. simpl. by rewrite Hm.
  - by rewrite decide_False.
Qed.
Lemma finish_request_eq m q c : cn_requests c = m :: q → Forall (λ m, is_request m = true) q → finish_request c =
  mret (Connection q (hd_error q) (cn_reading c) (cn_stream c) (cn_written c)).
Proof.
  intros Hc Hq. destruct c as [q' an rd st wr]. simpl in Hc. subst q'. unfold finish_request. simpl.
  destruct Hq as [|m' q Hm' Hq]; [done|]. rewrite bool_decide_false by done. unfold run_next. simpl. by rewrite Hm'.
Qed.

(** The queue of a connection: only requests, the one in front being
    answered; a push comes last and ends the reading. *)
Record connection_ok (len : nat) c : Prop := {
  co_requests : Forall (λ m, is_request m = true) (cn_requests c);
  co_front m : cn_answering c = Some m → hd_error (cn_requests c) = Some m;
  co_length : (length (cn_stream c) ≤ len)%nat;
  co_reading : cn_reading c = true → Bulk_push ∉ cn_requests c;
  co_push : Bulk_push ∉ removelast (cn_requests c);
  co_idle : cn_answering c = None → cn_requests c = [] ∨ cn_requests c = [Bulk_push];
}.
Lemma connect_ok stream : connection_ok (length stream) (connect stream).
Proof. constructor; simpl; try done; set_solver. Qed.

(** What is left to do: each event lowers it. *)
Definition left_to_do c : nat := (length (cn_stream c) + length (cn_requests c) +
  (if cn_reading c then 1 else 0) + (match cn_answering c with Some _ => 1 | None => 0 end))%nat.

Definition steps_to s len c : connection → node → Prop := λ c' n',
  connection_ok len c' ∧ unharmed s n' ∧ (left_to_do c' < left_to_do c)%nat.

(** The reading is over. *)
Lemma set_stream_same c : set_stream (cn_stream c) c = c.
Proof. by destruct c. Qed.
Lemma reading_ends s len c n rest : connection_ok len c → unharmed s n → cn_reading c = true →
  (length rest ≤ length (cn_stream c))%nat → steps_to s len c (set_reading false (set_stream rest c)) n.
Proof.
  intros [] Hn Hr Hl. split_and!; [|done|].
  - constructor; simpl; try done. lia.
  - unfold left_to_do. simpl. rewrite Hr. lia.
Qed.
Definition is_push (m : message) : bool := match m with Bulk_push => true | _ => false end.
Lemma is_push_false m : is_push m = false → m ≠ Bulk_push.
Proof. by destruct m. Qed.
(** A request is added. *)
Lemma request_added s len c n m rest : connection_ok len c → unharmed s n → cn_reading c = true →
  is_request m = true → (length rest + 8 ≤ length (cn_stream c))%nat →
  steps_to s len c (Connection (cn_requests c ++ [m]) (if decide (cn_requests c = []) then Some m else cn_answering c)
    (negb (is_push m)) rest (cn_written c)) n.
Proof.
  intros [] Hn Hr Hm Hl. specialize (co_reading0 Hr). split_and!; [|done|].
  - constructor; simpl.
    + apply Forall_app. split; [done|]. by apply Forall_singleton.
    + intros m'. case_decide as Hq; [rewrite Hq; by intros [= <-]|]. intros Hm'%co_front0.
      by destruct (cn_requests c).
    + lia.
    + intros Hp%negb_true_iff%is_push_false. set_solver.
    + by rewrite removelast_last.
    + case_decide as Hq; [done|]. intros [?|E]%co_idle0; [done|]. rewrite E in co_reading0. set_solver.
  - unfold left_to_do. simpl. rewrite Hr, length_app. simpl.
    destruct (decide (cn_requests c = [])), (cn_answering c), (is_push m); simpl; lia.
Qed.

Lemma wp_receive_request s g hist len c n : Inv s g hist → connection_ok len c → unharmed s n → cn_reading c = true →
  wp (receive_request c) n (steps_to s len c).
Proof.
  intros HI Hc Hn Hr. unfold receive_request. destruct (Nat.ltb_spec (length (cn_stream c)) 8) as [Hs|Hs].
  { apply wp_ret. pose proof (reading_ends s len c n (cn_stream c) Hc Hn Hr (le_n _)) as Hx. by rewrite set_stream_same in Hx. }
  assert (Hd : (length (drop 8 (cn_stream c)) + 8 = length (cn_stream c))%nat) by (rewrite length_drop; lia).
  assert (Hstats : ∀ d n (Q : connection → node → Prop) (f : header_action → M node connection) r, unharmed s n →
    (∀ n', unharmed s n' → wp (f r) n' Q) → wp ((count_bootstrap d;; mret r) ≫= f) n Q).
  { intros d n0 Q f r Hn0 HQ. apply wp_bind, wp_bind.
    eapply wp_mono; [apply (answers_unharmed s _ n0 (λ _, True)); [by apply answers_stats|done]|].
    intros [] n1 [_ Hn1]. by apply wp_ret, HQ. }
  destruct (header_cases (take 8 (cn_stream c))) as [(hd & rest & t & d & size & Hh & Ht & Hsz)|[(hd & rest & Hh & Ht)| ->]].
  - rewrite (header_action_request _ _ _ _ _ _ Hh Ht Hsz). apply Hstats; [done|]. intros n1 Hn1.
    destruct (Nat.ltb_spec (length (drop 8 (cn_stream c))) size) as [Hsh|Hsh]; [apply wp_ret, reading_ends; [done..|lia]|].
    destruct (body_request t d size hd (take size (drop 8 (cn_stream c))) Ht Hsz) as (m & Hm & Hkind); [apply length_take_le; lia|].
    apply wp_bind. rewrite (request_action _ _ _ _ _ Ht Hsz). apply wp_bind. eapply wp_lift_outcome; [exact Hm|]. apply wp_ret. simpl.
    assert (Hreq : is_request m = true ∧ is_push m = false) by (rewrite <-Hkind in Hsz; by destruct m).
    destruct Hreq as [Hreq Hnp]. rewrite add_request_eq by done. apply wp_bind, wp_ret, wp_ret.
    pose proof (request_added s len c n1 m (drop size (drop 8 (cn_stream c))) Hc Hn1 Hr Hreq) as Ha.
    rewrite Hnp in Ha. apply Ha. rewrite length_drop. lia.
  - rewrite (header_action_push _ _ _ Hh Ht). apply Hstats; [done|]. intros n1 Hn1.
    rewrite add_request_eq by done. apply wp_ret.
    pose proof (request_added s len c n1 Bulk_push (drop 8 (cn_stream c)) Hc Hn1 Hr eq_refl) as Ha.
    apply Ha. lia.
  - apply wp_bind, wp_ret, wp_ret, reading_ends; [done..|lia].
Qed.

(** The request in front is answered and leaves the queue. *)
Lemma request_done s len c n m q rest wr : connection_ok len c → unharmed s n → cn_answering c = Some m →
  cn_requests c = m :: q → (length rest ≤ length (cn_stream c))%nat →
  steps_to s len c (Connection q (hd_error q) (cn_reading c) rest wr) n.
Proof.
  intros [] Hn Ha Hq Hl. rewrite Hq in *. apply Forall_cons in co_requests0 as [_ Hreq]. split_and!; [|done|].
  - constructor; simpl; [done|done|lia| | |].
    + intros Hr. specialize (co_reading0 Hr). set_solver.
    + destruct q as [|m' q]; [set_solver|]. intros Hin. apply co_push0. by right.
    + destruct q; [by left|done].
  - unfold left_to_do. simpl. rewrite Ha, Hq. destruct q; simpl; lia.
Qed.

Lemma wp_answer_request s g hist len c n k stream : Inv s g hist → no_last s → enough_steps s stream k → (len ≤ length stream)%nat →
  connection_ok len c → unharmed s n → enabled Answer_request c = true → wp (answer_request k c) n (steps_to s len c).
Proof.
  intros HI Hl Hk Hle Hc Hn He. unfold answer_request. simpl in He. destruct (cn_answering c) as [m|] eqn:Ea; [|done].
  pose proof (co_front _ _ Hc m Ea) as Hf. destruct (cn_requests c) as [|m' q] eqn:Eq; [done|]. injection Hf as ->.
  pose proof (co_requests _ _ Hc) as Hreq. rewrite Eq in Hreq. apply Forall_cons in Hreq as [Hm Hreq].
  destruct (is_push m) eqn:Hnp; [assert (m = Bulk_push) as -> by by destruct m|].
  - assert (q = []) as ->.
    { pose proof (co_push _ _ Hc) as Hp. rewrite Eq in Hp. destruct q; [done|]. destruct Hp. by left. }
    apply wp_bind. destruct Hn as [Hn Hs]. destruct Hk as (_ & _ & _ & Hk). pose proof (co_length _ _ Hc).
    eapply wp_mono; [apply wp_push_received_rest; [exact Hn|lia]|]. intros [finished rest] n1 (bs & Hd & Hrest). simpl in *.
    assert (Hn1 : unharmed s n1) by (split; [apply Hd|by apply (de_rel _ _ _ Hd)]). destruct finished.
    + rewrite (finish_request_eq Bulk_push [] (set_stream rest c)) by done. apply wp_ret.
      exact (request_done s len c n1 Bulk_push [] rest (cn_written c) Hc Hn1 Ea Eq Hrest).
    + apply wp_ret. split_and!; [|done|].
      * destruct Hc. rewrite Eq in *. constructor; simpl; rewrite ?Eq; try done; [lia|]. by right.
      * unfold left_to_do. simpl. rewrite Ea. lia.
  - assert (Hsz : ∃ d size, request_size (kind m) = Some (d, size)) by (destruct m; try done; eexists _, _; reflexivity).
    destruct Hsz as (d & size & Hsz).
    assert (Hans : wp (answer ← respond k m; finish_request (set_written (cn_written c ++ answer) c)) n (steps_to s len c)).
    { apply wp_bind. eapply wp_mono; [apply (answers_unharmed s _ n (λ _, True)); [|done]|].
      - eapply answers_request; [exact HI|exact Hl| |exact Hsz]. destruct Hk as (? & ? & ? & ?). split_and!; try done. simpl. lia.
      - intros answer n1 [_ Hn1]. rewrite (finish_request_eq m q (set_written (cn_written c ++ answer) c)) by done. apply wp_ret.
        exact (request_done s len c n1 m q (cn_stream c) (cn_written c ++ answer) Hc Hn1 Ea Eq (le_n _)). }
    by destruct m.
Qed.

Lemma wp_connection_step s g hist len c n k stream ev : Inv s g hist → no_last s → enough_steps s stream k → (len ≤ length stream)%nat →
  connection_ok len c → unharmed s n → enabled ev c = true → wp (connection_step k ev c) n (steps_to s len c).
Proof. intros. destruct ev; [by eapply wp_receive_request|by eapply wp_answer_request]. Qed.

(** Events in any order, as long as they are enabled. *)
Inductive connection_run (k : nat) : connection → node → list connection_event → connection → node → Prop :=
| run_none c n : connection_run k c n [] c n
| run_event c n ev c1 n1 evs c2 n2 : enabled ev c = true → connection_step k ev c n = Done (c1, n1) →
    connection_run k c1 n1 evs c2 n2 → connection_run k c n (ev :: evs) c2 n2.

Lemma connection_run_ok s g hist len k stream c n evs c' n' : Inv s g hist → no_last s → enough_steps s stream k →
  (len ≤ length stream)%nat → connection_run k c n evs c' n' → connection_ok len c → unharmed s n →
  connection_ok len c' ∧ unharmed s n' ∧ (length evs + left_to_do c' ≤ left_to_do c)%nat.
Proof.
  intros HI Hl Hk Hle. induction 1 as [|c n ev c1 n1 evs c2 n2 He Hs _ IH]; intros Hc Hn; [done|].
  pose proof (wp_connection_step s g hist len c n k stream ev HI Hl Hk Hle Hc Hn He) as Hw. unfold wp in Hw. rewrite Hs in Hw.
  destruct Hw as (Hc1 & Hn1 & Hlt). destruct (IH Hc1 Hn1) as (? & ? & ?). split_and!; [done|done|]. simpl. lia.
Qed.

Lemma wp_session_loop s g hist len k stream fuel c n : Inv s g hist → no_last s → enough_steps s stream k → (len ≤ length stream)%nat →
  connection_ok len c → unharmed s n → (left_to_do c < fuel)%nat → wp (loop fuel (session_step k) c) n (λ _, unharmed s).
Proof.
  intros HI Hl Hk Hle. revert c n. induction fuel as [|fuel IH]; intros c n Hc Hn Hf; [lia|].
  apply wp_loop. unfold session_step.
  assert (Hstep : ∀ ev, enabled ev c = true → wp (c ← connection_step k ev c; mret (inl (B := bytes) c)) n
    (λ r n', match r with inl c' => wp (loop fuel (session_step k) c') n' (λ _, unharmed s) | inr _ => unharmed s n' end)).
  { intros ev He. apply wp_bind. eapply wp_mono; [by apply (wp_connection_step s g hist len c n k stream ev)|].
    intros c' n' (Hc' & Hn' & Hlt). apply wp_ret, IH; [done|done|lia]. }
  destruct (enabled Answer_request c) eqn:E1; [by apply Hstep|]. destruct (enabled Receive_request c) eqn:E2; [by apply Hstep|].
  by apply wp_ret.
Qed.

(** C24: whatever bytes a peer sends over a bootstrap connection,
    and however reading its requests and answering them interleave, the server
    ends: no assertion fails, there are at most as many events as bytes, and
    one, the loops of each answer end within as many steps as there are
    blocks, accounts, entries of [blocks_info] or bytes received, the ledger
    stays as it is and the node consistent; when nothing is left to do, every
    request received has been answered, except a push that broke off.  No
    account has the number 2^256 - 1, for which the answer to a request for
    frontiers has no end. *)
Theorem session_total n s k stream evs c n' :
  node_ok n → store_rel (store (n_ledger n)) s → no_last s → enough_steps s stream k →
  connection_run k (connect stream) n evs c n' →
  (length evs ≤ length stream + 1)%nat ∧ node_ok n' ∧ store_rel (store (n_ledger n')) s ∧
  (∀ ev, enabled ev c = true → ∃ c2 n2, connection_step k ev c n' = Done (c2, n2)) ∧
  ((∀ ev, enabled ev c = false) → cn_requests c = [] ∨ cn_requests c = [Bulk_push]) ∧
  ∃ answer n2, session k stream n = Done (answer, n2) ∧ node_ok n2 ∧ store_rel (store (n_ledger n2)) s.
Proof.
  intros Hn Hs Hl Hk Hrun. destruct (ok_ledger _ Hn) as (s' & g & hist & Hs' & HI & _). pose proof (store_rel_unique _ _ _ Hs Hs') as <-.
  assert (Hu : unharmed s n) by done. pose proof (connect_ok stream) as Hc0.
  destruct (connection_run_ok s g hist _ k stream _ _ _ _ _ HI Hl Hk (le_n _) Hrun Hc0 Hu) as (Hc & [Hn' Hs2] & Hlen).
  assert (Hinit : left_to_do (connect stream) = (length stream + 1)%nat) by (unfold left_to_do; simpl; lia).
  split_and!; [lia|done|done| | |].
  - intros ev He. pose proof (wp_connection_step s g hist _ c n' k stream ev HI Hl Hk (le_n _) Hc (conj Hn' Hs2) He) as Hw.
    apply wp_run in Hw as (c2 & n2 & Hr & _). eauto.
  - intros He. apply (co_idle _ _ Hc). specialize (He Answer_request). simpl in He. by destruct (cn_answering c).
  - assert (Hw : wp (session k stream) n (λ _, unharmed s)).
    { unfold session. eapply wp_session_loop; [exact HI|exact Hl|exact Hk|done|done|done|]. rewrite Hinit. lia. }
    apply wp_run in Hw as (a & n2 & ? & ? & ?). eauto.
Qed.

(** ** What a client pushes *)

(** The blocks of a target, from its first hash back to its second. *)
Definition pushes s (t : u256 * u256) bs : Prop :=
  match a_lookup s (fst t) with Some _ => chain_down s (snd t) (fst t) bs | None => bs = [] end.
Definition exhausted (t : u256 * u256) : bool := is_zero (fst t) || u_eqb (fst t) (snd t).
Definition remaining s (t : u256 * u256) bs : Prop := if exhausted t then bs = [] else pushes s t bs.

Lemma remaining_next s e h b bs : chain_down s e h (b :: bs) → remaining s (block_previous b, e) bs.
Proof.
  intros Hc. unfold remaining, exhausted, pushes. cbn [fst snd]. inversion Hc; simplify_eq.
  - by match goal with Hp : block_previous _ = _ |- _ => rewrite Hp, is_zero_0; simpl end.
  - rewrite (proj2 (is_zero_false _)) by done. cbn [orb].
    destruct (u_eqb_spec (block_previous b) e) as [E|Hne];
      [by match goal with Hx : chain_down _ _ _ bs |- _ => rewrite E in Hx; inversion Hx end|].
    by match goal with Hx : chain_down _ _ _ bs |- _ => inversion Hx; simplify_eq; try done;
      match goal with Hl : a_lookup _ _ = Some _ |- _ => rewrite Hl end end.
Qed.

(** What the state of the push client stands for. *)
Definition to_push s (st : (u256 * u256) * bootstrap_attempt) bs : Prop := ∃ bs1 bss,
  remaining s (fst st) bs1 ∧ (∀ t, t ∈ bulk_push_targets (snd st) → fst t ≠ snd t) ∧
  Forall2 (pushes s) (rev (bulk_push_targets (snd st))) bss ∧ bs = bs1 ++ concat bss.

Definition next_pushed s bs (r : option block * ((u256 * u256) * bootstrap_attempt)) : Prop :=
  match bs with
  | [] => fst r = None
  | b :: bs => fst r = Some b ∧ to_push s (snd r) bs
  end.

Lemma answers_block_get s h : answers s (on_store (lmdb_block_get h)) (λ r, r = fst <$> a_lookup s h).
Proof. by eapply answers_read; [apply reads_block_get|apply block_get_sim|]. Qed.

Lemma push_next_run s g hist k st bs : Inv s g hist → to_push s st bs →
  (length (bulk_push_targets (snd st)) + (if exhausted (fst st) then 1 else 2) ≤ k)%nat →
  answers s (loop k push_next_step st) (next_pushed s bs).
Proof.
  intros HI. revert st bs. induction k as [|k IH]; intros [[h e] a] bs (bs1 & bss & Hrem & Hne & Hbss & ->) Hk;
    cbn [fst snd] in *; [by destruct (exhausted _); lia|].
  apply answers_loop. unfold push_next_step at 1. unfold remaining in Hrem. change (is_zero (fst (h, e)) || _) with (exhausted (h, e)).
  destruct (exhausted (h, e)) eqn:Hex.
  - subst bs1. destruct (last (bulk_push_targets a)) as [[h' e']|] eqn:Hlast.
    2: { apply last_None in Hlast. rewrite Hlast in Hbss. apply Forall2_nil_inv_l in Hbss as ->. by apply answers_ret. }
    apply last_Some in Hlast as [ts Hts]. rewrite Hts in *. rewrite removelast_last.
    rewrite rev_app_distr in Hbss. simpl in Hbss. apply Forall2_cons_inv_l in Hbss as (bs' & bss' & Hb' & Hbss & ->).
    assert (Hne' : h' ≠ e') by (apply (Hne (h', e')); set_solver).
    eapply answers_bind; [apply answers_block_get|]. intros ? ->. unfold pushes in Hb'. simpl in *.
    destruct (a_lookup s h') as [[b sc]|] eqn:Eb; simpl; apply answers_ret.
    + assert (∃ bs2, bs' = b :: bs2) as [bs2 ->] by (inversion Hb'; simplify_eq; eauto).
      simpl. split; [done|]. exists bs2, bss'. split_and!; [by eapply remaining_next|set_solver|done|done].
    + subst bs'. apply (IH ((U 32 0, e'), set_push_targets ts a) (concat bss')).
      * exists [], bss'. unfold remaining, exhausted. cbn [fst snd]. rewrite is_zero_0. split_and!; [done|set_solver|done|done].
      * unfold exhausted. simpl. rewrite is_zero_0. rewrite length_app in Hk. simpl in *. lia.
  - unfold pushes in Hrem. simpl in Hrem. apply orb_false_iff in Hex as [Hz Hhe]. apply u_eqb_false in Hhe. simpl in Hhe.
    eapply answers_bind; [apply answers_block_get|]. intros ? ->. simpl.
    destruct (a_lookup s h) as [[b sc]|] eqn:Eb; simpl; apply answers_ret.
    + assert (∃ bs2, bs1 = b :: bs2) as [bs2 ->] by (inversion Hrem; simplify_eq; eauto).
      simpl. split; [done|]. exists bs2, bss. split_and!; [by eapply remaining_next|done..].
    + subst bs1. apply (IH ((U 32 0, e), a) (concat bss)).
      * exists [], bss. unfold remaining, exhausted. simpl. rewrite is_zero_0. done.
      * unfold exhausted. simpl. rewrite is_zero_0. simpl. lia.
Qed.

Lemma serve_pushes s g hist st bs out k : Inv s g hist → to_push s st bs → (length bs < k)%nat →
  answers s (loop k (serve_step push_send_next) (out, st)) (λ r, r = out ++ chain_bytes bs ++ not_a_block).
Proof.
  intros HI. revert st out k. induction bs as [|b bs IH]; intros st out [|k] Hst Hk; simpl in Hk; try lia.
  - eapply serve_last; [|done]. unfold push_send_next. eapply answers_bind; [eapply push_next_run; [exact HI|exact Hst|]|].
    { destruct (exhausted _); lia. }
    intros [r st'] Hr. simpl in Hr. subst r. eapply (answers_bind _ _ _ (λ _, True)); [by apply answers_stats|].
    intros _ _. by apply answers_ret.
  - apply answers_loop. unfold serve_step at 1, push_send_next at 1.
    eapply (answers_bind _ _ _ (λ r, ∃ st', r = (serialize_block b, Some st') ∧ to_push s st' bs)).
    { eapply answers_bind; [eapply push_next_run; [exact HI|exact Hst|]|].
      { simpl. destruct (exhausted _); lia. }
      intros [r st'] [Hr Hst']. simpl in Hr, Hst'. subst r. apply answers_ret. eauto. }
    intros ? (st' & -> & Hst'). apply answers_ret. simpl. eapply answers_mono; [apply IH; [done|lia]|].
    intros r ->. by rewrite chain_bytes_cons.
Qed.

(** C25: pushing blocks to another node over a connection.  The
    client pushes, for each of its targets, the last one first, the blocks
    from the first hash of the target back to just above the second; the server
    reads the request and the blocks in this order, and each of them has arrived
    there and waits in the queue of its block processor unless it had arrived
    before. *)
Theorem push_transfers n1 n2 s a bss k :
  node_ok n1 → store_rel (store (n_ledger n1)) s → node_ok n2 →
  (∀ t, t ∈ bulk_push_targets a → fst t ≠ snd t) →
  Forall2 (pushes s) (rev (bulk_push_targets a)) bss → Forall valid_work (concat bss) →
  (length (concat bss) < k)%nat →
  ∃ pushed n1' n2', push_run k a n1 = Done (pushed, n1') ∧ stays n1 n1' ∧
    session k pushed n2 = Done ([], n2') ∧ delivered n2 (concat bss) n2'.
Proof.
  intros Hn1 Hs Hn2 Hne Hbss Hv Hk.
  destruct (ok_ledger _ Hn1) as (s' & g & hist & Hs' & HI & _). pose proof (store_rel_unique _ _ _ Hs Hs') as <-.
  set (hd := make_header mt_bulk_push).
  assert (Hrun : answers s (push_run k a) (λ r, r = header_serialize badem_network hd ++ chain_bytes (concat bss) ++ not_a_block)).
  { unfold push_run, serialized. eapply (answers_bind _ _ _ (λ r, r = header_serialize badem_network hd)); [by eapply answers_lift|].
    intros ? ->. eapply (answers_bind _ _ _ (λ r, r = chain_bytes (concat bss) ++ not_a_block)); [|intros ? ->; by apply answers_ret].
    unfold serve. apply (serve_pushes s g hist _ _ [] k HI); [|done]. exists [], bss. unfold remaining, exhausted. simpl.
    rewrite is_zero_0. done. }
  destruct (answers_run _ _ _ n1 Hrun Hn1 Hs) as (pushed & n1' & Hp & Hst & ->).
  cut (wp (session k (header_serialize badem_network hd ++ chain_bytes (concat bss) ++ not_a_block)) n2
    (λ r n2', r = [] ∧ delivered n2 (concat bss) n2')).
  { intros (r & n2' & Hr & -> & Hd)%wp_run. eauto 10. }
  set (body := chain_bytes (concat bss) ++ not_a_block). unfold session. rewrite length_app, length_header.
  assert (Hrecv : receive_request (connect (header_serialize badem_network hd ++ body)) =
    (count_bootstrap stat.bulk_push;; mret (Connection [Bulk_push] (Some Bulk_push) false body []))).
  { unfold receive_request. simpl cn_stream. rewrite (proj2 (Nat.ltb_ge _ _)) by (rewrite length_app, length_header; lia).
    rewrite (take_app_length' _ body 8), (drop_app_length' _ body 8) by (by rewrite length_header).
    rewrite (header_action_push _ hd []); [|by rewrite <-(app_nil_r (header_serialize _ _)), header_read|done]. done. }
  apply wp_loop. change (session_step k (connect (header_serialize badem_network hd ++ body))) with
    (c ← receive_request (connect (header_serialize badem_network hd ++ body)); mret (inl (B := bytes) c)).
  rewrite Hrecv. apply wp_bind, wp_bind. eapply wp_mono; [apply (qwp_stats _ n2)|]. intros [] n3 [Hq _]. apply wp_ret, wp_ret.
  assert (Hd3 : delivered n2 [] n3) by (apply stays_delivered; [by apply quiet_stays|apply Hq]).
  apply wp_loop. unfold session_step at 1. simpl. apply wp_bind, wp_bind. unfold body. rewrite <-(app_nil_r not_a_block).
  eapply wp_mono; [apply wp_push_blocks; [apply Hd3|done|done]|].
  intros r n4 [-> Hd4]. apply wp_ret, wp_ret. split; [done|]. exact (delivered_trans _ _ _ _ _ Hd3 Hd4).
Qed.
End pushes.
