(* ===== verification/BootstrapPulls.v ===== *)
(** * A pull, from the request to the last block

    The client asks for an account down to a block it has; what the server
    answers brings exactly the blocks in between. *)

From S2P Require Import Prelude Crypto Blocks Common Stats Store Ledger Votes Lmdb Versioning.
From S2P Require Import BlockStore Messages MultiIndex Node Peers NodeCaches Sending Elections BlockProcessor.
From S2P Require Import BootstrapServer BootstrapClient StoreLemmas LedgerInv StoreRefine MessageProps.
From S2P Require Import NodeFrame NodeLedger NodeOk NodeQuiet NodePeers NodeElections NodeSafe NodeProcessor NodeReceive.
From S2P Require Import BootstrapChains BootstrapServed BootstrapPushes.

Section pulls.
Context `{NodeConfig, LmdbSpec, RandomPool, MultiIndex, Unordered, Wallets, !ReadableWallets}.
Context `{Blake2b, Ed25519, LedgerConstants}.
Implicit Types (n : node) (s : astore) (h e : u256) (b : block) (bs : list block).
Implicit Types (c : bulk_pull_client) (a : bootstrap_attempt).

(** The blocks from a hash back to just above another one. *)
Definition between s e h bs : Prop := chain_down s e h bs ∧ ∀ b, last bs = Some b → block_previous b = e.

Lemma between_owner s g hist e h bs m : Inv s g hist → between s e h bs → g !! h = Some m →
  e = U 32 0 ∨ ∃ m', g !! e = Some m' ∧ m_owner m' = m_owner m.
Proof.
  intros HI [Hc Hl]. revert m. induction Hc as [|h b sc Hne Eb Hp|h b sc bs Hne Eb Hp Hc IH]; intros m Em; [eauto| |].
  - left. by rewrite <-(Hl b).
  - pose proof (links_previous s g hist HI _ _ _ Eb) as Hk.
    destruct (inv_block _ _ _ HI _ _ _ _ Eb Em) as (_ & _ & _ & _ & Hf & _). unfold follows in Hf.
    destruct (links b); [|done]. destruct Hf as (pb & pm & _ & Epm & _ & -> & _). apply IH; [|done].
    intros b' Hb'. apply Hl. destruct bs; [done|exact Hb'].
Qed.

Lemma pull_from_head s g hist acc i e bs : Inv s g hist → a_accounts s !! acc = Some i →
  between s e (head i) bs → pull_from s g acc e = Bulk_pull_server e (head i).
Proof.
  intros HI Ei Hb. unfold pull_from. rewrite Ei. destruct (inv_account _ _ _ HI _ _ Ei) as (b & m & Eb & Em & Ho & _).
  destruct (between_owner _ _ _ _ _ _ _ HI Hb Em) as [->|(m' & Em' & Ho')].
  - unfold pull_bound. by case_bool_decide; rewrite is_zero_0.
  - unfold pull_bound. rewrite bool_decide_true by (apply (inv_dom _ _ _ HI); eauto).
    rewrite Em'. simpl. rewrite bool_decide_true by congruence. by rewrite orb_true_r.
Qed.

(** ** The client *)

(** What a run of blocks leaves at the client. *)
Record fetched n c a bs n' c' a' : Prop := {
  fe_ok : node_ok n';
  fe_ledger : n_ledger n' = n_ledger n;
  fe_queue : bp_blocks (n_block_processor n') = rev bs ++ bp_blocks (n_block_processor n);
  fe_pull : bpc_pull c' = bpc_pull c;
  fe_expected : bpc_expected c' = default (bpc_expected c) (block_previous <$> last bs);
  fe_hard_stop : bc_hard_stop (bpc_connection c') = bc_hard_stop (bpc_connection c);
  fe_pending_stop : bc_pending_stop (bpc_connection c') = bc_pending_stop (bpc_connection c);
  fe_pulls : pulls a' = pulls a;
  fe_pulling : pulling a' = pulling a;
  fe_frontier : frontier_connection a' = frontier_connection a;
  fe_idle : idle a' = idle a;
  fe_targets : bulk_push_targets a' = bulk_push_targets a;
  fe_total : total_blocks a' = u_add (total_blocks a) (U 8 (Z.of_nat (length bs)));
}.

Lemma wp_received t b rest n (Q : option block → node → Prop) : t = block_type_of b → valid_work b →
  Q (Some b) n → wp (block_received t (block_serialize b ++ rest)) n Q.
Proof.
  intros -> Hv HQ. unfold block_received. apply wp_bind. eapply wp_lift_outcome; [apply deserialize_typed_serialize|].
  apply wp_ret. unfold work_validate_block. by rewrite Hv.
Qed.

Lemma wp_pull_received_block n c a b (Q : bool * (bulk_pull_client * bootstrap_attempt) → node → Prop) : node_ok n →
  valid_work b → bpc_expected c = block_hash b →
  (∀ n' c' a', fetched n c a [b] n' c' a' → Q (negb (bc_hard_stop (bpc_connection c)), (c', a')) n') →
  wp (pull_received_block (block_type_of b) (block_serialize b) c a) n Q.
Proof.
  intros Hn Hv He HQ. unfold pull_received_block. apply wp_bind. rewrite <-(app_nil_r (block_serialize b)).
  apply wp_received; [done|done|]. apply wp_bind.
  assert (Hstart : ∀ P : Z → node → Prop, (∀ t n', node_ok n' → n_ledger n' = n_ledger n → n_block_processor n' = n_block_processor n → P t n') →
    wp (if is_zero (bc_block_count (bpc_connection c)) then now else mret (bc_start_time (bpc_connection c))) n P).
  { intros P HP. destruct (is_zero _); [|by apply wp_ret, HP].
    apply wp_now, HP; [|done..]. eapply quiet_ok; [apply quiet_steady|done]. }
  apply Hstart. intros t n1 Hn1 Hl1 Hp1. apply wp_bind, wp_processor_add; [done|]. apply wp_ret, HQ.
  rewrite He, u_eqb_refl. constructor; simpl; try done.
  - apply ok_set_blocks; [done|]. intros b' [->|Hb']%elem_of_cons; [done|]. by apply (ok_queue _ Hn1).
  - by rewrite Hp1.
Qed.

Lemma u_add_assoc {m} (x : uint m) y z : u_add (u_add x (U m y)) (U m z) = u_add x (U m (y + z)).
Proof.
  apply uval_inj. rewrite !uval_add, !uval_U. pose proof (modulus_pos m).
  rewrite !Z.add_mod_idemp_r, Z.add_mod_idemp_l by lia. f_equal. lia.
Qed.

Lemma fetched_cons n c a b n1 c1 a1 bs n2 c2 a2 : fetched n c a [b] n1 c1 a1 → fetched n1 c1 a1 bs n2 c2 a2 →
  fetched n c a (b :: bs) n2 c2 a2.
Proof.
  intros [] []. constructor; try congruence.
  - rewrite fe_queue1, fe_queue0. simpl. by rewrite <-app_assoc.
  - rewrite fe_expected1, fe_expected0. destruct bs as [|x l]; [done|]. rewrite (last_cons_cons b x l).
    destruct (last (x :: l)) eqn:El; [done|by apply last_None in El].
  - rewrite fe_total1, fe_total0, u_add_assoc. do 2 f_equal. simpl. lia.
Qed.

Lemma wp_pull_chain s g hist e h bs n c a k : Inv s g hist → chain_down s e h bs → Forall valid_work bs →
  node_ok n → bpc_expected c = h → bc_hard_stop (bpc_connection c) = false → (length bs < k)%nat →
  wp (loop k pull_step (chain_bytes bs ++ not_a_block, (c, a))) n (λ st n', ∃ c' a', fetched n c a bs n' c' a' ∧
    st = (c', snd (pull_received_type (block_type_byte bt_not_a_block) c' a'))).
Proof.
  intros HI Hc. revert n c a k.
  assert (Hend : ∀ n c a k, node_ok n → wp (loop (S k) pull_step (chain_bytes [] ++ not_a_block, (c, a))) n
    (λ st n', ∃ c' a', fetched n c a [] n' c' a' ∧ st = (c', snd (pull_received_type (block_type_byte bt_not_a_block) c' a')))).
  { intros n c a k Hn. apply wp_loop. simpl. apply wp_ret. exists c, a. split; [|done].
    constructor; try done. by destruct (total_blocks a) as [z Hz] eqn:E; rewrite <-E; apply uval_inj; rewrite uval_add, uval_U, Z.add_mod_idemp_r, Z.add_0_r, Z.mod_small by (pose proof (uval_range (total_blocks a)); lia). }
  assert (Hone : ∀ h b sc bs n c a k, a_lookup s h = Some (b, sc) → valid_work b → node_ok n →
    bpc_expected c = h → bc_hard_stop (bpc_connection c) = false →
    (∀ n1 c1 a1, fetched n c a [b] n1 c1 a1 → wp (loop k pull_step (chain_bytes bs ++ not_a_block, (c1, a1))) n1
      (λ st n', ∃ c' a', fetched n1 c1 a1 bs n' c' a' ∧ st = (c', snd (pull_received_type (block_type_byte bt_not_a_block) c' a')))) →
    wp (loop (S k) pull_step (chain_bytes (b :: bs) ++ not_a_block, (c, a))) n
      (λ st n', ∃ c' a', fetched n c a (b :: bs) n' c' a' ∧ st = (c', snd (pull_received_type (block_type_byte bt_not_a_block) c' a')))).
  { clear h bs Hc. intros h b sc bs n c a k Eb Hv Hn He Hh Hk. apply wp_loop.
    pose proof (wf_lookup_hash _ _ _ _ (inv_wf _ _ _ HI) Eb) as Hb.
    change (chain_bytes (b :: bs) ++ not_a_block) with ((serialize_block b ++ chain_bytes bs) ++ not_a_block).
    rewrite <-app_assoc. cbn [pull_step serialize_block app]. unfold pull_received_type at 1. rewrite type_read_block.
    rewrite (proj2 (Nat.ltb_ge _ _)) by (rewrite length_app, length_block_serialize; lia).
    rewrite (take_app_length' _ _ (block_size (block_type_of b))) by (by rewrite length_block_serialize).
    rewrite (drop_app_length' _ _ (block_size (block_type_of b))) by (by rewrite length_block_serialize).
    apply wp_bind, wp_pull_received_block; [done|done|congruence|]. intros n1 c1 a1 Hf. rewrite Hh. apply wp_ret. simpl.
    eapply wp_mono; [by apply Hk|]. intros st n2 (c2 & a2 & Hf2 & ->). exists c2, a2. split; [|done]. by eapply fetched_cons. }
  induction Hc as [|h b sc Hne Eb Hp|h b sc bs Hne Eb Hp Hc IH]; intros n c a [|k] Hv Hn He Hh Hk; simpl in Hk; try lia; [by apply Hend| |].
  - apply Forall_cons in Hv as [Hv _]. eapply Hone; [done..|]. intros n1 c1 a1 Hf. destruct k; [lia|]. apply Hend, Hf.
  - apply Forall_cons in Hv as [Hvb Hv]. eapply Hone; [done..|]. intros n1 c1 a1 Hf.
    apply IH; [done|apply Hf|by rewrite (fe_expected _ _ _ _ _ _ _ Hf)|by rewrite (fe_hard_stop _ _ _ _ _ _ _ Hf)|lia].
Qed.

Lemma between_last s e h bs : between s e h bs → default h (block_previous <$> last bs) = e.
Proof.
  intros [Hc Hl]. destruct (last bs) as [b|] eqn:E; simpl; [auto|]. apply last_None in E as ->. by inversion Hc.
Qed.

(** C11: pulling an account from another node over a connection.
    The client asks for the account [acc] down to the block [e], 0 standing for
    the whole account; the server reads the request and answers with the
    blocks from its head of the account down to just above [e]; the client
    reads the answer, queues exactly these blocks for its block processor and
    finds that the pull is complete, so that it is not tried again and the
    connection goes back to the pool.  The ledgers of both nodes stay as they
    are. *)
Theorem pull_transfers n1 n2 s acc i e bs conn a k :
  node_ok n1 → store_rel (store (n_ledger n1)) s → node_ok n2 →
  a_accounts s !! acc = Some i → between s e (head i) bs → Forall valid_work bs →
  bc_hard_stop conn = false → bc_pending_stop conn = false → (size (a_blocks s) + 1 < k)%nat →
  let '(c0, a0) := make_bulk_pull_client conn (make_pull acc (head i) e) a in
  ∃ request c answer n1' a' n2' conn', bulk_pull_request c0 n2 = Done ((request, c), n2) ∧
    session k request n1 = Done (answer, n1') ∧ stays n1 n1' ∧
    pull_receive k answer c a0 n2 = Done ((a', None), n2') ∧ node_ok n2' ∧ n_ledger n2' = n_ledger n2 ∧
    bp_blocks (n_block_processor n2') = rev bs ++ bp_blocks (n_block_processor n2) ∧
    pulls a' = pulls a ∧ idle a' = conn' :: idle a ∧ pulling a' = pulling a ∧
    total_blocks a' = u_add (total_blocks a) (U 8 (Z.of_nat (length bs))).
Proof.
  intros Hn1 Hs Hn2 Ei Hb Hv Hh Hp Hk.
  destruct (ok_ledger _ Hn1) as (s' & g & hist & Hs' & HI & _). pose proof (store_rel_unique _ _ _ Hs Hs') as <-.
  unfold make_bulk_pull_client. set (a0 := set_pulling _ a). set (m := Bulk_pull acc e).
  destruct (answers_session s k m stat.bulk_pull (32 + 32) (λ r, r = chain_bytes bs ++ not_a_block)) as (request & Hreq & Hans); [done| |].
  { eapply answers_mono; [by eapply (answers_pull s g hist acc e k); [|lia]|]. intros r (bs' & Hc & ->).
    rewrite (pull_from_head _ _ _ _ _ _ _ HI Ei Hb) in Hc. simpl in Hc. by rewrite (chain_det s e _ _ _ Hc (proj1 Hb)). }
  destruct (answers_run _ _ _ n1 Hans Hn1 Hs) as (answer & n1' & Hrun & Hst & ->).
  set (c := Bulk_pull_client (make_pull acc (head i) e) (head i) conn).
  assert (Hlen : (length bs ≤ size (a_blocks s))%nat).
  { destruct (inv_account _ _ _ HI _ _ Ei) as (hb & _ & Eb & _).
    destruct (chain_exists s g hist HI e (head i)) as (bs' & Hc' & Hl); [by rewrite Eb|].
    by rewrite (chain_det s e _ _ _ (proj1 Hb) Hc'). }
  destruct (proj1 (wp_run _ _ _) (wp_pull_chain s g hist e (head i) bs n2 c a0 k HI (proj1 Hb) Hv Hn2 eq_refl Hh ltac:(lia)))
    as (st & n2' & Hloop & c' & a' & Hf & ->).
  assert (Hexp : bpc_expected c' = e) by (by etrans; [exact (fe_expected _ _ _ _ _ _ _ Hf)|exact (between_last _ _ _ _ Hb)]).
  exists request, c, (chain_bytes bs ++ not_a_block), n1', (set_pulling (u_sub (pulling a') (U 4 1)) (pool_connection (bpc_connection c') a')), n2', (bpc_connection c').
  split_and!; [|exact Hrun|exact Hst| |apply Hf|apply Hf|apply Hf|..]; simpl.
  - unfold bulk_pull_request, serialized. simpl. unfold message_serialize in Hreq. simpl in Hreq. injection Hreq as <-. done.
  - unfold pull_receive. rewrite (bind_done _ _ _ _ _ Hloop). simpl. unfold bulk_pull_destroy, pull_received_type. simpl.
    rewrite (fe_pending_stop _ _ _ _ _ _ _ Hf), Hexp, (fe_pull _ _ _ _ _ _ _ Hf). simpl. by rewrite Hp, u_eqb_refl.
  - by rewrite (fe_pulls _ _ _ _ _ _ _ Hf).
  - by rewrite (fe_idle _ _ _ _ _ _ _ Hf).
  - rewrite (fe_pulling _ _ _ _ _ _ _ Hf). simpl. apply u_sub_add.
  - by rewrite (fe_total _ _ _ _ _ _ _ Hf).
Qed.
End pulls.
