(* ===== verification/BootstrapFrontiers.v ===== *)
(** * Comparing frontiers

    The client walks through the frontiers of another node and its own
    accounts in step; in the end it pulls exactly the accounts whose head it
    lacks, and pushes only chains the other node lacks. *)

From S2P Require Import Prelude Crypto Blocks Common Stats Store Ledger Votes Lmdb Versioning.
From S2P Require Import BlockStore Messages MultiIndex Node Peers NodeCaches Sending Elections BlockProcessor.
From S2P Require Import BootstrapServer BootstrapClient StoreLemmas LedgerInv StoreRefine MessageProps.
From S2P Require Import NodeFrame NodeLedger NodeOk NodeQuiet NodePeers NodeElections NodeSafe NodeProcessor NodeReceive.
From S2P Require Import BootstrapChains BootstrapServed.

Section frontiers.
Context `{NodeConfig, LmdbSpec, RandomPool, MultiIndex, Unordered, Wallets, !ReadableWallets}.
Context `{Blake2b, Ed25519, LedgerConstants}.
Implicit Types (n : node) (s : astore) (h e x : u256).
Implicit Types (c : frontier_req_client) (a : bootstrap_attempt) (l : list (u256 * account_info)).

(** The next [d] readings of the clock are within five seconds. *)
Definition prompt (lo : Z) (d : nat) n : Prop := ∀ i, (i < d)%nat → lo ≤ n_steady n i ≤ lo + seconds 5.

(** A run that only reads the store and, at most [d] times, the clock. *)
Definition looks {A} s lo (d : nat) (m : M node A) (Q : A → Prop) : Prop := ∀ j n, node_ok n →
  store_rel (store (n_ledger n)) s → prompt lo (d + j) n →
  wp m n (λ r n', (node_ok n' ∧ n_ledger n' = n_ledger n ∧ prompt lo j n') ∧ Q r).

Lemma looks_ret {A} s lo d (r : A) (Q : A → Prop) : Q r → looks s lo d (mret r) Q.
Proof. intros HQ j n Hn Hs Hp. apply wp_ret. split; [|done]. split_and!; [done|done|]. intros i Hi. apply Hp. lia. Qed.
Lemma looks_bind {A B} s lo d1 d2 (m : M node A) (f : A → M node B) P Q :
  looks s lo d1 m P → (∀ r, P r → looks s lo d2 (f r) Q) → looks s lo (d1 + d2) (m ≫= f) Q.
Proof.
  intros Hm Hf j n Hn Hs Hp. apply wp_bind. eapply wp_mono; [apply (Hm (d2 + j)%nat); [done|done|]|].
  { intros i Hi. apply Hp. lia. }
  intros r n1 [(Hn1 & Hl & Hp1) HP]. eapply wp_mono; [apply (Hf r HP j n1); [done|by rewrite Hl|done]|].
  intros r2 n2 [(Hn2 & Hl2 & Hp2) HQ]. split; [|done]. split_and!; [done|congruence|done].
Qed.
Lemma looks_mono {A} s lo d (m : M node A) (P Q : A → Prop) : looks s lo d m P → (∀ r, P r → Q r) → looks s lo d m Q.
Proof. intros Hm HPQ j n Hn Hs Hp. eapply wp_mono; [by apply (Hm j)|]. intros r n' [? ?]. auto. Qed.
Lemma looks_read {A} s lo (m : M block_store A) (f : astore → A) (Q : A → Prop) :
  reads m → sim store_rel m (gets f) → Q (f s) → looks s lo 0 (on_store m) Q.
Proof. intros Hr Hm HQ j n Hn Hs Hp. eapply wp_store_read; [done|by eapply sim_read_run|]. done. Qed.
Lemma looks_now s lo (Q : Z → Prop) : (∀ t, lo ≤ t ≤ lo + seconds 5 → Q t) → looks s lo 1 now Q.
Proof.
  intros HQ j n Hn Hs Hp. apply wp_now. split; [|apply HQ, Hp; lia]. split_and!; [|done|intros i Hi; apply Hp; lia].
  eapply quiet_ok; [apply quiet_steady|done].
Qed.
Lemma looks_loop {A B} s lo d1 d2 k (body : A → M node (A + B)) r (Q : B → Prop) :
  looks s lo d1 (body r) (λ r, match r with inl r' => looks s lo d2 (loop k body r') Q | inr q => Q q end) →
  looks s lo (d1 + d2) (loop (Datatypes.S k) body r) Q.
Proof. intros Hb. simpl. eapply looks_bind; [exact Hb|]. intros [r'|q] HQ; [exact HQ|by apply looks_ret]. Qed.
Lemma looks_assert s lo (b : bool) (Q : unit → Prop) : b = true → Q tt → looks s lo 0 (assert_ b) Q.
Proof. intros -> HQ j n Hn Hs Hp. by apply wp_assert. Qed.

(** ** The position of the client *)

Definition client_at c l s : Prop := at_frontier s (frc_current c) (frc_info c) l.
Definition started lo c : Prop := frc_count c = U 4 0 ∨ lo ≤ frc_start_time c ≤ lo + seconds 5.

Lemma looks_next s lo c : started lo c → looks s lo 0 (frontier_client_next c)
  (λ c', client_at c' (cursor hash_le (u_add (frc_current c) (U 32 1)) (a_accounts s)) s ∧ started lo c').
Proof.
  intros Hst. unfold frontier_client_next.
  eapply (looks_bind _ _ 0 0 _ _ (λ r, r = hd_error (cursor hash_le (u_add (frc_current c) (U 32 1)) (a_accounts s)))).
  { by eapply looks_read; [apply reads_latest_from|apply latest_from_sim|]. }
  intros ? ->. unfold client_at, at_frontier.
  destruct (cursor hash_le _ _) as [|[x i] l] eqn:Hc; simpl; apply looks_ret; simpl; eauto.
Qed.

(** What the comparison adds to the attempt besides targets. *)
Definition same_but_targets a a' : Prop :=
  pulls a' = pulls a ∧ idle a' = idle a ∧ pulling a' = pulling a ∧ total_blocks a' = total_blocks a ∧
  frontier_connection a' = frontier_connection a.

Lemma unsynced_adds h e c a : let r := unsynced h e c a in
  (frc_current r.1, frc_info r.1, frc_count r.1, frc_start_time r.1) =
    (frc_current c, frc_info c, frc_count c, frc_start_time c) ∧
  same_but_targets a r.2 ∧
  (bulk_push_targets r.2 = bulk_push_targets a ∨ bulk_push_targets r.2 = bulk_push_targets a ++ [(h, e)]).
Proof. unfold unsynced. destruct (_ <? _); simpl; unfold same_but_targets; split_and!; auto. Qed.

Lemma same_refl a : same_but_targets a a.
Proof. done. Qed.
Lemma same_trans a a1 a2 : same_but_targets a a1 → same_but_targets a1 a2 → same_but_targets a a2.
Proof. intros (?&?&?&?&?) (?&?&?&?&?). split_and!; congruence. Qed.

Lemma client_next s g hist lo c p l : Inv s g hist → no_last s → client_at c (p :: l) s → started lo c →
  p = (frc_current c, frc_info c) ∧ frc_current c ≠ U 32 0 ∧
  looks s lo 0 (frontier_client_next c) (λ c', client_at c' l s ∧ started lo c').
Proof.
  intros HI Hl Hc Hst. pose proof Hc as [_ ->]. split; [done|].
  destruct (cursor_next _ _ _ _ _ _ HI Hl Hc) as [Hz E]. split; [done|]. 
  eapply looks_mono; [by apply looks_next|]. intros c' [Hc' ?]. rewrite E in Hc'. done.
Qed.

(** The accounts below the bound are passed. *)
Definition passed s lo below c a l (r : frontier_req_client * bootstrap_attempt) : Prop :=
  ∃ pre l', l = pre ++ l' ∧ client_at r.1 l' s ∧ started lo r.1 ∧
    Forall (λ p, below p.1 = true) pre ∧ (∀ p, hd_error l' = Some p → below p.1 = false) ∧
    same_but_targets a r.2 ∧
    ∀ t, t ∈ bulk_push_targets r.2 → t ∈ bulk_push_targets a ∨ ∃ p, p ∈ pre ∧ t = (head p.2, U 32 0).

Lemma skip_unknown s g hist lo (below : u256 → bool) k c a l : Inv s g hist → no_last s → client_at c l s → started lo c →
  (length l < k)%nat → looks s lo 0 (loop k (unknown_step below) (c, a)) (passed s lo below c a l).
Proof.
  intros HI Hl. revert k c a. induction l as [|p l IH]; intros [|k] c a Hc Hst Hk; simpl in Hk; try lia;
    apply (looks_loop _ _ 0 0); unfold unknown_step at 1.
  - pose proof Hc as [_ Hz]. rewrite Hz, is_zero_0. apply looks_ret. exists [], []. split_and!; simpl; first [done|by constructor|by auto|intros; congruence].
  - destruct (client_next _ _ _ _ _ _ _ HI Hl Hc Hst) as (-> & Hz%is_zero_false & Hnext). rewrite Hz.
    destruct (below (frc_current c)) eqn:Hb; simpl.
    2: { apply looks_ret. exists [], ((frc_current c, frc_info c) :: l). split_and!; try done; [|by auto]. by intros p [= <-]. }
    pose proof (unsynced_adds (head (frc_info c)) (U 32 0) c a) as Hu. destruct (unsynced _ _ c a) as [c1 a1].
    destruct Hu as (Hsame & Ha & Ht). injection Hsame as Hcur Hinfo Hcnt Htime. simpl in Ha, Ht.
    destruct (client_next s g hist lo c1 (frc_current c, frc_info c) l HI Hl) as (_ & _ & Hnext1).
    { unfold client_at. by rewrite Hcur, Hinfo. }
    { unfold started. by rewrite Hcnt, Htime. }
    eapply (looks_bind _ _ 0 0); [exact Hnext1|]. intros c2 [Hc2 Hst2]. apply looks_ret.
    eapply looks_mono; [apply IH; [done|done|lia]|]. intros r (pre & l' & -> & Hr & Hstr & Hpre & Hhd & Hsr & Htr).
    exists ((frc_current c, frc_info c) :: pre), l'. split_and!; [done|done|done|by constructor|done|by eapply same_trans|].
    intros t [Hin|(p & Hp & ->)]%Htr; [|right; exists p; split; [by right|done]].
    destruct Ht as [Ht|Ht]; rewrite Ht in Hin; [by left|]. apply elem_of_app in Hin as [|Hin]; [by left|].
    apply list_elem_of_singleton in Hin as ->. right. eexists. split; [by left|done].
Qed.

(** ** One frontier *)

(** The pull that the frontier of another node asks for. *)
Definition missing s (p : u256 * account_info) : option pull_info :=
  match a_accounts s !! p.1 with
  | None => Some (make_pull p.1 (head p.2) (U 32 0))
  | Some i =>
      if u_eqb (head p.2) (head i) || bool_decide (is_Some (a_lookup s (head p.2))) then None
      else Some (make_pull p.1 (head p.2) (head i))
  end.
(** [l] has the accounts of the client among those of [F]. *)
Definition covers s (F : list (u256 * account_info)) l : Prop := ∀ p i, p ∈ F → a_accounts s !! p.1 = Some i → (p.1, i) ∈ l.

(** What the attempt gets from a frontier. *)
Record compared s (q : u256 * account_info) F l c a c' a' l' : Prop := {
  co_at : client_at c' l' s;
  co_length : (length l' ≤ length l)%nat;
  co_covers : covers s F l';
  co_above : ∀ p, p ∈ l' → p ∈ l ∧ uval q.1 < uval p.1;
  co_pulls : pulls a' = pulls a ++ option_list (missing s q);
  co_idle : idle a' = idle a;
  co_targets : ∀ t, t ∈ bulk_push_targets a' → t ∈ bulk_push_targets a ∨
    (∃ p, p ∈ l ∧ uval p.1 < uval q.1 ∧ t = (head p.2, U 32 0)) ∨
    (∃ i, (q.1, i) ∈ l ∧ t = (head i, head q.2) ∧ head q.2 ≠ head i ∧ is_Some (a_lookup s (head q.2)));
}.

Lemma at_own s c l p : client_at c l s → p ∈ l → a_accounts s !! p.1 = Some p.2.
Proof. intros [[a <-] _] Hp. apply (elem_of_cursor a _ p.1 p.2). by destruct p. Qed.
Lemma at_sorted s c l : client_at c l s → StronglySorted key_lt l.
Proof. intros [[a <-] _]. apply cursor_sorted. Qed.

Lemma covers_rest s c q F l l' : StronglySorted key_lt (q :: F) → client_at c l s → covers s (q :: F) l →
  (∀ p, p ∈ l → p ∈ l' ∨ uval p.1 ≤ uval q.1) → covers s F l'.
Proof.
  intros [_ Hs]%StronglySorted_inv _ Hc Hl p i Hp Hi. rewrite Forall_forall in Hs. specialize (Hs p Hp).
  unfold key_lt in Hs. destruct (Hl _ (Hc p i (list_elem_of_further _ _ _ Hp) Hi)) as [|Hle]; [done|]. simpl in Hle. lia.
Qed.

Lemma co_unknown s q F l : covers s (q :: F) l → (∀ p, p ∈ l → uval p.1 ≠ uval q.1) →
  missing s q = Some (make_pull q.1 (head q.2) (U 32 0)).
Proof.
  intros Hco Hl. unfold missing. destruct (a_accounts s !! q.1) as [i|] eqn:Ei; [|done].
  destruct (Hl _ (Hco q i ltac:(by left) Ei)). done.
Qed.

Lemma at_above s c p l (q : u256) : client_at c (p :: l) s → uval q ≤ uval p.1 → ∀ p', p' ∈ l → uval q < uval p'.1.
Proof.
  intros [_ Hp]%at_sorted%StronglySorted_inv Hq p' Hp'. rewrite Forall_forall in Hp. specialize (Hp p' Hp').
  unfold key_lt in Hp. lia.
Qed.

(** The own accounts below that of the frontier are done with, and the client
    is at [l]. *)
Lemma compared_unknown s q F l c a c1 a1 pre l' : StronglySorted key_lt (q :: F) → client_at c l s →
  covers s (q :: F) l → l = pre ++ l' → client_at c1 l' s → Forall (λ p, u_ltb p.1 q.1 = true) pre →
  (∀ p, p ∈ l' → uval q.1 < uval p.1) → same_but_targets a a1 →
  (∀ t, t ∈ bulk_push_targets a1 → t ∈ bulk_push_targets a ∨ ∃ p, p ∈ pre ∧ t = (head p.2, U 32 0)) →
  compared s q F l c a c1 (add_pull (make_pull q.1 (head q.2) (U 32 0)) a1) l'.
Proof.
  intros Hs Hc Hco -> Hc1 Hpre Hl' (Hpu & Hid & _) Ht. rewrite Forall_forall in Hpre.
  assert (Hb : ∀ p, p ∈ pre → uval p.1 < uval q.1) by (intros p Hp; apply Hpre in Hp; by destruct (u_ltb_spec p.1 q.1)).
  constructor; simpl.
  - done.
  - rewrite length_app. lia.
  - eapply (covers_rest s c q); [exact Hs|exact Hc|exact Hco|]. intros p [Hp%Hb|]%elem_of_app; [right; lia|by left].
  - intros p Hp. split; [apply elem_of_app; by right|auto].
  - rewrite (co_unknown _ _ _ _ Hco), Hpu; [done|]. intros p [Hp%Hb|Hp%Hl']%elem_of_app; lia.
  - done.
  - intros t [|(p & Hp & ->)]%Ht; [by left|]. right. left. exists p. split_and!; [apply elem_of_app; by left|auto|done].
Qed.
Lemma compared_known s q F l c a c1 c2 a1 a2 pre i l' x : StronglySorted key_lt (q :: F) → client_at c l s →
  covers s (q :: F) l → l = pre ++ (q.1, i) :: l' → client_at c1 ((q.1, i) :: l') s → client_at c2 l' s →
  Forall (λ p, u_ltb p.1 q.1 = true) pre → same_but_targets a a1 → pulls a2 = pulls a1 ++ option_list (missing s q) →
  idle a2 = idle a1 → (∀ t, t ∈ bulk_push_targets a1 → t ∈ bulk_push_targets a ∨ ∃ p, p ∈ pre ∧ t = (head p.2, U 32 0)) →
  (∀ t, t ∈ bulk_push_targets a2 → t ∈ bulk_push_targets a1 ∨ t = (head i, x) ∧ x = head q.2 ∧ x ≠ head i ∧ is_Some (a_lookup s x)) →
  compared s q F l c a c2 a2 l'.
Proof.
  intros Hs Hc Hco -> Hc1 Hc2 Hpre (Hpu & Hid & _) Hp2 Hi2 Ht Ht2. rewrite Forall_forall in Hpre.
  assert (Hb : ∀ p, p ∈ pre → uval p.1 < uval q.1) by (intros p Hp; apply Hpre in Hp; by destruct (u_ltb_spec p.1 q.1)).
  constructor.
  - done.
  - rewrite length_app. simpl. lia.
  - eapply (covers_rest s c q); [exact Hs|exact Hc|exact Hco|]. intros p [Hp%Hb|[->|]%elem_of_cons]%elem_of_app; [right; lia|right; simpl; lia|by left].
  - intros p Hp. split; [apply elem_of_app; right; by right|]. eapply (at_above _ _ _ _ _ Hc1); [simpl; lia|done].
  - congruence.
  - congruence.
  - intros t [Hin|(-> & -> & ? & ?)]%Ht2.
    + apply Ht in Hin as [|(p & Hp & ->)]; [by left|]. right. left. exists p. split_and!; [apply elem_of_app; by left|auto|done].
    + right. right. exists i. split_and!; [apply elem_of_app; right; by left|done..].
Qed.

(** The heads of an account that both nodes have. *)
Lemma looks_head s lo q c a : a_accounts s !! q.1 = Some (frc_info c) →
  looks s lo 0 (if u_eqb (head q.2) (head (frc_info c)) then mret (c, a)
              else
                exists_ ← on_store (lmdb_block_exists (head q.2));
                mret (if exists_ : bool then unsynced (head (frc_info c)) (head q.2) c a
                      else (add_cost 5 c, add_pull (make_pull q.1 (head q.2) (head (frc_info c))) a)))
    (λ r, (frc_current r.1, frc_info r.1, frc_count r.1, frc_start_time r.1) =
        (frc_current c, frc_info c, frc_count c, frc_start_time c) ∧
      pulls r.2 = pulls a ++ option_list (missing s q) ∧ idle r.2 = idle a ∧
      ∀ t, t ∈ bulk_push_targets r.2 → t ∈ bulk_push_targets a ∨
        t = (head (frc_info c), head q.2) ∧ head q.2 = head q.2 ∧ head q.2 ≠ head (frc_info c) ∧ is_Some (a_lookup s (head q.2))).
Proof.
  intros Hi. unfold missing. rewrite Hi. destruct (u_eqb_spec (head q.2) (head (frc_info c))) as [E|E]; simpl.
  { apply looks_ret. simpl. rewrite app_nil_r. auto. }
  eapply (looks_bind _ _ 0 0 _ _ (λ r, r = bool_decide (is_Some (a_lookup s (head q.2))))).
  { by eapply looks_read; [apply reads_block_exists|apply block_exists_sim|]. }
  intros ? ->. apply looks_ret. case_bool_decide as Hb; simpl.
  - pose proof (unsynced_adds (head (frc_info c)) (head q.2) c a) as (Hpos & (Hp & Hid & _) & Ht).
    split_and!; [done|by rewrite app_nil_r|done|]. intros t Hin. destruct Ht as [Ht|Ht]; rewrite Ht in Hin; [by left|].
    apply elem_of_app in Hin as [|Hin]; [by left|]. apply list_elem_of_singleton in Hin as ->. right. done.
  - split_and!; auto.
Qed.

Lemma looks_received s g hist lo conn k q F c a l : Inv s g hist → no_last s → q.1 ≠ U 32 0 →
  StronglySorted key_lt (q :: F) → client_at c l s → started lo c → covers s (q :: F) l → (length l < k)%nat →
  looks s lo 2 (received_frontier k conn q.1 (head q.2) c a)
    (λ r, ∃ c' a' l', r = next_frontier c' a' ∧ started lo c' ∧ compared s q F l c a c' a' l').
Proof.
  intros HI Hl Hq Hs Hc Hst Hco Hk. unfold received_frontier.
  eapply (looks_bind _ _ 1 1 _ _ (λ t, lo ≤ t ≤ lo + seconds 5)).
  { destruct (is_zero _) eqn:Hz; [by apply looks_now|]. apply looks_ret. destruct Hst as [Hst|]; [|done].
    by rewrite Hst, is_zero_0 in Hz. }
  intros start Hstart. eapply (looks_bind _ _ 1 0); [apply looks_now; intros t Ht; exact Ht|]. intros t Ht. simpl in Ht.
  unfold too_slow. rewrite (proj2 (Z.ltb_ge _ _)) by lia. simpl. apply is_zero_false in Hq. rewrite Hq. simpl.
  set (c0 := Frontier_req_client _ _ _ start _).
  eapply (looks_bind _ _ 0 0); [eapply skip_unknown; [exact HI|exact Hl|exact Hc|by right|exact Hk]|].
  intros [c1 a1] (pre & l' & El & Hc1 & Hst1 & Hpre & Hhd & Hsame & Hta). simpl in Hc1, Hst1, Hpre, Hhd, Hsame, Hta.
  destruct l' as [|[x i] l'].
  { pose proof Hc1 as [_ Hz]. rewrite Hz, is_zero_0. simpl. apply looks_ret. eexists _, _, []. split_and!; [done|done|].
    eapply compared_unknown; try done. by intros p ?%not_elem_of_nil. }
  pose proof (Hhd _ eq_refl) as Hx. simpl in Hx.
  destruct (client_next _ _ _ _ _ _ _ HI Hl Hc1 Hst1) as ([= -> ->] & Hz%is_zero_false & Hnext). rewrite Hz. simpl.
  destruct (u_eqb_spec q.1 (frc_current c1)) as [E|E].
  - assert (Ho : a_accounts s !! q.1 = Some (frc_info c1)).
    { rewrite E. exact (at_own s c1 _ (frc_current c1, frc_info c1) Hc1 ltac:(by left)). }
    eapply (looks_bind _ _ 0 0); [by apply looks_head|]. intros [c2 a2] (Hpos & Hp2 & Hi2 & Ht2). simpl in Hpos, Hp2, Hi2, Ht2.
    injection Hpos as Hcur Hinfo Hcnt Htime.
    destruct (client_next s g hist lo c2 (frc_current c1, frc_info c1) l' HI Hl) as (_ & _ & Hnext2).
    { unfold client_at. by rewrite Hcur, Hinfo. }
    { unfold started. by rewrite Hcnt, Htime. }
    eapply (looks_bind _ _ 0 0); [exact Hnext2|]. intros c3 [Hc3 Hst3]. apply looks_ret. eexists _, _, l'. split_and!; [done|done|].
    rewrite <-E in *. by eapply compared_known.
  - assert (uval q.1 < uval (frc_current c1)).
    { destruct (u_ltb_spec (frc_current c1) q.1); [done|]. assert (uval q.1 ≠ uval (frc_current c1)); [|lia].
      intros Eu. by apply E, uval_inj. }
    eapply (looks_bind _ _ 0 0 _ _ (λ _, True)); [apply looks_assert; [by destruct (u_ltb_spec q.1 (frc_current c1))|exact I]|]. intros _ _.
    apply looks_ret. eexists _, _, (_ :: _). split_and!; [done|done|]. eapply compared_unknown; try done.
    intros p [->|Hp]%elem_of_cons; [done|]. eapply at_above; [exact Hc1|simpl; lia|done].
Qed.

(** ** All frontiers *)

(** A chain of [s2] that a node with the ledger [s1] lacks, from its head down
    to the head that node has. *)
Definition lacking s1 s2 (t : u256 * u256) : Prop := ∃ x i, a_accounts s2 !! x = Some i ∧ t.1 = head i ∧
  match a_accounts s1 !! x with
  | None => t.2 = U 32 0
  | Some i1 => t.2 = head i1 ∧ head i1 ≠ head i ∧ is_Some (a_lookup s2 (head i1))
  end.

Lemma looks_end s1 s g hist lo conn k c a l : Inv s g hist → no_last s → client_at c l s → started lo c →
  (∀ p, p ∈ l → a_accounts s1 !! p.1 = None) → (length l < k)%nat →
  looks s lo 2 (received_frontier k conn (U 32 0) (U 32 0) c a)
    (λ r, ∃ a', r = frontiers_done false a' ∧ pulls a' = pulls a ∧ idle a' = conn :: idle a ∧
      ∀ t, t ∈ bulk_push_targets a' → t ∈ bulk_push_targets a ∨ lacking s1 s t).
Proof.
  intros HI Hl Hc Hst Hun Hk. unfold received_frontier.
  eapply (looks_bind _ _ 1 1 _ _ (λ t, lo ≤ t ≤ lo + seconds 5)).
  { destruct (is_zero (frc_count c)) eqn:Hz; [by apply looks_now|]. apply looks_ret. destruct Hst as [Hst|]; [|done].
    by rewrite Hst, is_zero_0 in Hz. }
  intros start Hstart. eapply (looks_bind _ _ 1 0); [apply looks_now; intros t Ht; exact Ht|]. intros t Ht. simpl in Ht.
  unfold too_slow. rewrite (proj2 (Z.ltb_ge _ _)) by lia. rewrite is_zero_0. simpl. set (c0 := Frontier_req_client _ _ _ start _).
  eapply (looks_bind _ _ 0 0); [eapply skip_unknown; [exact HI|exact Hl|exact Hc|by right|exact Hk]|].
  intros [c1 a1] (pre & l' & El & Hc1 & _ & Hpre & _ & (Hpu & Hid & _) & Hta). simpl in Hpu, Hid, Hta.
  apply looks_ret. eexists. split_and!; [done|done|by simpl; rewrite Hid|]. intros w [|(p & Hp & ->)]%Hta; [by left|]. right.
  assert (Hin : p ∈ l) by (rewrite El; apply elem_of_app; by left).
  exists p.1, p.2. split_and!; [exact (at_own _ _ _ _ Hc Hin)|done|by rewrite (Hun _ Hin)].
Qed.

Lemma looks_frontiers s1 s g hist lo conn k0 k F c a l : Inv s g hist → no_last s →
  (∀ p, p ∈ F → a_accounts s1 !! p.1 = Some p.2 ∧ p.1 ≠ U 32 0) →
  (∀ p i, p ∈ l → a_accounts s1 !! p.1 = Some i → (p.1, i) ∈ F) → covers s F l → StronglySorted key_lt F →
  client_at c l s → started lo c → (length l < k0)%nat → (length F < k)%nat →
  looks s lo (2 * length F + 2) (loop k (frontier_step k0 conn) (frontier_bytes F ++ frontier_end, (c, a)))
    (λ r, r.1 = Some false ∧ pulls r.2 = pulls a ++ omap (missing s) F ∧ idle r.2 = conn :: idle a ∧
      ∀ t, t ∈ bulk_push_targets r.2 → t ∈ bulk_push_targets a ∨ lacking s1 s t).
Proof.
  intros HI Hl. revert k c a l. induction F as [|q F IH]; intros [|k] c a l HF Hfr Hco Hs Hc Hst Hk0 Hk; simpl in Hk; try lia.
  - apply (looks_loop _ _ 2 0). unfold frontier_step at 1, frontier_end. simpl app. rewrite read_be_write. rewrite <-(app_nil_r (write_be _)), read_be_write.
    eapply (looks_bind _ _ 2 0); [apply (looks_end s1 s g hist lo conn k0 c a l HI Hl Hc Hst); [|done]|].
    { intros p Hp. destruct (a_accounts s1 !! p.1) as [i|] eqn:E; [|done]. by destruct (not_elem_of_nil _ (Hfr _ _ Hp E)). }
    intros ? (a' & -> & Hp & Hi & Ht). apply looks_ret. simpl. rewrite app_nil_r. done.
  - replace (2 * length (q :: F) + 2)%nat with (2 + (2 * length F + 2))%nat by (simpl; lia). apply looks_loop.
    destruct (HF q ltac:(by left)) as [Hq Hz]. unfold frontier_step at 1, frontier_bytes. cbn [fmap list_fmap concat].
    rewrite <-!app_assoc, !read_be_write.
    eapply (looks_bind _ _ 2 0); [by eapply looks_received|]. intros ? (c' & a' & l' & -> & Hst' & [Hc' Hlen Hco' Hab Hpu Hid Ht]).
    apply looks_ret. simpl. eapply looks_mono; [apply (IH k c' a' l'); try done|].
    + intros p Hp. apply HF. by right.
    + intros p i Hp Hi. destruct (Hab p Hp) as [Hin Hlt]. specialize (Hfr _ _ Hin Hi).
      apply elem_of_cons in Hfr as [E|]; [|done]. rewrite <-E in Hlt. simpl in Hlt. lia.
    + by apply StronglySorted_inv in Hs as [].
    + lia.
    + lia.
    + intros r (Hr & Hpr & Hir & Htr). split_and!; [done| |congruence|].
      { rewrite Hpr, Hpu, <-app_assoc. f_equal. simpl. by destruct (missing s q). }
      intros t [[|[(p & Hp & Hlt & ->)|(i & Hp & -> & ? & ?)]]%Ht|]%Htr; [by left|right|right|by right].
      * exists p.1, p.2. split_and!; [exact (at_own _ _ _ _ Hc Hp)|done|]. destruct (a_accounts s1 !! p.1) as [i|] eqn:E; [|done].
        exfalso. apply (Hfr _ _ Hp) in E as [E|E]%elem_of_cons; [rewrite <-E in Hlt; simpl in Hlt; lia|].
        apply StronglySorted_inv in Hs as [_ Hs]. rewrite Forall_forall in Hs. specialize (Hs _ E). unfold key_lt in Hs. simpl in Hs. lia.
      * exists q.1, i. split_and!; [exact (at_own s c l (q.1, i) Hc Hp)|done|]. rewrite Hq. done.
Qed.

Lemma account_nonzero s g hist x i : Inv s g hist → a_accounts s !! x = Some i → x ≠ U 32 0.
Proof.
  intros HI Hi. destruct (inv_account _ _ _ HI _ _ Hi) as (b & m & Eb & Em & Ho & _).
  destruct (inv_block _ _ _ HI _ _ _ _ Eb Em) as (_ & _ & _ & Hz & _). congruence.
Qed.
Lemma account_after_zero s g hist x i : Inv s g hist → a_accounts s !! x = Some i → uval (u_add (U 32 0) (U 32 1)) ≤ uval x.
Proof.
  intros HI Hi. pose proof (account_nonzero _ _ _ _ _ HI Hi) as Hz. pose proof (uval_range x).
  assert (uval x ≠ 0) by (intros E; apply Hz, uval_inj; by rewrite E).
  assert (uval (u_add (U 32 0) (U 32 1)) = 1) as -> by reflexivity. lia.
Qed.

(** C12: a node [n2] that compares frontiers with a node [n1].
    [n2] asks for the frontiers of all accounts; [n1] reads the request and
    answers; [n2] walks through the answer and its own accounts in step, and
    if the readings of its clock, two for each frontier, are within five
    seconds the comparison ends without a failure.  Then the pulls it adds are, in the order of the accounts of
    [n1], one for each account whose head [n2] does not have, down to the head
    [n2] has; every target to push is a chain of an account of [n2] that [n1]
    lacks, or one whose head at [n1] is an older block of [n2]; the connection
    is free again, and the ledgers of both stay as they are. *)
Theorem frontier_sync n1 s1 n2 s2 lo conn a k :
  node_ok n1 → store_rel (store (n_ledger n1)) s1 → no_last s1 →
  node_ok n2 → store_rel (store (n_ledger n2)) s2 → no_last s2 → prompt lo (2 * size (a_accounts s1) + 2) n2 →
  (size (a_accounts s1) < k)%nat → (size (a_accounts s2) < k)%nat →
  ∃ request answer n1' a' n2', frontier_request n2 = Done (request, n2) ∧
    session k request n1 = Done (answer, n1') ∧ stays n1 n1' ∧
    (c ← make_frontier_req_client; frontier_receive k conn answer c a) n2 = Done ((Some false, a'), n2') ∧
    node_ok n2' ∧ n_ledger n2' = n_ledger n2 ∧
    pulls a' = pulls a ++ omap (missing s2) (cursor hash_le (U 32 0) (a_accounts s1)) ∧
    idle a' = conn :: idle a ∧
    ∀ t, t ∈ bulk_push_targets a' → t ∈ bulk_push_targets a ∨ lacking s1 s2 t.
Proof.
  intros Hn1 Hs1 Hl1 Hn2 Hs2 Hl2 Hp Hk1 Hk2.
  destruct (ok_ledger _ Hn1) as (s' & g1 & hist1 & Hs' & HI1 & _). pose proof (store_rel_unique _ _ _ Hs1 Hs') as <-. clear Hs'.
  destruct (ok_ledger _ Hn2) as (s' & g2 & hist2 & Hs' & HI2 & _). pose proof (store_rel_unique _ _ _ Hs2 Hs') as <-. clear Hs'.
  set (F := cursor hash_le (U 32 0) (a_accounts s1)).
  set (m := Frontier_req (U 32 0) (U 4 (2 ^ 32 - 1)) (U 4 (2 ^ 32 - 1))).
  destruct (answers_session s1 k m stat.frontier_req (32 + 4 + 4) (λ r, r = frontier_bytes F ++ frontier_end)) as (request & Hreq & Hans); [done|..].
  { by eapply answers_frontiers. }
  destruct (answers_run _ _ _ n1 Hans Hn1 Hs1) as (answer & n1' & Hrun & Hst & ->).
  pose proof (length_cursor (U 32 0) (a_accounts s1)) as HF. pose proof (length_cursor (u_add (U 32 0) (U 32 1)) (a_accounts s2)) as Hl.
  assert (Hcl : looks s2 lo (2 * length F + 2) (c ← make_frontier_req_client; frontier_receive k conn (frontier_bytes F ++ frontier_end) c a)
    (λ r, r.1 = Some false ∧ pulls r.2 = pulls a ++ omap (missing s2) F ∧ idle r.2 = conn :: idle a ∧
      ∀ t, t ∈ bulk_push_targets r.2 → t ∈ bulk_push_targets a ∨ lacking s1 s2 t)).
  { eapply (looks_bind _ _ 0 (2 * length F + 2)); [apply looks_next; by left|]. simpl frc_current. intros c [Hc Hst2].
    eapply (looks_frontiers s1); [exact HI2|exact Hl2| | | |apply cursor_sorted|exact Hc|exact Hst2| |]; try (unfold F; lia).
    - intros [x i] Hin%cursor_all. split; [done|]. exact (account_nonzero _ _ _ _ _ HI1 Hin).
    - intros [x i2] i _ Hi. by apply cursor_all.
    - intros [x i1] i Hin%cursor_all Hi. apply elem_of_cursor. split; [done|]. exact (account_after_zero _ _ _ _ _ HI2 Hi).
    - eapply Nat.le_lt_trans; [exact Hl|exact Hk2]. }
  assert (Hp' : prompt lo (2 * length F + 2 + 0) n2) by (intros j Hj; apply Hp; unfold F in Hj; lia).
  destruct (proj1 (wp_run _ _ _) (Hcl 0%nat n2 Hn2 Hs2 Hp')) as ([r a'] & n2' & Hrun2 & (Hn2' & Hled & _) & Hr & Hrest).
  simpl in Hr. subst r. exists request, (frontier_bytes F ++ frontier_end), n1', a', n2'. split_and!; try done; try apply Hrest.
  unfold frontier_request, serialized. unfold message_serialize in Hreq. simpl in Hreq. injection Hreq as <-. done.
Qed.
End frontiers.
