(* ===== verification/WalletProps.v ===== *)
(** * The keys of a wallet

    What the operations of the key store do to the private keys it holds. *)

From S2P Require Import Prelude Crypto Numbers Store Messages Node WalletStore StoreLemmas BootstrapServer BootstrapChains.

Section wallet_props.
Context `{NodeConfig, RandomPool, AesCorrect, Argon2, Blake2b, Ed25519}.
Implicit Types (w : wallet_store) (t : gmap u256 wallet_value) (k pub prv seed : u256).

(** ** What the table holds under a wallet key *)

Definition entry t pub : wallet_value := default (Wallet_value (U 32 0) (U 8 0)) (t !! pub).
Definition salt_of t : u256 := wv_key (entry t salt_special).
Definition iv_of t : u128 := oword0 (salt_of t).
Definition seed_in t k : u256 := aes_ctr_decrypt (wv_key (entry t seed_special)) k (iv_of t).
Definition checked t k : bool := u_eqb (wv_key (entry t check_special)) (aes_ctr_encrypt (U 32 0) k (iv_of t)).

(** The key the wallet works with, and whether it passes the check. *)
Definition key_of w : u256 :=
  aes_ctr_decrypt (fan_value (ws_wallet_key_mem w)) (fan_value (ws_password w)) (iv_of (ws_entries w)).
Definition unlocked w : bool := checked (ws_entries w) (key_of w).

(** The private key under an account. *)
Definition opened t k pub : option u256 :=
  let v := entry t pub in
  if is_zero (wv_key v) then None
  else
    prv ← match key_type v with
          | key_deterministic => Some (deterministic_key (seed_in t k) (U 4 (uval (wv_key v))))
          | key_adhoc => Some (aes_ctr_decrypt (wv_key v) k (iv_of t))
          | _ => None
          end;
    if u_eqb pub (ed25519_publickey prv) then Some prv else None.

Lemma valid_password_run w : valid_password w = Done (unlocked w, w).
Proof. reflexivity. Qed.
Lemma wallet_key_run w : wallet_key w = Done (key_of w, w).
Proof. reflexivity. Qed.
Lemma wallet_salt_run w : wallet_salt w = Done (salt_of (ws_entries w), w).
Proof. reflexivity. Qed.
Lemma wallet_seed_run w : wallet_seed w = Done (seed_in (ws_entries w) (key_of w), w).
Proof. reflexivity. Qed.
Lemma deterministic_key_run index w : unlocked w = true →
  store_deterministic_key index w = Done (deterministic_key (seed_in (ws_entries w) (key_of w)) index, w).
Proof.
  intros Hu. unfold store_deterministic_key. rewrite (bind_done _ _ _ _ _ (valid_password_run w)), Hu. reflexivity.
Qed.

Lemma fetch_run pub w : fetch pub w = Done (if unlocked w then opened (ws_entries w) (key_of w) pub else None, w).
Proof.
  unfold fetch. rewrite (bind_done _ _ _ _ _ (valid_password_run w)). destruct (unlocked w) eqn:Hu; [|reflexivity].
  unfold opened. set (v := entry (ws_entries w) pub).
  assert (Hget : entry_get_raw pub w = Done (v, w)) by reflexivity.
  unfold mbind at 1, M_bind at 1. rewrite (bind_done _ _ _ _ _ Hget).
  destruct (is_zero (wv_key v)); simpl; [done|]. destruct (key_type v); simpl.
  - done.
  - done.
  - by destruct (u_eqb pub _).
  - unfold mbind, M_bind. rewrite wallet_seed_run, deterministic_key_run by done. reflexivity.
Qed.
Lemma opened_publickey t k pub prv : opened t k pub = Some prv → ed25519_publickey prv = pub.
Proof.
  unfold opened. destruct (is_zero _); [done|]. set (o := match key_type _ with key_deterministic => _ | _ => _ end).
  destruct o as [x|]; simpl; [|done]. destruct (u_eqb_spec pub (ed25519_publickey x)); [|done]. by intros [= <-].
Qed.

Lemma foldl_xor (a : u256) f : foldl u_xor a f = u_xor a (fan_value f).
Proof.
  unfold fan_value. revert a. induction f as [|x f IH]; intros a; simpl; [by rewrite u_xor_comm, u_xor_0_l|].
  rewrite (IH (u_xor a x)), (IH (u_xor (U 32 0) x)), u_xor_0_l. apply u_xor_assoc.
Qed.
Lemma fan_value_set_value value f : f ≠ [] → fan_value (fan_value_set value f) = value.
Proof.
  destruct f as [|x f]; [done|]. intros _. unfold fan_value at 1. simpl. rewrite u_xor_0_l, foldl_xor.
  assert (Hx : fan_value (x :: f) = u_xor x (fan_value f)).
  { unfold fan_value at 1. simpl. by rewrite u_xor_0_l, foldl_xor. }
  rewrite Hx, (u_xor_comm x (u_xor _ _)), (u_xor_comm x (fan_value f)), u_xor_cancel, (u_xor_comm _ value). apply u_xor_cancel.
Qed.
Lemma fan_value_set_ne value f : f ≠ [] → fan_value_set value f ≠ [].
Proof. by destruct f. Qed.

(** ** The table *)

Lemma entry_insert t x v y : entry (<[x := v]> t) y = if decide (x = y) then v else entry t y.
Proof. unfold entry. rewrite lookup_insert. by destruct (decide (x = y)). Qed.
Lemma entry_delete t x y : x ≠ y → entry (delete x t) y = entry t y.
Proof. intros Hne. unfold entry. by rewrite lookup_delete_ne. Qed.

Lemma wallet_find_run x w : wallet_find x w = Done (ws_entries w !! x, w).
Proof.
  unfold wallet_find, mbind, M_bind, wallet_begin_at, gets. simpl. set (t := ws_entries w).
  pose proof (elem_of_cursor x t) as Hin. pose proof (cursor_sorted x t) as Hs.
  destruct (cursor hash_le x t) as [|[y v] l] eqn:Hc.
  - destruct (t !! x) as [v|] eqn:Ex; [|done]. destruct (not_elem_of_nil (x, v)). apply Hin. split; [done|lia].
  - destruct (u_eqb_spec y x) as [->|Hne].
    + destruct (proj1 (Hin x v)) as [Ex _]; [by left|]. by rewrite Ex.
    + destruct (t !! x) as [u|] eqn:Ex; [|done]. exfalso.
      destruct (proj1 (Hin y v)) as [_ Hy]; [by left|].
      assert (Hx : (x, u) ∈ (y, v) :: l) by (apply Hin; split; [done|lia]).
      apply elem_of_cons in Hx as [[= ->]|Hx]; [done|]. apply StronglySorted_inv in Hs as [_ Hs].
      rewrite Forall_forall in Hs. specialize (Hs _ Hx). unfold key_lt in Hs. simpl in Hs. lia.
Qed.
Lemma wallet_exists_run x w : wallet_exists x w = Done (bool_decide (is_Some (ws_entries w !! x)), w).
Proof.
  unfold wallet_exists. rewrite (bind_done _ _ _ _ _ (wallet_find_run x w)).
  destruct (ws_entries w !! x); [rewrite bool_decide_true by done|rewrite bool_decide_false by (by intros [? [=]])]; done.
Qed.
Lemma entry_put_run x v w : entry_put_raw x v w = Done (tt, set_entries (<[x := v]> (ws_entries w)) w).
Proof. done. Qed.

(** What is under an account depends on its entry, the seed and the salt. *)
Lemma opened_ext t t' k pub : wv_key (entry t' pub) = wv_key (entry t pub) →
  wv_key (entry t' seed_special) = wv_key (entry t seed_special) → salt_of t' = salt_of t →
  opened t' k pub = opened t k pub.
Proof. intros Ep Es Et. unfold opened, key_type, seed_in, iv_of. by rewrite Ep, Es, Et. Qed.

(** ** A wallet in order

    Its key [k], encrypted under the key [kp] of the password, is in the table
    and in memory. *)
Record sealed w k kp : Prop := {
  se_password : ws_password w ≠ [];
  se_mem : ws_wallet_key_mem w ≠ [];
  se_mem_value : fan_value (ws_wallet_key_mem w) = aes_ctr_encrypt k kp (iv_of (ws_entries w));
  se_stored : wv_key (entry (ws_entries w) wallet_key_special) = fan_value (ws_wallet_key_mem w);
  se_check : checked (ws_entries w) k = true;
  se_version : uval (wv_key (entry (ws_entries w) version_special)) mod 256 = version_current;
  se_special : ∀ x, uval x < special_count → is_Some (ws_entries w !! x);
}.

(** No other key passes the check. *)
Definition check_decides t k : Prop := ∀ k', checked t k' = true → k' = k.

Lemma sealed_key w k kp : sealed w k kp → fan_value (ws_password w) = kp → key_of w = k.
Proof. intros Hs Hp. unfold key_of. rewrite (se_mem_value _ _ _ Hs), Hp. apply aes_decrypt_encrypt. Qed.
Lemma sealed_unlocked w k kp : sealed w k kp → fan_value (ws_password w) = kp → unlocked w = true.
Proof. intros Hs Hp. unfold unlocked. by rewrite (sealed_key _ _ _ Hs Hp), (se_check _ _ _ Hs). Qed.
Lemma unlocked_key w k : check_decides (ws_entries w) k → unlocked w = true → key_of w = k.
Proof. intros Hd Hu. by apply Hd. Qed.

(** An entry of the table changed: what is in order stays so. *)
Definition harmless t x (v : wallet_value) : Prop :=
  special_count ≤ uval x ∨ x = representative_special ∨ x = deterministic_index_special ∨ wv_key v = wv_key (entry t x).
Lemma harmless_special t x v y : harmless t x v → uval y < special_count → y ≠ representative_special →
  y ≠ deterministic_index_special → wv_key (entry (<[x := v]> t) y) = wv_key (entry t y).
Proof.
  intros Hh Hy Hr Hi. rewrite entry_insert. destruct (decide (x = y)) as [->|]; [|done].
  by destruct Hh as [Hge|[->|[->|Hv]]]; [lia|..].
Qed.
Lemma special_keys x : x ∈ [version_special; salt_special; wallet_key_special; check_special; seed_special] →
  uval x < special_count ∧ x ≠ representative_special ∧ x ≠ deterministic_index_special.
Proof.
  intros Hx. assert (Hb : (uval x <? special_count) && negb (u_eqb x representative_special) && negb (u_eqb x deterministic_index_special) = true).
  { repeat (apply elem_of_cons in Hx as [->|Hx]; [reflexivity|]). by apply not_elem_of_nil in Hx. }
  apply andb_true_iff in Hb as [[Hlt Hr]%andb_true_iff Hi]. apply negb_true_iff, u_eqb_false in Hr, Hi.
  split_and!; [lia|done|done].
Qed.

Definition put t x (v : wallet_value) : gmap u256 wallet_value := <[x := v]> t.
Lemma put_special t x v y : harmless t x v →
  y ∈ [version_special; salt_special; wallet_key_special; check_special; seed_special] →
  wv_key (entry (put t x v) y) = wv_key (entry t y).
Proof. intros Hh (?&?&?)%special_keys. by apply harmless_special. Qed.
Lemma put_salt t x v : harmless t x v → salt_of (put t x v) = salt_of t.
Proof. intros Hh. unfold salt_of. apply put_special; [done|set_solver]. Qed.
Lemma put_checked t x v k : harmless t x v → checked (put t x v) k = checked t k.
Proof.
  intros Hh. unfold checked, iv_of. rewrite put_salt by done. rewrite put_special; [done|done|set_solver].
Qed.
Lemma put_decides t x v k : harmless t x v → check_decides t k → check_decides (put t x v) k.
Proof. intros Hh Hd k'. rewrite put_checked by done. apply Hd. Qed.
Lemma put_opened t x v k pub : harmless t x v → x ≠ pub → opened (put t x v) k pub = opened t k pub.
Proof.
  intros Hh Hne. apply opened_ext; [|by apply put_special; [|set_solver]|by apply put_salt].
  unfold put. rewrite entry_insert. by rewrite decide_False.
Qed.
Lemma put_opened_same t x v k : harmless t x v → wv_key v = wv_key (entry t x) → opened (put t x v) k x = opened t k x.
Proof.
  intros Hh Hv. apply opened_ext; [|by apply put_special; [|set_solver]|by apply put_salt].
  unfold put. rewrite entry_insert. by rewrite decide_True.
Qed.
Lemma put_sealed w k kp x v : harmless (ws_entries w) x v → sealed w k kp →
  sealed (set_entries (put (ws_entries w) x v) w) k kp.
Proof.
  intros Hh []. constructor; simpl; try done.
  - unfold iv_of. by rewrite put_salt.
  - rewrite put_special; [done|done|set_solver].
  - by rewrite put_checked.
  - rewrite put_special; [done|done|set_solver].
  - intros y Hy. unfold put. rewrite lookup_insert. destruct (decide (x = y)); [done|by apply se_special0].
Qed.

(** ** Operations *)

Inductive wallet_op : Set :=
| Insert_adhoc (prv : u256)
| Insert_watch (pub : u256)
| Deterministic_insert
| Rekey (password : bytes)
| Attempt_password (password : bytes)
| Work_put (pub : u256) (work : u64)
| Representative_set (representative : u256).

Definition run_op (fuel : nat) (op : wallet_op) : M wallet_store unit :=
  match op with
  | Insert_adhoc prv => insert_adhoc prv;; mret tt
  | Insert_watch pub => insert_watch pub
  | Deterministic_insert => deterministic_insert fuel;; mret tt
  | Rekey password => rekey password;; mret tt
  | Attempt_password password => attempt_password fuel password;; mret tt
  | Work_put pub work => work_put pub work
  | Representative_set representative => representative_set representative
  end.

(** No account inserted or watched is one of the first numbers, where the
    special entries are; the account [pub] is not watched, and a key inserted
    for it has no cipher that reads as an index. *)
Definition safe_op pub w k (op : wallet_op) : Prop :=
  match op with
  | Insert_adhoc prv => special_count ≤ uval (ed25519_publickey prv) ∧
      (ed25519_publickey prv = pub → 2 ^ 64 ≤ uval (aes_ctr_encrypt prv k (iv_of (ws_entries w))))
  | Insert_watch a => special_count ≤ uval a ∧ a ≠ pub
  | _ => True
  end.

Inductive wallet_steps (fuel : nat) pub k : wallet_store → list wallet_op → wallet_store → Prop :=
| wallet_none w : wallet_steps fuel pub k w [] w
| wallet_step w op w1 ops w' : safe_op pub w k op → run_op fuel op w = Done (tt, w1) →
    wallet_steps fuel pub k w1 ops w' → wallet_steps fuel pub k w (op :: ops) w'.

(** What an operation keeps. *)
Record kept pub k op w w' : Prop := {
  ke_sealed : ∀ kp, sealed w k kp → ∃ kp', sealed w' k kp';
  ke_decides : check_decides (ws_entries w) k → check_decides (ws_entries w') k;
  ke_opened : ∀ prv, special_count ≤ uval pub → opened (ws_entries w) k pub = Some prv →
    ∃ prv', opened (ws_entries w') k pub = Some prv' ∧ (prv' = prv ∨ op = Insert_adhoc prv');
}.

Lemma kept_put pub k op w x v : harmless (ws_entries w) x v →
  (∀ prv, x = pub → special_count ≤ uval x → opened (ws_entries w) k x = Some prv →
    ∃ prv', opened (put (ws_entries w) x v) k x = Some prv' ∧ (prv' = prv ∨ op = Insert_adhoc prv')) →
  kept pub k op w (set_entries (put (ws_entries w) x v) w).
Proof.
  intros Hh Hx. constructor.
  - intros kp Hs. exists kp. by apply put_sealed.
  - by apply put_decides.
  - intros prv Hp Ho. destruct (decide (x = pub)) as [->|Hne]; [by apply Hx|].
    exists prv. simpl. rewrite put_opened by done. auto.
Qed.
Lemma kept_refl pub k op w : kept pub k op w w.
Proof. constructor; eauto. Qed.
Lemma kept_trans pub k op w w1 w2 : kept pub k op w w1 → kept pub k op w1 w2 → kept pub k op w w2.
Proof.
  intros [Ha Hb Hc] [Ha' Hb' Hc']. constructor.
  - intros kp Hs. destruct (Ha kp Hs) as [kp1 Hs1]. by apply (Ha' kp1).
  - auto.
  - intros prv Hp Ho. destruct (Hc prv Hp Ho) as (prv1 & Ho1 & Hv1).
    destruct (Hc' prv1 Hp Ho1) as (prv2 & Ho2 & [->|Hv2]); eauto.
Qed.

(** *** Each operation *)

Lemma run_insert_adhoc prv w r w' : insert_adhoc prv w = Done (r, w') → unlocked w = true ∧ r = ed25519_publickey prv ∧
  w' = set_entries (put (ws_entries w) (ed25519_publickey prv)
    (Wallet_value (aes_ctr_encrypt prv (key_of w) (iv_of (ws_entries w))) (U 8 0))) w.
Proof.
  unfold insert_adhoc. rewrite (bind_done _ _ _ _ _ (valid_password_run w)). destruct (unlocked w); [|done].
  by intros [= <- <-].
Qed.
(** A key is read as it was put. *)
Lemma opened_adhoc t k prv : special_count ≤ uval (ed25519_publickey prv) →
  2 ^ 64 ≤ uval (aes_ctr_encrypt prv k (iv_of t)) →
  opened (put t (ed25519_publickey prv) (Wallet_value (aes_ctr_encrypt prv k (iv_of t)) (U 8 0))) k
    (ed25519_publickey prv) = Some prv.
Proof.
  intros Hp Hc. set (c := aes_ctr_encrypt prv k (iv_of t)). set (t' := put t _ _).
  assert (Hv : entry t' (ed25519_publickey prv) = Wallet_value c (U 8 0)).
  { unfold t', put. rewrite entry_insert. by rewrite decide_True. }
  assert (Hz : is_zero c = false) by (apply is_zero_false; intros E; unfold c in E; rewrite E, uval_zero in Hc; lia).
  assert (Hk : key_type (Wallet_value c (U 8 0)) = key_adhoc).
  { unfold key_type. cbn [wv_key]. destruct (Z.ltb_spec (2 ^ 64 - 1) (uval c)); [done|unfold c in *; lia]. }
  unfold opened. rewrite Hv, Hk. cbn [wv_key]. rewrite Hz. cbn.
  assert (Hi : iv_of t' = iv_of t) by (unfold iv_of, t'; by rewrite put_salt by (by left)).
  rewrite Hi. unfold c. by rewrite aes_decrypt_encrypt, u_eqb_refl.
Qed.

Lemma kept_insert_adhoc pub prv w w' k : check_decides (ws_entries w) k → safe_op pub w k (Insert_adhoc prv) →
  (insert_adhoc prv;; mret tt) w = Done (tt, w') → kept pub k (Insert_adhoc prv) w w'.
Proof.
  intros Hd [Hp Hc] (r & w1 & (Hu & _ & ->)%run_insert_adhoc & [= <-])%bind_inv. rewrite (unlocked_key _ _ Hd Hu).
  apply kept_put; [by left|]. intros prv' E _ _. exists prv. split; [by apply opened_adhoc; auto|by right].
Qed.

Lemma kept_insert_watch pub a w k : safe_op pub w k (Insert_watch a) →
  kept pub k (Insert_watch a) w (set_entries (put (ws_entries w) a (Wallet_value (U 32 0) (U 8 0))) w).
Proof. intros [Hp Hne]. apply kept_put; [by left|]. by intros prv E. Qed.
Lemma kept_work_put pub a work w w' k op : work_put a work w = Done (tt, w') → kept pub k op w w'.
Proof.
  unfold work_put. intros (v & w1 & [= <- <-] & (u & w2 & [_ ->]%assert_inv & [= <-])%bind_inv)%bind_inv.
  apply kept_put; [by right; right; right|]. intros prv _ _ Ho. exists prv. split; [|by left].
  rewrite put_opened_same; [done|by right; right; right|done].
Qed.
Lemma kept_representative pub r w k op : kept pub k op w (set_entries (put (ws_entries w) representative_special (Wallet_value r (U 8 0))) w).
Proof. apply kept_put; [by right; left|]. intros prv _ Hp. by vm_compute in Hp. Qed.

(** The key under the check stays the same when the password is changed. *)
Definition repassworded w password mem x : wallet_store :=
  set_entries (put (ws_entries w) wallet_key_special x) (set_wallet_key_mem mem (set_password password w)).

Lemma run_rekey password w r w' : rekey password w = Done (r, w') →
  if unlocked w then r = false ∧ ∃ kp, argon2_hash kdf_work password (write_be (salt_of (ws_entries w))) = Some kp ∧
    let c := aes_ctr_encrypt (key_of w) kp (iv_of (ws_entries w)) in
    w' = repassworded w (fan_value_set kp (ws_password w)) (fan_value_set c (ws_wallet_key_mem w)) (Wallet_value c (U 8 0))
  else r = true ∧ w' = w.
Proof.
  unfold rekey. rewrite (bind_done _ _ _ _ _ (valid_password_run w)). destruct (unlocked w); [|by intros [= <- <-]].
  intros (kp & w1 & Hk & Hr)%bind_inv. unfold derive_key in Hk. rewrite (bind_done _ _ _ _ _ (wallet_salt_run w)) in Hk.
  destruct (argon2_hash _ _ _) as [kp'|] eqn:Ea; [|done]. injection Hk as -> ->. injection Hr as <- <-. split; [done|]. by exists kp.
Qed.

Lemma special_ne x : x ∈ [version_special; salt_special; check_special; seed_special] → x ≠ wallet_key_special.
Proof.
  intros Hx. apply u_eqb_false. repeat (apply elem_of_cons in Hx as [->|Hx]; [reflexivity|]). by apply not_elem_of_nil in Hx.
Qed.
Lemma put_wallet_key t v y : y ∈ [version_special; salt_special; check_special; seed_special] →
  entry (put t wallet_key_special v) y = entry t y.
Proof. intros Hy%special_ne. unfold put. rewrite entry_insert. by rewrite decide_False. Qed.
Lemma put_wallet_key_salt t v : salt_of (put t wallet_key_special v) = salt_of t.
Proof. unfold salt_of. rewrite put_wallet_key; [done|set_solver]. Qed.
Lemma put_wallet_key_checked t v k : checked (put t wallet_key_special v) k = checked t k.
Proof. unfold checked, iv_of. rewrite put_wallet_key_salt, put_wallet_key; [done|set_solver]. Qed.
Lemma put_wallet_key_opened t v k pub : special_count ≤ uval pub → opened (put t wallet_key_special v) k pub = opened t k pub.
Proof.
  intros Hp. apply opened_ext; [|rewrite put_wallet_key; [done|set_solver]|apply put_wallet_key_salt].
  unfold put. rewrite entry_insert, decide_False; [done|]. intros <-. by vm_compute in Hp.
Qed.

Lemma sealed_repassworded w k kp kp' : sealed w k kp →
  let c := aes_ctr_encrypt k kp' (iv_of (ws_entries w)) in
  sealed (repassworded w (fan_value_set kp' (ws_password w)) (fan_value_set c (ws_wallet_key_mem w)) (Wallet_value c (U 8 0))) k kp'.
Proof.
  intros [] c. constructor; simpl.
  - by apply fan_value_set_ne.
  - by apply fan_value_set_ne.
  - unfold iv_of. rewrite put_wallet_key_salt. by apply fan_value_set_value.
  - rewrite fan_value_set_value by done. unfold put. rewrite entry_insert. by rewrite decide_True.
  - by rewrite put_wallet_key_checked.
  - rewrite put_wallet_key; [done|set_solver].
  - intros y Hy. unfold put. rewrite lookup_insert. destruct (decide (wallet_key_special = y)); [done|by apply se_special0].
Qed.
Lemma kept_rekey pub password w w' k op kp : check_decides (ws_entries w) k → sealed w k kp →
  (rekey password;; mret tt) w = Done (tt, w') → kept pub k op w w'.
Proof.
  intros Hd Hs (r & w1 & Hr%run_rekey & [= <-])%bind_inv. destruct (unlocked w) eqn:Hu.
  2: { destruct Hr as [_ ->]. apply kept_refl. }
  destruct Hr as (_ & kp' & _ & ->). rewrite (unlocked_key _ _ Hd Hu). constructor.
  - intros kp1 Hs1. exists kp'. by eapply sealed_repassworded.
  - intros _ k'. simpl. rewrite put_wallet_key_checked. apply Hd.
  - intros prv Hp Ho. exists prv. simpl. rewrite put_wallet_key_opened by done. auto.
Qed.

Lemma run_attempt_password fuel password w r w' :
  uval (wv_key (entry (ws_entries w) version_special)) mod 256 = version_current →
  attempt_password fuel password w = Done (r, w') →
  ∃ kp, argon2_hash kdf_work password (write_be (salt_of (ws_entries w))) = Some kp ∧
    w' = set_password (fan_value_set kp (ws_password w)) w ∧ r = negb (unlocked w').
Proof.
  intros Hv (kp & w1 & Hk & Hr)%bind_inv. unfold derive_key in Hk. rewrite (bind_done _ _ _ _ _ (wallet_salt_run w)) in Hk.
  destruct (argon2_hash _ _ _) as [kp'|] eqn:Ea; [|done]. injection Hk as <- <-. exists kp'. split; [done|].
  apply bind_inv in Hr as (u & w2 & [= _ <-] & Hr). set (w2 := set_password _ w) in *.
  rewrite (bind_done _ _ _ _ _ (valid_password_run w2)) in Hr. destruct (unlocked w2) eqn:Hu; [|by injection Hr as <- <-; rewrite Hu].
  assert (Hver : wallet_version w2 = Done (version_current, w2)).
  { change (wallet_version w2) with (Done (A := Z * wallet_store) (uval (wv_key (entry (ws_entries w) version_special)) mod 256, w2)).
    by rewrite Hv. }
  rewrite (bind_done _ _ _ _ _ Hver) in Hr. injection Hr as <- <-. by rewrite Hu.
Qed.
Lemma sealed_password w k kp f : sealed w k kp → f ≠ [] → sealed (set_password f w) k kp.
Proof. by intros [] Hf; constructor. Qed.
Lemma kept_attempt pub fuel password w w' k op kp : sealed w k kp →
  (attempt_password fuel password;; mret tt) w = Done (tt, w') → kept pub k op w w'.
Proof.
  intros Hs (r & w1 & Hr & [= <-])%bind_inv. apply run_attempt_password in Hr as (kp' & _ & -> & _); [|by apply Hs].
  constructor; [|done|eauto]. intros kp1 Hs1. exists kp1. apply sealed_password; [done|by apply fan_value_set_ne, Hs1].
Qed.

(** *** Deterministic keys *)

Definition account_at seed (index : u32) : u256 := ed25519_publickey (deterministic_key seed index).
Definition marker (index : u32) : u256 := U 32 (Z.lor (Z.shiftl 1 32) (uval index)).

Lemma deterministic_loop fuel index w r w' : unlocked w = true →
  let seed := seed_in (ws_entries w) (key_of w) in
  loop fuel deterministic_step (index, account_at seed index) w = Done (r, w') →
  w' = w ∧ r.2 = account_at seed r.1 ∧ ws_entries w !! r.2 = None.
Proof.
  intros Hu seed. revert index. induction fuel as [|fuel IH]; intros index; [done|]. rewrite loop_S.
  unfold deterministic_step at 1. rewrite (bind_done _ _ _ _ _ (wallet_exists_run _ w)).
  case_bool_decide as He.
  - rewrite (bind_done _ _ _ _ _ (deterministic_key_run _ w Hu)). apply IH.
  - intros [= <- <-]. split_and!; [done|done|]. by apply eq_None_not_Some.
Qed.
Lemma run_deterministic_insert fuel w r w' : deterministic_insert fuel w = Done (r, w') →
  unlocked w = true ∧ ∃ index, r = account_at (seed_in (ws_entries w) (key_of w)) index ∧ ws_entries w !! r = None ∧
    w' = set_entries (put (put (ws_entries w) r (Wallet_value (marker index) (U 8 0))) deterministic_index_special
      (Wallet_value (U 32 (uval (u_add index (U 4 1)))) (U 8 0))) w.
Proof.
  unfold deterministic_insert. intros (index & w1 & [= <- <-] & Hr)%bind_inv.
  apply bind_inv in Hr as (prv & w1 & Hk & Hr).
  assert (Hu : unlocked w = true).
  { unfold store_deterministic_key in Hk. rewrite (bind_done _ _ _ _ _ (valid_password_run w)) in Hk. by destruct (unlocked w). }
  split; [done|]. rewrite (deterministic_key_run _ w Hu) in Hk. injection Hk as <- <-.
  apply bind_inv in Hr as ([index result] & w1 & Hl & Hr).
  apply deterministic_loop in Hl as (-> & Hres & Hn); [|done]. simpl in Hres, Hn. subst result.
  exists index. injection Hr as <- <-. done.
Qed.

Lemma opened_none t k pub : t !! pub = None → opened t k pub = None.
Proof. intros Hn. unfold opened, entry. rewrite Hn. simpl. by rewrite is_zero_0. Qed.
Lemma kept_deterministic pub fuel w w' k op kp : sealed w k kp →
  (deterministic_insert fuel;; mret tt) w = Done (tt, w') → kept pub k op w w'.
Proof.
  intros Hs (r & w1 & Hr & [= <-])%bind_inv. apply run_deterministic_insert in Hr as (_ & index & _ & Hn & ->).
  assert (Hp : special_count ≤ uval r).
  { destruct (decide (special_count ≤ uval r)) as [|Hlt]; [done|]. destruct (se_special _ _ _ Hs r) as [v Hv]; [lia|].
    by rewrite Hn in Hv. }
  set (w1 := set_entries (put (ws_entries w) r (Wallet_value (marker index) (U 8 0))) w).
  apply (kept_trans _ _ _ _ w1).
  - apply kept_put; [by left|]. intros prv _ _ Ho. by rewrite opened_none in Ho.
  - change (set_entries (put (put (ws_entries w) r _) _ _) w) with
      (set_entries (put (ws_entries w1) deterministic_index_special (Wallet_value (U 32 (uval (u_add index (U 4 1)))) (U 8 0))) w1).
    apply kept_put; [by right; right; left|]. intros prv _ Hc. by vm_compute in Hc.
Qed.

Lemma kept_op pub fuel op w w' k kp : sealed w k kp → check_decides (ws_entries w) k → safe_op pub w k op →
  run_op fuel op w = Done (tt, w') → kept pub k op w w'.
Proof.
  intros Hs Hd Hsafe Hr. destruct op; cbn [run_op] in Hr.
  - by apply kept_insert_adhoc.
  - injection Hr as <-. by apply kept_insert_watch.
  - by eapply kept_deterministic.
  - by eapply kept_rekey.
  - by eapply kept_attempt.
  - by eapply kept_work_put.
  - injection Hr as <-. apply kept_representative.
Qed.
Lemma kept_steps pub fuel w k kp ops w' : sealed w k kp → check_decides (ws_entries w) k → wallet_steps fuel pub k w ops w' →
  (∃ kp', sealed w' k kp') ∧ check_decides (ws_entries w') k ∧
  ∀ prv, special_count ≤ uval pub → opened (ws_entries w) k pub = Some prv →
    ∃ prv', opened (ws_entries w') k pub = Some prv' ∧ (prv' = prv ∨ Insert_adhoc prv' ∈ ops).
Proof.
  intros Hs Hd Hst. revert kp Hs Hd. induction Hst as [w|w op w1 ops w' Hsafe Hr Hst IH]; intros kp Hs Hd; [eauto 8|].
  destruct (kept_op _ _ _ _ _ _ _ Hs Hd Hsafe Hr) as [Hsl Hdec Hop]. destruct (Hsl kp Hs) as [kp1 Hs1].
  destruct (IH kp1 Hs1 (Hdec Hd)) as (Hs' & Hd' & Hop'). split_and!; [done|done|].
  intros prv Hp Ho. destruct (Hop prv Hp Ho) as (prv1 & Ho1 & Hv1).
  destruct (Hop' prv1 Hp Ho1) as (prv2 & Ho2 & [->|Hv2]).
  - exists prv1. split; [done|]. destruct Hv1 as [->| ->]; [by left|right; by left].
  - exists prv2. split; [done|]. right. by right.
Qed.

Lemma attempt_unlocks fuel w k kp password : sealed w k kp →
  argon2_hash kdf_work password (write_be (salt_of (ws_entries w))) = Some kp →
  ∃ w', attempt_password fuel password w = Done (false, w') ∧ w' = set_password (fan_value_set kp (ws_password w)) w ∧
    unlocked w' = true ∧ key_of w' = k ∧ sealed w' k kp.
Proof.
  intros Hs Hk. set (w' := set_password (fan_value_set kp (ws_password w)) w).
  assert (Hs' : sealed w' k kp) by (apply sealed_password; [done|by apply fan_value_set_ne, Hs]).
  assert (Hv : fan_value (ws_password w') = kp) by (by apply fan_value_set_value, Hs).
  assert (Hu : unlocked w' = true) by by eapply sealed_unlocked.
  assert (Hd : derive_key password w = Done (kp, w)).
  { unfold derive_key. rewrite (bind_done _ _ _ _ _ (wallet_salt_run w)). by rewrite Hk. }
  assert (Hver : wallet_version w' = Done (version_current, w')).
  { change (wallet_version w') with (Done (A := Z * wallet_store) (uval (wv_key (entry (ws_entries w) version_special)) mod 256, w')).
    by rewrite (se_version _ _ _ Hs). }
  exists w'. split_and!; [|done|done|by eapply sealed_key|done].
  unfold attempt_password. rewrite (bind_done _ _ _ _ _ Hd).
  rewrite (bind_done _ _ w tt w') by done. rewrite (bind_done _ _ _ _ _ (valid_password_run w')), Hu.
  by rewrite (bind_done _ _ _ _ _ Hver).
Qed.

(** Watching an account overwrites its entry: its key is lost. *)
Lemma watched_lost pub w k : special_count ≤ uval pub → check_decides (ws_entries w) k →
  ∃ w', insert_watch pub w = Done (tt, w') ∧ opened (ws_entries w') k pub = None ∧
    (unlocked w' = true → fetch pub w' = Done (None, w')).
Proof.
  intros Hp Hd. set (w' := set_entries (put (ws_entries w) pub (Wallet_value (U 32 0) (U 8 0))) w). exists w'.
  assert (Ho : opened (ws_entries w') k pub = None).
  { unfold opened, w'. simpl. unfold put. rewrite entry_insert, decide_True by done. simpl. by rewrite is_zero_0. }
  split_and!; [done|done|]. intros Hu. rewrite fetch_run, Hu, (unlocked_key w' k), Ho; [done| |done].
  intros k'. apply put_decides; [by left|done].
Qed.

(** C13: the operations of a wallet of the current version keep the
    private key of an account unless the account is watched.  Whatever keys
    are inserted or derived, other accounts watched, passwords tried or
    changed, work stored or representatives set, the key of the account can be
    read again once the wallet is unlocked, by the password of that time or
    already: it is the same, or one that was inserted for the account since.
    Watching the account loses its key.  A key inserted for the account is
    taken to have a cipher of at least 2^64 (a smaller one reads as an index),
    and the accounts inserted or watched to lie above the special entries. *)
Theorem keys_kept fuel w k kp ops w' pub prv :
  sealed w k kp → check_decides (ws_entries w) k → wallet_steps fuel pub k w ops w' →
  special_count ≤ uval pub → opened (ws_entries w) k pub = Some prv →
  (∃ w2, insert_watch pub w' = Done (tt, w2) ∧ opened (ws_entries w2) k pub = None ∧
    (unlocked w2 = true → fetch pub w2 = Done (None, w2))) ∧
  ∃ kp' prv', sealed w' k kp' ∧ (prv' = prv ∨ Insert_adhoc prv' ∈ ops) ∧ ed25519_publickey prv' = pub ∧
    (unlocked w' = true → fetch pub w' = Done (Some prv', w')) ∧
    ∀ password, argon2_hash kdf_work password (write_be (salt_of (ws_entries w'))) = Some kp' →
      ∃ w2, attempt_password fuel password w' = Done (false, w2) ∧ fetch pub w2 = Done (Some prv', w2).
Proof.
  intros Hs Hd Hst Hp Ho. destruct (kept_steps _ _ _ _ _ _ _ Hs Hd Hst) as ([kp' Hs'] & Hd' & Hop).
  split; [by apply watched_lost|]. destruct (Hop prv Hp Ho) as (prv' & Ho' & Hv). exists kp', prv'.
  split_and!; [done|done|by eapply opened_publickey| |].
  - intros Hu. rewrite fetch_run, Hu, (unlocked_key _ _ Hd' Hu). by rewrite Ho'.
  - intros password Hk. destruct (attempt_unlocks fuel _ _ _ _ Hs' Hk) as (w2 & Hr & -> & Hu & Hkey & _).
    eexists. split; [exact Hr|]. rewrite fetch_run, Hu, Hkey. simpl. by rewrite Ho'.
Qed.

(** C32: changing the password of an unlocked wallet.  The wallet
    stays unlocked under the same key and every private key is read as before;
    from then on, whatever password is tried first, the new one unlocks it. *)
Theorem rekey_unlocks fuel w k kp password kp' :
  sealed w k kp → check_decides (ws_entries w) k → unlocked w = true →
  argon2_hash kdf_work password (write_be (salt_of (ws_entries w))) = Some kp' →
  ∃ w', rekey password w = Done (false, w') ∧ sealed w' k kp' ∧ unlocked w' = true ∧
    (∀ pub, special_count ≤ uval pub → ∃ r, fetch pub w = Done (r, w) ∧ fetch pub w' = Done (r, w')) ∧
    ∀ wrong r w1, attempt_password fuel wrong w' = Done (r, w1) →
      ∃ w2, attempt_password fuel password w1 = Done (false, w2) ∧ key_of w2 = k ∧ unlocked w2 = true.
Proof.
  intros Hs Hd Hu Hk. pose proof (unlocked_key _ _ Hd Hu) as Hkey.
  set (c := aes_ctr_encrypt k kp' (iv_of (ws_entries w))).
  set (w' := repassworded w (fan_value_set kp' (ws_password w)) (fan_value_set c (ws_wallet_key_mem w)) (Wallet_value c (U 8 0))).
  assert (Hs' : sealed w' k kp') by by eapply sealed_repassworded.
  assert (Hv : fan_value (ws_password w') = kp') by (by apply fan_value_set_value, Hs).
  assert (Hu' : unlocked w' = true) by by eapply sealed_unlocked.
  exists w'. split_and!; [|done|done| |].
  - unfold rekey. rewrite (bind_done _ _ _ _ _ (valid_password_run w)), Hu.
    assert (Hdk : derive_key password w = Done (kp', w)).
    { unfold derive_key. rewrite (bind_done _ _ _ _ _ (wallet_salt_run w)). by rewrite Hk. }
    rewrite (bind_done _ _ _ _ _ Hdk), (bind_done _ _ _ _ _ (wallet_key_run w)), Hkey. reflexivity.
  - intros pub Hp. eexists. split; [apply fetch_run|]. rewrite fetch_run, Hu, Hu', Hkey, (sealed_key _ _ _ Hs' Hv).
    unfold w'. simpl. by rewrite put_wallet_key_opened.
  - intros wrong r w1 Hr. apply run_attempt_password in Hr as (kp1 & _ & -> & _); [|by apply Hs'].
    assert (Hs1 : sealed (set_password (fan_value_set kp1 (ws_password w')) w') k kp').
    { apply sealed_password; [done|by apply fan_value_set_ne, Hs']. }
    destruct (attempt_unlocks fuel _ _ _ password Hs1) as (w2 & Hr2 & _ & Hu2 & Hk2 & _).
    + simpl. by rewrite put_wallet_key_salt.
    + exists w2. done.
Qed.
End wallet_props.
