(* ===== verification/WalletSeeds.v ===== *)
(** * The seed of a wallet

    A new seed removes the keys derived from the old one; the keys derived
    from it are the same in every wallet. *)

From S2P Require Import Prelude Crypto Numbers Store Messages Node WalletStore StoreLemmas NumberProps BootstrapServer.
From S2P Require Import BootstrapChains WalletProps.

Section seeds.
Context `{NodeConfig, RandomPool, AesCorrect, Argon2, Blake2b, Ed25519}.
Implicit Types (w : wallet_store) (t : gmap u256 wallet_value) (k pub prv seed : u256).

(** ** Clearing *)

(** The entries from a bound on, in order. *)
Definition entries_from (b : Z) t (i : list (u256 * wallet_value)) : Prop :=
  StronglySorted key_lt i ∧ ∀ p, p ∈ i ↔ t !! p.1 = Some p.2 ∧ b ≤ uval p.1.

Lemma entries_from_cursor key t : entries_from (uval key) t (cursor hash_le key t).
Proof. split; [apply cursor_sorted|]. intros [x v]. apply elem_of_cursor. Qed.
Lemma entries_from_unique b t i i' : entries_from b t i → entries_from b t i' → i = i'.
Proof. intros [Hs Hi] [Hs' Hi']. apply sorted_unique; [done|done|]. intros p. by rewrite Hi, Hi'. Qed.
Lemma entries_from_tail b t key v i : entries_from b t ((key, v) :: i) → entries_from (uval key + 1) t i.
Proof.
  intros [[Hs Ha]%StronglySorted_inv Hi]. split; [done|]. intros p. rewrite Forall_forall in Ha. split.
  - intros Hp. specialize (Ha p Hp). unfold key_lt in Ha. simpl in Ha. destruct (proj1 (Hi p)) as [Ht _]; [by right|].
    split; [done|lia].
  - intros [Ht Hle]. assert (Hin : p ∈ (key, v) :: i).
    { apply Hi. split; [done|]. destruct (proj1 (Hi (key, v))) as [_ Hb]; [by left|]. simpl in Hb. lia. }
    apply elem_of_cons in Hin as [->|Hin]; [simpl in Hle; lia|done].
Qed.
Lemma entries_from_delete b t key i : entries_from b t i → uval key < b → entries_from b (delete key t) i.
Proof.
  intros [Hs Hi] Hk. split; [done|]. intros p. rewrite Hi, lookup_delete. destruct (decide (key = p.1)) as [->|]; [|done].
  split; [lia|by intros [? _]].
Qed.

Definition survives (b : Z) (p : u256 * wallet_value) : Prop := uval p.1 < b ∨ key_type p.2 ≠ key_deterministic.
#[export] Instance key_types_eq_dec : EqDecision key_types.
Proof. solve_decision. Defined.
#[export] Instance survives_dec b p : Decision (survives b p).
Proof. unfold survives. apply _. Defined.

Lemma set_entries_id w : set_entries (ws_entries w) w = w.
Proof. by destruct w. Qed.

Lemma clear_loop i fuel b w : entries_from b (ws_entries w) i → (length i < fuel)%nat →
  loop fuel clear_step i w = Done (tt, set_entries (filter (survives b) (ws_entries w)) w).
Proof.
  revert b w fuel. induction i as [|[key v] i IH]; intros b w [|fuel] Hi Hf; simpl in Hf; try lia; rewrite loop_S; simpl.
  - rewrite map_filter_id; [by rewrite set_entries_id|]. intros x v Hx.
    destruct (decide (b ≤ uval x)) as [Hb|]; [|left; simpl; lia].
    destruct (not_elem_of_nil (x, v)). by apply Hi.
  - assert (Hkey : ws_entries w !! key = Some v ∧ b ≤ uval key) by (apply (proj2 Hi (key, v)); by left).
    destruct Hkey as [Hkey Hb]. pose proof (entries_from_tail _ _ _ _ _ Hi) as Hi'.
    assert (Hrest : ∀ x u, ws_entries w !! x = Some u → x ≠ key → uval x < uval key + 1 → uval x < b).
    { intros x u Hx Hne Hlt. destruct (decide (b ≤ uval x)) as [Hge|]; [|lia].
      assert (Hin : (x, u) ∈ (key, v) :: i) by (by apply Hi).
      apply elem_of_cons in Hin as [[= -> _]|Hin]; [done|]. apply Hi' in Hin as [_ Hin]. simpl in Hin. lia. }
    destruct (key_type v) eqn:Ek.
    1-3: simpl; rewrite (IH (uval key + 1)) by (done || lia); do 3 f_equal; apply map_filter_ext; intros x u Hx; unfold survives; simpl;
      destruct (decide (x = key)) as [->|Hne]; [rewrite Hkey in Hx; injection Hx as <-; split; intros _; right; congruence|];
      specialize (Hrest x u Hx Hne); split; (intros [?|?]; [left; lia|by right]).
    + set (w1 := set_entries (delete key (ws_entries w)) w).
      assert (He : wallet_erase key w = Done (tt, w1)).
      { unfold wallet_erase, mbind, M_bind, gets, assert_, modify. by rewrite bool_decide_true by (by exists v). }
      unfold mbind, M_bind. rewrite He. simpl.
      assert (Hcur : cursor hash_le key (delete key (ws_entries w)) = i).
      { apply (entries_from_unique (uval key) (delete key (ws_entries w))); [apply entries_from_cursor|].
        split; [by apply Hi'|]. intros p. rewrite (proj2 Hi' p), lookup_delete.
        destruct (decide (key = p.1)) as [E|Hne]; [rewrite <-E; split; [lia|by intros [? _]]|].
        split; [intros [? ?]; split; [done|lia]|]. intros [Hx Hle]. split; [done|].
        assert (uval key ≠ uval p.1) by (intros E; by apply Hne, uval_inj). lia. }
      rewrite Hcur, (IH (uval key + 1) w1); [|by apply entries_from_delete; [|lia]|lia].
      assert (E : filter (survives (uval key + 1)) (delete key (ws_entries w)) = filter (survives b) (ws_entries w)).
      { apply map_eq. intros x. apply option_eq. intros u.
        rewrite !map_lookup_filter_Some, lookup_delete_Some. unfold survives. simpl. split.
        - intros [[Hne Hx] [Hlt|Hk]]; [|by auto]. split; [done|]. left. by apply (Hrest x u).
        - intros [Hx Hor]. assert (Hne : key ≠ x).
          { intros ->. rewrite Hkey in Hx. injection Hx as <-. destruct Hor; [lia|done]. }
          split; [done|]. destruct Hor as [|]; [left; lia|by right]. }
      change (ws_entries w1) with (delete key (ws_entries w)). by rewrite E.
Qed.

Definition cleared t : gmap u256 wallet_value :=
  put (filter (survives special_count) t) deterministic_index_special (Wallet_value (U 32 0) (U 8 0)).

Lemma run_deterministic_clear fuel w : (size (ws_entries w) < fuel)%nat →
  deterministic_clear fuel w = Done (tt, set_entries (cleared (ws_entries w)) w).
Proof.
  intros Hf. unfold deterministic_clear.
  rewrite (bind_done _ _ w (cursor hash_le (U 32 special_count) (ws_entries w)) w) by done.
  pose proof (length_cursor (U 32 special_count) (ws_entries w)) as Hlen.
  erewrite bind_done; [|eapply clear_loop; [apply entries_from_cursor|exact (Nat.le_lt_trans _ _ _ Hlen Hf)]]. reflexivity.
Qed.

Lemma cleared_special t y : y ∈ [version_special; salt_special; wallet_key_special; check_special; seed_special] →
  wv_key (entry (cleared t) y) = wv_key (entry t y).
Proof.
  intros Hy. unfold cleared. rewrite put_special; [|by right; right; left|done].
  destruct (special_keys y Hy) as [Hlt _]. f_equal. unfold entry. f_equal.
  destruct (t !! y) as [v|] eqn:E; [apply map_lookup_filter_Some; split; [done|by left]|].
  apply map_lookup_filter_None. by left.
Qed.
Lemma cleared_sealed w k kp : sealed w k kp → sealed (set_entries (cleared (ws_entries w)) w) k kp.
Proof.
  intros Hsl. pose proof Hsl as [Hpw Hmem Hval Hsto Hchk Hver Hspec].
  assert (Hsalt : salt_of (cleared (ws_entries w)) = salt_of (ws_entries w)) by (apply cleared_special; set_solver).
  constructor; simpl; try done.
  - unfold iv_of. by rewrite Hsalt.
  - rewrite cleared_special; [done|set_solver].
  - unfold checked, iv_of. rewrite Hsalt, cleared_special; [done|set_solver].
  - rewrite cleared_special; [done|set_solver].
  - intros y Hy. unfold cleared, put. rewrite lookup_insert. destruct (decide _); [done|].
    destruct (Hspec y Hy) as [v Hv]. exists v. apply map_lookup_filter_Some. split; [done|by left].
Qed.
Lemma cleared_absent t a : (∀ v, t !! a = Some v → special_count ≤ uval a ∧ key_type v = key_deterministic) →
  a ≠ deterministic_index_special → cleared t !! a = None.
Proof.
  intros Ha Hne. unfold cleared, put. rewrite lookup_insert_ne by done. apply map_lookup_filter_None.
  destruct (t !! a) as [v|] eqn:E; [right|by left]. intros v' [= <-]. destruct (Ha v eq_refl) as [Hle Hk].
  unfold survives. simpl. intros [|]; [lia|done].
Qed.

Lemma run_seed_set fuel seed w k : (size (ws_entries w) + 1 < fuel)%nat → key_of w = k →
  let t := put (ws_entries w) seed_special (Wallet_value (aes_ctr_encrypt seed k (iv_of (ws_entries w))) (U 8 0)) in
  seed_set fuel seed w = Done (tt, set_entries (cleared t) w).
Proof.
  intros Hf Hk t. unfold seed_set.
  rewrite (bind_done _ _ _ _ _ (wallet_key_run w)), (bind_done _ _ _ _ _ (wallet_salt_run w)), Hk.
  rewrite (bind_done _ _ w tt (set_entries t w)) by done. rewrite run_deterministic_clear; [done|]. simpl. unfold t, put.
  destruct (ws_entries w !! seed_special) eqn:E; [rewrite map_size_insert_Some by eauto|rewrite map_size_insert_None by done]; lia.
Qed.

(** ** Deriving keys *)

(** [n] keys one after the other. *)
Fixpoint insert_many (fuel n : nat) : M wallet_store (list u256) :=
  match n with
  | O => mret []
  | Datatypes.S n => a ← deterministic_insert fuel; l ← insert_many fuel n; mret (a :: l)
  end.

Lemma opened_marker t k seed index a : seed_in t k = seed → special_count ≤ uval a → a = account_at seed index →
  opened (put t a (Wallet_value (marker index) (U 8 0))) k a = Some (deterministic_key seed index).
Proof.
  intros Hs Ha ->. set (a := account_at seed index) in *. set (t' := put t a _).
  assert (Hv : entry t' a = Wallet_value (marker index) (U 8 0)).
  { unfold t', put. rewrite entry_insert. by rewrite decide_True. }
  pose proof (uval_range index) as Hr. change (modulus 4) with (2 ^ 32) in Hr.
  assert (Hm : uval (marker index) = 2 ^ 32 + uval index).
  { unfold marker. rewrite lor_shiftl, Z.mul_1_l by lia. apply uval_U_small. change (modulus 32) with (2 ^ 256). lia. }
  assert (Hz : is_zero (marker index) = false).
  { apply is_zero_false. intros E. rewrite E, uval_zero in Hm. lia. }
  assert (Hk : key_type (Wallet_value (marker index) (U 8 0)) = key_deterministic).
  { unfold key_type. cbn [wv_key]. rewrite Hm. destruct (Z.ltb_spec (2 ^ 64 - 1) (2 ^ 32 + uval index)); [lia|].
    rewrite Z.shiftr_div_pow2 by lia. replace (2 ^ 32 + uval index) with (uval index + 1 * 2 ^ 32) by lia.
    rewrite Z.div_add, Z.div_small by lia. done. }
  unfold opened. rewrite Hv, Hk. cbn [wv_key]. rewrite Hz.
  assert (Hi : U 4 (uval (marker index)) = index).
  { apply uval_inj. rewrite Hm, uval_U. change (modulus 4) with (2 ^ 32).
    replace (2 ^ 32 + uval index) with (uval index + 1 * 2 ^ 32) by lia. rewrite Z.mod_add, Z.mod_small by lia. done. }
  assert (Hseed : seed_in t' k = seed).
  { rewrite <-Hs. unfold seed_in, iv_of, t'. rewrite put_salt by (by left). rewrite put_special; [done|by left|set_solver]. }
  rewrite Hi, Hseed. cbn. by rewrite u_eqb_refl.
Qed.

(** The wallet derives its next key from the seed at an index. *)
Record derives w k kp seed (i : Z) : Prop := {
  dr_sealed : sealed w k kp;
  dr_unlocked : unlocked w = true;
  dr_key : key_of w = k;
  dr_seed : seed_in (ws_entries w) k = seed;
  dr_index : wv_key (entry (ws_entries w) deterministic_index_special) = U 32 i;
}.

Lemma derives_put w k kp seed i x v j : derives w k kp seed i → harmless (ws_entries w) x v →
  wv_key (entry (put (ws_entries w) x v) deterministic_index_special) = U 32 j →
  derives (set_entries (put (ws_entries w) x v) w) k kp seed j.
Proof.
  intros [Hs Hu Hk Hsd Hi] Hh Hj.
  assert (Hkey : key_of (set_entries (put (ws_entries w) x v) w) = k).
  { rewrite <-Hk. unfold key_of, iv_of. simpl. by rewrite put_salt. }
  constructor; [by apply put_sealed| |done| |done].
  - unfold unlocked. rewrite Hkey. simpl. rewrite put_checked by done. by apply Hs.
  - rewrite <-Hsd. simpl. unfold seed_in, iv_of. rewrite put_salt, put_special; [done|done|set_solver|done].
Qed.

(** Indices whose accounts are in the wallet are passed over. *)
Lemma skip_run fuel w k seed i s : unlocked w = true → key_of w = k → seed_in (ws_entries w) k = seed → 0 ≤ i →
  i + Z.of_nat s < 2 ^ 32 → (∀ j, i ≤ j < i + Z.of_nat s → is_Some (ws_entries w !! account_at seed (U 4 j))) →
  ws_entries w !! account_at seed (U 4 (i + Z.of_nat s)) = None → (s < fuel)%nat →
  loop fuel deterministic_step (U 4 i, account_at seed (U 4 i)) w =
    Done ((U 4 (i + Z.of_nat s), account_at seed (U 4 (i + Z.of_nat s))), w).
Proof.
  intros Hu Hk Hsd. revert i fuel. induction s as [|s IH]; intros i fuel Hi0 Hi1 Hocc Hn Hf; destruct fuel as [|fuel]; try lia;
    rewrite loop_S; unfold deterministic_step at 1; rewrite (bind_done _ _ _ _ _ (wallet_exists_run _ w)).
  - rewrite Z.add_0_r in *. rewrite bool_decide_false; [done|]. rewrite Hn. by intros [? [=]].
  - rewrite bool_decide_true by (apply Hocc; lia). rewrite (bind_done _ _ _ _ _ (deterministic_key_run _ w Hu)), Hk, Hsd.
    assert (u_add (U 4 i) (U 4 1) = U 4 (i + 1)) as ->.
    { apply uval_inj. rewrite uval_add. change (uval (U 4 1)) with 1. change (modulus 4) with (2 ^ 32).
      rewrite !uval_U_small by (change (modulus 4) with (2 ^ 32); lia). rewrite Z.mod_small; lia. }
    replace (i + Z.of_nat (Datatypes.S s)) with (i + 1 + Z.of_nat s) in * by lia.
    apply IH; [lia|lia| |done|lia]. intros j Hj. apply Hocc. lia.
Qed.

(** The next key is that of the first index, from [i] on, whose account is not
    in the wallet. *)
Lemma insert_next fuel w k kp seed i s : let i' := i + Z.of_nat s in
  derives w k kp seed i → 0 ≤ i → i' + 1 < 2 ^ 32 →
  (∀ j, i ≤ j < i' → is_Some (ws_entries w !! account_at seed (U 4 j))) →
  ws_entries w !! account_at seed (U 4 i') = None → (s < fuel)%nat →
  ∃ w', deterministic_insert fuel w = Done (account_at seed (U 4 i'), w') ∧ derives w' k kp seed (i' + 1) ∧
    opened (ws_entries w') k (account_at seed (U 4 i')) = Some (deterministic_key seed (U 4 i')) ∧
    (∀ a, a ≠ account_at seed (U 4 i') → ws_entries w' !! a = None ↔ ws_entries w !! a = None) ∧
    ∀ pub, special_count ≤ uval pub → pub ≠ account_at seed (U 4 i') →
      opened (ws_entries w') k pub = opened (ws_entries w) k pub.
Proof.
  intros i' Hd Hi0 Hi1 Hocc Hn Hf. pose proof Hd as [Hs Hu Hk Hsd Hidx]. set (a := account_at seed (U 4 i')) in *.
  assert (Hui : uval (U 4 i') = i') by (apply uval_U_small; change (modulus 4) with (2 ^ 32); lia).
  assert (Ha : special_count ≤ uval a).
  { destruct (decide (special_count ≤ uval a)) as [|Hlt]; [done|]. destruct (se_special _ _ _ Hs a) as [v Hv]; [lia|]. by rewrite Hn in Hv. }
  assert (Hnext : U 32 (uval (u_add (U 4 i') (U 4 1))) = U 32 (i' + 1)).
  { rewrite uval_add, Hui. change (uval (U 4 1)) with 1. rewrite Z.mod_small; [done|]. change (modulus 4) with (2 ^ 32). lia. }
  set (w1 := set_entries (put (ws_entries w) a (Wallet_value (marker (U 4 i')) (U 8 0))) w).
  set (w2 := set_entries (put (ws_entries w1) deterministic_index_special (Wallet_value (U 32 (i' + 1)) (U 8 0))) w1).
  assert (Hne : deterministic_index_special ≠ a) by (intros <-; by vm_compute in Ha).
  assert (Hd1 : derives w1 k kp seed i).
  { apply (derives_put _ _ _ _ i); [done|by left|]. rewrite <-Hidx. unfold put. rewrite entry_insert. by rewrite decide_False. }
  exists w2. split_and!.
  - unfold deterministic_insert.
    assert (Hget : deterministic_index_get w = Done (U 4 i, w)).
    { change (deterministic_index_get w) with
        (Done (A := u32 * wallet_store) (U 4 (uval (wv_key (entry (ws_entries w) deterministic_index_special))), w)).
      rewrite Hidx, uval_U_small; [done|]. change (modulus 32) with (2 ^ 256). lia. }
    rewrite (bind_done _ _ _ _ _ Hget), (bind_done _ _ _ _ _ (deterministic_key_run _ w Hu)), Hk, Hsd.
    rewrite (bind_done _ _ _ _ _ (skip_run fuel w k seed i s Hu Hk Hsd Hi0 ltac:(lia) Hocc Hn Hf)).
    rewrite (bind_done _ _ w tt w1) by done. unfold deterministic_index_set. fold i'. rewrite Hnext. reflexivity.
  - apply (derives_put _ _ _ _ i); [done|by right; right; left|]. unfold put. rewrite entry_insert. by rewrite decide_True.
  - simpl. rewrite put_opened; [|by right; right; left|done]. by apply opened_marker.
  - intros x Hxa. simpl. unfold put. destruct (decide (deterministic_index_special = x)) as [<-|Hnx].
    + rewrite lookup_insert_eq. split; [done|]. destruct (se_special _ _ _ Hs deterministic_index_special) as [v Hv]; [done|].
      by rewrite Hv.
    + by rewrite !lookup_insert_ne.
  - intros pub Hp Hpa. simpl. rewrite put_opened; [|by right; right; left|intros <-; by vm_compute in Hp].
    rewrite put_opened; [done|by left|done].
Qed.

Fixpoint accounts_from seed (i : Z) (n : nat) : list u256 :=
  match n with O => [] | Datatypes.S n => account_at seed (U 4 i) :: accounts_from seed (i + 1) n end.
Lemma elem_of_accounts seed i n a : a ∈ accounts_from seed i n ↔ ∃ j, i ≤ j < i + Z.of_nat n ∧ a = account_at seed (U 4 j).
Proof.
  revert i. induction n as [|n IH]; intros i; cbn [accounts_from].
  - rewrite elem_of_nil. split; [done|intros (j & ? & _); lia].
  - rewrite elem_of_cons, IH. split.
    + intros [->|(j & ? & ->)]; [exists i|exists j]; (split; [lia|done]).
    + intros (j & Hj & ->). destruct (decide (j = i)) as [->|]; [by left|]. right. exists j. split; [lia|done].
Qed.

(** The accounts of [m] indices that are not in the wallet. *)
Definition free_accounts t seed (i : Z) (m : nat) : list u256 := filter (λ a, t !! a = None) (accounts_from seed i m).

Lemma free_accounts_ext t t' seed i m : (∀ a, a ∈ accounts_from seed i m → t !! a = None ↔ t' !! a = None) →
  free_accounts t seed i m = free_accounts t' seed i m.
Proof.
  unfold free_accounts. induction (accounts_from seed i m) as [|a l IH]; intros Ht; [done|]. rewrite !filter_cons, IH.
  - pose proof (Ht a (list_elem_of_here _ _)) as Ha. by do 2 case_decide; try tauto.
  - intros x Hx. apply Ht. by right.
Qed.

Lemma first_free t seed i m a l : free_accounts t seed i m = a :: l → ∃ s, (s < m)%nat ∧
  (∀ j, i ≤ j < i + Z.of_nat s → is_Some (t !! account_at seed (U 4 j))) ∧
  a = account_at seed (U 4 (i + Z.of_nat s)) ∧ t !! a = None ∧
  l = free_accounts t seed (i + Z.of_nat s + 1) (m - s - 1) ∧
  (NoDup (accounts_from seed i m) → NoDup (accounts_from seed (i + Z.of_nat s + 1) (m - s - 1)) ∧
     a ∉ accounts_from seed (i + Z.of_nat s + 1) (m - s - 1)).
Proof.
  revert i. induction m as [|m IH]; intros i; [done|]. unfold free_accounts. cbn [accounts_from]. rewrite filter_cons.
  destruct (decide (t !! account_at seed (U 4 i) = None)) as [Hn|Ho].
  - intros [= <- <-]. exists 0%nat. rewrite Z.add_0_r. replace (Datatypes.S m - 0 - 1)%nat with m by lia.
    split_and!; [lia|intros j ?; lia|done|done|done|]. by intros [? ?]%NoDup_cons.
  - intros (s & Hs & Hocc & -> & Ha & -> & Hnd)%IH. exists (Datatypes.S s).
    replace (i + Z.of_nat (Datatypes.S s)) with (i + 1 + Z.of_nat s) by lia.
    replace (Datatypes.S m - Datatypes.S s - 1)%nat with (m - s - 1)%nat by lia. split_and!; [lia| |done|done|done|].
    + intros j Hj. destruct (decide (j = i)) as [->|]; [by apply not_eq_None_Some|]. apply Hocc. lia.
    + intros [_ Hm]%NoDup_cons. by apply Hnd.
Qed.

Lemma insert_many_run fuel n w k kp seed i m : derives w k kp seed i → 0 ≤ i → i + Z.of_nat m < 2 ^ 32 →
  NoDup (accounts_from seed i m) → length (free_accounts (ws_entries w) seed i m) = n → (m ≤ fuel)%nat →
  ∃ w' i', insert_many fuel n w = Done (free_accounts (ws_entries w) seed i m, w') ∧ derives w' k kp seed i' ∧
    (∀ j, account_at seed (U 4 j) ∈ free_accounts (ws_entries w) seed i m → i ≤ j < i + Z.of_nat m →
       opened (ws_entries w') k (account_at seed (U 4 j)) = Some (deterministic_key seed (U 4 j))) ∧
    ∀ pub, special_count ≤ uval pub → pub ∉ free_accounts (ws_entries w) seed i m →
      opened (ws_entries w') k pub = opened (ws_entries w) k pub.
Proof.
  revert w i m. induction n as [|n IH]; intros w i m Hd Hi0 Hi1 Hnd Hlen Hf; cbn [insert_many].
  { apply nil_length_inv in Hlen. exists w, i. rewrite Hlen. split_and!; [done|done|by intros j ?%elem_of_nil|done]. }
  destruct (free_accounts (ws_entries w) seed i m) as [|a l] eqn:El; [done|]. injection Hlen as Hlen.
  destruct (first_free _ _ _ _ _ _ El) as (s & Hsm & Hocc & -> & Hna & Hl & [Hnd' Hni]%(λ f, f Hnd)).
  set (i' := i + Z.of_nat s) in *. set (a := account_at seed (U 4 i')) in *.
  destruct (insert_next fuel w k kp seed i s) as (w1 & Hr1 & Hd1 & Ho1 & Habs & Hk1); [done|lia|lia|done|done|lia|].
  fold i' a in Hr1, Hd1, Ho1, Habs, Hk1.
  assert (El1 : free_accounts (ws_entries w1) seed (i' + 1) (m - s - 1) = l).
  { rewrite Hl. apply free_accounts_ext. intros x Hx. apply Habs. by intros ->. }
  destruct (IH w1 (i' + 1) (m - s - 1)%nat) as (w2 & i2 & Hr2 & Hd2 & Ho2 & Hk2); [done|lia|lia|done|by rewrite El1|lia|].
  rewrite El1 in *.
  assert (Hsp : special_count ≤ uval a).
  { destruct (decide (special_count ≤ uval a)) as [|Hlt]; [done|].
    destruct (se_special _ _ _ (dr_sealed _ _ _ _ _ Hd) a) as [v Hv]; [lia|]. by rewrite Hna in Hv. }
  assert (Hal : a ∉ l) by (rewrite Hl; by intros [_ ?]%list_elem_of_filter).
  exists w2, i2. split_and!; [|done| |].
  - by rewrite (bind_done _ _ _ _ _ Hr1), (bind_done _ _ _ _ _ Hr2).
  - intros j Hj Hij. destruct (Z.lt_trichotomy j i') as [Hlt|[->|Hgt]].
    + destruct (Hocc j) as [v Hv]; [lia|]. apply elem_of_cons in Hj as [E|Hj]; [by rewrite E, Hna in Hv|].
      rewrite Hl in Hj. apply list_elem_of_filter in Hj as [Hjn _]. by rewrite Hv in Hjn.
    + fold a. by rewrite Hk2.
    + apply elem_of_cons in Hj as [E|Hj]; [|apply Ho2; [done|lia]].
      destruct Hni. rewrite <-E. apply elem_of_accounts. exists j. split; [lia|done].
  - intros pub Hp [Hne Hnin]%not_elem_of_cons. by rewrite Hk2, Hk1.
Qed.

(** *** A new seed *)

Lemma put_seed t v y : y ∈ [version_special; salt_special; wallet_key_special; check_special] →
  entry (put t seed_special v) y = entry t y.
Proof.
  intros Hy. unfold put. rewrite entry_insert, decide_False; [done|]. apply not_eq_sym, u_eqb_false.
  repeat (apply elem_of_cons in Hy as [->|Hy]; [reflexivity|]). by apply not_elem_of_nil in Hy.
Qed.
Lemma put_seed_salt t v : salt_of (put t seed_special v) = salt_of t.
Proof. unfold salt_of. rewrite put_seed; [done|set_solver]. Qed.
Lemma put_seed_sealed w k kp v : sealed w k kp → sealed (set_entries (put (ws_entries w) seed_special v) w) k kp.
Proof.
  intros [Hpw Hmem Hval Hsto Hchk Hver Hspec]. constructor; simpl; try done.
  - unfold iv_of. by rewrite put_seed_salt.
  - rewrite put_seed; [done|set_solver].
  - unfold checked, iv_of. rewrite put_seed_salt, put_seed; [done|set_solver].
  - rewrite put_seed; [done|set_solver].
  - intros y Hy. unfold put. rewrite lookup_insert. destruct (decide _); [done|by apply Hspec].
Qed.
Lemma cleared_salt t v : salt_of (cleared (put t seed_special v)) = salt_of t.
Proof. rewrite <-(put_seed_salt t v). apply cleared_special. set_solver. Qed.

Lemma derives_seed w k kp seed : sealed w k kp → unlocked w = true → key_of w = k →
  derives (set_entries (cleared (put (ws_entries w) seed_special
    (Wallet_value (aes_ctr_encrypt seed k (iv_of (ws_entries w))) (U 8 0)))) w) k kp seed 0.
Proof.
  intros Hs Hu Hk. set (v := Wallet_value _ _). set (w0 := set_entries (put (ws_entries w) seed_special v) w).
  assert (Hs1 : sealed (set_entries (cleared (ws_entries w0)) w0) k kp) by (apply cleared_sealed, put_seed_sealed, Hs).
  assert (Hk1 : key_of (set_entries (cleared (ws_entries w0)) w0) = k).
  { rewrite <-Hk. unfold key_of, iv_of. simpl. by rewrite cleared_salt. }
  change (derives (set_entries (cleared (ws_entries w0)) w0) k kp seed 0).
  constructor; [done| |done| |].
  - unfold unlocked. rewrite Hk1. apply Hs1.
  - unfold seed_in, w0. cbn [ws_entries set_entries]. rewrite cleared_special by set_solver. unfold put at 1. rewrite entry_insert, decide_True by done.
    unfold iv_of at 1. rewrite cleared_salt. apply aes_decrypt_encrypt.
  - simpl. unfold cleared, put. rewrite entry_insert. by rewrite decide_True.
Qed.

(** A key that is not derived does not depend on the seed. *)
Lemma opened_cleared t v k pub u : special_count ≤ uval pub → t !! pub = Some u → key_type u ≠ key_deterministic →
  opened (cleared (put t seed_special v)) k pub = opened t k pub.
Proof.
  intros Hp Hu Hd. assert (He : entry (cleared (put t seed_special v)) pub = u).
  { unfold entry. assert (Hl : cleared (put t seed_special v) !! pub = Some u); [|by rewrite Hl].
    unfold cleared, put at 1. rewrite lookup_insert_ne by (intros <-; by vm_compute in Hp).
    apply map_lookup_filter_Some. split; [|by right].
    unfold put. rewrite lookup_insert_ne by (intros <-; by vm_compute in Hp). done. }
  assert (He' : entry t pub = u) by (unfold entry; by rewrite Hu).
  unfold opened. rewrite He, He'. destruct (key_type u); [done|done| |done].
  unfold iv_of. by rewrite cleared_salt.
Qed.

(** The account is in the wallet by other means than a seed. *)
Definition not_derived t (a : u256) : bool :=
  match t !! a with Some v => bool_decide (survives special_count (a, v)) | None => false end.

Lemma cleared_none t v a : is_Some (t !! deterministic_index_special) → is_Some (t !! seed_special) →
  cleared (put t seed_special v) !! a = None ↔ not_derived t a = false.
Proof.
  intros [vi Hi] [vs Hs]. unfold cleared, put, not_derived. destruct (decide (deterministic_index_special = a)) as [<-|Hni].
  { rewrite lookup_insert_eq, Hi. split; [done|]. rewrite bool_decide_true; [done|by left]. }
  rewrite lookup_insert_ne by done. rewrite map_lookup_filter_None.
  destruct (decide (seed_special = a)) as [<-|Hns].
  { rewrite lookup_insert_eq, Hs, bool_decide_true by by left. split; [|done].
    intros [|Hx]; [done|]. exfalso. apply (Hx v eq_refl). by left. }
  rewrite lookup_insert_ne by done. destruct (t !! a) as [u|] eqn:E.
  - rewrite bool_decide_eq_false. split; [intros [|Hx]; [done|by apply Hx]|]. intros Hx. right. by intros ? [= <-].
  - split; [done|by left].
Qed.

(** C15: a wallet can be restored from its seed.  After the seed is
    set in an unlocked wallet, whatever keys were derived before, the keys
    derived next are those of the indices 0, 1, ... of the seed, in order,
    without the indices whose account is in the wallet by other means (inserted
    or watched): these are passed over and their entries stay.  Each derived
    key is read back under its account, and every account that was not derived
    from the old seed keeps its key.  The accounts of the [m] indices looked at
    are taken to be distinct. *)
Theorem seed_restores fuel w k kp seed m :
  sealed w k kp → check_decides (ws_entries w) k → unlocked w = true →
  (size (ws_entries w) + 1 < fuel)%nat → (m ≤ fuel)%nat → Z.of_nat m < 2 ^ 32 → NoDup (accounts_from seed 0 m) →
  let l := filter (λ a, not_derived (ws_entries w) a = false) (accounts_from seed 0 m) in
  ∃ w', (seed_set fuel seed;; insert_many fuel (length l)) w = Done (l, w') ∧ sealed w' k kp ∧
    (∀ j, 0 ≤ j < Z.of_nat m → account_at seed (U 4 j) ∈ l →
       fetch (account_at seed (U 4 j)) w' = Done (Some (deterministic_key seed (U 4 j)), w')) ∧
    ∀ pub v, special_count ≤ uval pub → ws_entries w !! pub = Some v → key_type v ≠ key_deterministic →
      ∃ r, fetch pub w = Done (r, w) ∧ fetch pub w' = Done (r, w').
Proof.
  intros Hs Hd Hu Hf Hm Hn Hnd l. pose proof (unlocked_key _ _ Hd Hu) as Hk.
  set (v := Wallet_value (aes_ctr_encrypt seed k (iv_of (ws_entries w))) (U 8 0)).
  set (t := put (ws_entries w) seed_special v). set (w1 := set_entries (cleared t) w).
  assert (Hd1 : derives w1 k kp seed 0) by (by apply derives_seed).
  assert (Hl : free_accounts (ws_entries w1) seed 0 m = l).
  { unfold free_accounts, l, w1, t. simpl. apply list_filter_iff. intros a. apply cleared_none; by apply (se_special _ _ _ Hs). }
  destruct (insert_many_run fuel (length l) w1 k kp seed 0 m) as (w2 & i & Hr2 & [Hs2 Hu2 Hk2 _ _] & Ho2 & Hkeep);
    [done|lia|lia|done|by rewrite Hl|done|]. rewrite Hl in *. exists w2. split_and!; [|done| |].
  - rewrite (bind_done _ _ _ _ _ (run_seed_set fuel seed w k Hf Hk)). exact Hr2.
  - intros j Hj Hin. rewrite fetch_run, Hu2, Hk2, Ho2; [done|done|lia].
  - intros pub u Hp Hpub Hdet. eexists. split; [apply fetch_run|]. rewrite fetch_run, Hu, Hu2, Hk, Hk2, Hkeep; [|done|].
    + unfold w1, t. cbn [ws_entries set_entries]. by rewrite (opened_cleared (ws_entries w) v k pub u).
    + intros [Hx _]%list_elem_of_filter. revert Hx. unfold not_derived. rewrite Hpub, bool_decide_true; [done|]. by right.
Qed.
End seeds.

(** ** New wallets, and keys moved between wallets *)

Section new_wallet.
Context `{NodeConfig, RandomPool, AesCorrect, Argon2, Blake2b, Ed25519}.
Implicit Types (w : wallet_store) (t : gmap u256 wallet_value) (k pub prv seed : u256).

Definition set_pool (r : rng) w : wallet_store := Wallet_store _ (ws_entries w) (ws_password w) (ws_wallet_key_mem w) r.

Lemma generate_run w : ∃ x r, generate_256 w = Done (x, set_pool r w).
Proof. unfold generate_256. destruct (generate_block _ _) as [b r]. eauto. Qed.
Lemma fan_entries_run count first w : ∃ f r, fan_entries count first w = Done (f, set_pool r w) ∧ f ≠ [] ∧ fan_value f = first.
Proof.
  revert first w. induction count as [|count IH]; intros first w; cbn [fan_entries].
  - exists [first], (ws_random_pool w). split_and!; [by destruct w|done|]. unfold fan_value. simpl. apply u_xor_0_l.
  - destruct (generate_run w) as (x & r & Hx). rewrite (bind_done _ _ _ _ _ Hx).
    destruct (IH (u_xor first x) (set_pool r w)) as (f & r' & Hf & _ & Hv). exists (x :: f), r'.
    rewrite (bind_done _ _ _ _ _ Hf). split_and!; [done|done|]. unfold fan_value. simpl.
    rewrite u_xor_0_l, foldl_xor, Hv, (u_xor_comm first), u_xor_comm, (u_xor_comm x). apply u_xor_cancel.
Qed.

(** The table of a new wallet before its seed is set. *)
Definition first_entries (salt key check representative : u256) : gmap u256 wallet_value :=
  put (put (put (put (put ∅ version_special (Wallet_value (U 32 version_current) (U 8 0)))
    salt_special (Wallet_value salt (U 8 0))) wallet_key_special (Wallet_value key (U 8 0)))
    check_special (Wallet_value check (U 8 0))) representative_special (Wallet_value representative (U 8 0)).

Lemma first_entries_special salt key check representative x v :
  first_entries salt key check representative !! x = Some v → uval x < special_count.
Proof.
  unfold first_entries, put. intros Hx.
  repeat (apply lookup_insert_Some in Hx as [[<- _]|[_ Hx]]; [reflexivity|]). by rewrite lookup_empty in Hx.
Qed.
Lemma first_entries_size salt key check representative : size (first_entries salt key check representative) = 5%nat.
Proof.
  unfold first_entries, put.
  rewrite !map_size_insert_None; [by rewrite map_size_empty|..];
    repeat (rewrite lookup_insert_ne; [|by apply u_eqb_false]); apply lookup_empty.
Qed.
Lemma first_entries_at salt key check representative : let t := first_entries salt key check representative in
  entry t version_special = Wallet_value (U 32 version_current) (U 8 0) ∧
  entry t salt_special = Wallet_value salt (U 8 0) ∧ entry t wallet_key_special = Wallet_value key (U 8 0) ∧
  entry t check_special = Wallet_value check (U 8 0) ∧
  entry t representative_special = Wallet_value representative (U 8 0).
Proof.
  intros t. unfold t, first_entries, put.
  split_and!; rewrite !entry_insert; repeat (rewrite decide_False by (by apply u_eqb_false)); by rewrite decide_True.
Qed.

Lemma special_range x : uval x < special_count →
  x ∈ [version_special; salt_special; wallet_key_special; check_special; representative_special; seed_special; deterministic_index_special].
Proof.
  intros Hx. pose proof (uval_range x) as Hr. unfold special_count in Hx.
  assert (Hu : x = U 32 (uval x)) by (by rewrite U_uval).
  assert (Hc : uval x = 0 ∨ uval x = 1 ∨ uval x = 2 ∨ uval x = 3 ∨ uval x = 4 ∨ uval x = 5 ∨ uval x = 6) by lia.
  rewrite Hu. destruct Hc as [->|[->|[->|[->|[->|[->| ->]]]]]]; unfold version_special, salt_special, wallet_key_special,
    check_special, representative_special, seed_special, deterministic_index_special; set_solver.
Qed.

(** The wallet just after its table was filled. *)
Lemma new_sealed w k salt representative seed : let iv := oword0 salt in
  let c := aes_ctr_encrypt k (U 32 0) iv in
  let t := put (first_entries salt c (aes_ctr_encrypt (U 32 0) k iv) representative) seed_special (Wallet_value seed (U 8 0)) in
  ws_entries w = put (cleared t) deterministic_index_special (Wallet_value (U 32 0) (U 8 0)) →
  ws_password w ≠ [] → ws_wallet_key_mem w ≠ [] → fan_value (ws_wallet_key_mem w) = c → sealed w k (U 32 0).
Proof.
  intros iv c t Ht Hpw Hmem Hval.
  destruct (first_entries_at salt c (aes_ctr_encrypt (U 32 0) k iv) representative) as (Ever & Esalt & Ekey & Echk & _).
  assert (Hsp : ∀ y, y ∈ [version_special; salt_special; wallet_key_special; check_special] →
    wv_key (entry (ws_entries w) y) = wv_key (entry (first_entries salt c (aes_ctr_encrypt (U 32 0) k iv) representative) y)).
  { intros y Hy. rewrite Ht, put_special; [|by right; right; left|set_solver].
    rewrite cleared_special by set_solver. unfold t. by rewrite put_seed. }
  assert (Hsalt : salt_of (ws_entries w) = salt) by (unfold salt_of; rewrite Hsp by set_solver; by rewrite Esalt).
  constructor; [done|done| | | | |].
  - unfold iv_of. by rewrite Hsalt.
  - rewrite Hsp by set_solver. by rewrite Ekey.
  - unfold checked, iv_of. rewrite Hsalt, Hsp by set_solver. rewrite Echk. apply u_eqb_refl.
  - rewrite Hsp by set_solver. rewrite Ever. reflexivity.
  - intros y Hy. rewrite Ht. unfold cleared, t, first_entries, put. apply special_range in Hy. rewrite !lookup_insert.
    destruct (decide (deterministic_index_special = y)) as [|Hne]; [done|].
    match goal with |- is_Some (filter _ ?m !! y) => assert (Hm : ∃ v, m !! y = Some v) end.
    { unfold put. rewrite !lookup_insert. repeat (destruct (decide _); [by eexists|]).
      repeat (apply elem_of_cons in Hy as [->|Hy]; [done|]). by apply not_elem_of_nil in Hy. }
    destruct Hm as [v Hv]. exists v. apply map_lookup_filter_Some. split; [done|left]. simpl.
    repeat (apply elem_of_cons in Hy as [->|Hy]; [reflexivity|]). by apply not_elem_of_nil in Hy.
Qed.

(** Opening a key store on an empty table.  The wallet that is
    created is in order, unlocked by the zero key, has the representative given,
    version 3, the index 0 and no accounts. *)
Lemma new_wallet fuel fanout representative w : ws_entries w = ∅ → (6 < fuel)%nat →
  ∃ k w', open_wallet_store fuel fanout representative w = Done (tt, w') ∧ sealed w' k (U 32 0) ∧
    unlocked w' = true ∧ key_of w' = k ∧ wallet_accounts w' = Done ([], w') ∧
    wallet_representative w' = Done (representative, w') ∧ deterministic_index_get w' = Done (U 4 0, w').
Proof.
  intros He Hf. unfold open_wallet_store, make_fan.
  destruct (fan_entries_run (fanout - 1) (U 32 0) w) as (f1 & r1 & Hr1 & Hf1 & Hv1). rewrite (bind_done _ _ _ _ _ Hr1).
  set (w1 := set_password f1 (set_pool r1 w)). rewrite (bind_done _ _ _ tt w1) by done.
  destruct (fan_entries_run (fanout - 1) (U 32 0) w1) as (f2 & r2 & Hr2 & Hf2 & Hv2). rewrite (bind_done _ _ _ _ _ Hr2).
  set (w2 := set_wallet_key_mem f2 (set_pool r2 w1)). rewrite (bind_done _ _ _ tt w2) by done.
  rewrite (bind_done _ _ w2 None w2) by (unfold gets; simpl; by rewrite He).
  set (w3 := set_entries (put (ws_entries w2) version_special (Wallet_value (U 32 version_current) (U 8 0))) w2).
  destruct (generate_run w3) as (salt & r3 & Hr3).
  set (w4 := set_entries (put (ws_entries w3) salt_special (Wallet_value salt (U 8 0))) (set_pool r3 w3)).
  destruct (generate_run w4) as (k & r4 & Hr4).
  set (iv := oword0 salt). set (c := aes_ctr_encrypt k (U 32 0) iv).
  set (w5 := set_entries (first_entries salt c (aes_ctr_encrypt (U 32 0) k iv) representative)
    (set_wallet_key_mem (fan_value_set c f2) (set_password (fan_value_set (U 32 0) f1) (set_pool r4 w4)))).
  destruct (generate_run w5) as (seed & r5 & Hr5). set (w6 := set_pool r5 w5).
  assert (Hk5 : key_of w6 = k).
  { unfold key_of. simpl. rewrite !fan_value_set_value by done. unfold iv_of, salt_of.
    destruct (first_entries_at salt c (aes_ctr_encrypt (U 32 0) k iv) representative) as (_ & -> & _). apply aes_decrypt_encrypt. }
  set (t := put (ws_entries w6) seed_special (Wallet_value (aes_ctr_encrypt seed k (iv_of (ws_entries w6))) (U 8 0))).
  assert (Hr6 : seed_set fuel seed w6 = Done (tt, set_entries (cleared t) w6)).
  { apply (run_seed_set fuel seed w6 k); [|done]. simpl. rewrite first_entries_size. lia. }
  set (t' := put (cleared t) deterministic_index_special (Wallet_value (U 32 0) (U 8 0))).
  match goal with |- context [mbind _ ?m w2] => assert (Hb : m w2 = Done (tt, set_entries t' w6)) end.
  { rewrite (bind_done _ _ w2 tt w3) by done. rewrite (bind_done _ _ _ _ _ Hr3), (bind_done _ _ _ tt w4) by done.
    rewrite (bind_done _ _ _ _ _ Hr4). do 5 (erewrite bind_done; [|reflexivity]).
    rewrite (bind_done _ _ _ seed w6). 2: { etrans; [|exact Hr5]. f_equal. unfold w5, set_entries, set_wallet_key_mem, set_password. simpl. unfold first_entries, put. by rewrite He. }
    rewrite (bind_done _ _ _ _ _ Hr6). done. }
  rewrite (bind_done _ _ _ _ _ Hb).
  destruct (first_entries_at salt c (aes_ctr_encrypt (U 32 0) k iv) representative) as (_ & Esalt & Ekey & _ & Erep).
  assert (Hkey : wv_key (entry t' wallet_key_special) = c).
  { unfold t'. rewrite put_special; [|by right; right; left|set_solver]. rewrite cleared_special by set_solver.
    unfold t, put. rewrite entry_insert, decide_False by (by apply u_eqb_false). simpl. by rewrite Ekey. }
  set (w8 := set_wallet_key_mem (fan_value_set c (fan_value_set c f2)) (set_entries t' w6)).
  assert (Hs : sealed w8 k (U 32 0)).
  { eapply new_sealed; [simpl; reflexivity|by repeat apply fan_value_set_ne..|].
    simpl. rewrite fan_value_set_value by (by apply fan_value_set_ne). done. }
  assert (Hpw : fan_value (ws_password w8) = U 32 0) by (by apply fan_value_set_value).
  exists k, w8. split_and!; [|done|by eapply sealed_unlocked|by eapply sealed_key| | |].
  - unfold mbind, M_bind, entry_get_raw, gets, modify. simpl. fold (entry t' wallet_key_special). by rewrite Hkey.
  - change (wallet_accounts w8) with
      (Done (A := list u256 * wallet_store) (map fst (cursor hash_le (U 32 special_count) t'), w8)).
    assert (Hc : cursor hash_le (U 32 special_count) t' = []); [|by rewrite Hc].
    apply elem_of_nil_inv. intros [x v] [Hx Hle]%elem_of_cursor. change (uval (U 32 special_count)) with special_count in Hle.
    cut (uval x < special_count); [lia|]. revert Hx. unfold t', cleared, put.
    intros [[<- _]|[_ [[<- _]|[_ Hx]]%lookup_insert_Some]]%lookup_insert_Some; [done|done|].
    apply map_lookup_filter_Some in Hx as [Hx _]. unfold t, put in Hx. apply lookup_insert_Some in Hx as [[<- _]|[_ Hx]]; [done|].
    by apply first_entries_special in Hx.
  - change (wallet_representative w8) with (Done (A := u256 * wallet_store) (wv_key (entry t' representative_special), w8)).
    unfold t', cleared, put. rewrite entry_insert, decide_False by (by apply u_eqb_false).
    rewrite entry_insert, decide_False by (by apply u_eqb_false).
    unfold entry. assert (Hl : filter (survives special_count) t !! representative_special = Some (Wallet_value representative (U 8 0))).
    { apply map_lookup_filter_Some. split; [|by left]. unfold t, put. rewrite lookup_insert_ne by (by apply u_eqb_false).
      simpl. unfold first_entries, put. by rewrite lookup_insert_eq. }
    by rewrite Hl.
  - change (deterministic_index_get w8) with
      (Done (A := u32 * wallet_store) (U 4 (uval (wv_key (entry t' deterministic_index_special))), w8)).
    unfold t', put. rewrite entry_insert, decide_True by done. simpl. by rewrite uval_zero.
Qed.

(** ** Keys moved *)

(** In order and unlocked by its key. *)
Record open_at w k kp : Prop := {
  op_sealed : sealed w k kp;
  op_unlocked : unlocked w = true;
  op_key : key_of w = k;
}.

Lemma open_put w k kp x v : open_at w k kp → special_count ≤ uval x →
  open_at (set_entries (put (ws_entries w) x v) w) k kp.
Proof.
  intros [Hs Hu Hk] Hx. assert (Hh : harmless (ws_entries w) x v) by by left.
  assert (Hk' : key_of (set_entries (put (ws_entries w) x v) w) = k).
  { rewrite <-Hk. unfold key_of, iv_of. simpl. by rewrite put_salt. }
  constructor; [by apply put_sealed| |done]. unfold unlocked. rewrite Hk'. simpl. rewrite put_checked by done. apply Hs.
Qed.

Lemma delete_entry t x y : special_count ≤ uval x → uval y < special_count → entry (delete x t) y = entry t y.
Proof. intros Hx Hy. apply entry_delete. intros ->. lia. Qed.
Lemma delete_salt t x : special_count ≤ uval x → salt_of (delete x t) = salt_of t.
Proof. intros Hx. unfold salt_of. by rewrite delete_entry. Qed.
Lemma delete_opened t x k pub : special_count ≤ uval x → x ≠ pub → opened (delete x t) k pub = opened t k pub.
Proof. intros Hx Hne. apply opened_ext; [by rewrite entry_delete|by rewrite delete_entry|by apply delete_salt]. Qed.
Lemma open_delete w k kp x : open_at w k kp → special_count ≤ uval x →
  open_at (set_entries (delete x (ws_entries w)) w) k kp.
Proof.
  intros [[Hpw Hmem Hval Hsto Hchk Hver Hspec] Hu Hk] Hx. set (w' := set_entries _ w).
  assert (Hsalt : salt_of (ws_entries w') = salt_of (ws_entries w)) by (by apply delete_salt).
  assert (Hs' : sealed w' k kp).
  { constructor; try done.
    - unfold iv_of. by rewrite Hsalt.
    - simpl. by rewrite delete_entry.
    - unfold checked, iv_of. rewrite Hsalt. simpl. by rewrite delete_entry.
    - simpl. by rewrite delete_entry.
    - intros y Hy. simpl. rewrite lookup_delete_ne; [by apply Hspec|]. intros ->. lia. }
  assert (Hk' : key_of w' = k) by (rewrite <-Hk; unfold key_of, iv_of; by rewrite Hsalt).
  constructor; [done| |done]. unfold unlocked. rewrite Hk'. apply Hs'.
Qed.

Lemma move_stuck keys s : move_keys keys true s = Done (true, s).
Proof.
  revert s. induction keys as [|key keys IH]; intros [w1 w2]; [done|]. cbn [move_keys].
  assert (Hf : on_other (fetch key) (w1, w2) = Done (if unlocked w2 then opened (ws_entries w2) (key_of w2) key else None, (w1, w2))).
  { unfold on_other. simpl. by rewrite fetch_run. }
  rewrite (bind_done _ _ _ _ _ Hf). destruct (if unlocked w2 then _ else _); [|apply IH].
  rewrite (bind_done _ _ _ tt (w1, w2)) by done. apply IH.
Qed.

(** What moving one key does. *)
Lemma move_one w1 w2 k1 kp1 k2 kp2 key prv : open_at w1 k1 kp1 → open_at w2 k2 kp2 →
  opened (ws_entries w2) k2 key = Some prv → special_count ≤ uval key →
  let w1' := set_entries (put (ws_entries w1) key (Wallet_value (aes_ctr_encrypt prv k1 (iv_of (ws_entries w1))) (U 8 0))) w1 in
  let w2' := set_entries (delete key (ws_entries w2)) w2 in
  (on_this (insert_adhoc prv);; on_other (wallet_erase key)) (w1, w2) = Done (tt, (w1', w2')).
Proof.
  intros [Hs1 Hu1 Hk1] _ Ho Hp w1' w2'. pose proof (opened_publickey _ _ _ _ Ho) as Hpub.
  assert (Hi : insert_adhoc prv w1 = Done (key, w1')).
  { unfold insert_adhoc. rewrite (bind_done _ _ _ _ _ (valid_password_run w1)), Hu1. unfold w1'. rewrite <-Hpub, <-Hk1. reflexivity. }
  assert (He : wallet_erase key w2 = Done (tt, w2')).
  { unfold wallet_erase, mbind, M_bind, gets, assert_, modify. rewrite bool_decide_true; [done|].
    destruct (ws_entries w2 !! key) eqn:E; [done|]. by rewrite opened_none in Ho. }
  rewrite (bind_done _ _ _ key (w1', w2)) by (unfold on_this; simpl; by rewrite Hi). unfold on_other. simpl. by rewrite He.
Qed.

(** The first keys, [moved], went from the second wallet to the first. *)
Record moved_over w1 w2 k1 k2 (moved : list u256) w1' w2' : Prop := {
  mv_gone : ∀ key, key ∈ moved → ws_entries w2' !! key = None;
  mv_kept : ∀ key, key ∉ moved → ws_entries w2' !! key = ws_entries w2 !! key;
  mv_read : ∀ key, key ∈ moved → ∃ prv, fetch key w2 = Done (Some prv, w2) ∧ fetch key w1' = Done (Some prv, w1');
  mv_this : ∀ key, special_count ≤ uval key → key ∉ moved →
    opened (ws_entries w1') k1 key = opened (ws_entries w1) k1 key;
}.

Definition movable w1 w2 k1 k2 key : Prop := ∀ prv, opened (ws_entries w2) k2 key = Some prv →
  special_count ≤ uval key ∧ 2 ^ 64 ≤ uval (aes_ctr_encrypt prv k1 (iv_of (ws_entries w1))).

Lemma move_run keys w1 w2 k1 kp1 k2 kp2 : open_at w1 k1 kp1 → open_at w2 k2 kp2 →
  (∀ key, key ∈ keys → movable w1 w2 k1 k2 key) →
  ∃ moved rest w1' w2', keys = moved ++ rest ∧
    move_keys keys false (w1, w2) = Done (negb (bool_decide (rest = [])), (w1', w2')) ∧
    (∀ key rest', rest = key :: rest' → fetch key w2' = Done (None, w2')) ∧
    open_at w1' k1 kp1 ∧ open_at w2' k2 kp2 ∧ moved_over w1 w2 k1 k2 moved w1' w2'.
Proof.
  revert w1 w2. induction keys as [|key keys IH]; intros w1 w2 Hw1 Hw2 Hm.
  { exists [], [], w1, w2. split_and!; [done|done|done|done|done|]. constructor; [by intros key ?%elem_of_nil|done|by intros key ?%elem_of_nil|done]. }
  pose proof Hw2 as [_ Hu2 Hk2]. cbn [move_keys].
  assert (Hf : on_other (fetch key) (w1, w2) = Done (opened (ws_entries w2) k2 key, (w1, w2))).
  { unfold on_other. simpl. by rewrite fetch_run, Hu2, Hk2. }
  rewrite (bind_done _ _ _ _ _ Hf). destruct (opened (ws_entries w2) k2 key) as [prv|] eqn:Ho.
  2: { exists [], (key :: keys), w1, w2. rewrite move_stuck. split_and!; [done|done| |done|done|].
       - intros ? ? [= <- _]. by rewrite fetch_run, Hu2, Hk2, Ho.
       - constructor; [by intros ? ?%elem_of_nil|done|by intros ? ?%elem_of_nil|done]. }
  destruct (Hm key (ltac:(by left)) prv Ho) as [Hp Hc].
  rewrite (bind_done _ _ _ _ _ (move_one _ _ _ _ _ _ _ _ Hw1 Hw2 Ho Hp)).
  set (v := Wallet_value _ _). set (w1' := set_entries (put (ws_entries w1) key v) w1). set (w2' := set_entries (delete key (ws_entries w2)) w2).
  assert (Hw1' : open_at w1' k1 kp1) by by apply open_put.
  assert (Hw2' : open_at w2' k2 kp2) by by apply open_delete.
  destruct (IH w1' w2' Hw1' Hw2') as (moved & rest & w1'' & w2'' & -> & Hr & Hrest & Hw1'' & Hw2'' & [Hg Hke Hre Hth]).
  { intros x Hx prv' Ho'. assert (Hne : key ≠ x).
    { intros <-. rewrite opened_none in Ho'; [done|]. simpl. apply lookup_delete_eq. }
    simpl in Ho'. rewrite delete_opened in Ho' by done. destruct (Hm x (ltac:(by right)) prv' Ho') as [Hx1 Hx2]. split; [done|].
    unfold iv_of. simpl. by rewrite put_salt by (by left). }
  exists (key :: moved), rest, w1'', w2''. split_and!; [done|done|done|done|done|]. constructor.
  - intros x Hx. destruct (decide (x ∈ moved)) as [|Hni]; [by apply Hg|]. apply elem_of_cons in Hx as [->|]; [|done].
    rewrite Hke by done. apply lookup_delete_eq.
  - intros x [Hne Hni]%not_elem_of_cons. rewrite Hke by done. by apply lookup_delete_ne.
  - intros x Hx. destruct (decide (x ∈ moved)) as [Hin|Hni].
    + destruct (Hre x Hin) as (prv' & Hf2 & Hf1). exists prv'. split; [|done]. rewrite fetch_run in Hf2 |- *.
      rewrite (op_unlocked _ _ _ Hw2'), (op_key _ _ _ Hw2') in Hf2. rewrite Hu2, Hk2. simpl in Hf2.
      assert (Hne : key ≠ x).
      { intros <-. rewrite opened_none in Hf2; [done|]. apply lookup_delete_eq. }
      rewrite delete_opened in Hf2 by done. by injection Hf2 as ->.
    + apply elem_of_cons in Hx as [->|]; [|done]. exists prv. split; [by rewrite fetch_run, Hu2, Hk2, Ho|].
      rewrite fetch_run, (op_unlocked _ _ _ Hw1''), (op_key _ _ _ Hw1''), Hth by done.
      unfold w1', v. simpl. rewrite <-(opened_publickey _ _ _ _ Ho) at 1 2. rewrite opened_adhoc; [done|by rewrite (opened_publickey _ _ _ _ Ho)|done].
  - intros x Hx [Hne Hni]%not_elem_of_cons. rewrite Hth by done. simpl. apply put_opened; [by left|done].
Qed.

(** Moving keys from one wallet to another, both unlocked.  The
    keys are moved in order up to the first one that cannot be read in the other
    wallet, which is the error returned; each key moved is read in this wallet
    as it was in the other one, and is gone there; all other keys of both wallets
    stay as they are, and both stay unlocked. *)
Lemma move_exact keys w1 w2 k1 kp1 k2 kp2 : open_at w1 k1 kp1 → open_at w2 k2 kp2 →
  (∀ key, key ∈ keys → movable w1 w2 k1 k2 key) →
  ∃ moved rest w1' w2', keys = moved ++ rest ∧
    wallet_move keys (w1, w2) = Done (negb (bool_decide (rest = [])), (w1', w2')) ∧
    (∀ key rest', rest = key :: rest' → fetch key w2' = Done (None, w2')) ∧
    open_at w1' k1 kp1 ∧ open_at w2' k2 kp2 ∧ moved_over w1 w2 k1 k2 moved w1' w2'.
Proof.
  intros Hw1 Hw2 Hm. destruct (move_run keys w1 w2 k1 kp1 k2 kp2 Hw1 Hw2 Hm) as (moved & rest & w1' & w2' & E & Hr & Hrest & Hw).
  exists moved, rest, w1', w2'. split_and!; [done| |done|apply Hw..]. unfold wallet_move.
  assert (Hb : both_valid (w1, w2) = Done (tt, (w1, w2))).
  { unfold both_valid. rewrite (bind_done _ _ _ (unlocked w1) (w1, w2)) by done. rewrite (op_unlocked _ _ _ Hw1).
    rewrite (bind_done _ _ _ tt (w1, w2)) by done. rewrite (bind_done _ _ _ (unlocked w2) (w1, w2)) by done.
    by rewrite (op_unlocked _ _ _ Hw2). }
  by rewrite (bind_done _ _ _ _ _ Hb).
Qed.
End new_wallet.
