(* ===== verification/WalletRestore.v ===== *)
(** * Wallets restored from their backups *)

From stdpp Require Import strings.
From S2P Require Import Prelude Crypto Numbers Blocks BlockReaders Store Messages Node WalletStore StoreLemmas NumberProps.
From S2P Require Import BlockProps BootstrapServer BootstrapChains WalletProps WalletSeeds WalletStore.
From Stdlib Require Import Ascii.

Local Open Scope Z_scope.

(** The keys of a tree are in the order they were first put; a tree of plain
    texts is read as it was written. *)
Definition tree_of `{PropertyTree} (kvs : list (string * text)) : ptree :=
  foldl (λ tree kv, ptree_put (fst kv) (snd kv) tree) ptree_empty kvs.
Definition printable (c : Ascii.ascii) : bool := (0x20 <=? code c) && (code c <=? 0x7e).
Definition plain (kv : string * text) : Prop :=
  simple_key (fst kv) = true ∧ Forall (λ c, printable c = true) (lit (fst kv)) ∧ Forall (λ c, printable c = true) (snd kv).
Class WalletTreeSpec `{WalletTree, !PropertyTreeSpec} := {
  ptree_children_empty : ptree_children ptree_empty = [];
  ptree_children_put : ∀ k t tree, simple_key k = true → ptree_children (ptree_put k t tree) =
    if bool_decide (k ∈ ptree_children tree) then ptree_children tree else ptree_children tree ++ [k];
  read_write_json : ∀ kvs, kvs ≠ [] → Forall plain kvs → read_json (write_json (tree_of kvs)) = Some (tree_of kvs);
}.

Section trees.
Context `{NumberTextSpec, WalletTreeSpec}.

Lemma tree_of_snoc kvs kv : tree_of (kvs ++ [kv]) = ptree_put kv.1 kv.2 (tree_of kvs).
Proof. unfold tree_of. by rewrite foldl_snoc. Qed.
Lemma tree_of_children kvs : NoDup kvs.*1 → Forall plain kvs → ptree_children (tree_of kvs) = kvs.*1.
Proof.
  induction kvs as [|kv kvs IH] using rev_ind; [intros _ _; apply ptree_children_empty|].
  rewrite fmap_app, tree_of_snoc. intros (Hd & Hni & _)%NoDup_app [Hp [Hk _]%Forall_cons]%Forall_app.
  rewrite ptree_children_put by apply Hk. rewrite IH by done. rewrite bool_decide_false; [done|].
  intros Hin. destruct (Hni _ Hin). by left.
Qed.
Lemma tree_of_get kvs k t : NoDup kvs.*1 → Forall plain kvs → (k, t) ∈ kvs → ptree_get k (tree_of kvs) = Some t.
Proof.
  induction kvs as [|kv kvs IH] using rev_ind; [by intros _ _ ?%elem_of_nil|].
  rewrite fmap_app, tree_of_snoc. intros (Hd & Hni & _)%NoDup_app Hps [Hin|<-%list_elem_of_singleton]%elem_of_app.
  - pose proof Hps as [Hp [Hk _]%Forall_cons]%Forall_app.
    assert (Hks : plain (k, t)) by (rewrite Forall_forall in Hp; by apply Hp).
    rewrite ptree_get_put by (apply Hks || apply Hk). destruct (String.eqb_spec k kv.1) as [->|_]; [|by apply IH].
    destruct (Hni kv.1); [|by left]. by apply (list_elem_of_fmap_2 fst kvs (kv.1, t)).
  - apply Forall_app in Hps as [_ [Hk _]%Forall_cons]. simpl.
    rewrite ptree_get_put by apply Hk. by rewrite String.eqb_refl.
Qed.

(** ** Numbers as keys *)

Lemma lit_key (x : u256) : lit (key_string x) = encode_hex x.
Proof. apply String.list_ascii_of_string_of_list_ascii. Qed.
Lemma key_string_inj (x y : u256) : key_string x = key_string y → x = y.
Proof.
  intros E. apply (f_equal lit) in E. rewrite !lit_key in E. apply (f_equal decode_hex_256) in E.
  rewrite !decode_encode_hex_256 in E. by injection E.
Qed.
Lemma digit_plain d : 0 ≤ d < 16 → printable (text_digit d) = true ∧ Ascii.eqb "."%char (text_digit d) = false.
Proof.
  intros Hd. assert (Hb : forallb (λ i, printable (text_digit (Z.of_nat i)) && negb (Ascii.eqb "."%char (text_digit (Z.of_nat i)))) (seq 0 16) = true)
    by (vm_compute; reflexivity).
  rewrite forallb_forall in Hb. specialize (Hb (Z.to_nat d)). rewrite Z2Nat.id in Hb by lia.
  apply andb_true_iff in Hb as [? ?%negb_true_iff]; [done|]. apply in_seq. lia.
Qed.
Lemma plain_entry (x y : u256) : plain (key_string x, encode_hex y).
Proof.
  assert (Hpl : ∀ z : u256, Forall (λ c, printable c = true ∧ Ascii.eqb "."%char c = false) (encode_hex z)).
  { intros z. destruct (encode_hex_digits z) as (d & ds & -> & _ & Hb & _); [lia|]. apply Forall_map.
    unfold base_digits in Hb. eapply Forall_impl; [exact Hb|]. intros c Hc. by apply digit_plain. }
  unfold plain, simple_key. simpl. rewrite lit_key. pose proof (Hpl x) as Hx. pose proof (Hpl y) as Hy. split_and!.
  - apply negb_true_iff. destruct (existsb _ _) eqn:E; [|done]. apply existsb_exists in E as (c & Hin & Hc).
    rewrite Forall_forall in Hx. destruct (Hx c) as [_ Hn]; [by apply list_elem_of_In|]. congruence.
  - eapply Forall_impl; [exact Hx|]. by intros ? [? _].
  - eapply Forall_impl; [exact Hy|]. by intros ? [? _].
Qed.

(** The texts of the entries of a wallet. *)
Definition entry_text (p : u256 * wallet_value) : string * text := (key_string p.1, encode_hex (wv_key p.2)).
Lemma entry_text_keys l : (entry_text <$> l).*1 = key_string <$> l.*1.
Proof. by rewrite <-!list_fmap_compose. Qed.
Lemma entry_text_plain l : Forall plain (entry_text <$> l).
Proof. apply Forall_map, Forall_true. intros [x v]. apply plain_entry. Qed.
Lemma entry_text_nodup l : NoDup l.*1 → NoDup (entry_text <$> l).*1.
Proof. rewrite entry_text_keys. intros Hd. apply NoDup_fmap_2; [|done]. intros x y. apply key_string_inj. Qed.
Lemma put_entries l : foldl put_entry ptree_empty l = tree_of (entry_text <$> l).
Proof. unfold tree_of. by rewrite foldl_fmap. Qed.
End trees.

Section restore.
Context `{NodeConfig, RandomPool, AesCorrect, Argon2, Blake2b, Ed25519, NumberTextSpec, WalletTreeSpec}.
Implicit Types (w : wallet_store) (t : gmap u256 wallet_value) (k kp pub prv : u256).

(** ** What a backup keeps: all but the proofs of work *)

Definition wiped (v : wallet_value) : wallet_value := Wallet_value (wv_key v) (U 8 0).
Definition put_wiped t (p : u256 * wallet_value) : gmap u256 wallet_value := <[p.1 := wiped p.2]> t.

Lemma entry_wiped t x : entry (wiped <$> t) x = wiped (entry t x).
Proof. unfold entry. rewrite lookup_fmap. by destruct (t !! x). Qed.
Lemma salt_wiped t : salt_of (wiped <$> t) = salt_of t.
Proof. unfold salt_of. by rewrite entry_wiped. Qed.
Lemma opened_wiped t k pub : opened (wiped <$> t) k pub = opened t k pub.
Proof. apply opened_ext; [by rewrite entry_wiped..|apply salt_wiped]. Qed.

Lemma put_wiped_lookup l t x v : NoDup l.*1 →
  (foldl put_wiped t l) !! x = Some v ↔ (∃ u, (x, u) ∈ l ∧ v = wiped u) ∨ (¬ x ∈ l.*1 ∧ t !! x = Some v).
Proof.
  revert t. induction l as [|[y u] l IH]; intros t; simpl.
  { intros _. split; [intros Hx; right; split; [apply not_elem_of_nil|done]|].
    intros [(u & Hu & _)|[_ Hx]]; [by apply elem_of_nil in Hu|done]. }
  intros [Hy Hd]%NoDup_cons. rewrite IH by done. unfold put_wiped. simpl. split.
  - intros [(u' & Hu & ->)|[Hx [[<- <-]|[Hne Ht]]%lookup_insert_Some]].
    + left. exists u'. split; [by right|done].
    + left. exists u. split; [by left|done].
    + right. split; [|done]. apply not_elem_of_cons. by split.
  - intros [(u' & [[= -> ->]|Hu]%elem_of_cons & ->)|[[Hne Hx]%not_elem_of_cons Ht]].
    + right. split; [done|apply lookup_insert_eq].
    + left. eauto.
    + right. split; [done|]. by rewrite lookup_insert_ne.
Qed.
Lemma put_wiped_all t : foldl put_wiped ∅ (cursor hash_le (U 32 0) t) = wiped <$> t.
Proof.
  apply map_eq. intros x. apply option_eq. intros v. rewrite put_wiped_lookup by apply NoDup_cursor.
  rewrite lookup_fmap_Some. split.
  - intros [(u & [Hu _]%elem_of_cursor & ->)|[_ Hx]]; [by exists u|by rewrite lookup_empty in Hx].
  - intros (u & <- & Hu). left. exists u. split; [|done]. apply elem_of_cursor. split; [done|].
    rewrite uval_zero. apply uval_range.
Qed.

Lemma json_entries_run tree l init w :
  (∀ p, p ∈ l → ptree_get (key_string p.1) tree = Some (encode_hex (wv_key p.2))) →
  json_entries tree (key_string <$> l.*1) init w =
    Done (match l with [] => init | _ => false end, set_entries (foldl put_wiped (ws_entries w) l) w).
Proof.
  revert init w. induction l as [|[x v] l IH]; intros init w Hl; simpl; [by rewrite set_entries_id|].
  pose proof (Hl (x, v) (ltac:(by left))) as Hx. simpl in Hx. rewrite lit_key, decode_encode_hex_256, Hx, decode_encode_hex_256.
  erewrite bind_done; [|reflexivity]. rewrite IH by (intros p Hp; apply Hl; by right). by destruct l.
Qed.

Lemma serialize_run w : serialize_json w =
  Done (write_json (tree_of (entry_text <$> cursor hash_le (U 32 0) (ws_entries w))), w).
Proof. unfold serialize_json, mbind, M_bind, wallet_begin_at, gets. by rewrite put_entries. Qed.

(** A wallet sealed stays so without its proofs of work. *)
Lemma sealed_wiped w w' k kp : sealed w k kp → ws_entries w' = wiped <$> ws_entries w → ws_password w' ≠ [] →
  ws_wallet_key_mem w' ≠ [] → fan_value (ws_wallet_key_mem w') = wv_key (entry (ws_entries w) wallet_key_special) →
  sealed w' k kp.
Proof.
  intros [_ _ Hval Hsto Hchk Hver Hspec] He Hpw Hmem Hm. constructor; [done|done|..]; rewrite ?He.
  - unfold iv_of. by rewrite salt_wiped, Hm, Hsto, Hval.
  - by rewrite entry_wiped, Hm.
  - unfold checked, iv_of. by rewrite entry_wiped, salt_wiped.
  - by rewrite entry_wiped.
  - intros x Hx. rewrite lookup_fmap. destruct (Hspec x Hx) as [v ->]. by eexists.
Qed.

Lemma not_found_wiped w w' k kp x : sealed w k kp → ws_entries w' = wiped <$> ws_entries w → uval x < special_count →
  not_found x w' = Done (false, w').
Proof.
  intros Hs He Hx. unfold not_found, gets. rewrite He, lookup_fmap. destruct (se_special _ _ _ Hs x Hx) as [v ->].
  by rewrite bool_decide_false.
Qed.

(** The backup of a wallet in order, opened. *)
Lemma backup_run w k kp fanout blank : sealed w k kp → ws_entries blank = ∅ →
  ∃ json w', serialize_json w = Done (json, w) ∧ open_wallet_json fanout json blank = Done (false, w') ∧
    ws_entries w' = wiped <$> ws_entries w ∧ sealed w' k kp ∧ fan_value (ws_password w') = U 32 0.
Proof.
  intros Hs Hb. set (l := cursor hash_le (U 32 0) (ws_entries w)).
  assert (Hl : l ≠ []).
  { destruct (se_special _ _ _ Hs version_special) as [v Hv]; [done|]. intros El.
    destruct (not_elem_of_nil (version_special, v)). rewrite <-El. apply elem_of_cursor. done. }
  assert (Hd : NoDup l.*1) by apply NoDup_cursor.
  eexists. unfold open_wallet_json, make_fan.
  destruct (fan_entries_run (fanout - 1) (U 32 0) blank) as (f1 & r1 & Hr1 & Hf1 & _).
  set (w1 := set_password f1 (set_pool r1 blank)).
  destruct (fan_entries_run (fanout - 1) (U 32 0) w1) as (f2 & r2 & Hr2 & Hf2 & _).
  set (w2 := set_wallet_key_mem f2 (set_pool r2 w1)).
  assert (He : foldl put_wiped (ws_entries w2) l = wiped <$> ws_entries w) by (simpl; rewrite Hb; apply put_wiped_all).
  set (w3 := set_entries (wiped <$> ws_entries w) w2).
  set (c := wv_key (entry (ws_entries w) wallet_key_special)).
  set (w4 := set_wallet_key_mem (fan_value_set c f2) (set_password (fan_value_set (U 32 0) f1) w3)).
  exists w4. split; [apply serialize_run|]. split_and!; [|done| |by apply fan_value_set_value].
  - rewrite (bind_done _ _ _ _ _ Hr1), (bind_done _ _ _ tt w1) by done.
    rewrite (bind_done _ _ _ _ _ Hr2), (bind_done _ _ _ tt w2) by done.
    rewrite (bind_done _ _ _ true w2) by (unfold not_found, gets; simpl; by rewrite Hb, lookup_empty).
    rewrite (bind_done _ _ _ tt w2) by done.
    rewrite read_write_json; [|by intros ?%fmap_nil_inv|apply entry_text_plain]. cbn beta iota.
    rewrite tree_of_children, entry_text_keys by (apply entry_text_plain || by apply entry_text_nodup).
    erewrite bind_done; [|apply json_entries_run].
    2: { intros p Hp. apply tree_of_get; [by apply entry_text_nodup|apply entry_text_plain|].
         by apply (list_elem_of_fmap_2 entry_text). }
    fold l. rewrite He. destruct l eqn:El; [done|]. fold w3.
    do 5 (rewrite (bind_done _ _ w3 false w3) by (by eapply not_found_wiped)).
    unfold mbind, M_bind, modify, entry_get_raw, gets. simpl. fold (entry (wiped <$> ws_entries w) wallet_key_special).
    by rewrite entry_wiped.
  - eapply sealed_wiped; [exact Hs|done|by apply fan_value_set_ne..|]. by apply fan_value_set_value.
Qed.

(** A backup holds all keys.  The text a wallet in order is
    written to opens, in an empty table, a wallet with the same accounts; tried
    with the password of the first one, it reads the same private key under
    every account, or none where there was none. *)
Lemma backup_restores fuel fanout password w k kp blank : sealed w k kp →
  argon2_hash kdf_work password (write_be (salt_of (ws_entries w))) = Some kp → ws_entries blank = ∅ →
  ∃ json w1 w2, serialize_json w = Done (json, w) ∧ open_wallet_json fanout json blank = Done (false, w1) ∧
    attempt_password fuel password w1 = Done (false, w2) ∧
    (∀ x, is_Some (ws_entries w2 !! x) ↔ is_Some (ws_entries w !! x)) ∧
    ∀ pub, fetch pub w2 = Done (opened (ws_entries w) k pub, w2).
Proof.
  intros Hs Hk Hb. destruct (backup_run w k kp fanout blank Hs Hb) as (json & w1 & Hj & Ho & He & Hs1 & _).
  destruct (attempt_unlocks fuel w1 k kp password Hs1) as (w2 & Ha & E & Hu & Hk2 & _); [by rewrite He, salt_wiped|].
  exists json, w1, w2. split_and!; [done..| |].
  - intros x. rewrite E. simpl. by rewrite He, lookup_fmap, fmap_is_Some.
  - intros pub. rewrite fetch_run, Hu, Hk2, E. simpl. by rewrite He, opened_wiped.
Qed.

(** ** Backups imported *)

Lemma open_pool r w k kp : open_at w k kp → open_at (set_pool r w) k kp.
Proof. intros [[] Hu Hk]. by repeat constructor. Qed.

Definition accounts_of t : list u256 := (cursor hash_le (U 32 special_count) t).*1.
Lemma sorted_wiped (i : list (u256 * wallet_value)) :
  StronglySorted key_lt i → StronglySorted key_lt (prod_map id wiped <$> i).
Proof.
  induction i as [|p i IH]; rewrite ?fmap_nil, ?fmap_cons; [constructor|]. intros [Hs Hp]%StronglySorted_inv.
  constructor; [by apply IH|]. by apply Forall_fmap.
Qed.
Lemma cursor_wiped a t : (cursor hash_le a (wiped <$> t)).*1 = (cursor hash_le a t).*1.
Proof.
  assert (E : cursor hash_le a (wiped <$> t) = prod_map id wiped <$> cursor hash_le a t).
  { apply (entries_from_unique (uval a) (wiped <$> t)); [apply entries_from_cursor|]. split.
    - apply sorted_wiped, cursor_sorted.
    - intros [x v]. rewrite list_elem_of_fmap. simpl. rewrite lookup_fmap_Some. split.
      + intros ([y u] & [= -> ->] & [Hy Hle]%elem_of_cursor). split; [by exists u|done].
      + intros [(u & <- & Hu) Hle]. exists (x, u). split; [done|]. by apply elem_of_cursor. }
  rewrite E, <-list_fmap_compose. by apply list_fmap_ext.
Qed.

Lemma accounts_of_special t x : x ∈ accounts_of t → special_count ≤ uval x.
Proof. intros ([y v] & -> & [_ Hy]%elem_of_cursor)%list_elem_of_fmap. done. Qed.

(** C31: importing the backup of a wallet into an unlocked one.
    The accounts of the backup are taken in order up to the first that cannot be
    read, which is the error returned; each of them is read in this wallet with
    the private key of the backup; the wallet stays unlocked and all its other
    accounts keep their keys. *)
Theorem import_restores fuel password w k kp this k1 kp1 : sealed w k kp →
  argon2_hash kdf_work password (write_be (salt_of (ws_entries w))) = Some kp → open_at this k1 kp1 →
  (∀ key, key ∈ accounts_of (ws_entries w) → movable this w k1 k key) →
  ∃ json moved rest this', serialize_json w = Done (json, w) ∧ accounts_of (ws_entries w) = moved ++ rest ∧
    import_backup fuel json password this = Done (negb (bool_decide (rest = [])), this') ∧
    (∀ key rest', rest = key :: rest' → opened (ws_entries w) k key = None) ∧ open_at this' k1 kp1 ∧
    (∀ key, key ∈ moved → ∃ prv, opened (ws_entries w) k key = Some prv ∧ fetch key this' = Done (Some prv, this')) ∧
    ∀ key, special_count ≤ uval key → key ∉ moved →
      ∃ r, fetch key this = Done (r, this) ∧ fetch key this' = Done (r, this').
Proof.
  intros Hs Hk Ht Hm. destruct (generate_run this) as (id & r & Hr). set (this1 := set_pool r this).
  set (blank := Wallet_store _ ∅ [] [] r).
  destruct (backup_run w k kp 1 blank Hs eq_refl) as (json & w1 & Hj & Ho & He & Hs1 & _).
  destruct (attempt_unlocks fuel w1 k kp password Hs1) as (w2 & Ha & E & Hu & Hk2 & Hs2); [by rewrite He, salt_wiped|].
  assert (He2 : ws_entries w2 = wiped <$> ws_entries w) by (by rewrite E).
  set (this2 := set_pool (ws_random_pool w2) this1).
  assert (Ht2 : open_at this2 k1 kp1) by (by repeat apply open_pool).
  assert (Hw2 : open_at w2 k kp) by (by constructor).
  destruct (move_run (accounts_of (ws_entries w)) this2 w2 k1 kp1 k kp Ht2 Hw2)
    as (moved & rest & this' & w3 & Hall & Hrun & Hrest & Ht' & Hw3 & [_ Hke Hre Hth]).
  { intros key Hin prv. rewrite He2, opened_wiped. apply Hm, Hin. }
  exists json, moved, rest, this'. split_and!; [done|done| | |done| |].
  - unfold import_backup. rewrite (bind_done _ _ _ _ _ Hr), (bind_done _ _ this1 r this1) by done.
    fold blank. rewrite Ho. cbn iota. rewrite Ha. rewrite (bind_done _ _ this1 tt this2) by done. cbn iota.
    unfold wallet_import. rewrite (bind_done _ _ _ tt (this2, w2)).
    2: { unfold both_valid. rewrite (bind_done _ _ _ (unlocked this2) (this2, w2)) by done. rewrite (op_unlocked _ _ _ Ht2).
         rewrite (bind_done _ _ _ tt (this2, w2)) by done. rewrite (bind_done _ _ _ (unlocked w2) (this2, w2)) by done.
         by rewrite Hu. }
    rewrite (bind_done _ _ _ (accounts_of (ws_entries w)) (this2, w2)).
    2: { unfold on_other, wallet_accounts. simpl. unfold mbind, M_bind, wallet_begin, wallet_begin_at, gets. simpl.
         change (map fst ?l) with (l.*1). by rewrite He2, cursor_wiped. }
    by rewrite Hrun.
  - intros key rest' E'. pose proof (Hrest key rest' E') as Hf. rewrite fetch_run, (op_unlocked _ _ _ Hw3), (op_key _ _ _ Hw3) in Hf.
    injection Hf as Hf. rewrite <-Hf, <-opened_wiped, <-He2. symmetry.
    assert (Hni : key ∉ moved).
    { assert (Hd : NoDup (accounts_of (ws_entries w))) by apply NoDup_cursor.
      rewrite Hall, E' in Hd. apply NoDup_app in Hd as (_ & Hd & _). intros Hin. destruct (Hd key Hin). by left. }
    assert (Hsp : ∀ y, uval y < special_count → y ∉ moved).
    { intros y Hy Hin. assert (Hacc : y ∈ accounts_of (ws_entries w)) by (rewrite Hall; apply elem_of_app; by left).
      apply accounts_of_special in Hacc. lia. }
    unfold salt_of. apply opened_ext; unfold salt_of, entry; rewrite Hke by (done || by apply Hsp); done.
  - intros key Hin. destruct (Hre key Hin) as (prv & Hf & Hf'). exists prv. split; [|done].
    rewrite fetch_run, Hu, Hk2, He2, opened_wiped in Hf. by injection Hf.
  - intros key Hp Hni. eexists. split; [apply fetch_run|]. rewrite fetch_run.
    rewrite (op_unlocked _ _ _ Ht'), (op_key _ _ _ Ht'), (op_unlocked _ _ _ Ht), (op_key _ _ _ Ht). by rewrite Hth.
Qed.
End restore.
