(* ===== verification/WorkPool.v ===== *)
(** * The work pool (class work_pool of lib/work.cpp, xorshift.hpp)

    Threads search for proofs of work.  Requests wait in a list; every thread
    searches for the one in front until a thread finds a proof, which it shows
    to the others by a new ticket.  A request can be cancelled.

    A step is what a thread or a caller does under the lock, or 256 attempts of
    a thread.  The callbacks are numbered in the order of the requests; their
    calls are recorded.  The graphics card is an interface. *)

From S2P Require Import Prelude Crypto Messages Node.

(** A search on a graphics card that may be there; [None] is no result. *)
Class OpenCL := { opencl : u256 → option u64 }.

(** ** Random numbers for attempts *)

Record xorshift1024star : Set := Xorshift { xs_s : list u64; xs_p : nat }.
Definition xorshift_next (x : xorshift1024star) : u64 * xorshift1024star :=
  let p_l := xs_p x in
  let pn := Nat.land (p_l + 1) 15 in
  let s0 := nth p_l (xs_s x) (U 8 0) in
  let s1 := nth pn (xs_s x) (U 8 0) in
  let s1 := u_xor s1 (U 8 (Z.shiftl (uval s1) 31)) in
  let s1 := u_xor s1 (U 8 (Z.shiftr (uval s1) 11)) in
  let s0 := u_xor s0 (U 8 (Z.shiftr (uval s0) 30)) in
  let v := u_xor s0 s1 in
  (U 8 (uval v * 1181783497276652981), Xorshift (<[pn := v]> (xs_s x)) pn).

(** ** The pool *)

(** The local variables of a thread that searches. *)
Record work_search : Set := Work_search {
  ws_root : u256;
  ws_callback : nat;
  ws_ticket : Z;
  ws_work : u64;
  ws_output : u64;
}.
Record worker : Set := Worker { wk_rng : xorshift1024star; wk_search : option work_search }.

Record work_pool : Set := Work_pool {
  wp_ticket : Z;
  wp_done : bool;
  wp_pending : list (u256 * nat);
  wp_threads : list worker;
  wp_requests : list u256;
  wp_calls : list (nat * option u64);
}.

Section pool.
Context `{NodeConfig, OpenCL, Blake2b}.
Abbreviation P := work_pool.

Definition set_ticket (t : Z) (p : P) : P :=
  Work_pool t (wp_done p) (wp_pending p) (wp_threads p) (wp_requests p) (wp_calls p).
Definition set_done (d : bool) (p : P) : P :=
  Work_pool (wp_ticket p) d (wp_pending p) (wp_threads p) (wp_requests p) (wp_calls p).
Definition set_pending (l : list (u256 * nat)) (p : P) : P :=
  Work_pool (wp_ticket p) (wp_done p) l (wp_threads p) (wp_requests p) (wp_calls p).
Definition set_worker (i : nat) (w : worker) (p : P) : P :=
  Work_pool (wp_ticket p) (wp_done p) (wp_pending p) (<[i := w]> (wp_threads p)) (wp_requests p) (wp_calls p).
Definition set_requests (l : list u256) (p : P) : P :=
  Work_pool (wp_ticket p) (wp_done p) (wp_pending p) (wp_threads p) l (wp_calls p).
Definition add_calls (l : list (nat * option u64)) (p : P) : P :=
  Work_pool (wp_ticket p) (wp_done p) (wp_pending p) (wp_threads p) (wp_requests p) (wp_calls p ++ l).

(** The ticket is an [int]. *)
Definition ticket_eqb (a b : Z) : bool := (a - b) mod 2 ^ 32 =? 0.
Definition enough (output : u64) : bool := u_leb (publish_threshold badem_network) output.

(** ** Callers *)

Definition pool_generate (root : u256) : M P unit :=
  assert_ (negb (is_zero root));;
  requests ← gets wp_requests;
  let callback := length requests in
  modify (set_requests (requests ++ [root]));;
  match opencl root with
  | None => modify (λ p, set_pending (wp_pending p ++ [(root, callback)]) p)
  | Some work => modify (add_calls [(callback, Some work)])
  end.

Definition for_root (root : u256) (item : u256 * nat) : bool := u_eqb (fst item) root.
Definition pool_cancel (root : u256) : M P unit :=
  pending ← gets wp_pending;
  (match pending with
   | item :: _ => if for_root root item then modify (λ p, set_ticket (wp_ticket p + 1) p) else mret tt
   | [] => mret tt
   end);;
  modify (add_calls (map (λ item, (snd item, None)) (List.filter (for_root root) pending)));;
  modify (set_pending (List.filter (λ item, negb (for_root root item)) pending)).

Definition pool_stop : M P unit := modify (set_done true).

(** ** Threads *)

Definition get_worker (i : nat) : M P worker := λ p,
  match wp_threads p !! i with Some w => Done (w, p) | None => Fault assertion_failed end.

(** A thread without a search takes the request in front, or waits. *)
Definition thread_take (i : nat) : M P unit :=
  w ← get_worker i;
  pending ← gets wp_pending;
  ticket ← gets wp_ticket;
  match wk_search w, pending with
  | None, (root, callback) :: _ =>
      modify (set_worker i (Worker (wk_rng w) (Some (Work_search root callback ticket (U 8 0) (U 8 0)))))
  | _, _ => mret tt
  end.

Fixpoint attempts (iteration : nat) (root : u256) (rng : xorshift1024star) (work output : u64)
    : xorshift1024star * u64 * u64 :=
  match iteration with
  | O => (rng, work, output)
  | Datatypes.S iteration =>
      if enough output then (rng, work, output)
      else let '(work, rng) := xorshift_next rng in attempts iteration root rng work (work_value root work)
  end.
Definition continues (ticket : Z) (s : work_search) : bool := ticket_eqb ticket (ws_ticket s) && negb (enough (ws_output s)).
(** One round of the loop of attempts, if the thread stays in it. *)
Definition thread_batch (i : nat) : M P unit :=
  w ← get_worker i;
  ticket ← gets wp_ticket;
  match wk_search w with
  | Some s =>
      if continues ticket s then
        let '(rng, work, output) := attempts 256 (ws_root s) (wk_rng w) (ws_work s) (ws_output s) in
        modify (set_worker i (Worker rng (Some (Work_search (ws_root s) (ws_callback s) (ws_ticket s) work output))))
      else mret tt
  | None => mret tt
  end.

(** What a thread does when it has left that loop. *)
Definition thread_finish (i : nat) : M P unit :=
  w ← get_worker i;
  ticket ← gets wp_ticket;
  match wk_search w with
  | Some s =>
      if continues ticket s then mret tt
      else
        (if ticket_eqb ticket (ws_ticket s) then
           assert_ (enough (ws_output s));;
           assert_ (u_eqb (work_value (ws_root s) (ws_work s)) (ws_output s));;
           modify (set_ticket (ticket + 1));;
           pending ← gets wp_pending;
           match pending with
           | _ :: pending => modify (set_pending pending);; modify (add_calls [(ws_callback s, Some (ws_work s))])
           | [] => abort
           end
         else mret tt);;
        modify (set_worker i (Worker (wk_rng w) None))
  | None => mret tt
  end.
End pool.

(** ** The steps, in any order *)

Inductive pool_event : Set :=
| Generate (root : u256) | Cancel (root : u256) | Stop | Take (i : nat) | Batch (i : nat) | Finish (i : nat).

Section steps.
Context `{NodeConfig, OpenCL, Blake2b}.
Implicit Types (p : work_pool) (root : u256) (w : u64) (s : work_search).

Definition pool_step (ev : pool_event) : M work_pool unit :=
  match ev with
  | Generate root => pool_generate root
  | Cancel root => pool_cancel root
  | Stop => pool_stop
  | Take i => thread_take i
  | Batch i => thread_batch i
  | Finish i => thread_finish i
  end.
(** A root is not zero; there is such a thread. *)
Definition event_ok p (ev : pool_event) : Prop :=
  match ev with
  | Generate root => root ≠ U 32 0
  | Cancel _ | Stop => True
  | Take i | Batch i | Finish i => (i < length (wp_threads p))%nat
  end.

Definition new_pool (seeds : list xorshift1024star) : work_pool :=
  Work_pool 0 false [] (map (λ r, Worker r None) seeds) [] [].
(** As long as there were fewer than 2^32 tickets. *)
Inductive pool_run (seeds : list xorshift1024star) : list pool_event → work_pool → Prop :=
| pool_start : pool_run seeds [] (new_pool seeds)
| pool_next evs p ev p' : pool_run seeds evs p → wp_ticket p < 2 ^ 32 → event_ok p ev → pool_step ev p = Done (tt, p') →
    pool_run seeds (evs ++ [ev]) p'.

(** What the card finds is a proof of work. *)
Definition card_correct : Prop :=
  ∀ root w, opencl root = Some w → work_validate badem_network root w = false.

(** ** The invariant *)

Definition proves p (id : nat) w : Prop :=
  ∃ root, wp_requests p !! id = Some root ∧ work_validate badem_network root w = false.

(** A search under the ticket of the pool is for the request in front. *)
Record search_ok p s : Prop := {
  so_ticket : 0 ≤ ws_ticket s ≤ wp_ticket p;
  so_front : ws_ticket s = wp_ticket p → ∃ rest, wp_pending p = (ws_root s, ws_callback s) :: rest;
  so_output : ws_output s = U 8 0 ∨ ws_output s = work_value (ws_root s) (ws_work s);
}.
Record pool_ok p : Prop := {
  po_ids : (wp_pending p).*2 ++ (wp_calls p).*1 ≡ₚ seq 0 (length (wp_requests p));
  po_roots : ∀ root id, (root, id) ∈ wp_pending p → wp_requests p !! id = Some root;
  po_calls : ∀ id w, (id, Some w) ∈ wp_calls p → proves p id w;
  po_ticket : 0 ≤ wp_ticket p;
  po_threads : ∀ i k s, wp_threads p !! i = Some k → wk_search k = Some s → search_ok p s;
}.

Lemma ticket_eqb_spec a b : 0 ≤ b ≤ a → a < 2 ^ 32 → ticket_eqb a b = true ↔ a = b.
Proof. intros Hb Ha. unfold ticket_eqb. rewrite Z.eqb_eq, Z.mod_small by lia. lia. Qed.
Lemma enough_zero : enough (U 8 0) = false.
Proof. unfold enough, publish_threshold. by destruct badem_network. Qed.
Lemma enough_valid root w : enough (work_value root w) = true → work_validate badem_network root w = false.
Proof.
  unfold enough, work_validate. destruct (u_leb_spec (publish_threshold badem_network) (work_value root w)); [|done].
  intros _. destruct (u_ltb_spec (work_value root w) (publish_threshold badem_network)); [lia|done].
Qed.

Lemma attempts_output n root rng w o rng' w' o' : attempts n root rng w o = (rng', w', o') →
  (o = U 8 0 ∨ o = work_value root w) → o' = U 8 0 ∨ o' = work_value root w'.
Proof.
  revert rng w o. induction n as [|n IH]; intros rng w o; cbn [attempts]; [by intros [= <- <- <-]|].
  destruct (enough o); [by intros [= <- <- <-]|]. destruct (xorshift_next rng) as [w1 r1]. intros Ha _.
  eapply IH; [exact Ha|by right].
Qed.

Lemma set_worker_ok i k p : pool_ok p → (∀ s, wk_search k = Some s → search_ok p s) → pool_ok (set_worker i k p).
Proof.
  intros [] Hk. constructor; [done..|]. intros j k' s Hj Hs. simpl in Hj.
  assert (Hso : search_ok p s).
  { destruct (decide (i = j)) as [<-|Hne].
    - apply list_lookup_insert_Some in Hj as [(_ & <- & _)|[? _]]; [by apply Hk|done].
    - rewrite list_lookup_insert_ne in Hj by done. by eapply po_threads0. }
  by destruct Hso.
Qed.

Lemma generate_keeps root p : card_correct → pool_ok p → root ≠ U 32 0 →
  ∃ p', pool_generate root p = Done (tt, p') ∧ pool_ok p' ∧ wp_threads p' = wp_threads p ∧ wp_ticket p ≤ wp_ticket p'.
Proof.
  intros Hc [Hids Hroots Hcalls Ht Hth] Hz. unfold pool_generate, mbind, M_bind, assert_, gets, modify.
  rewrite (proj2 (is_zero_false _) Hz). simpl.
  assert (Hnew : (wp_requests p ++ [root]) !! length (wp_requests p) = Some root) by (by apply list_lookup_middle).
  assert (Hold : ∀ id r, wp_requests p !! id = Some r → (wp_requests p ++ [root]) !! id = Some r)
    by (intros id r Hid; by apply lookup_app_l_Some).
  assert (Hpr : ∀ id w, proves p id w → proves (set_requests (wp_requests p ++ [root]) p) id w)
    by (intros id w (r & Hr & Hv); exists r; split; [by apply Hold|done]).
  destruct (opencl root) as [w|] eqn:Ew; eexists; (split; [reflexivity|split; [|by split; [|simpl; lia]]]).
  - constructor; simpl; [| |intros id w' [Hin|Hin%list_elem_of_singleton]%elem_of_app|done|].
    + rewrite fmap_app, app_assoc, Hids, length_app, seq_app. done.
    + intros r id Hin. apply Hold. by apply Hroots.
    + by apply Hpr, Hcalls.
    + injection Hin as -> ->. exists root. split; [done|by apply Hc].
    + intros i k s Hi Hs. by destruct (Hth i k s Hi Hs).
  - constructor; simpl; [| | |done|].
    + rewrite fmap_app, length_app, seq_app, <-Hids. simpl. solve_Permutation.
    + intros r id [Hin|[= -> ->]%list_elem_of_singleton]%elem_of_app; [by apply Hold, Hroots|done].
    + intros id w Hin. by apply Hpr, Hcalls.
    + intros i k s Hi Hs. destruct (Hth i k s Hi Hs) as [Hst Hf Ho]. constructor; simpl; [done| |done].
      intros E. destruct (Hf E) as [rest ->]. by eexists.
Qed.

Lemma filter_split {A} (f : A → bool) l : l ≡ₚ List.filter (λ x, negb (f x)) l ++ List.filter f l.
Proof.
  induction l as [|x l IH]; simpl; [done|]. destruct (f x); simpl; [|by constructor].
  etrans; [|apply Permutation_middle]. by constructor.
Qed.
Lemma cancel_keeps root p : pool_ok p →
  ∃ p', pool_cancel root p = Done (tt, p') ∧ pool_ok p' ∧ wp_threads p' = wp_threads p ∧ wp_ticket p ≤ wp_ticket p'.
Proof.
  intros [Hids Hroots Hcalls Ht Hth]. unfold pool_cancel.
  set (t := match wp_pending p with item :: _ => if for_root root item then wp_ticket p + 1 else wp_ticket p | [] => wp_ticket p end).
  set (kept_ := List.filter (λ item, negb (for_root root item)) (wp_pending p)).
  set (gone := List.filter (for_root root) (wp_pending p)).
  exists (set_pending kept_ (add_calls (map (λ item, (snd item, None)) gone) (set_ticket t p))).
  assert (Ht' : wp_ticket p ≤ t) by (unfold t; destruct (wp_pending p) as [|item l]; [lia|destruct (for_root _ _); lia]).
  split_and!; [|constructor; simpl|done|done].
  - unfold mbind, M_bind, gets, modify, mret, M_ret, t, kept_, gone.
    destruct (wp_pending p) as [|item l]; [by destruct p|]. destruct (for_root root item); by destruct p.
  - assert (Hp : wp_pending p ≡ₚ kept_ ++ gone) by apply filter_split.
    rewrite <-Hids, Hp, !fmap_app. change (map ?f gone) with (f <$> gone). rewrite <-list_fmap_compose. simpl.
    change ((λ x : u256 * nat, (fst ∘ λ item : u256 * nat, (item.2, @None u64)) x) <$> gone) with (gone.*2). solve_Permutation.
  - intros r id Hin. apply Hroots. unfold kept_ in Hin. apply list_elem_of_In, filter_In in Hin as [Hin _]. by apply list_elem_of_In.
  - intros id w [Hin|Hin]%elem_of_app; [by apply Hcalls|]. by apply list_elem_of_fmap in Hin as (? & ? & _).
  - lia.
  - intros i k s Hi Hs. destruct (Hth i k s Hi Hs) as [Hst Hf Ho]. constructor; simpl; [lia| |done].
    intros E. assert (Et : ws_ticket s = wp_ticket p) by lia. destruct (Hf Et) as [rest Ep].
    unfold kept_, t in *. rewrite Ep in *. unfold for_root in *. simpl in *.
    destruct (u_eqb (ws_root s) root); [lia|]. simpl. by eexists.
Qed.

(** What a step of a thread keeps. *)
Definition kept_by (m : M work_pool unit) p : Prop := ∃ p', m p = Done (tt, p') ∧ pool_ok p' ∧
  length (wp_threads p') = length (wp_threads p) ∧ wp_ticket p ≤ wp_ticket p'.
Lemma kept_by_same (m : M work_pool unit) p : pool_ok p → m p = Done (tt, p) → kept_by m p.
Proof. intros Hp Hm. exists p. by split_and!. Qed.
Lemma worker_run i k p : wp_threads p !! i = Some k → get_worker i p = Done (k, p).
Proof. intros Hk. unfold get_worker. by rewrite Hk. Qed.
Lemma set_worker_length i k p : length (wp_threads (set_worker i k p)) = length (wp_threads p).
Proof. apply length_insert. Qed.

Lemma take_keeps i k p : pool_ok p → wp_threads p !! i = Some k → kept_by (thread_take i) p.
Proof.
  intros Hp Hk.
  assert (Hr : thread_take i p = match wk_search k, wp_pending p with
    | None, (root, callback) :: _ =>
        Done (tt, set_worker i (Worker (wk_rng k) (Some (Work_search root callback (wp_ticket p) (U 8 0) (U 8 0)))) p)
    | _, _ => Done (tt, p) end).
  { unfold thread_take. rewrite (bind_done _ _ _ _ _ (worker_run i k p Hk)). unfold mbind, M_bind, gets, modify, mret, M_ret.
    destruct (wk_search k); [done|]. by destruct (wp_pending p) as [|[root callback] l]. }
  destruct (wk_search k); [by apply kept_by_same|]. destruct (wp_pending p) as [|[root callback] l] eqn:Ep; [by apply kept_by_same|].
  eexists. split; [exact Hr|]. split; [|split; [apply set_worker_length|done]].
  apply set_worker_ok; [done|]. intros s [= <-]. pose proof (po_ticket _ Hp). constructor; simpl; [lia|by exists l|by left].
Qed.

Lemma batch_keeps i k p : pool_ok p → wp_threads p !! i = Some k → kept_by (thread_batch i) p.
Proof.
  intros Hp Hk. unfold thread_batch. destruct (wk_search k) as [s|] eqn:Es.
  2: { apply kept_by_same; [done|]. rewrite (bind_done _ _ _ _ _ (worker_run i k p Hk)). unfold mbind, M_bind, gets. by rewrite Es. }
  destruct (continues (wp_ticket p) s) eqn:Ec.
  2: { apply kept_by_same; [done|]. rewrite (bind_done _ _ _ _ _ (worker_run i k p Hk)). unfold mbind, M_bind, gets. by rewrite Es, Ec. }
  destruct (attempts 256 (ws_root s) (wk_rng k) (ws_work s) (ws_output s)) as [[rng w] o] eqn:Ea.
  destruct (po_threads _ Hp _ _ _ Hk Es) as [Ht Hf Ho].
  eexists. split; [|split; [|split; [apply set_worker_length|]]].
  - rewrite (bind_done _ _ _ _ _ (worker_run i k p Hk)). unfold mbind, M_bind, gets. rewrite Es, Ec, Ea. reflexivity.
  - apply set_worker_ok; [done|]. intros s' [= <-]. constructor; simpl; [done|done|]. by eapply attempts_output.
  - done.
Qed.

(** A thread that leaves the loop under the ticket of the pool answers the
    request in front. *)
Lemma answer_ok p s rest : pool_ok p → search_ok p s → wp_pending p = (ws_root s, ws_callback s) :: rest →
  ws_output s = work_value (ws_root s) (ws_work s) → enough (ws_output s) = true →
  pool_ok (add_calls [(ws_callback s, Some (ws_work s))] (set_pending rest (set_ticket (wp_ticket p + 1) p))).
Proof.
  intros [Hids Hroots Hcalls Ht Hth] _ Ep Ho He. constructor; simpl.
  - rewrite <-Hids, Ep, fmap_app, fmap_cons. simpl. solve_Permutation.
  - intros r id Hin. apply Hroots. rewrite Ep. by right.
  - intros id w [Hin|[= -> ->]%list_elem_of_singleton]%elem_of_app; [by apply Hcalls|].
    exists (ws_root s). split; [apply Hroots; rewrite Ep; by left|]. apply enough_valid. by rewrite <-Ho.
  - lia.
  - intros i k s' Hi Hs'. destruct (Hth i k s' Hi Hs') as [Hst _ Ho']. constructor; simpl; [lia|lia|done].
Qed.

Lemma finish_keeps i k p : pool_ok p → wp_ticket p < 2 ^ 32 → wp_threads p !! i = Some k → kept_by (thread_finish i) p.
Proof.
  intros Hp Hlt Hk. unfold thread_finish. destruct (wk_search k) as [s|] eqn:Es.
  2: { apply kept_by_same; [done|]. rewrite (bind_done _ _ _ _ _ (worker_run i k p Hk)). unfold mbind, M_bind, gets. by rewrite Es. }
  destruct (continues (wp_ticket p) s) eqn:Ec.
  { apply kept_by_same; [done|]. rewrite (bind_done _ _ _ _ _ (worker_run i k p Hk)). unfold mbind, M_bind, gets. by rewrite Es, Ec. }
  pose proof (po_threads _ Hp _ _ _ Hk Es) as Hso. pose proof Hso as [Ht Hf Ho].
  destruct (ticket_eqb (wp_ticket p) (ws_ticket s)) eqn:Et.
  - pose proof (proj1 (ticket_eqb_spec _ _ Ht Hlt) Et) as Etick. destruct (Hf (eq_sym Etick)) as [rest Ep].
    unfold continues in Ec. rewrite Et in Ec. apply negb_false_iff in Ec.
    destruct Ho as [Ho|Ho]; [rewrite Ho, enough_zero in Ec; done|].
    set (p1 := add_calls [(ws_callback s, Some (ws_work s))] (set_pending rest (set_ticket (wp_ticket p + 1) p))).
    exists (set_worker i (Worker (wk_rng k) None) p1). split; [|split; [|split; [exact (set_worker_length i _ p1)|simpl; lia]]].
    + rewrite (bind_done _ _ _ _ _ (worker_run i k p Hk)). unfold mbind, M_bind, gets, assert_, modify, mret, M_ret.
      rewrite Es. unfold continues. rewrite Et, Ec. simpl. rewrite <-Ho, u_eqb_refl. simpl. rewrite Ep. reflexivity.
    + apply set_worker_ok; [by apply answer_ok|done].
  - exists (set_worker i (Worker (wk_rng k) None) p). split; [|split; [by apply set_worker_ok|split; [apply set_worker_length|done]]].
    rewrite (bind_done _ _ _ _ _ (worker_run i k p Hk)). unfold mbind, M_bind, gets, assert_, modify, mret, M_ret.
    rewrite Es, Ec, Et. reflexivity.
Qed.

Lemma step_keeps ev p : card_correct → pool_ok p → wp_ticket p < 2 ^ 32 → event_ok p ev → kept_by (pool_step ev) p.
Proof.
  intros Hc Hp Hlt He. destruct ev as [root|root| |i|i|i]; simpl in *.
  - destruct (generate_keeps root p Hc Hp He) as (p' & Hr & Hp' & Hth & Ht). exists p'. by rewrite Hth.
  - destruct (cancel_keeps root p Hp) as (p' & Hr & Hp' & Hth & Ht). exists p'. by rewrite Hth.
  - exists (set_done true p). split_and!; [done| |done|done]. destruct Hp. constructor; try done.
    intros i k s Hi Hs. by destruct (po_threads0 i k s Hi Hs).
  - apply lookup_lt_is_Some_2 in He as [k Hk]. by eapply take_keeps.
  - apply lookup_lt_is_Some_2 in He as [k Hk]. by eapply batch_keeps.
  - apply lookup_lt_is_Some_2 in He as [k Hk]. by eapply finish_keeps.
Qed.

Lemma new_pool_ok seeds : pool_ok (new_pool seeds).
Proof.
  constructor; simpl; [done|by intros ? ? ?%elem_of_nil|by intros ? ? ?%elem_of_nil|done|].
  intros i k s Hi Hs. apply list_lookup_fmap_Some in Hi as (x & -> & _). done.
Qed.
Lemma pool_run_ok seeds evs p : card_correct → pool_run seeds evs p → pool_ok p.
Proof.
  intros Hc Hr. induction Hr as [|evs p ev p' _ IH Hlt He Hs]; [apply new_pool_ok|].
  destruct (step_keeps ev p Hc IH Hlt He) as (p1 & Hr & Hp1 & _). rewrite Hs in Hr. by injection Hr as ->.
Qed.

(** Whatever the threads of the work pool and its callers do,
    in whatever order, the assertions of the next step hold; each request is
    either still waiting or its callback was called, and only once; and a
    callback that was given work was given a proof of work for the root of its
    request. *)
Lemma pool_answers seeds evs p : card_correct → pool_run seeds evs p → wp_ticket p < 2 ^ 32 →
  (∀ ev, event_ok p ev → ∃ p', pool_step ev p = Done (tt, p')) ∧
  NoDup ((wp_pending p).*2 ++ (wp_calls p).*1) ∧
  (∀ id root, wp_requests p !! id = Some root → (root, id) ∈ wp_pending p ∨ ∃ r, (id, r) ∈ wp_calls p) ∧
  (∀ id w, (id, Some w) ∈ wp_calls p → ∃ root, wp_requests p !! id = Some root ∧
     work_validate badem_network root w = false).
Proof.
  intros Hc Hr Hlt. pose proof (pool_run_ok _ _ _ Hc Hr) as Hp. split_and!.
  - intros ev He. destruct (step_keeps ev p Hc Hp Hlt He) as (p' & Hs & _). by exists p'.
  - rewrite (po_ids _ Hp). apply NoDup_seq.
  - intros id root Hid. assert (Hin : id ∈ (wp_pending p).*2 ++ (wp_calls p).*1).
    { rewrite (po_ids _ Hp). apply elem_of_seq. apply lookup_lt_Some in Hid. lia. }
    apply elem_of_app in Hin as [([root' id'] & -> & Hin)%list_elem_of_fmap|([id' r] & -> & Hin)%list_elem_of_fmap].
    + left. pose proof (po_roots _ Hp _ _ Hin) as Hroot. simpl in *. by simplify_eq.
    + right. by exists r.
  - apply (po_calls _ Hp).
Qed.

(** ** A thread finds what its numbers hold *)

Fixpoint skip (n : nat) (r : xorshift1024star) : xorshift1024star :=
  match n with O => r | Datatypes.S n => skip n (snd (xorshift_next r)) end.
(** The number tried after [n] others. *)
Definition attempt (n : nat) (r : xorshift1024star) : u64 := fst (xorshift_next (skip n r)).
Definition good root (r : xorshift1024star) (j : nat) : Prop := enough (work_value root (attempt j r)) = true.

Lemma attempts_find n root r w o j : enough o = false → good root r j →
  ∃ r' w' o', attempts n root r w o = (r', w', o') ∧
    (enough o' = true ∨ enough o' = false ∧ (n ≤ j)%nat ∧ good root r' (j - n)).
Proof.
  revert r w o j. induction n as [|n IH]; intros r w o j Ho Hg; cbn [attempts].
  { exists r, w, o. split; [done|]. right. split; [done|]. split; [lia|]. by rewrite Nat.sub_0_r. }
  rewrite Ho. unfold good, attempt in Hg.
  destruct (xorshift_next r) as [w1 r1] eqn:Er. destruct (enough (work_value root w1)) eqn:E1.
  { exists r1, w1, (work_value root w1). split; [|by left]. destruct n; [done|]. cbn [attempts]. by rewrite E1. }
  destruct j as [|j]; cbn [skip] in Hg; rewrite Er in Hg; cbn [fst snd] in Hg; [congruence|]. destruct (IH r1 w1 (work_value root w1) j E1 Hg) as (r' & w' & o' & Ha & Hor).
  exists r', w', o'. split; [done|]. destruct Hor as [|(?&?&?)]; [by left|]. right. split; [done|]. split; [lia|done].
Qed.

(** A thread that searches under the ticket of the pool, and what it is to do
    once it has found work. *)
Definition searching p i (r : xorshift1024star) root (id : nat) w o : Prop :=
  wp_threads p !! i = Some (Worker r (Some (Work_search root id (wp_ticket p) w o))).
Lemma batch_run p i r root id w o : searching p i r root id w o → enough o = false →
  ∃ r' w' o' p', attempts 256 root r w o = (r', w', o') ∧ thread_batch i p = Done (tt, p') ∧
    searching p' i r' root id w' o' ∧ wp_calls p' = wp_calls p ∧ wp_ticket p' = wp_ticket p.
Proof.
  intros Hs Ho. destruct (attempts 256 root r w o) as [[r' w'] o'] eqn:Ea. exists r', w', o'.
  set (k := Worker r' (Some (Work_search root id (wp_ticket p) w' o'))). exists (set_worker i k p).
  assert (Hc : continues (wp_ticket p) (Work_search root id (wp_ticket p) w o) = true).
  { unfold continues, ticket_eqb. simpl. by rewrite Z.sub_diag, Ho. }
  split; [done|]. split; [|split; [|done]].
  - unfold thread_batch. rewrite (bind_done _ _ _ _ _ (worker_run i _ p Hs)). unfold mbind, M_bind, gets. cbn [wk_search].
    rewrite Hc. cbn [ws_root ws_work ws_output wk_rng]. rewrite Ea. reflexivity.
  - unfold searching. simpl. rewrite list_lookup_insert_eq; [done|]. by apply lookup_lt_Some in Hs.
Qed.

Fixpoint batches (n : nat) i : M work_pool unit :=
  match n with O => mret tt | Datatypes.S n => thread_batch i;; batches n i end.
Lemma batches_find n p i r root id w o j : pool_ok p → searching p i r root id w o → enough o = false → good root r j →
  (j < 256 * n)%nat → ∃ m p' r' w' o', (m ≤ n)%nat ∧ batches m i p = Done (tt, p') ∧ pool_ok p' ∧
    searching p' i r' root id w' o' ∧ enough o' = true ∧ wp_calls p' = wp_calls p ∧ wp_ticket p' = wp_ticket p.
Proof.
  revert p r w o j. induction n as [|n IH]; intros p r w o j Hp Hs Ho Hg Hj; [lia|].
  destruct (batch_run p i r root id w o Hs Ho) as (r1 & w1 & o1 & p1 & Ha & Hb & Hs1 & Hc1 & Ht1).
  destruct (batch_keeps i _ p Hp Hs) as (p1' & Hb' & Hp1 & _). rewrite Hb in Hb'. injection Hb' as <-.
  destruct (attempts_find 256 root r w o j Ho Hg) as (r1' & w1' & o1' & Ha' & Hor). rewrite Ha in Ha'. injection Ha' as <- <- <-.
  destruct Hor as [He|(He & Hle & Hg1)].
  - exists 1%nat, p1, r1, w1, o1. split_and!; [lia| |done..]. cbn [batches]. by rewrite (bind_done _ _ _ _ _ Hb).
  - destruct (IH p1 r1 w1 o1 (j - 256)%nat Hp1 Hs1 He Hg1) as (m & p' & r' & w' & o' & Hm & Hr & Hp' & Hs' & He' & Hc' & Ht'); [lia|].
    exists (Datatypes.S m), p', r', w', o'. split_and!; [lia| |done..|congruence|congruence].
    cbn [batches]. by rewrite (bind_done _ _ _ _ _ Hb).
Qed.

Lemma finish_run p i r root id w o : pool_ok p → wp_ticket p < 2 ^ 32 → searching p i r root id w o → enough o = true →
  ∃ p', thread_finish i p = Done (tt, p') ∧ wp_calls p' = wp_calls p ++ [(id, Some w)].
Proof.
  intros Hp Hlt Hs He. pose proof (po_threads _ Hp _ _ _ Hs eq_refl) as [_ Hf Ho]. cbn [ws_ticket ws_root ws_callback ws_output ws_work] in *.
  destruct (Hf eq_refl) as [rest Ep]. destruct Ho as [->|Ho]; [by rewrite enough_zero in He|].
  eexists. split.
  - unfold thread_finish. rewrite (bind_done _ _ _ _ _ (worker_run i _ p Hs)). unfold mbind, M_bind, gets, assert_, modify, mret, M_ret.
    cbn [wk_search]. unfold continues, ticket_eqb. cbn [ws_ticket ws_output ws_root ws_work]. rewrite Z.sub_diag, He. simpl.
    rewrite <-Ho, u_eqb_refl. simpl. rewrite Ep. reflexivity.
  - reflexivity.
Qed.

(** A search ends when there is something to find.  An idle
    thread takes the request in front; if one of the next [256 n] numbers of
    its generator is a proof of work for the root, then after at most [n] rounds
    of attempts it calls the callback with a proof of work. *)
Lemma pool_finds seeds evs p i k root id rest j n : card_correct → pool_run seeds evs p → wp_ticket p < 2 ^ 32 →
  wp_threads p !! i = Some k → wk_search k = None → wp_pending p = (root, id) :: rest →
  good root (wk_rng k) j → (j < 256 * n)%nat →
  ∃ m p' w, (m ≤ n)%nat ∧ (thread_take i;; batches m i;; thread_finish i) p = Done (tt, p') ∧
    wp_calls p' = wp_calls p ++ [(id, Some w)] ∧ work_validate badem_network root w = false.
Proof.
  intros Hc Hr Hlt Hk Hidle Ep Hg Hj. pose proof (pool_run_ok _ _ _ Hc Hr) as Hp.
  set (p1 := set_worker i (Worker (wk_rng k) (Some (Work_search root id (wp_ticket p) (U 8 0) (U 8 0)))) p).
  assert (Ht : thread_take i p = Done (tt, p1)).
  { unfold thread_take. rewrite (bind_done _ _ _ _ _ (worker_run i k p Hk)). unfold mbind, M_bind, gets, modify. by rewrite Hidle, Ep. }
  destruct (take_keeps i k p Hp Hk) as (p1' & Ht' & Hp1 & _). rewrite Ht in Ht'. injection Ht' as <-.
  assert (Hs1 : searching p1 i (wk_rng k) root id (U 8 0) (U 8 0)).
  { unfold searching, p1. simpl. rewrite list_lookup_insert_eq; [done|]. by apply lookup_lt_Some in Hk. }
  destruct (batches_find n p1 i _ root id _ _ j Hp1 Hs1 enough_zero Hg Hj) as (m & p2 & r & w & o & Hm & Hb & Hp2 & Hs2 & He & Hc2 & Ht2).
  destruct (finish_run p2 i r root id w o Hp2) as (p3 & Hf & Hc3); [by rewrite Ht2|done..|].
  exists m, p3, w. split_and!; [done| |by rewrite Hc3, Hc2|].
  - by rewrite (bind_done _ _ _ _ _ Ht), (bind_done _ _ _ _ _ Hb).
  - destruct (so_output _ _ (po_threads _ Hp2 _ _ _ Hs2 eq_refl)) as [E|E]; cbn [ws_output ws_root ws_work] in E.
    + by rewrite E, enough_zero in He.
    + apply enough_valid. by rewrite <-E.
Qed.
End steps.
