(* ===== verification/WalletSends.v ===== *)
(** * The blocks wallets make

    What a wallet asks the node to process, the ledger accepts: a send takes
    the amount from the account and makes it pending for the destination, a
    receive adds a pending amount to the account. *)

From S2P Require Import Prelude Crypto Blocks Common Stats Store Ledger Votes Lmdb Versioning.
From S2P Require Import BlockStore Messages MultiIndex Node Peers NodeCaches Sending Elections BlockProcessor.
From S2P Require Import WalletStore WalletActions StoreLemmas LedgerInv Commit Process Reach Accept LedgerProps StoreRefine.
From S2P Require Import NodeFrame NodeLedger NodeOk NodeQuiet NodeSends NodePeers NodeElections NodeSafe NodeProcessor NodeReceive.
From S2P Require Import BootstrapServer BootstrapChains BootstrapPushes WalletProps.

Section sends.
Context `{NodeConfig, LmdbSpec, RandomPool, MultiIndex, Unordered, Wallets, !ReadableWallets, WalletConfig}.
Context `{Blake2b, Ed25519Correct, LedgerConstants, AesCorrect, Argon2}.
Implicit Types (n : node) (s : wallets) (w : wallet_store) (st : astore) (b : block).

(** ** Wallets and the node

    The wallets the node reads are those of the key store: readable when every
    account has a key, not when an account is watched. *)

Lemma node_wallet_readable w k : check_decides (ws_entries w) k →
  (∀ a v, ws_entries w !! a = Some v → special_count ≤ uval a → is_Some (opened (ws_entries w) k a)) →
  readable (w_accounts (node_wallet w)) (w_fetch (node_wallet w)) (w_unlocked (node_wallet w)).
Proof.
  intros Hd Ho Hu a Ha. cbn [node_wallet w_accounts w_fetch w_unlocked] in *. rewrite valid_password_run in Hu.
  change (wallet_accounts w) with (Done (A := list u256 * wallet_store) (map fst (cursor hash_le (U 32 special_count) (ws_entries w)), w)) in Ha.
  apply list_elem_of_In, in_map_iff in Ha as ([x v] & <- & Hin%list_elem_of_In). apply elem_of_cursor in Hin as [Hv Hx].
  rewrite fetch_run, Hu, (unlocked_key _ _ Hd Hu). by apply (Ho x v).
Qed.
Lemma node_wallet_watched w k pub : special_count ≤ uval pub → check_decides (ws_entries w) k →
  ∃ w', insert_watch pub w = Done (tt, w') ∧ (unlocked w' = true → w_fetch (node_wallet w') pub = None).
Proof.
  intros Hp Hd. destruct (watched_lost pub w k Hp Hd) as (w' & Hr & _ & Hf). exists w'. split; [done|].
  intros Hu. simpl. by rewrite Hf.
Qed.

(** ** Calls that only read *)

Lemma set_random_pool_same n : set_random_pool (n_random_pool n) n = n.
Proof. by destruct n. Qed.
Lemma set_node_same s : set_node (ww_node s) s = s.
Proof. by destruct s. Qed.

Lemma on_node_read {A} (m : M node A) a s : m (ww_node s) = Done (a, ww_node s) → on_node m s = Done (a, s).
Proof. intros Hm. unfold on_node. by rewrite Hm, set_node_same. Qed.
Lemma on_wallet_read {A} (m : M wallet_store A) a id w s : ww_items s !! id = Some w →
  (∀ r, m (set_wallet_pool r w) = Done (a, set_wallet_pool r w)) → on_wallet id m s = Done (a, s).
Proof.
  intros Hw Hm. unfold on_wallet. rewrite Hw, Hm. do 2 f_equal.
  assert (Hsame : set_wallet_pool (ws_random_pool w) (set_wallet_pool (n_random_pool (ww_node s)) w) = w) by by destruct w.
  rewrite Hsame, insert_id by done. unfold set_wallet_pool. cbn [ws_random_pool]. rewrite set_random_pool_same.
  by destruct s.
Qed.

Lemma on_store_read {A} (m : M block_store A) a n : reads m →
  (∃ c, m (store (n_ledger n)) = Done (a, c)) → on_store m n = Done (a, n).
Proof.
  intros Hr Hm. apply (wp_store_read _ a n (λ a' n', a' = a ∧ n' = n)) in Hm; [|done|done].
  apply wp_run in Hm as (a' & n' & -> & -> & ->). done.
Qed.
Lemma read_account n st a : store_rel (store (n_ledger n)) st →
  on_store (lmdb_account_get a) n = Done (a_accounts st !! a, n).
Proof. intros Hs. apply on_store_read; [apply reads_account_get|exact (sim_read_run _ _ _ _ (account_get_sim a) Hs)]. Qed.
Lemma read_block n st h : store_rel (store (n_ledger n)) st →
  on_store (lmdb_block_get h) n = Done (fst <$> a_lookup st h, n).
Proof. intros Hs. apply on_store_read; [apply reads_block_get|exact (sim_read_run _ _ _ _ (block_get_sim h) Hs)]. Qed.
Lemma read_pending n st k : store_rel (store (n_ledger n)) st →
  on_store (lmdb_pending_get k) n = Done (a_pending st !! k, n).
Proof. intros Hs. apply on_store_read; [apply reads_pending_get|exact (sim_read_run _ _ _ _ (pending_get_sim k) Hs)]. Qed.
Lemma read_balance n st a : store_rel (store (n_ledger n)) st →
  on_ledger (λ _, account_balance a) n = Done (match a_accounts st !! a with Some i => balance i | None => U 16 0 end, n).
Proof.
  intros Hs. pose proof (read_account n st a Hs) as Hr. unfold on_store, on_ledger, Ledger.st in Hr.
  unfold on_ledger, account_balance, Ledger.st, mbind, M_bind.
  change (account_get a) with (lmdb_account_get a) in *.
  destruct (lmdb_account_get a (store (n_ledger n))) as [[x c]|]; [|done]. injection Hr as -> Hr. unfold mret, M_ret. by rewrite Hr.
Qed.
(** ** The ledger and the blocks *)

Lemma node_process_accepted n st b a bal : node_ok n → store_rel (store (n_ledger n)) st →
  digest_ok st b → accepts st b a bal →
  ∃ r n' st' a' bal', node_process b n = Done (r, n') ∧ code r = progress ∧ store_rel (store (n_ledger n')) st' ∧
    accepts st b a' bal' ∧ effect st st' b a' bal'.
Proof.
  intros Hn Hs Hd Hac. destruct (ok_ledger _ Hn) as (st0 & g & hist & Hs0 & HI & _).
  rewrite (store_rel_unique _ _ _ Hs0 Hs) in HI. clear st0 Hs0.
  pose proof (abs_fuel _ _ Hs) as Hf. set (l := abs (n_ledger n) st) in *.
  destruct (process_run l g hist (ledger_fuel (n_ledger n)) b HI Hd) as (r & k' & Hp & Hpr); [by rewrite Hf|].
  pose proof (accept_progress (ledger_fuel (n_ledger n)) b l g hist a bal HI Hac) as Hc. unfold wlp in Hc. rewrite Hp in Hc.
  destruct (processed_progress _ _ _ _ _ _ Hpr Hc) as (m & x & _ & Ha & He & _).
  assert (Hw : wp (node_process b) n (λ r' n', r' = r ∧ store_rel (store (n_ledger n')) (store k'))).
  { eapply (wp_called _ (λ fuel, process fuel b)); [|exact Hs|exact Hp|].
    - intros fuel y. by apply sim_process; apply _.
    - intros n' (l' & -> & Hr & _). done. }
  apply wp_run in Hw as (r' & n' & Hrun & -> & Hr). exists r, n', (store k'), (m_owner m), (m_balance m). split_and!; done.
Qed.

(** The state block of an account after its head. *)
Definition next_block (a : u256) (i : option account_info) (rep : u256) (bal : u128) (link prv : u256) (work : u64) : block :=
  BState (make_state_block a (match i with Some i => head i | None => U 32 0 end) rep bal link prv a work).

Lemma next_block_accepts st g hist a rep bal link prv work : Inv st g hist →
  ed25519_publickey prv = a → a ≠ U 32 0 →
  let b := next_block a (a_accounts st !! a) rep bal link prv work in
  a_lookup st (block_hash b) = None →
  (if sends_from (balance_before st a) b then uval bal ≤ balance_before st a
   else ∃ q, link ≠ U 32 0 ∧ a_pending st !! (a, link) = Some q ∧ uval bal = balance_before st a + uval (amount q)) →
  accepts st b a bal.
Proof.
  intros HI Hk Ha b Hf Hb. constructor; [done|done| | |done|].
  - unfold b, next_block. simpl. unfold make_state_block. simpl. rewrite <-Hk. apply validate_sign_message.
  - destruct (a_accounts st !! a) as [i|] eqn:Ei; [|done].
    assert (Hz : head i ≠ U 32 0).
    { destruct (inv_account _ _ _ HI _ _ Ei) as (hb & m & Eb & Em & _). by apply (inv_block _ _ _ HI _ _ _ _ Eb Em). }
    split_and!; [|done|done]. unfold b, next_block. cbn [links block_previous]. by apply negb_true_iff, is_zero_false.
  - destruct (sends_from (balance_before st a) b) eqn:Es; [done|]. destruct Hb as (q & Hl & Hq & Hbal).
    assert (Hr : receives_from (balance_before st a) b = Some link).
    { unfold receives_from. unfold b, next_block in *. rewrite Es. cbn [hashables make_state_block th_link].
      by rewrite (proj2 (is_zero_false link) Hl). }
    rewrite Hr. eauto.
Qed.

Lemma with_work_valid b : work_validate badem_network (block_root b) (work_generate_blocking (block_root b)) = false →
  valid_work (with_work b).
Proof.
  intros Hw. unfold with_work, valid_work. destruct (work_validate _ (block_root b) (block_work b)) eqn:E; [|done].
  by destruct b.
Qed.
Lemma with_work_next a i rep bal link prv work :
  ∃ work', with_work (next_block a i rep bal link prv work) = next_block a i rep bal link prv work'.
Proof. unfold with_work. destruct (work_validate _ _ _); [|by exists work]. by eexists. Qed.
(** ** The parts of an action *)

(** What publishing does to the state besides the node. *)
Record published (id a : u256) b (generate_work : bool) s s' : Prop := {
  pu_items : ww_items s' = ww_items s;
  pu_ids : ww_send_action_ids s' = ww_send_action_ids s;
  pu_background : ww_background s' = ww_background s;
  pu_actions : ww_actions s' = if generate_work
    then insert_action generate_priority (Work_action id a (block_hash b)) (ww_actions s) else ww_actions s;
}.

Lemma publish_run id a b generate_work s : node_ok (ww_node s) → valid_work (with_work b) →
  ∃ s', publish_block id a b generate_work s = Done (with_work b, s') ∧
    delivered (ww_node s) [with_work b] (ww_node s') ∧ published id a (with_work b) generate_work s s'.
Proof.
  intros Hn Hv. pose proof (wp_process_active _ _ Hn Hv) as Hw. apply wp_run in Hw as ([] & n' & Hp & Hd).
  unfold publish_block. set (b' := with_work b) in *.
  rewrite (bind_done _ _ s tt (set_node n' s)) by (unfold on_node; by rewrite Hp).
  destruct generate_work; (eexists; split; [reflexivity|by split]).
Qed.

Lemma cached_work_run id w a s : ww_items s !! id = Some w → ∃ x, cached_work id a s = Done (x, s).
Proof.
  intros Hw. unfold cached_work.
  rewrite (bind_done _ _ s (if negb (is_zero (wv_key (entry (ws_entries w) a))) then Some (wv_work (entry (ws_entries w) a)) else None) s);
    [by eexists|]. by apply (on_wallet_read _ _ id w).
Qed.
Lemma wallet_valid_run id w s : ww_items s !! id = Some w → on_wallet id valid_password s = Done (unlocked w, s).
Proof. intros Hw. by apply (on_wallet_read _ _ id w). Qed.
Lemma wallet_fetch_run id w a s : ww_items s !! id = Some w →
  on_wallet id (fetch a) s = Done (if unlocked w then opened (ws_entries w) (key_of w) a else None, s).
Proof. intros Hw. apply (on_wallet_read _ _ id w); [done|]. intros r. by rewrite fetch_run. Qed.
Lemma wallet_existing_run id w a s prv : ww_items s !! id = Some w → opened (ws_entries w) (key_of w) a = Some prv →
  on_wallet id (wallet_exists a) s = Done (true, s).
Proof.
  intros Hw Ho. apply (on_wallet_read _ _ id w); [done|]. intros r. rewrite wallet_exists_run.
  rewrite bool_decide_true; [done|]. simpl. destruct (ws_entries w !! a) eqn:E; [done|].
  unfold opened, entry in Ho. by rewrite E in Ho.
Qed.

Lemma account_rep st g hist a i : Inv st g hist → a_accounts st !! a = Some i →
  a ≠ U 32 0 ∧ ∃ rb sc, a_lookup st (rep_block i) = Some (rb, sc) ∧ block_representative rb = rep_account (a_lookup st) i.
Proof.
  intros HI Hi. destruct (inv_account _ _ _ HI _ _ Hi) as (b & m & Eb & Em & <- & _ & Hr & _).
  split; [by apply (inv_block _ _ _ HI _ _ _ _ Eb Em)|].
  destruct (inv_meta _ _ _ HI _ _ Em) as (Hrep & _). rewrite <-Hr in Hrep. apply (inv_dom _ _ _ HI) in Hrep as [[rb sc] Erb].
  exists rb, sc. split; [done|]. unfold rep_account. by rewrite Erb.
Qed.

(** ** Sending *)

(** A wallet that can send: unlocked, with the key of an account that has
    funds, where the work asked for is valid. *)
Record can_send s st id w a i prv : Prop := {
  cs_node : node_ok (ww_node s);
  cs_store : store_rel (store (n_ledger (ww_node s))) st;
  cs_wallet : ww_items s !! id = Some w;
  cs_unlocked : unlocked w = true;
  cs_key : opened (ws_entries w) (key_of w) a = Some prv;
  cs_account : a_accounts st !! a = Some i;
  cs_work : work_validate badem_network (head i) (work_generate_blocking (head i)) = false;
}.

Definition record_id (send_id : option bytes) b s : wallets :=
  match send_id with
  | Some key => set_send_action_ids (<[key := block_hash b]> (ww_send_action_ids s)) s
  | None => s
  end.
Definition id_fresh (send_id : option bytes) s : Prop :=
  match send_id with Some key => key_size_ok key = true ∧ ww_send_action_ids s !! key = None | None => True end.

Lemma new_send_run s st id w a i prv to amt send_id : can_send s st id w a i prv → id_fresh send_id s →
  0 < uval amt ≤ uval (balance i) → ∃ x, let b := next_block a (Some i) (rep_account (a_lookup st) i) (u_sub (balance i) amt) to prv x in
    new_send id a to amt send_id s = Done (Some b, record_id send_id b s).
Proof.
  intros [Hn Hs Hw Hu Hk Hi Hv] Hid Hamt. destruct (cached_work_run id w a s Hw) as [x Hx]. exists x. simpl.
  destruct (ok_ledger _ Hn) as (st0 & g & hist & Hs0 & HI & _). rewrite (store_rel_unique _ _ _ Hs0 Hs) in HI.
  destruct (account_rep _ _ _ _ _ HI Hi) as (_ & rb & sc & Erb & Hrep). unfold new_send.
  rewrite (bind_done _ _ _ _ _ (wallet_valid_run id w s Hw)), Hu. cbn [negb].
  rewrite (bind_done _ _ _ _ _ (wallet_existing_run id w a s prv Hw Hk)). cbn [negb].
  rewrite (bind_done _ _ s (balance i) s) by (apply on_node_read; rewrite (read_balance _ st) by done; by rewrite Hi).
  assert (Hb : negb (is_zero (balance i)) && u_leb amt (balance i) = true).
  { apply andb_true_iff. split; [apply negb_true_iff, is_zero_false; intros E; rewrite E, uval_zero in Hamt; lia|].
    destruct (u_leb_spec amt (balance i)); [done|lia]. }
  rewrite Hb. rewrite (bind_done _ _ s (Some i) s) by (apply on_node_read; rewrite (read_account _ st) by done; by rewrite Hi).
  rewrite (bind_done _ _ _ _ _ (wallet_fetch_run id w a s Hw)), Hu, Hk.
  rewrite (bind_done _ _ s (Some rb) s) by (apply on_node_read; rewrite (read_block _ st) by done; by rewrite Erb).
  rewrite (bind_done _ _ _ _ _ Hx), Hrep. unfold record_id, id_fresh in *. destruct send_id as [key|]; [|done].
  destruct Hid as [Hsz _]. rewrite Hsz. done.
Qed.

Lemma known_fresh send_id s : id_fresh send_id s → known_send send_id s = Done ((None, false), s).
Proof.
  unfold id_fresh, known_send. destruct send_id as [key|]; [|done]. intros [Hsz Hk].
  assert (Hz : Nat.eqb (length key) 0 = false).
  { unfold key_size_ok in Hsz. apply andb_true_iff in Hsz as [Hsz _]. apply Nat.ltb_lt in Hsz. apply Nat.eqb_neq. lia. }
  rewrite Hz. rewrite (bind_done _ _ s None s) by (unfold gets; by rewrite Hk). done.
Qed.
(** The send is recorded and its block delivered. *)
Lemma send_run s st id w a i prv to amt generate_work send_id : can_send s st id w a i prv → id_fresh send_id s →
  0 < uval amt ≤ uval (balance i) → ∃ x s',
    let b := next_block a (Some i) (rep_account (a_lookup st) i) (u_sub (balance i) amt) to prv x in
    wallet_send_action id a to amt generate_work send_id s = Done (Some b, s') ∧
    delivered (ww_node s) [b] (ww_node s') ∧ published id a b generate_work (record_id send_id b s) s'.
Proof.
  intros Hcs Hid Hamt. destruct (new_send_run s st id w a i prv to amt send_id Hcs Hid Hamt) as [x0 Hrun].
  set (b0 := next_block a (Some i) (rep_account (a_lookup st) i) (u_sub (balance i) amt) to prv x0) in *.
  destruct (with_work_next a (Some i) (rep_account (a_lookup st) i) (u_sub (balance i) amt) to prv x0) as [x Hx].
  assert (Hn : ww_node (record_id send_id b0 s) = ww_node s) by by destruct send_id.
  assert (Hz : head i ≠ U 32 0).
  { destruct Hcs as [Hn' Hs _ _ _ Hi _]. destruct (ok_ledger _ Hn') as (st0 & g & hist & Hs0 & HI & _).
    rewrite (store_rel_unique _ _ _ Hs0 Hs) in HI. destruct (inv_account _ _ _ HI _ _ Hi) as (hb & m & Eb & Em & _).
    by apply (inv_block _ _ _ HI _ _ _ _ Eb Em). }
  assert (Hroot : block_root b0 = head i).
  { unfold b0, next_block. cbn [block_root hashables make_state_block]. simpl. by rewrite (proj2 (is_zero_false _) Hz). }
  destruct (publish_run id a b0 generate_work (record_id send_id b0 s)) as (s' & Hp & Hd & Hpu).
  { rewrite Hn. apply Hcs. }
  { apply with_work_valid. rewrite Hroot. apply Hcs. }
  exists x, s'. simpl. rewrite <-Hx. fold b0. split_and!; [|by rewrite <-Hn|].
  - unfold wallet_send_action. rewrite (bind_done _ _ _ _ _ (known_fresh _ _ Hid)), (bind_done _ _ _ _ _ Hrun).
    by rewrite (bind_done _ _ _ _ _ Hp).
  - assert (E : record_id send_id (with_work b0) s = record_id send_id b0 s); [|by rewrite E].
    unfold record_id, b0. by rewrite Hx.
Qed.

(** A wallet sends an amount its account has.  The block goes to
    the queue of the block processor, the number of the send is recorded, the
    keys of all wallets stay; and the ledger, given that block, accepts it: the
    balance of the account is less by the amount, and exactly that amount is
    pending for the destination. *)
Lemma send_moves s st id w a i prv to amt generate_work send_id :
  can_send s st id w a i prv → id_fresh send_id s → 0 < uval amt ≤ uval (balance i) →
  ∃ b s', wallet_send_action id a to amt generate_work send_id s = Done (Some b, s') ∧
    delivered (ww_node s) [b] (ww_node s') ∧ ww_items s' = ww_items s ∧
    (∀ key, send_id = Some key → ww_send_action_ids s' !! key = Some (block_hash b)) ∧
    (digest_ok st b → a_lookup st (block_hash b) = None →
     ∃ r n' st', node_process b (ww_node s') = Done (r, n') ∧ code r = progress ∧
       store_rel (store (n_ledger n')) st' ∧
       (∃ i', a_accounts st' = <[a := i']> (a_accounts st) ∧ head i' = block_hash b ∧
          uval (balance i') = uval (balance i) - uval amt) ∧
       ∃ q, a_pending st' = <[(to, block_hash b) := q]> (a_pending st) ∧ source q = a ∧ amount q = amt).
Proof.
  intros Hcs Hid Hamt. destruct (send_run s st id w a i prv to amt generate_work send_id Hcs Hid Hamt) as (x & s' & Hrun & Hd & Hpu).
  set (b := next_block a (Some i) (rep_account (a_lookup st) i) (u_sub (balance i) amt) to prv x) in *.
  assert (Hbal : uval (u_sub (balance i) amt) = uval (balance i) - uval amt).
  { apply uval_sub_small. lia. }
  exists b, s'. split_and!; [done|done|rewrite (pu_items _ _ _ _ _ _ Hpu); by destruct send_id| |].
  { intros key ->. rewrite (pu_ids _ _ _ _ _ _ Hpu). simpl. by rewrite lookup_insert_eq. }
  intros Hdig Hf. destruct Hcs as [Hn Hs _ _ Hk Hi _]. destruct (ok_ledger _ Hn) as (st0 & g & hist & Hs0 & HI & _).
  rewrite (store_rel_unique _ _ _ Hs0 Hs) in HI. destruct (account_rep _ _ _ _ _ HI Hi) as (Ha & _).
  assert (Hsf : ∀ y, y = uval (balance i) → sends_from y b = true).
  { intros y ->. unfold b, next_block. cbn [sends_from hashables make_state_block th_balance]. apply Z.ltb_lt. lia. }
  assert (Hbb : balance_before st a = uval (balance i)) by (unfold balance_before; by rewrite Hi).
  assert (Hac : accepts st b a (u_sub (balance i) amt)).
  { unfold b. rewrite <-Hi. apply (next_block_accepts st g hist); [done|by eapply opened_publickey|done|by rewrite Hi|].
    rewrite Hi. fold b. rewrite Hsf by done. rewrite Hbb, Hbal. lia. }
  destruct (node_process_accepted (ww_node s') st b _ _ (de_ok _ _ _ Hd) (de_rel _ _ _ Hd st Hs) Hdig Hac)
    as (r & n' & st' & a' & bal' & Hp & Hc & Hs' & Hac' & [_ (i' & Eacc & Hh & Eb) Hmv]).
  destruct (ac_states _ _ _ _ Hac') as [Ea Ebal]. unfold b, next_block in Ea, Ebal. cbn [hashables make_state_block th_account th_balance] in Ea, Ebal.
  rewrite Ea in Eacc, Hmv. rewrite Ebal in Eb, Hmv. exists r, n', st'. split_and!; [done..| |].
  - exists i'. by rewrite Eb, Hbal.
  - unfold moves in Hmv. rewrite Hbb, (Hsf _ eq_refl) in Hmv. destruct Hmv as (_ & q & Eq & Hsrc & Hq).
    exists q. split_and!; [done|done|]. apply uval_inj. rewrite Hq, Hbal. lia.
Qed.
(** ** Receiving *)

Record can_receive s st id w send d q prv : Prop := {
  cr_node : node_ok (ww_node s);
  cr_store : store_rel (store (n_ledger (ww_node s))) st;
  cr_wallet : ww_items s !! id = Some w;
  cr_unlocked : unlocked w = true;
  cr_key : opened (ws_entries w) (key_of w) d = Some prv;
  cr_stored : ∃ sc, a_lookup st (block_hash send) = Some (send, sc);
  cr_pending : a_pending st !! (d, block_hash send) = Some q;
  cr_nonzero : d ≠ U 32 0;
  cr_work : let root := match a_accounts st !! d with Some i => head i | None => d end in
    work_validate badem_network root (work_generate_blocking root) = false;
}.

(** The destination of a stored send is found without a change. *)
Lemma destination_run n st g hist send sc d : node_ok n → store_rel (store (n_ledger n)) st → Inv st g hist →
  a_lookup st (block_hash send) = Some (send, sc) → sends g send = true → destination send = d →
  ∃ n', on_ledger (λ fuel, block_destination fuel send) n = Done (d, n') ∧ stays n n' ∧ n_block_arrival n' = n_block_arrival n.
Proof.
  intros Hn Hs HI Eb Hsend Hd. destruct send as [t|t|t|t|t]; try discriminate Hsend.
  - exists n. simpl in Hd. subst d. split_and!; [|by apply stays_refl|done].
    unfold on_ledger, block_destination, mret, M_ret. by rewrite set_ledger_same.
  - pose proof (stays_is_send n st g hist t sc Hn Hs HI Eb) as Hw. apply wp_run in Hw as (x & n' & Hrun & -> & Hst).
    exists n'. unfold on_ledger in Hrun |- *. unfold block_destination, mbind, M_bind.
    destruct (is_send (ledger_fuel (n_ledger n)) t (n_ledger n)) as [[y l']|]; [|done]. rewrite Hsend in Hrun. injection Hrun as -> <-.
    simpl in Hd. subst d. by split_and!.
Qed.

(** The block a receive makes. *)
Definition receiving (st : astore) (d rep : u256) (q : pending_info) : u256 * u128 :=
  match a_accounts st !! d with
  | Some i => (rep_account (a_lookup st) i, u_add (balance i) (amount q))
  | None => (rep, amount q)
  end.
Lemma next_root a i rep bal link prv work : (∀ j, i = Some j → head j ≠ U 32 0) →
  block_root (next_block a i rep bal link prv work) = match i with Some j => head j | None => a end.
Proof.
  intros Hi. unfold next_block. destruct i as [j|]; simpl; [|done].
  by rewrite (proj2 (is_zero_false _) (Hi j eq_refl)).
Qed.
Lemma heads_nonzero st g hist a i : Inv st g hist → a_accounts st !! a = Some i → head i ≠ U 32 0.
Proof.
  intros HI Hi. destruct (inv_account _ _ _ HI _ _ Hi) as (hb & m & Eb & Em & _).
  by apply (inv_block _ _ _ HI _ _ _ _ Eb Em).
Qed.

Lemma receive_run s st g hist id w send d q prv rep amt generate_work : can_receive s st id w send d q prv →
  Inv st g hist → uval receive_minimum ≤ uval amt → ∃ x s',
    let b := next_block d (a_accounts st !! d) (receiving st d rep q).1 (receiving st d rep q).2 (block_hash send) prv x in
    wallet_receive_action id send rep amt generate_work s = Done (Some b, s') ∧
    delivered (ww_node s) [b] (ww_node s') ∧ ww_items s' = ww_items s.
Proof.
  intros [Hn Hs Hw Hu Hk [sc Eb] Hq Hd Hv] HI Hmin.
  destruct (inv_pending _ _ _ HI _ _ _ Hq) as (send' & sc' & m & Eb' & _ & Hsend & Hdest & _). rewrite Eb in Eb'.
  injection Eb' as <- <-.
  destruct (destination_run _ _ _ _ _ _ d Hn Hs HI Eb Hsend Hdest) as (n1 & Hdr & Hst1 & Harr).
  set (s1 := set_node n1 s). assert (Hs1 : store_rel (store (n_ledger (ww_node s1))) st) by by apply (st_rel _ _ Hst1).
  assert (Hw1 : ww_items s1 !! id = Some w) by done. destruct (cached_work_run id w d s1 Hw1) as [x0 Hx0].
  destruct (with_work_next d (a_accounts st !! d) (receiving st d rep q).1 (receiving st d rep q).2 (block_hash send) prv x0) as [x Hx].
  set (b0 := next_block d (a_accounts st !! d) (receiving st d rep q).1 (receiving st d rep q).2 (block_hash send) prv x0) in *.
  destruct (publish_run id d b0 generate_work s1) as (s' & Hp & Hde & Hpu); [apply Hst1| |].
  { apply with_work_valid. unfold b0. rewrite next_root; [exact Hv|]. intros j Hj. by apply (heads_nonzero st g hist d). }
  exists x, s'. simpl. rewrite <-Hx. split_and!.
  - unfold wallet_receive_action. destruct (u_leb_spec receive_minimum amt) as [_|]; [|done]. cbn [negb].
    rewrite (bind_done _ _ s true s).
    2: { apply on_node_read, on_store_read; [apply reads_block_exists|].
         destruct (sim_read_run _ _ _ _ (block_exists_sim (block_hash send)) Hs) as [c Hc]. exists c. rewrite Hc. by rewrite Eb. }
    cbn [negb]. rewrite (bind_done _ _ s d s1) by (unfold on_node; by rewrite Hdr).
    rewrite (bind_done _ _ s1 (Some q) s1) by (apply on_node_read; rewrite (read_pending _ st) by done; by rewrite Hq).
    rewrite (bind_done _ _ _ _ _ (wallet_fetch_run id w d s1 Hw1)), Hu, Hk, (bind_done _ _ _ _ _ Hx0).
    rewrite (bind_done _ _ s1 (a_accounts st !! d) s1) by (apply on_node_read; by rewrite (read_account _ st)).
    match goal with |- context [mbind _ ?m s1] => assert (Hb : m s1 = Done (make_state_block d
      (match a_accounts st !! d with Some i => head i | None => U 32 0 end) (receiving st d rep q).1 (receiving st d rep q).2
      (block_hash send) prv d x0, s1)) end.
    { unfold receiving. destruct (a_accounts st !! d) as [i|] eqn:Ei; [|done].
      destruct (account_rep _ _ _ _ _ HI Ei) as (_ & rb & rsc & Erb & Hrep).
      rewrite (bind_done _ _ s1 (Some rb) s1) by (apply on_node_read; rewrite (read_block _ st) by done; by rewrite Erb).
      by rewrite Hrep. }
    rewrite (bind_done _ _ _ _ _ Hb). fold (next_block d (a_accounts st !! d) (receiving st d rep q).1 (receiving st d rep q).2
      (block_hash send) prv x0). fold b0. by rewrite (bind_done _ _ _ _ _ Hp).
  - apply (delivered_trans _ [] n1 [with_work b0]); [by apply stays_delivered|done].
  - by rewrite (pu_items _ _ _ _ _ _ Hpu).
Qed.
(** A wallet receives a send that is pending for one of its
    accounts.  The block goes to the queue of the block processor, the keys of
    all wallets stay; and the ledger, given that block, accepts it: the balance
    of the account, zero if it had no block, is more by the amount that was
    pending, and nothing else is pending less. *)
Lemma receive_moves s st id w send d q prv rep amt generate_work :
  can_receive s st id w send d q prv → uval receive_minimum ≤ uval amt →
  ∃ b s', wallet_receive_action id send rep amt generate_work s = Done (Some b, s') ∧
    delivered (ww_node s) [b] (ww_node s') ∧ ww_items s' = ww_items s ∧
    (digest_ok st b → a_lookup st (block_hash b) = None →
     ∃ r n' st', node_process b (ww_node s') = Done (r, n') ∧ code r = progress ∧
       store_rel (store (n_ledger n')) st' ∧
       (∃ i', a_accounts st' = <[d := i']> (a_accounts st) ∧ head i' = block_hash b ∧
          uval (balance i') = balance_before st d + uval (amount q)) ∧
       a_pending st' = delete (d, block_hash send) (a_pending st)).
Proof.
  intros Hcr Hmin. pose proof Hcr as [Hn Hs _ _ Hk [sc Esend] Hq Hd _].
  destruct (ok_ledger _ Hn) as (st0 & g & hist & Hs0 & HI & _). rewrite (store_rel_unique _ _ _ Hs0 Hs) in HI.
  destruct (receive_run s st g hist id w send d q prv rep amt generate_work Hcr HI Hmin) as (x & s' & Hrun & Hde & Hit).
  set (bal := (receiving st d rep q).2) in *.
  set (b := next_block d (a_accounts st !! d) (receiving st d rep q).1 bal (block_hash send) prv x) in *.
  assert (Hbal : uval bal = balance_before st d + uval (amount q)).
  { unfold bal, receiving, balance_before. destruct (a_accounts st !! d) as [i|] eqn:Ei; simpl; [|lia].
    apply uval_add_small. by eapply held_pending_bound. }
  assert (Hsf : sends_from (balance_before st d) b = false).
  { unfold b, next_block. cbn [sends_from hashables make_state_block th_balance]. apply Z.ltb_ge. pose proof (uval_range (amount q)). lia. }
  assert (Hz : block_hash send ≠ U 32 0).
  { destruct (inv_dom _ _ _ HI (block_hash send)) as [[m Em] _]; [by rewrite Esend|]. by apply (inv_block _ _ _ HI _ _ _ _ Esend Em). }
  exists b, s'. split_and!; [done..|]. intros Hdig Hf.
  assert (Hac : accepts st b d bal).
  { apply (next_block_accepts st g hist); [done|by eapply opened_publickey|done|done|]. fold b. rewrite Hsf. eauto. }
  destruct (node_process_accepted (ww_node s') st b _ _ (de_ok _ _ _ Hde) (de_rel _ _ _ Hde st Hs) Hdig Hac)
    as (r & n' & st' & a' & bal' & Hp & Hc & Hs' & Hac' & [_ (i' & Eacc & Hh & Eb) Hmv]).
  destruct (ac_states _ _ _ _ Hac') as [Ea Ebal]. unfold b, next_block in Ea, Ebal. cbn [hashables make_state_block th_account th_balance] in Ea, Ebal.
  rewrite Ea in Eacc, Hmv. rewrite Ebal in Eb, Hmv. exists r, n', st'. split_and!; [done..| |].
  - exists i'. by rewrite Eb, Hbal.
  - unfold moves in Hmv. rewrite Hsf in Hmv.
    assert (Hr : receives_from (balance_before st d) b = Some (block_hash send)).
    { unfold receives_from. unfold b, next_block in *. rewrite Hsf. cbn [hashables make_state_block th_link].
      by rewrite (proj2 (is_zero_false _) Hz). }
    rewrite Hr in Hmv. by destruct Hmv as (q' & _ & _ & Epend).
Qed.

(** ** Sends with a number *)

(** A send with a number is made once.  When the block recorded
    under the number is in the ledger, a send with that number, whatever it
    asks for, ends with that block: it is republished, nothing is queued, and
    neither the ledger nor the wallets nor the numbers change. *)
Lemma send_once s st id a to amt generate_work key b :
  node_ok (ww_node s) → store_rel (store (n_ledger (ww_node s))) st → key ≠ [] →
  ww_send_action_ids s !! key = Some (block_hash b) → fst <$> a_lookup st (block_hash b) = Some b →
  ∃ n', wallet_send_action id a to amt generate_work (Some key) s = Done (Some b, set_node n' s) ∧ stays (ww_node s) n'.
Proof.
  intros Hn Hs Hk Hid Hb. unfold wallet_send_action, known_send.
  assert (Hz : Nat.eqb (length key) 0 = false) by (by destruct key).
  pose proof (qwp_republish_block b (ww_node s) Hn) as Hw. apply wp_run in Hw as ([] & n' & Hrun & Hq & _).
  exists n'. split; [|by apply quiet_stays].
  rewrite (bind_done _ _ s (Some b, false) (set_node n' s)); [done|]. rewrite Hz.
  rewrite (bind_done _ _ s (Some (block_hash b)) s) by (unfold gets; by rewrite Hid).
  rewrite (bind_done _ _ s (Some b) s) by (apply on_node_read; rewrite (read_block _ st) by done; by rewrite Hb).
  rewrite (bind_done _ _ s tt (set_node n' s)) by (unfold on_node; by rewrite Hrun). done.
Qed.
End sends.
