(* ===== verification/LedgerSamples.v ===== *)
(** * Sample runs of the ledger

    The theorems of file LedgerProps applied to ledgers reached from the
    genesis of the test network with the concrete blocks of file Concrete. *)

From S2P Require Import Prelude Crypto Blocks Common Stats Store Ledger Concrete StoreLemmas.
From S2P Require Import LedgerInv Commit Process Cascade Reach Accept LedgerProps.

(** Decision procedures for the conditions on digests and blocks. *)
Definition digest_okb (s : astore) (b : block) : bool :=
  negb (is_zero (block_hash b)) && negb (u_eqb (block_hash b) (U 32 1)) &&
  negb (u_eqb (block_hash b) genesis_account) && bool_decide (a_info s !! block_hash b = None).

Lemma digest_okb_true s b : digest_okb s b = true → digest_ok s b.
Proof.
  unfold digest_okb. rewrite !andb_true_iff, !negb_true_iff, is_zero_false, !u_eqb_false.
  intros [[[? ?] ?] Hi%bool_decide_eq_true]. split; [done|]. intros _ i. by rewrite Hi.
Qed.

Definition removableb (s : astore) (h : u256) : bool :=
  match a_lookup s h with Some (b, _) => negb (genesis_open b) | None => false end.

Lemma removableb_true s h : removableb s h = true → removable_block s h.
Proof.
  unfold removableb, removable_block. destruct (a_lookup s h) as [[b sc]|]; [|done].
  intros ?%negb_true_iff. eauto.
Qed.

Definition fuel_okb (l : ledger astore) (fuel : nat) : bool := Nat.leb (enough_fuel l) fuel.
Lemma fuel_okb_true l fuel : fuel_okb l fuel = true → (enough_fuel l ≤ fuel)%nat.
Proof. apply Nat.leb_le. Qed.

(** The ledger and the code after a block. *)
Definition after (b : block) (l : ledger astore) : ledger astore :=
  match process 100 b l with Done (_, l') => l' | Fault _ => l end.
Definition result (b : block) (l : ledger astore) : process_return :=
  match process 100 b l with Done (r, _) => r | Fault _ => return_code old end.

Lemma after_run l b : reach l → digest_okb (store l) b = true → fuel_okb l 100 = true →
  process 100 b l = Done (result b l, after b l).
Proof.
  intros Hl Hd%digest_okb_true Hf%fuel_okb_true. destruct (reach_valid _ Hl) as (g & hist & HI).
  destruct (process_run _ _ _ _ _ HI Hd Hf) as (r & l' & Hr & _).
  unfold result, after. by rewrite Hr.
Qed.

Lemma after_reach l b : reach l → digest_okb (store l) b = true → fuel_okb l 100 = true →
  reach (after b l).
Proof.
  intros Hl Hd Hf. apply (reach_process l 100 b (result b l)); [done| | |by apply after_run].
  - by apply digest_okb_true.
  - by apply fuel_okb_true.
Qed.

(** ** The ledgers of the sample *)

Lemma test_genesis_block : genesis_block test_open.
Proof.
  unfold genesis_block, hash_ok.
  split_and!; [reflexivity..|apply is_zero_false|apply u_eqb_false|apply u_eqb_false];
    vm_compute; reflexivity.
Qed.

Lemma genesis_store_run : genesis_initialize test_open (U 8 1500) fresh_store = Done (tt, genesis_store).
Proof. unfold genesis_store, run_genesis. by rewrite (genesis_run test_open). Qed.

Lemma reach0 : reach genesis_ledger.
Proof. by apply (reach_genesis _ test_open (U 8 1500)); [apply test_genesis_block|apply genesis_store_run]. Qed.

Definition ledger1 := after (BSend send1) genesis_ledger.
Definition ledger2 := after (BOpen open1) ledger1.
Definition ledger3 := after (BSend send2) ledger2.
Definition ledger4 := after (BReceive receive2) ledger3.

Lemma reach1 : reach ledger1.
Proof. apply after_reach; [apply reach0|vm_compute; reflexivity|vm_compute; reflexivity]. Qed.
Lemma reach2 : reach ledger2.
Proof. apply after_reach; [apply reach1|vm_compute; reflexivity|vm_compute; reflexivity]. Qed.
Lemma reach3 : reach ledger3.
Proof. apply after_reach; [apply reach2|vm_compute; reflexivity|vm_compute; reflexivity]. Qed.
Lemma reach4 : reach ledger4.
Proof. apply after_reach; [apply reach3|vm_compute; reflexivity|vm_compute; reflexivity]. Qed.

Lemma digest_send1 : digest_okb (store genesis_ledger) (BSend send1) = true.
Proof. vm_compute. reflexivity. Qed.
Lemma fuel0 : fuel_okb genesis_ledger 100 = true.
Proof. vm_compute. reflexivity. Qed.
Lemma fuel1 : fuel_okb ledger1 100 = true.
Proof. vm_compute. reflexivity. Qed.
Lemma fuel4 : fuel_okb ledger4 100 = true.
Proof. vm_compute. reflexivity. Qed.
Lemma run1 : process 100 (BSend send1) genesis_ledger = Done (result (BSend send1) genesis_ledger, ledger1).
Proof. apply after_run; [apply reach0|apply digest_send1|apply fuel0]. Qed.
Lemma progress1 : code (result (BSend send1) genesis_ledger) = progress.
Proof. vm_compute. reflexivity. Qed.

(** A second successor for the genesis block, and a second receive of [send2]. *)
Definition fork1 : change_block :=
  make_change_block (block_hash (BOpen test_open)) key1 test_account test_account (U 8 0).
Definition again2 : receive_block :=
  make_receive_block (block_hash (BReceive receive2)) (block_hash (BSend send2))
    test_account test_account (U 8 0).

Lemma again2_source : source_of (BReceive again2) = Some (rh_source (hashables receive2)).
Proof. vm_compute. reflexivity. Qed.
Lemma digest_fork1 : digest_okb (store ledger1) (BChange fork1) = true.
Proof. vm_compute. reflexivity. Qed.
Lemma digest_again2 : digest_okb (store ledger4) (BReceive again2) = true.
Proof. vm_compute. reflexivity. Qed.
Lemma removable1 : removableb (store ledger1) (block_hash (BSend send1)) = true.
Proof. vm_compute. reflexivity. Qed.

(** Lookups in the tables of the sample ledgers. *)
Lemma genesis_next1 :
  a_lookup (store ledger1) (block_hash (BOpen test_open)) =
    Some (BOpen test_open, block_hash (BSend send1)).
Proof. vm_compute. reflexivity. Qed.
Lemma send1_hash : is_zero (block_hash (BSend send1)) = false.
Proof. vm_compute. reflexivity. Qed.
Lemma receive_in4 :
  a_lookup (store ledger4) (block_hash (BReceive receive2)) = Some (BReceive receive2, U 32 0).
Proof. vm_compute. reflexivity. Qed.
Lemma account_in1 : is_Some (a_accounts (store ledger1) !! test_account).
Proof. vm_compute. eexists. reflexivity. Qed.

(** ** The theorems at the sample ledgers *)

Lemma process_total_witness : ∃ r l', process 100 (BSend send1) genesis_ledger = Done (r, l') ∧ reach l'.
Proof.
  destruct (process_total genesis_ledger 100 (BSend send1) reach0
    (digest_okb_true _ _ digest_send1) (fuel_okb_true _ _ fuel0)) as (r & l' & Hr & Hl & _).
  exists r, l'. exact (conj Hr Hl).
Defined.

Lemma process_accepts_witness : ∃ a bal, accepts (store genesis_ledger) (BSend send1) a bal.
Proof.
  exact (proj1 (proj1 (process_accepts genesis_ledger ledger1 100 (BSend send1) _ reach0
    (digest_okb_true _ _ digest_send1) (fuel_okb_true _ _ fuel0) run1)) progress1).
Defined.

Lemma rollback_total_witness :
  ∃ l', rollback 100 100 (block_hash (BSend send1)) ledger1 = Done (tt, l') ∧ reach l'.
Proof.
  destruct (rollback_total ledger1 100 100 (block_hash (BSend send1)) reach1
    (removableb_true _ _ removable1) (fuel_okb_true _ _ fuel1) (fuel_okb_true _ _ fuel1))
    as (l' & Hr & Hl & _).
  exists l'. exact (conj Hr Hl).
Defined.

Lemma process_rollback_witness :
  ∃ l2, rollback 100 100 (block_hash (BSend send1)) ledger1 = Done (tt, l2) ∧
    store l2 ≡ store genesis_ledger.
Proof.
  exact (process_rollback genesis_ledger ledger1 100 100 100 (BSend send1) _ reach0
    (digest_okb_true _ _ digest_send1) (fuel_okb_true _ _ fuel0) run1 progress1
    (fuel_okb_true _ _ fuel1) (fuel_okb_true _ _ fuel1)).
Defined.

Lemma supply_conserved_witness : held (store ledger4) + in_flight (store ledger4) = uval genesis_amount.
Proof. exact (supply_conserved ledger4 reach4). Defined.

Lemma weights_exact_witness : ∃ w, representation_get key2 (store ledger2) = Done (w, store ledger2).
Proof. destruct (weights_exact ledger2 key2 reach2) as (w & Hw & _). exists w. exact Hw. Defined.

Lemma checksum_heads_witness :
  ledger_checksum ledger4 = Done (xor_heads (a_accounts (store ledger4)), ledger4).
Proof. exact (checksum_heads ledger4 reach4). Defined.

Lemma balance_recomputed_witness : ∃ i, a_accounts (store ledger1) !! test_account = Some i ∧
  ledger_balance 100 (head i) ledger1 = Done (balance i, ledger1).
Proof.
  destruct account_in1 as [i Ei]. exists i.
  exact (conj Ei (proj1 (balance_recomputed ledger1 100 test_account i reach1
    (fuel_okb_true _ _ fuel1) Ei))).
Defined.

Lemma account_of_block_witness : ∃ a,
  ledger_account 100 (block_hash (BOpen test_open)) ledger1 = Done (a, ledger1) ∧
  on_chain (store ledger1) a (block_hash (BOpen test_open)).
Proof.
  exact (account_of_block ledger1 100 (block_hash (BOpen test_open)) _ _ reach1
    (fuel_okb_true _ _ fuel1) genesis_next1).
Defined.


Lemma fork_rejected_witness : store (after (BChange fork1) ledger1) = store ledger1.
Proof.
  exact (proj2 (fork_rejected ledger1 _ 100 (BChange fork1) _ _ _ reach1
    (digest_okb_true _ _ digest_fork1) (fuel_okb_true _ _ fuel1) genesis_next1
    (proj1 (is_zero_false _) send1_hash) (after_run _ _ reach1 digest_fork1 fuel1))).
Defined.

Lemma received_once_witness : store (after (BReceive again2) ledger4) = store ledger4.
Proof.
  exact (proj2 (received_once ledger4 _ 100 _ receive2 _ (BReceive again2) _ reach4
    (digest_okb_true _ _ digest_again2) (fuel_okb_true _ _ fuel4) receive_in4 again2_source
    (after_run _ _ reach4 digest_again2 fuel4))).
Defined.
