(* ===== verification/StoreSamples.v ===== *)
(** * Sample runs on LMDB tables

    The theorems of StoreProps, StoreCaches and VoteProps applied to the
    tables of file Lmdb that live in finite maps: an empty database, the
    ledger of the test network on it, and votes. *)

From S2P Require Import Prelude Crypto Blocks Common Stats Store Ledger Votes Lmdb Versioning.
From S2P Require Import BlockStore Concrete StoreLemmas StoreRefine Upgrades.
From S2P Require Import LedgerInv Commit Process Cascade Reach Accept LedgerProps.
From S2P Require Import VoteProps StoreProps StoreCaches LedgerSamples.

(** Unordered containers visited in the order of the map. *)
#[export] Instance map_order : Unordered := {|
  iterate K V _ _ m := map_to_list m;
  iterate_perm K V _ _ m := Permutation_refl (map_to_list m);
|}.

(** ** The stores of the sample *)

Definition empty_db : block_store := Block_store _ map_txn_empty ∅ ∅.

Definition run_store {A} (m : M block_store A) (c : block_store) : block_store :=
  match m c with Done (_, c') => c' | Fault _ => c end.

(** The store after [checksum_put (0, 0, 0)], and after the genesis block. *)
Definition fresh_db : block_store := run_store (lmdb_checksum_put (U 8 0) (U 1 0) (U 32 0)) empty_db.
Definition genesis_db : block_store := run_store (genesis_initialize test_open (U 8 1500)) fresh_db.

Lemma empty_db_rel : store_rel empty_db astore_empty.
Proof. apply empty_refines. done. Qed.

Lemma run_store_rel {A} (m : M block_store A) (k : M astore A) c s a s' :
  sim store_rel m k → store_rel c s → k s = Done (a, s') → store_rel (run_store m c) s'.
Proof.
  intros Hs Hc Hk. destruct (sim_run _ _ _ _ _ _ _ Hs Hc Hk) as (c' & Hm & Hr).
  unfold run_store. by rewrite Hm.
Qed.

Lemma fresh_db_rel : store_rel fresh_db fresh_store.
Proof.
  apply (run_store_rel _ _ _ _ tt _ (checksum_put_sim (U 8 0) (U 1 0) (U 32 0)) empty_db_rel).
  reflexivity.
Qed.

Lemma genesis_db_rel : store_rel genesis_db genesis_store.
Proof.
  apply (run_store_rel _ _ _ _ tt _ (sim_genesis store_rel test_open (U 8 1500)) fresh_db_rel).
  apply genesis_store_run.
Qed.

(** The ledger of the test network on LMDB tables, and after one send. *)
Definition on_db (c : block_store) (l : ledger astore) : ledger block_store :=
  Ledger c (stats l) (clock l) (bootstrap_weights l) (bootstrap_weight_max_blocks l)
    (check_bootstrap_weights l).
Definition db_ledger0 : ledger block_store := on_db genesis_db genesis_ledger.
Definition db_ledger1 : ledger block_store :=
  match process 100 (BSend send1) db_ledger0 with Done (_, l) => l | Fault _ => db_ledger0 end.

Lemma db_ledger0_rel : ledger_rel store_rel db_ledger0 genesis_ledger.
Proof. split; [apply genesis_db_rel|done]. Qed.
Lemma db_ledger1_rel : ledger_rel store_rel db_ledger1 ledger1.
Proof.
  destruct (sim_run _ _ _ _ _ _ _ (sim_process store_rel 100 (BSend send1)) db_ledger0_rel run1)
    as (l & Hl & Hr).
  unfold db_ledger1. by rewrite Hl.
Qed.

Definition db_version (v : Z) (c : block_store) : block_store := run_store (version_put v) c.

Lemma db_version_rel v c s : store_rel c s → store_rel (db_version v c) s.
Proof.
  intros []. constructor; intros; simpl in *; eauto.
  unfold upd. rewrite decide_False; [by apply rf_blocks|]. by destruct ty; simplify_eq/=.
Qed.

(** ** The properties of the store *)

Lemma open_fresh_witness : ∃ c',
  block_store_open 3 false test_open (U 32 0) empty_db = Done (tt, c') ∧
    store_rel c' fresh_store ∧ version_get c' = Done (10, c').
Proof. apply (open_fresh 3 test_open (U 32 0) empty_db); [lia|reflexivity|reflexivity]. Defined.

(** The checksum of the ledger with only the genesis block is lost. *)
Lemma reopen_resets_checksum_witness : ∃ c',
  block_store_open 3 false test_open (U 32 0) (db_version 10 genesis_db) = Done (tt, c') ∧
    reopened 10 (db_version 10 genesis_db) c' ∧ store_rel c' (set_checksum <[U 8 0 := U 32 0]> genesis_store) ∧
    checksum_get (U 8 0) (U 1 0) c' = Done (Some (U 32 0), c') ∧
    version_get c' = Done (10, c').
Proof.
  apply (reopen_resets_checksum 3 test_open (U 32 0) (db_version 10 genesis_db) genesis_store 10).
  - apply db_version_rel, genesis_db_rel.
  - by left.
  - unfold db_version, run_store, version_put, db_put. simpl. rewrite upd_eq.
    apply lookup_insert_eq.
Defined.

Lemma lmdb_process_witness : ∃ r l' k',
  process 100 (BSend send1) db_ledger0 = Done (r, l') ∧
  process 100 (BSend send1) genesis_ledger = Done (r, k') ∧
  ledger_rel store_rel l' k' ∧ reach k'.
Proof.
  exact (lmdb_process db_ledger0 genesis_ledger 100 (BSend send1) db_ledger0_rel reach0
    (digest_okb_true _ _ digest_send1) (fuel_okb_true _ _ fuel0)).
Defined.

Lemma lmdb_rollback_witness : ∃ l' k',
  rollback 100 100 (block_hash (BSend send1)) db_ledger1 = Done (tt, l') ∧
  rollback 100 100 (block_hash (BSend send1)) ledger1 = Done (tt, k') ∧
  ledger_rel store_rel l' k' ∧ reach k'.
Proof.
  exact (lmdb_rollback db_ledger1 ledger1 100 100 (block_hash (BSend send1)) db_ledger1_rel reach1
    (removableb_true _ _ removable1) (fuel_okb_true _ _ fuel1) (fuel_okb_true _ _ fuel1)).
Defined.

(** ** The properties of the caches and of elections *)

Definition sample_vote (n : Z) : vote := make_vote test_account (U 32 5) (U 8 n) (BSend send1).
Definition voted_db : block_store := set_vote_cache empty_db {[ test_account := sample_vote 3 ]}.

Lemma voted_db_known : votes_known voted_db {[ test_account := sample_vote 3 ]}.
Proof.
  exists ∅. split; [by rewrite encoded_empty|]. unfold voted_db. simpl. by rewrite map_union_empty.
Qed.

(** A block waiting for the genesis block, beside a vote. *)
Definition waiting_db : block_store :=
  set_unchecked_cache voted_db {[ block_hash (BOpen test_open) := [BSend send1] ]}.
Lemma waiting_db_ok : unchecked_ok waiting_db.
Proof. intros k vs Hk. simpl in Hk. by rewrite lookup_empty in Hk. Qed.

Lemma flush_preserves_witness : ∃ c', flush waiting_db = Done (tt, c') ∧
  unchecked_cache c' = ∅ ∧ ∀ h b, waits c' h b ↔ waits waiting_db h b.
Proof.
  destruct (flush_preserves waiting_db {[ test_account := sample_vote 3 ]}) as (c' & Hc & _ & Hu & _ & _ & Hw).
  - exact voted_db_known.
  - exact waiting_db_ok.
  - exists c'. exact (conj Hc (conj Hu Hw)).
Defined.

(** The genesis account votes in an election of the test network. *)
Definition voting_ledger : ledger astore :=
  Ledger genesis_store ∅ (clock genesis_ledger) ∅ (U 8 0) false.
Definition sample_votes : votes := Votes (U 32 9) {[ test_account := BSend send1 ]}.

Lemma voting_reach : reach voting_ledger.
Proof. by apply (reach_genesis _ test_open (U 8 1500)); [apply test_genesis_block|apply genesis_store_run]. Qed.

Lemma winner_max_witness : ∃ t b, winner sample_votes voting_ledger = Done ((t, b), voting_ledger) ∧
  uval t = support (store voting_ledger) sample_votes b.
Proof.
  destruct (winner_max voting_ledger sample_votes voting_reach) as (t & b & Hr & _ & Ht & _).
  - reflexivity.
  - apply insert_non_empty.
  - exists t, b. exact (conj Hr Ht).
Defined.
