(* ===== verification/TextSamples.v ===== *)
(** * Concrete texts of numbers and accounts

    An executable printer and reader of numbers that meets what the texts of
    lib/numbers.cpp rely on, and the properties of NumberProps at concrete
    inputs. *)

From stdpp Require Import strings gmap.
From S2P Require Import Prelude Crypto Numbers Concrete NumberProps Blocks Votes BlockReaders BlockProps Messages.
From S2P Require Import MessageProps.
From Stdlib Require Import Ascii.

Local Open Scope Z_scope.
#[local] Transparent write_be be_bytes be_val le_bytes le_val modulus.

(** ** Positional notation *)

Definition digit_value (c : ascii) : option Z :=
  Z.of_nat ∘ fst <$> list_find (c =.) text_digits.

(** The value of the longest prefix of digits, and whether it is the text. *)
Fixpoint read_digits (b acc : Z) (t : text) : Z * bool :=
  match t with
  | [] => (acc, true)
  | c :: t =>
      match digit_value c with
      | Some d => if d <? b then read_digits b (acc * b + d) t else (acc, false)
      | None => (acc, false)
      end
  end.

#[export] Instance number_text_plain : NumberText := {|
  print_number b z := map text_digit (positional (S (Z.to_nat (Z.log2 z))) (base_value b) z []);
  read_number b checked bits t :=
    let '(z, all) := read_digits (base_value b) 0 t in
    if checked && (2 ^ bits <=? z) then None else Some (z mod 2 ^ bits, all);
|}.

Lemma digit_value_digit d : 0 ≤ d < 16 → digit_value (text_digit d) = Some d.
Proof.
  intros Hd. digit_cases d; repeat split; by vm_compute.
Qed.

Lemma read_digits_spec b acc ds : base_digits b ds →
  read_digits (base_value b) acc (map text_digit ds) = (base_number b acc ds, true).
Proof.
  intros Hs. revert acc. induction Hs as [|d ds Hd _ IH]; intros acc; [done|]. cbn [map read_digits].
  rewrite digit_value_digit by (destruct b; simpl in Hd; lia).
  rewrite (proj2 (Z.ltb_lt _ _)) by lia. apply IH.
Qed.

Lemma digit_value_number b c d : digit_value c = Some d → 0 ≤ d < base_value b → number_character b c = true.
Proof.
  unfold digit_value. intros Hd Hr.
  destruct (list_find (c =.) text_digits) as [[i x]|] eqn:E; [|done].
  apply list_find_Some in E as (Hi & <- & _). simplify_eq/=.
  apply list_elem_of_lookup_2 in Hi as Hin. unfold number_character. apply existsb_exists. exists c.
  split; [|apply Ascii.eqb_refl]. destruct b; simpl in Hr.
  - do 16 (destruct i as [|i]; [simpl in Hi; injection Hi as <-; simpl; tauto|]). lia.
  - do 10 (destruct i as [|i]; [simpl in Hi; injection Hi as <-; simpl; tauto|]). lia.
Qed.

Lemma read_digits_stop b acc ds c t : base_digits b ds → number_character b c = false →
  read_digits (base_value b) acc (map text_digit ds ++ c :: t) = (base_number b acc ds, false).
Proof.
  intros Hs Hc. revert acc. induction Hs as [|d ds Hd _ IH]; intros acc; cbn [map app read_digits].
  - destruct (digit_value c) as [d|] eqn:E; [|done]. destruct (Z.ltb_spec d (base_value b)); [|done].
    rewrite (digit_value_number b c d) in Hc; [done..|]. split; [|done].
    unfold digit_value in E. by destruct (list_find _ _) as [[]|]; simplify_eq/=; lia.
  - rewrite digit_value_digit by (destruct b; simpl in Hd; lia).
    rewrite (proj2 (Z.ltb_lt _ _)) by lia. apply IH.
Qed.

#[export] Instance number_text_plain_spec : NumberTextSpec.
Proof.
  split.
  - intros b z Hz. edestruct (positional_spec (S (Z.to_nat (Z.log2 z))) b z []) as (d & ds & Hp & Hr).
    { split; [done|]. rewrite Nat2Z.inj_succ, Z2Nat.id by apply Z.log2_nonneg.
      destruct (decide (z = 0)) as [->|]; [done|]. apply Z.log2_spec. lia. }
    { lia. }
    exists d, ds. split; [|done]. unfold print_number, number_text_plain.
    rewrite Hp. by rewrite app_nil_r.
  - intros b checked bits d ds Hs _. unfold read_number, number_text_plain.
    by rewrite read_digits_spec.
  - intros b checked bits ds c t z all Hs Hc. unfold read_number, number_text_plain.
    rewrite read_digits_stop by done. case_match; [done|]. by intros [= _ <-].
Qed.

(** ** The properties at concrete inputs *)

Lemma number_roundtrip_witness :
  decode_hex_512 (encode_hex (U 64 12)) = Some (U 64 12) ∧
  decode_dec_128 (encode_dec (U 16 1234)) = Some (U 16 1234).
Proof.
  destruct (number_roundtrip (U 16 1234) (U 32 99) (U 64 12)) as (_ & _ & _ & _ & _ & Hz & Hx & _).
  exact (conj Hz Hx).
Defined.

(** An account whose text has the digits 3, 14 before its check digits. *)
Definition alias_account : u256 := U 32 (3 * 32 + 14).
Definition alias_pre : list Z := replicate 50 0.
Definition alias_post : list Z := drop 52 (rev (digits 60 (account_number alias_account))).

Lemma account_alias_witness :
  decode_account (lit "bdm_" ++ map digit alias_pre ++ digit 1 :: "l"%char :: map digit alias_post)
    = Done (Some alias_account).
Proof.
  apply (account_alias alias_account alias_pre 3 alias_post "l"%char).
  - vm_compute. reflexivity.
  - apply Forall_forall. intros z Hz.
    assert (forallb (λ z, (0 <=? z) && (z <? 32)) (alias_pre ++ 3 :: 14 :: alias_post) = true) as Hb
      by (vm_compute; reflexivity).
    rewrite forallb_forall in Hb. specialize (Hb z). apply list_elem_of_In in Hz. apply Hb in Hz. lia.
  - discriminate.
  - lia.
  - split; vm_compute; reflexivity.
Defined.

(** ** Concrete property trees

    Property trees as finite maps from keys to texts, and the properties of
    BlockProps that need them at concrete blocks; a message with a block. *)

Local Open Scope Z_scope.

(** The texts of a tree, one after the other. *)
#[export] Instance map_tree : PropertyTree := {|
  ptree := gmap string text;
  ptree_empty := ∅;
  ptree_put k t m := <[k := t]> m;
  ptree_get k m := m !! k;
  write_json m := mjoin (snd <$> map_to_list m);
|}.

#[export] Instance map_tree_spec : PropertyTreeSpec.
Proof.
  constructor. intros k k' t tree _ _. simpl. destruct (String.eqb_spec k k') as [->|Hk].
  - apply lookup_insert_eq.
  - by apply lookup_insert_ne.
Qed.

Definition sample_state : state_block :=
  Signed (State_hashables (U 32 1) (U 32 2) (U 32 3) (U 16 1000) (U 32 5)) (U 64 6) (U 8 7).

Lemma json_roundtrip_witness : ∃ tree,
  block_tree (BState sample_state) = Done tree ∧
  deserialize_block_json (U 8 9) tree = Done (Some (BState sample_state)).
Proof. exact (json_roundtrip (U 8 9) (BState sample_state)). Defined.

Lemma message_roundtrip_witness : ∃ buffer body,
  message_serialize badem_test_network (make_publish (BSend send1)).1 (Publish (BSend send1)) = Done buffer ∧
  header_deserialize badem_test_network (buffer ++ []) = Some ((make_publish (BSend send1)).1, body) ∧
  read_message mt_publish (make_publish (BSend send1)).1 body = Done (Some (Publish (BSend send1), [])).
Proof.
  apply (message_roundtrip badem_test_network (make_publish (BSend send1)).1 (Publish (BSend send1)) []).
  split; [reflexivity|apply header_block_type_set].
Defined.
