(* ===== verification/NodeSamples.v ===== *)
(** * Sample runs of the node

    The theorems about the node applied to a node of the test network whose
    ledger has the genesis block, with a block queued and another one that
    waits for it. *)

From S2P Require Import Prelude Crypto Blocks Common Stats Store Ledger Votes Lmdb Versioning.
From S2P Require Import BlockStore Messages MultiIndex Node Peers NodeCaches Sending Elections BlockProcessor.
From S2P Require Import Receiving Concrete StoreLemmas LedgerInv Accounts Commit Cascade Reach Accept Queries.
From S2P Require Import VoteProps StoreRefine StoreProps StoreCaches MessageProps.
From S2P Require Import NodeFrame NodeLedger NodeOk NodeQuiet NodeSends NodePeers NodeElections NodeSafe NodeAnnounce.
From S2P Require Import NodeProcessor NodeDrain NodeReceive NodeReach NodeQuorum NodePeers LedgerSamples StoreSamples.

(** ** The configuration *)

#[export] Instance test_config : NodeConfig := {|
  badem_network := badem_test_network;
  local_port := U 2 54000;
  online_weight_minimum := U 16 1000;
  online_weight_quorum := U 4 50;
  bootstrap_fraction_numerator := U 4 1;
  enable_voting := true;
  vote_logging := true;
  preconfigured_peers := [];
|}.
(** One wallet, unlocked, with the key of the genesis account. *)
#[export] Instance sample_wallets : Wallets := {|
  wallet_items := [Wallet [test_account] (λ a, if u_eqb a test_account then Some test_account else None) true test_account];
|}.
#[export] Instance sample_wallets_readable : ReadableWallets.
Proof. intros w a ->%list_elem_of_singleton _ ->%list_elem_of_singleton. by eexists. Qed.

(** A counter as random numbers. *)
#[local] Obligation Tactic := idtac.
#[export] Program Instance counter_pool : RandomPool := {|
  rng := nat;
  generate_word32 lo hi r := (lo, Datatypes.S r);
  generate_block k r := (replicate k (U 1 0), Datatypes.S r);
|}.
Next Obligation. intros lo hi r Hle. simpl. lia. Qed.
Next Obligation. intros k r. simpl. apply length_replicate. Qed.

(** ** The node *)

(** The first two sends of the sample ledger, with their proofs of work. *)
Definition worked1 : block := BSend (Signed (hashables send1) (signature send1) (U 8 243)).
Definition worked2 : block := BSend (Signed (hashables send2) (signature send2) (U 8 212)).

Lemma worked1_hash : block_hash worked1 = block_hash (BSend send1).
Proof. reflexivity. Qed.

(** The store with the second send waiting for the first. *)
Definition node_db : block_store := set_unchecked_cache genesis_db {[ block_hash worked1 := [worked2] ]}.

Definition node_ledger : ledger block_store := on_db node_db voting_ledger.
Definition sample_election : election := make_election worked1 no_action.
Definition sample_active : active_transactions :=
  Active_transactions
    {[ block_root worked1 := Conflict_info (block_root worked1) 0 (U 4 0) (worked1, None) ]} [] [sample_election].

Definition sample_peer : endpoint := Endpoint (address_v6 (U 16 0xffff08080808)) (U 2 7075).
Definition sample_arrival : block_arrival_info := Block_arrival_info (seconds 999) (block_hash worked1).

Definition sample_node : node :=
  Node _ _ node_ledger (Peer_container [make_peer sample_peer 8 (seconds 990)] []) sample_active []
    [sample_arrival] (Online_reps [] (U 16 0)) ∅
    (Block_processor [worked1] [] false) [] [] [] (λ i, seconds 1000 + Z.of_nat i) 0%nat.

Lemma node_db_rel : store_rel node_db genesis_store.
Proof. exact genesis_db_rel. Qed.

Lemma worked1_work : valid_work worked1.
Proof. vm_compute. reflexivity. Qed.
Lemma worked2_work : valid_work worked2.
Proof. vm_compute. reflexivity. Qed.

Lemma genesis_size : size (a_blocks genesis_store) = 1%nat.
Proof. vm_compute. reflexivity. Qed.

Lemma no_dups k : dups (txn node_db) unchecked !! k = None.
Proof. reflexivity. Qed.
Lemma node_db_waits h b : waits node_db h b ↔ h = block_hash worked1 ∧ b = worked2.
Proof.
  unfold waits, stored_values. rewrite no_dups. unfold cached_unchecked, node_db. cbn [unchecked_cache set_unchecked_cache].
  rewrite lookup_singleton. case_decide; set_solver.
Qed.
Lemma node_db_cached h : NoDup (cached_unchecked h node_db).
Proof.
  unfold cached_unchecked, node_db. cbn [unchecked_cache set_unchecked_cache]. rewrite lookup_singleton.
  case_decide; [apply NoDup_singleton|apply NoDup_nil_2].
Qed.

Lemma sample_ledger_ok : ledger_ok node_db.
Proof.
  destruct (reach_valid _ voting_reach) as (g & hist & HI). exists genesis_store, g, hist.
  split_and!; [exact node_db_rel|exact HI|]. rewrite (inv_size _ _ _ HI).
  change (store voting_ledger) with genesis_store. rewrite genesis_size. lia.
Qed.
Lemma sample_votes_ok : votes_ok node_db.
Proof. exists ∅. by rewrite encoded_empty. Qed.
Lemma sample_waiting_ok : waiting_ok node_db.
Proof.
  split_and!.
  - intros k vs. by rewrite no_dups.
  - intros h. split; [apply node_db_cached|]. intros b _. unfold stored_values. rewrite no_dups. apply not_elem_of_empty.
  - intros h b [_ ->]%node_db_waits. exact worked2_work.
Qed.
Lemma sample_active_ok : active_ok sample_active.
Proof.
  split; simpl.
  - intros r ci [<- <-]%lookup_singleton_Some. split; [done|]. by exists sample_election.
  - intros j x [_ <-]%list_lookup_singleton_Some. apply map_non_empty_singleton.
Qed.

Lemma sample_peers_ok : peers_ok (n_peers sample_node).
Proof.
  split; [apply NoDup_singleton|]. intros i Hi. apply list_elem_of_singleton in Hi as ->. vm_compute. reflexivity.
Qed.

Lemma sample_node_ok : node_ok sample_node.
Proof.
  constructor.
  - exact sample_ledger_ok.
  - exact sample_votes_ok.
  - exact sample_waiting_ok.
  - intros b Hb. apply list_elem_of_singleton in Hb as ->. exact worked1_work.
  - exact sample_peers_ok.
  - exact sample_active_ok.
  - split; simpl; [by intros t ?%elem_of_nil|by intros w t ?%elem_of_nil].
  - split_and!; [apply NoDup_nil_2|simpl; lia|]. by intros i ?%elem_of_nil.
  - apply NoDup_singleton.
  - apply NoDup_nil_2.
Qed.

Lemma sample_waiting : waiting sample_node [(block_hash worked1, worked2)].
Proof.
  split; [apply NoDup_singleton|]. intros h b. rewrite list_elem_of_singleton.
  change (store (n_ledger sample_node)) with node_db. rewrite node_db_waits. naive_solver.
Qed.

(** ** A check of the conditions on blocks

    For legacy blocks whose digest names no entry of the cached block data. *)

Definition hash_okb (b : block) : bool :=
  negb (is_zero (block_hash b)) && negb (u_eqb (block_hash b) (U 32 1)) && negb (u_eqb (block_hash b) genesis_account).
Lemma hash_okb_true b : hash_okb b = true → hash_ok b.
Proof.
  unfold hash_okb. rewrite !andb_true_iff, !negb_true_iff, is_zero_false, !u_eqb_false. by intros [[? ?] ?].
Qed.

Definition fineb (n : node) (b : block) : bool :=
  let c := store (n_ledger n) in
  negb (work_validate badem_network (block_root b) (block_work b)) && hash_okb b && legacy b &&
  match lmdb_block_info_get (block_hash b) c with Done (None, _) => true | _ => false end &&
  (Z.of_nat (stored_blocks c) + 1 <? 2 ^ 64).
Lemma fineb_fine n b : fineb n b = true → fine n b.
Proof.
  unfold fineb. rewrite !andb_true_iff, negb_true_iff, Z.ltb_lt. intros [[[[Hw Hh] Hl] Hi] Hs]. split; [done|].
  intros s Hr. rewrite (stored_blocks_size _ _ Hr) in Hs.
  destruct (sim_read_run _ _ _ _ (block_info_get_sim (block_hash b)) Hr) as [c' Hg]. rewrite Hg in Hi.
  split_and!; [|by destruct b|done]. split; [by apply hash_okb_true|]. intros _ i Ei. by rewrite Ei in Hi.
Qed.

(** No forced blocks, and every block taken passes the check. *)
Fixpoint calmb (k : nat) (n : node) : bool :=
  match k with
  | O => true
  | Datatypes.S k =>
      match take_block n with
      | Done (Some (b, forced), n1) => negb forced && fineb n1 b &&
          match process_receive_one b n1 with Done (_, n3) => calmb k n3 | Fault _ => true end
      | _ => true
      end
  end.
Lemma calmb_calm k n : calmb k n = true → calm k n.
Proof.
  revert n. induction k as [|k IH]; intros n; [done|]. cbn [calmb calm].
  destruct (take_block n) as [[[[b forced]|] n1]|]; try done.
  rewrite !andb_true_iff, negb_true_iff. intros [[-> Hf%fineb_fine] Hr]. split; [done|]. cbn. split; [done|].
  destruct (process_receive_one b n1) as [[r n3]|]; [by apply IH|done].
Qed.

Lemma sample_calm : calmb 5 sample_node = true.
Proof. vm_compute. reflexivity. Qed.

(** ** The theorems at the sample node *)

Lemma queue_drains_witness : ∃ n', process_rounds 5 sample_node = Done (tt, n') ∧ queued n' = [] ∧
  process_blocks 5 sample_node = Done (tt, n') ∧ node_ok n'.
Proof.
  apply (queue_drains sample_node [(block_hash worked1, worked2)] 5 sample_node_ok sample_waiting).
  - reflexivity.
  - exact (calmb_calm 5 sample_node sample_calm).
  - cbn. lia.
Defined.

Lemma sample_fine : fineb sample_node worked1 = true.
Proof. vm_compute. reflexivity. Qed.

Lemma receive_one_effect_witness : ∃ r n' X', process_receive_one worked1 sample_node = Done (r, n') ∧
  received sample_node [(block_hash worked1, worked2)] worked1 genesis_store r n' X'.
Proof.
  exact (receive_one_effect sample_node [(block_hash worked1, worked2)] worked1 genesis_store
    sample_node_ok sample_waiting node_db_rel (fineb_fine _ _ sample_fine)).
Defined.

(** A block delivered by a bootstrap client, and then a round of the block
    processor. *)
Definition delivered : node :=
  match processor_add worked2 sample_node with Done (_, n) => n | Fault _ => sample_node end.
Lemma delivered_run : perform (Deliver worked2) sample_node = Done (tt, delivered).
Proof.
  unfold delivered, perform, processor_add. pose proof worked2_work as Hw. unfold valid_work in Hw. by rewrite Hw.
Qed.
Lemma delivered_steps : node_steps sample_node delivered.
Proof. exact (steps_one _ _ _ (Deliver worked2) (steps_none _) worked2_work delivered_run). Qed.
Lemma delivered_calm : calmb 1 delivered = true.
Proof. vm_compute. reflexivity. Qed.

Lemma node_never_fails_witness : ∃ n', perform Process_next delivered = Done (tt, n') ∧ node_ok n'.
Proof.
  exact (node_never_fails sample_node delivered Process_next sample_node_ok delivered_steps
    (calmb_calm 1 delivered delivered_calm)).
Defined.

Lemma peers_valid_witness : NoDup (pi_endpoint <$> peers (n_peers delivered)).
Proof. exact (proj1 (peers_valid sample_node delivered sample_node_ok delivered_steps)). Defined.

(** A vote of the genesis account for the block of the election. *)
Definition node_vote : vote := make_vote test_account (U 32 5) (U 8 1) worked1.
Lemma node_vote_valid : vote_validate node_vote = false.
Proof. vm_compute. reflexivity. Qed.

Lemma election_vote_outcome_witness : ∃ w l' r x' fa sa n',
  weight test_account node_ledger = Done (w, l') ∧ election_vote 0 node_vote sample_node = Done (r, n') ∧
  vote_outcome sample_node w sample_election node_vote r x' fa sa ∧ node_ok n' ∧
  changed sample_node n' (with_election sample_active 0 x') (forcing (Block_processor [worked1] [] false) fa) sa.
Proof.
  exact (election_vote_outcome 0 sample_election node_vote sample_node sample_node_ok eq_refl node_vote_valid).
Defined.

Lemma confirmed_once_witness : ∃ r n' x', election_vote 0 node_vote sample_node = Done (r, n') ∧
  elections (n_active n') !! 0%nat = Some x'.
Proof.
  destruct (confirmed_once 0 sample_election node_vote sample_node sample_node_ok eq_refl node_vote_valid)
    as (r & n' & x' & Hr & Hx & _). exists r, n', x'. exact (conj Hr Hx).
Defined.

Lemma quorum_exact_witness : ∃ t top b rest d q, tally sample_votes node_ledger = Done (t, node_ledger) ∧
  decreasing t = (top, b) :: rest ∧ uval top = support genesis_store sample_votes b ∧
  delta sample_node = Done (d, sample_node) ∧ have_quorum (decreasing t) sample_node = Done (q, sample_node).
Proof.
  destruct (quorum_exact sample_node genesis_store sample_votes sample_node_ok node_db_rel)
    as (t & top & b & rest & supply & d & q & Ht & Hd & Hs & _ & _ & _ & Hm & _ & Hq & _).
  - reflexivity.
  - vm_compute. discriminate.
  - apply insert_non_empty.
  - exists t, top, b, rest, d, q. exact (conj Ht (conj Hd (conj Hs (conj Hm Hq)))).
Defined.

Lemma announce_votes_exact_witness : ∃ n', announce_votes sample_node = Done (tt, n') ∧ node_ok n' ∧
  roots (n_active n') =
    announced <$> filter (λ e, ends genesis_store [sample_election] e.2 = false) (roots sample_active).
Proof.
  destruct (announce_votes_exact sample_node genesis_store sample_node_ok node_db_rel)
    as (n' & Hr & Hn & Hroots & _). exists n'. exact (conj Hr (conj Hn Hroots)).
Defined.

(** ** Queries *)

Lemma process_code_witness : ∃ r l', process 100 (BSend send1) genesis_ledger = Done (r, l') ∧
  code r = classify (store genesis_ledger) (BSend send1).
Proof.
  exact (process_code genesis_ledger 100 (BSend send1) reach0
    (digest_okb_true _ _ digest_send1) (fuel_okb_true _ _ fuel0)).
Defined.

Lemma send_in1 : a_lookup (store ledger1) (block_hash (BSend send1)) = Some (BSend send1, U 32 0).
Proof. vm_compute. reflexivity. Qed.

Lemma amount_exact_witness : ∃ before aft : u128,
  ledger_balance 100 (block_hash (BSend send1)) ledger1 = Done (aft, ledger1) ∧
  ledger_amount 100 (block_hash (BSend send1)) ledger1 =
    Done (U 16 (Z.abs (uval aft - uval before)), ledger1).
Proof.
  destruct (amount_exact ledger1 100 _ _ _ reach1 send_in1 (fuel_okb_true _ _ fuel1))
    as (before & aft & Ha & _ & Hm). exists before, aft. exact (conj Ha Hm).
Defined.

(** ** A forced block

    The node after one round has the first send; a change block with the same
    predecessor is forced. *)

Definition sample_next : node := match process_next sample_node with Done (_, n) => n | Fault _ => sample_node end.

Lemma sample_next_ok : node_ok sample_next.
Proof.
  pose proof (safe_process_next sample_node sample_node_ok) as Hs. unfold safe, wp, sample_next in *.
  destruct (process_next sample_node) as [[more n']|]; [|exact sample_node_ok]. apply Hs.
  apply calmb_calm. vm_compute. reflexivity.
Qed.

Definition replaceableb (n : node) (b : block) : bool :=
  match successor (block_root b) (n_ledger n) with
  | Done (Some rival, _) => negb (genesis_open rival)
  | Done (None, _) => true
  | Fault _ => false
  end.
Lemma replaceableb_true n b : node_ok n → replaceableb n b = true → replaceable n b.
Proof.
  intros Hn Hb s rival Hs Ha. right. destruct (ok_ledger _ Hn) as (s0 & g & hist & Hs0 & HI & _).
  pose proof (store_rel_unique _ _ _ Hs Hs0) as <-. unfold replaceableb in Hb.
  assert (Hw : wp (successor (block_root b)) (abs (n_ledger n) s) (λ r _, r = Some rival)).
  { by apply (wp_successor (abs (n_ledger n) s) g hist HI). }
  apply wp_run in Hw as (r & k & Hr & ->).
  assert (Hrel : ledger_rel store_rel (n_ledger n) (abs (n_ledger n) s)) by (by split_and!).
  destruct (sim_run _ _ _ _ _ _ _ (sim_successor store_rel (block_root b)) Hrel Hr) as (l & Hl & _). rewrite Hl in Hb. by apply negb_true_iff.
Qed.

Lemma fork_replaceable : replaceableb sample_next (BChange fork1) = true.
Proof. vm_compute. reflexivity. Qed.
Lemma fork_place_taken : match successor (block_root (BChange fork1)) (n_ledger sample_next) with
  | Done (Some rival, _) => block_eqb rival worked1 | _ => false end = true.
Proof. vm_compute. reflexivity. Qed.

Lemma forced_replaces_witness : ∃ s n' s', replace_successor (BChange fork1) sample_next = Done (tt, n') ∧
  vacated sample_next (BChange fork1) s n' s'.
Proof.
  destruct (ok_store_rel _ sample_next_ok) as [s Hs]. exists s.
  exact (forced_replaces sample_next (BChange fork1) s sample_next_ok Hs
    (replaceableb_true _ _ sample_next_ok fork_replaceable)).
Defined.

(** ** Caches *)

Lemma arrival_retention_witness : ∃ r n', block_arrival_recent (block_hash worked1) sample_node = Done (r, n') ∧
  retained (seconds 1000) [sample_arrival] (n_block_arrival n').
Proof.
  destruct (arrival_retention sample_node (block_hash worked1) (ok_arrival _ sample_node_ok))
    as (r & n' & Hr & Hl & _). exists r, n'. exact (conj Hr Hl).
Defined.

Lemma random_fill_peers_witness : ∃ array n', random_fill sample_node = Done (array, n') ∧
  length array = peer_count.
Proof.
  destruct (random_fill_peers sample_node sample_node_ok) as (array & n' & Hr & Hl & _).
  exists array, n'. exact (conj Hr Hl).
Defined.
