(* ===== verification/BootstrapSamples.v ===== *)
(** * Sample sessions of the bootstrap

    The theorems about the bootstrap applied to two nodes of the test network:
    one has the first send of the genesis account, the other one still waits
    for it. *)

From S2P Require Import Prelude Crypto Blocks Common Stats Store Ledger Votes Lmdb Versioning.
From S2P Require Import BlockStore Messages MultiIndex Node Peers NodeCaches Sending Elections BlockProcessor.
From S2P Require Import BootstrapServer BootstrapClient Concrete StoreLemmas LedgerInv StoreRefine StoreProps.
From S2P Require Import NodeLedger NodeOk NodeQuiet NodePeers NodeElections NodeAnnounce NodeReceive NodeReach BootstrapChains BootstrapServed BootstrapPulls.
From S2P Require Import BootstrapFrontiers LedgerSamples StoreSamples NodeSamples BootstrapPushes.

(** ** What the node that is ahead has *)

Definition ahead : node := sample_next.
Definition ahead_db : block_store := store (n_ledger ahead).

Definition headb (x h : u256) (c : block_store) : bool :=
  match lmdb_account_get x c with Done (Some i, _) => u_eqb (head i) h | _ => false end.
Definition blockb (h : u256) (b : block) (c : block_store) : bool :=
  match lmdb_block_get h c with Done (Some b', _) => bool_decide (b' = b) | _ => false end.
Definition absentb (x : u256) (c : block_store) : bool :=
  match lmdb_account_get x c with Done (None, _) => true | _ => false end.

Lemma ahead_head : headb genesis_account (block_hash worked1) ahead_db = true.
Proof. vm_compute. reflexivity. Qed.
Lemma ahead_block : blockb (block_hash worked1) worked1 ahead_db = true.
Proof. vm_compute. reflexivity. Qed.
Lemma ahead_last : absentb (U 32 (2 ^ 256 - 1)) ahead_db = true.
Proof. vm_compute. reflexivity. Qed.

Lemma found_account_run c s x : store_rel c s → ∃ c', lmdb_account_get x c = Done (a_accounts s !! x, c').
Proof. exact (sim_read_run _ _ _ _ (account_get_sim x)). Qed.
Lemma found_block_run c s h : store_rel c s → ∃ c', lmdb_block_get h c = Done (fst <$> a_lookup s h, c').
Proof. exact (sim_read_run _ _ _ _ (block_get_sim h)). Qed.

Lemma found_account c s x h : store_rel c s → headb x h c = true →
  ∃ i, a_accounts s !! x = Some i ∧ head i = h.
Proof.
  unfold headb. intros Hs Hx. destruct (found_account_run c s x Hs) as [c' E]. rewrite E in Hx.
  destruct (a_accounts s !! x) as [i|]; [|done]. exists i. by apply u_eqb_true in Hx.
Qed.
Lemma found_block c s h b : store_rel c s → blockb h b c = true →
  ∃ sc, a_lookup s h = Some (b, sc).
Proof.
  unfold blockb. intros Hs Hx. destruct (found_block_run c s h Hs) as [c' E]. rewrite E in Hx.
  destruct (a_lookup s h) as [[b' sc]|]; [|done]. simpl in Hx. apply bool_decide_eq_true in Hx as ->. by exists sc.
Qed.
Lemma not_found_account c s x : store_rel c s → absentb x c = true → a_accounts s !! x = None.
Proof.
  unfold absentb. intros Hs Hx. destruct (found_account_run c s x Hs) as [c' E]. rewrite E in Hx. by destruct (a_accounts s !! x).
Qed.

Lemma ahead_store : ∃ s i sc, store_rel ahead_db s ∧ a_accounts s !! genesis_account = Some i ∧
  head i = block_hash worked1 ∧ a_lookup s (block_hash worked1) = Some (worked1, sc) ∧ no_last s.
Proof.
  destruct (ok_store_rel _ sample_next_ok) as [s Hs].
  destruct (found_account ahead_db s genesis_account (block_hash worked1) Hs ahead_head) as (i & Hi & Hh).
  destruct (found_block ahead_db s (block_hash worked1) worked1 Hs ahead_block) as (sc & Hb).
  exists s, i, sc. exact (conj Hs (conj Hi (conj Hh (conj Hb (not_found_account ahead_db s (U 32 (2 ^ 256 - 1)) Hs ahead_last))))).
Qed.

(** ** The theorems at these nodes *)

Definition sample_connection : bootstrap_client := Bootstrap_client (U 8 0) 0 false false.
Definition sample_attempt : bootstrap_attempt := Bootstrap_attempt [] [] true (U 4 0) (U 8 0) [].

Lemma ahead_chain s sc : a_lookup s (block_hash worked1) = Some (worked1, sc) →
  chain_down s (block_previous worked1) (block_hash worked1) [worked1].
Proof.
  intros Hl. apply (chain_next _ _ _ _ sc); [|done| |constructor]; apply u_eqb_false; vm_compute; reflexivity.
Qed.

(** One block is pushed and then the connection ends. *)
Definition sample_request : bytes :=
  header_serialize badem_network (make_header mt_bulk_push) ++ serialize_block worked2.

(** The request is received. *)
Definition sample_received : connection * node :=
  match receive_request (connect sample_request) ahead with Done r => r | Fault _ => (connect [], ahead) end.
Lemma sample_receives : match receive_request (connect sample_request) ahead with Done _ => true | Fault _ => false end = true.
Proof. vm_compute. reflexivity. Qed.
Lemma sample_received_run k : connection_run k (connect sample_request) ahead [Receive_request]
  (fst sample_received) (snd sample_received).
Proof.
  eapply run_event; [reflexivity| |apply run_none]. unfold sample_received. pose proof sample_receives as Hr. cbn [connection_step].
  destruct (receive_request _ _) as [[c n]|]; [done|discriminate Hr].
Qed.

Lemma session_total_witness : ∃ s k, connection_run k (connect sample_request) ahead [Receive_request]
    (fst sample_received) (snd sample_received) ∧ node_ok (snd sample_received) ∧
  ∃ answer n2, session k sample_request ahead = Done (answer, n2) ∧ store_rel (store (n_ledger n2)) s.
Proof.
  destruct ahead_store as (s & i & sc & Hs & Hi & Hh & Hb & Hl).
  set (k := (size (a_blocks s) + size (a_accounts s) + size (a_info s) + length sample_request + 1)%nat).
  destruct (session_total ahead s k sample_request [Receive_request] (fst sample_received) (snd sample_received)
    sample_next_ok Hs Hl) as (_ & Hn & _ & _ & _ & answer & n2 & Hr & _ & Hs').
  - unfold enough_steps, k. lia.
  - exact (sample_received_run k).
  - exists s, k. split; [exact (sample_received_run k)|]. split; [exact Hn|]. exists answer, n2. exact (conj Hr Hs').
Defined.

(** The node that is behind pulls the send it lacks. *)
Lemma pull_transfers_witness : ∃ k head_ request c answer n1' a' n2',
  let '(c0, a0) := make_bulk_pull_client sample_connection
    (make_pull genesis_account head_ (block_previous worked1)) sample_attempt in
  bulk_pull_request c0 sample_node = Done ((request, c), sample_node) ∧
  session k request ahead = Done (answer, n1') ∧
  pull_receive k answer c a0 sample_node = Done ((a', None), n2') ∧
  bp_blocks (n_block_processor n2') = [worked1; worked1].
Proof.
  destruct ahead_store as (s & i & sc & Hs & Hi & Hh & Hb & Hl). exists (size (a_blocks s) + 2)%nat, (head i).
  assert (Hbet : between s (block_previous worked1) (head i) [worked1]).
  { rewrite Hh. split; [by eapply ahead_chain|]. by intros b [= <-]. }
  destruct (pull_transfers ahead sample_node s genesis_account i (block_previous worked1) [worked1]
    sample_connection sample_attempt (size (a_blocks s) + 2) sample_next_ok Hs sample_node_ok Hi Hbet
    (Forall_cons_2 _ _ _ worked1_work (Forall_nil_2 _)) eq_refl eq_refl)
    as (request & c & answer & n1' & a' & n2' & conn' & Hreq & Hses & _ & Hrec & _ & _ & Hq & _); [lia|].
  exists request, c, answer, n1', a', n2'. exact (conj Hreq (conj Hses (conj Hrec Hq))).
Defined.

(** The node that is ahead pushes it. *)
Definition pushing : bootstrap_attempt :=
  set_push_targets [(block_hash worked1, block_previous worked1)] sample_attempt.

Lemma push_transfers_witness : ∃ pushed n1' n2', push_run 2 pushing ahead = Done (pushed, n1') ∧
  session 2 pushed sample_node = Done ([], n2') ∧ BootstrapPushes.delivered sample_node [worked1] n2'.
Proof.
  destruct ahead_store as (s & i & sc & Hs & Hi & Hh & Hb & Hl).
  destruct (push_transfers ahead sample_node s pushing [[worked1]] 2 sample_next_ok Hs sample_node_ok)
    as (pushed & n1' & n2' & Hp & _ & Hses & Hd).
  - intros t Ht%list_elem_of_singleton. subst t. apply u_eqb_false. vm_compute. reflexivity.
  - constructor; [|constructor]. unfold pushes. cbn [fst snd]. rewrite Hb. by eapply ahead_chain.
  - exact (Forall_cons_2 _ _ _ worked1_work (Forall_nil_2 _)).
  - simpl. lia.
  - exists pushed, n1', n2'. exact (conj Hp (conj Hses Hd)).
Defined.

(** The clock stands still while the frontiers are compared. *)
Definition still_node : node := set_steady (λ _, seconds 1000) sample_node.
Lemma still_node_ok : node_ok still_node.
Proof. eapply quiet_ok; [apply quiet_steady|exact sample_node_ok]. Qed.
Lemma genesis_last : a_accounts genesis_store !! U 32 (2 ^ 256 - 1) = None.
Proof. vm_compute. reflexivity. Qed.

Lemma frontier_sync_witness : ∃ k s request answer n1' a' n2', frontier_request still_node = Done (request, still_node) ∧
  session k request ahead = Done (answer, n1') ∧
  (c ← make_frontier_req_client; frontier_receive k sample_connection answer c sample_attempt) still_node =
    Done ((Some false, a'), n2') ∧
  pulls a' = omap (missing genesis_store) (cursor hash_le (U 32 0) (a_accounts s)).
Proof.
  destruct ahead_store as (s & i & sc & Hs & Hi & Hh & Hb & Hl).
  set (k := (size (a_accounts s) + size (a_accounts genesis_store) + 1)%nat). exists k, s.
  destruct (frontier_sync ahead s still_node genesis_store (seconds 1000) sample_connection sample_attempt k
    sample_next_ok Hs Hl still_node_ok node_db_rel genesis_last)
    as (request & answer & n1' & a' & n2' & Hreq & Hses & _ & Hrec & _ & _ & Hp & _).
  - intros j _. split; [done|]. vm_compute. discriminate.
  - unfold k. lia.
  - unfold k. lia.
  - exists request, answer, n1', a', n2'. exact (conj Hreq (conj Hses (conj Hrec Hp))).
Defined.
