(* ===== verification/WalletSamples.v ===== *)
(** * Sample wallets

    The theorems about wallets applied to wallets of the test network with a
    cipher by exclusive or, and those about the work pool to a pool of two
    threads. *)

From S2P Require Import Prelude Crypto Numbers NumberProps Blocks Common Stats Store Ledger Votes Lmdb Versioning.
From S2P Require Import BlockStore Messages MultiIndex Node Peers NodeCaches Sending Elections BlockProcessor.
From S2P Require Import BlockReaders BlockProps WalletStore WalletActions Concrete StoreLemmas LedgerInv Commit StoreRefine StoreProps NodeQuiet.
From S2P Require Import NodeOk NodeProcessor LedgerSamples StoreSamples TextSamples NodeSamples BootstrapServer BootstrapChains BootstrapPushes.
From S2P Require Import BootstrapSamples WalletProps WalletSeeds WalletRestore WalletSends WorkPool.
From Stdlib Require Import Ascii.

Local Open Scope Z_scope.

(** ** The interfaces *)

Definition xor_cipher (x key : u256) (iv : u128) : u256 := u_xor (u_xor x key) (U 32 (uval iv)).
#[export] Instance xor_aes : Aes := {| aes_ctr_encrypt := xor_cipher; aes_ctr_decrypt := xor_cipher |}.
Lemma xor_cipher_twice x key iv : xor_cipher (xor_cipher x key iv) key iv = x.
Proof.
  unfold xor_cipher. set (v := U 32 (uval iv)).
  by rewrite (u_xor_assoc (u_xor x key) v key), (u_xor_comm v key), <-u_xor_assoc, !u_xor_cancel.
Qed.
#[export] Instance xor_aes_correct : AesCorrect.
Proof. split; intros; apply xor_cipher_twice. Qed.
Definition password_key (memory : Z) (password : bytes) : u256 :=
  U 32 (be_val password + memory * Z.of_nat (length password)).
#[export] Instance sum_argon2 : Argon2 :=
  {| argon2_hash memory password salt := Some (password_key memory password) |}.

(** Different keys pass different checks. *)
Lemma xor_decides t k : checked t k = true → check_decides t k.
Proof.
  unfold check_decides, checked. intros Hk k' Hk'. apply u_eqb_true in Hk, Hk'. rewrite Hk' in Hk.
  simpl in Hk. unfold xor_cipher in Hk. rewrite !u_xor_0_l in Hk.
  apply (f_equal (λ c, u_xor c (U 32 (uval (iv_of t))))) in Hk. by rewrite !u_xor_cancel in Hk.
Qed.

(** Trees as lists of texts, written with a mark before each character and
    one after each text. *)
Fixpoint list_put (k : string) (t : text) (tree : list (string * text)) : list (string * text) :=
  match tree with
  | [] => [(k, t)]
  | (k', t') :: tree => if String.eqb k k' then (k, t) :: tree else (k', t') :: list_put k t tree
  end.
Fixpoint list_get (k : string) (tree : list (string * text)) : option text :=
  match tree with
  | [] => None
  | (k', t) :: tree => if String.eqb k k' then Some t else list_get k tree
  end.
Fixpoint write_text (t rest : text) : text :=
  match t with [] => "b"%char :: rest | c :: t => "a"%char :: c :: write_text t rest end.
Fixpoint write_tree (tree : list (string * text)) : text :=
  match tree with [] => [] | (k, t) :: tree => write_text (lit k) (write_text t (write_tree tree)) end.
Fixpoint read_texts (l current : text) : list text :=
  match l with
  | "a"%char :: c :: l => read_texts l (current ++ [c])
  | "b"%char :: l => current :: read_texts l []
  | _ => []
  end.
Fixpoint pair_texts (l : list text) : list (string * text) :=
  match l with k :: t :: l => (String.string_of_list_ascii k, t) :: pair_texts l | _ => [] end.

#[export] Instance list_tree : PropertyTree := {|
  ptree := list (string * text);
  ptree_empty := [];
  ptree_put := list_put;
  ptree_get := list_get;
  write_json := write_tree;
|}.
#[export] Instance list_wallet_tree : WalletTree := {|
  ptree_children tree := map fst tree;
  read_json t := Some (pair_texts (read_texts t []));
|}.

#[export] Instance list_tree_spec : PropertyTreeSpec.
Proof.
  constructor. intros k k' t tree _ _. simpl.
  induction tree as [|[k1 t1] tree IH]; simpl; [done|]. destruct (String.eqb_spec k' k1) as [->|Hne]; simpl.
  - by destruct (String.eqb k k1).
  - rewrite IH. destruct (String.eqb_spec k k1) as [->|]; [|done]. by destruct (String.eqb_spec k1 k').
Qed.
Lemma read_write_text t rest current : read_texts (write_text t rest) current = (current ++ t) :: read_texts rest [].
Proof.
  revert current. induction t as [|c t IH]; intros current; simpl; [by rewrite app_nil_r|].
  by rewrite IH, <-app_assoc.
Qed.
Lemma read_write_tree tree : pair_texts (read_texts (write_tree tree) []) = tree.
Proof.
  induction tree as [|[k t] tree IH]; simpl; [done|]. rewrite !read_write_text. simpl. rewrite IH.
  by rewrite String.string_of_list_ascii_of_string.
Qed.
Lemma list_put_children k t tree : map fst (list_put k t tree) =
  if bool_decide (k ∈ map fst tree) then map fst tree else map fst tree ++ [k].
Proof.
  induction tree as [|[k1 t1] tree IH]; [done|]. cbn [list_put map fst].
  destruct (String.eqb_spec k k1) as [->|Hne]; cbn [map fst]; [by rewrite bool_decide_true by (by left)|]. rewrite IH.
  repeat case_bool_decide; set_solver.
Qed.
#[export] Instance list_wallet_tree_spec : WalletTreeSpec.
Proof.
  constructor; [done|intros; apply list_put_children|]. intros kvs _ _. simpl. by rewrite read_write_tree.
Qed.

(** ** Wallets *)

Definition make_table (k salt : u256) : gmap u256 wallet_value :=
  put (cleared (put (first_entries salt (xor_cipher k (U 32 0) (oword0 salt)) (xor_cipher (U 32 0) k (oword0 salt)) key2)
    seed_special (Wallet_value (U 32 77) (U 8 0)))) deterministic_index_special (Wallet_value (U 32 0) (U 8 0)).
Definition make_wallet (k salt : u256) : wallet_store :=
  Wallet_store _ (make_table k salt) [U 32 0] [xor_cipher k (U 32 0) (oword0 salt)] 0%nat.
(** A wallet with private keys; the account of a key is its own number. *)
Definition with_key (prv k : u256) (w : wallet_store) : wallet_store :=
  set_entries (put (ws_entries w) prv (Wallet_value (xor_cipher prv k (iv_of (ws_entries w))) (U 8 0))) w.

Lemma make_wallet_sealed k salt : sealed (make_wallet k salt) k (U 32 0).
Proof.
  eapply new_sealed; [simpl; reflexivity|done..|]. unfold make_wallet, fan_value. simpl. by rewrite u_xor_0_l.
Qed.
Lemma with_key_sealed prv k kp w : special_count ≤ uval prv → sealed w k kp → sealed (with_key prv k w) k kp.
Proof. intros Hp. apply put_sealed. by left. Qed.

Definition this_key : u256 := U 32 (2 ^ 200 + 99).
Definition other_key : u256 := U 32 (2 ^ 201 + 3).
Definition account1 : u256 := U 32 (2 ^ 130 + 5).
Definition account2 : u256 := U 32 (2 ^ 140 + 6).

Definition this_wallet : wallet_store := with_key account1 this_key (make_wallet this_key (U 32 (2 ^ 250 + 1))).
Definition other_wallet : wallet_store := with_key account2 other_key (make_wallet other_key (U 32 (2 ^ 251 + 1))).

Lemma this_sealed : sealed this_wallet this_key (U 32 0).
Proof. apply with_key_sealed; [vm_compute; discriminate|apply make_wallet_sealed]. Qed.
Lemma other_sealed : sealed other_wallet other_key (U 32 0).
Proof. apply with_key_sealed; [vm_compute; discriminate|apply make_wallet_sealed]. Qed.
Lemma this_decides : check_decides (ws_entries this_wallet) this_key.
Proof. apply xor_decides, this_sealed. Qed.
Lemma this_open : open_at this_wallet this_key (U 32 0).
Proof.
  constructor; [exact this_sealed|exact (sealed_unlocked _ _ _ this_sealed eq_refl)|exact (sealed_key _ _ _ this_sealed eq_refl)].
Qed.
Lemma other_open : open_at other_wallet other_key (U 32 0).
Proof.
  constructor; [exact other_sealed|exact (sealed_unlocked _ _ _ other_sealed eq_refl)|exact (sealed_key _ _ _ other_sealed eq_refl)].
Qed.
Lemma account1_opened : opened (ws_entries this_wallet) this_key account1 = Some account1.
Proof. vm_compute. reflexivity. Qed.
Lemma account2_opened : opened (ws_entries other_wallet) other_key account2 = Some account2.
Proof. vm_compute. reflexivity. Qed.

Definition blank_wallet : wallet_store := Wallet_store _ ∅ [] [] 5%nat.

(** ** Runs *)

Definition sample_password : bytes := [U 1 104; U 1 105].
Definition sample_ops : list wallet_op :=
  [Insert_adhoc account2; Rekey sample_password; Attempt_password []; Insert_watch key1;
   Attempt_password sample_password; Deterministic_insert; Work_put account1 (U 8 9); Representative_set key1].

Definition safe_opb (pub k : u256) (op : wallet_op) (w : wallet_store) : bool :=
  match op with
  | Insert_adhoc prv => (special_count <=? uval prv) &&
      (negb (u_eqb prv pub) || (2 ^ 64 <=? uval (xor_cipher prv k (iv_of (ws_entries w)))))
  | Insert_watch a => (special_count <=? uval a) && negb (u_eqb a pub)
  | _ => true
  end.
Fixpoint run_ops (pub k : u256) (ops : list wallet_op) (w : wallet_store) : option wallet_store :=
  match ops with
  | [] => Some w
  | op :: ops =>
      if safe_opb pub k op w then
        match run_op 10 op w with Done (tt, w1) => run_ops pub k ops w1 | Fault _ => None end
      else None
  end.

Lemma safe_opb_spec pub k op w : safe_opb pub k op w = true → safe_op pub w k op.
Proof.
  destruct op; simpl; [|intros [? ?%negb_true_iff%u_eqb_false]%andb_true_iff; split; [lia|done]|done..].
  intros [?%Z.leb_le Hc]%andb_true_iff. split; [done|]. intros E. change (ed25519_publickey prv) with prv in E. subst prv.
  rewrite u_eqb_refl in Hc. by apply Z.leb_le.
Qed.
Lemma run_ops_steps pub k ops w w' : run_ops pub k ops w = Some w' → wallet_steps 10 pub k w ops w'.
Proof.
  revert w. induction ops as [|op ops IH]; simpl; intros w; [intros [= <-]; constructor|].
  destruct (safe_opb pub k op w) eqn:Es; [|done]. destruct (run_op 10 op w) as [[[] w1]|] eqn:Er; [|done].
  intros Hr. econstructor; [by apply safe_opb_spec|exact Er|by apply IH].
Qed.
Definition is_some {A} (o : option A) : bool := match o with Some _ => true | None => false end.
Lemma sample_ops_run : is_some (run_ops account1 this_key sample_ops this_wallet) = true.
Proof. vm_compute. reflexivity. Qed.
Lemma sample_steps : ∃ w', wallet_steps 10 account1 this_key this_wallet sample_ops w'.
Proof.
  pose proof sample_ops_run as Hr. destruct (run_ops account1 this_key sample_ops this_wallet) as [w'|] eqn:E; [|discriminate Hr].
  exists w'. exact (run_ops_steps _ _ _ _ _ E).
Qed.

Lemma sample_hash : argon2_hash kdf_work sample_password (write_be (salt_of (ws_entries this_wallet))) =
  Some (password_key kdf_work sample_password).
Proof. reflexivity. Qed.
(** The second account of the seed is watched. *)
Definition sample_new_seed : u256 := U 32 4242.
Definition watching_wallet : wallet_store :=
  set_entries (put (ws_entries this_wallet) (account_at sample_new_seed (U 4 1)) (Wallet_value (U 32 0) (U 8 0))) this_wallet.
Lemma watching_sealed : sealed watching_wallet this_key (U 32 0).
Proof. apply put_sealed; [left; vm_compute; discriminate|exact this_sealed]. Qed.
Lemma watching_decides : check_decides (ws_entries watching_wallet) this_key.
Proof. apply put_decides; [left; vm_compute; discriminate|exact this_decides]. Qed.
Lemma sample_derived : size (ws_entries watching_wallet) = 9%nat ∧ NoDup (accounts_from sample_new_seed 0 3) ∧
  filter (λ a, not_derived (ws_entries watching_wallet) a = false) (accounts_from sample_new_seed 0 3) =
    [account_at sample_new_seed (U 4 0); account_at sample_new_seed (U 4 2)].
Proof.
  split; [vm_compute; reflexivity|]. split; apply (bool_decide_unpack _); vm_compute; exact I.
Qed.

Definition movableb (w1 w2 : wallet_store) (k1 k2 key : u256) : bool :=
  match opened (ws_entries w2) k2 key with
  | Some prv => (special_count <=? uval key) && (2 ^ 64 <=? uval (xor_cipher prv k1 (iv_of (ws_entries w1))))
  | None => true
  end.
Lemma sample_movable key : key ∈ [account2; account1; key1] → movable this_wallet other_wallet this_key other_key key.
Proof.
  intros Hk. assert (Hb : forallb (movableb this_wallet other_wallet this_key other_key) [account2; account1; key1] = true)
    by (vm_compute; reflexivity).
  rewrite forallb_forall in Hb. specialize (Hb key (proj1 (list_elem_of_In _ _) Hk)). unfold movableb in Hb.
  intros prv Hp. rewrite Hp in Hb. apply andb_true_iff in Hb as [?%Z.leb_le ?%Z.leb_le]. by split.
Qed.

(** ** Witnesses *)

Lemma keys_kept_witness : ∃ w' kp' prv', wallet_steps 10 account1 this_key this_wallet sample_ops w' ∧ sealed w' this_key kp' ∧
  (prv' = account1 ∨ Insert_adhoc prv' ∈ sample_ops) ∧ (unlocked w' = true → fetch account1 w' = Done (Some prv', w')).
Proof.
  destruct sample_steps as [w' Hw].
  destruct (keys_kept 10 this_wallet this_key (U 32 0) sample_ops w' account1 account1 this_sealed this_decides Hw
    ltac:(vm_compute; discriminate) account1_opened) as (_ & kp' & prv' & Hs & Hv & _ & Hf & _).
  exists w', kp', prv'. exact (conj Hw (conj Hs (conj Hv Hf))).
Defined.

Lemma rekey_unlocks_witness : ∃ w', rekey sample_password this_wallet = Done (false, w') ∧
  (∃ r, fetch account1 this_wallet = Done (r, this_wallet) ∧ fetch account1 w' = Done (r, w')) ∧
  ∀ wrong r w1, attempt_password 10 wrong w' = Done (r, w1) →
    ∃ w2, attempt_password 10 sample_password w1 = Done (false, w2) ∧ key_of w2 = this_key ∧ unlocked w2 = true.
Proof.
  destruct (rekey_unlocks 10 this_wallet this_key (U 32 0) sample_password
    (password_key kdf_work sample_password) this_sealed this_decides
    (op_unlocked _ _ _ this_open) sample_hash) as (w' & Hr & _ & _ & Hf & Ha).
  exists w'. exact (conj Hr (conj (Hf account1 ltac:(vm_compute; discriminate)) Ha)).
Defined.

Lemma seed_restores_witness : ∃ w', (seed_set 12 sample_new_seed;; insert_many 12 2) watching_wallet =
    Done ([account_at sample_new_seed (U 4 0); account_at sample_new_seed (U 4 2)], w') ∧
  fetch (account_at sample_new_seed (U 4 2)) w' = Done (Some (deterministic_key sample_new_seed (U 4 2)), w').
Proof.
  destruct sample_derived as (Hsize & Hnd & Hl).
  pose proof (seed_restores 12 watching_wallet this_key (U 32 0) sample_new_seed 3 watching_sealed watching_decides
    (sealed_unlocked _ _ _ watching_sealed eq_refl) ltac:(rewrite Hsize; lia) ltac:(lia) ltac:(lia) Hnd) as Hx.
  cbv zeta in Hx. rewrite Hl in Hx. destruct Hx as (w' & Hr & _ & Hf & _).
  exists w'. exact (conj Hr (Hf 2 ltac:(lia) (list_elem_of_further _ _ _ (list_elem_of_here _ _)))).
Defined.

Lemma new_wallet_witness : ∃ k w', open_wallet_store 10 4 key1 blank_wallet = Done (tt, w') ∧
  sealed w' k (U 32 0) ∧ wallet_accounts w' = Done ([], w').
Proof.
  destruct (new_wallet 10 4 key1 blank_wallet eq_refl ltac:(lia)) as (k & w' & Hr & Hs & _ & _ & Ha & _).
  exists k, w'. exact (conj Hr (conj Hs Ha)).
Defined.

(** The account that cannot be read stops the move: the last key stays. *)
Lemma move_exact_witness : ∃ moved rest w1' w2', [account2; account1; key1] = moved ++ rest ∧
  wallet_move [account2; account1; key1] (this_wallet, other_wallet) = Done (negb (bool_decide (rest = [])), (w1', w2')) ∧
  moved_over this_wallet other_wallet this_key other_key moved w1' w2'.
Proof.
  destruct (move_exact [account2; account1; key1] this_wallet other_wallet this_key (U 32 0) other_key (U 32 0)
    this_open other_open sample_movable) as (moved & rest & w1' & w2' & Hk & Hr & _ & _ & _ & Hm).
  exists moved, rest, w1', w2'. exact (conj Hk (conj Hr Hm)).
Defined.

(** The key of the empty password is zero here. *)
Lemma empty_hash : argon2_hash kdf_work [] (write_be (salt_of (ws_entries other_wallet))) = Some (U 32 0).
Proof. reflexivity. Qed.

Lemma backup_restores_witness : ∃ json w1 w2, serialize_json other_wallet = Done (json, other_wallet) ∧
  open_wallet_json 3 json blank_wallet = Done (false, w1) ∧ attempt_password 10 [] w1 = Done (false, w2) ∧
  fetch account2 w2 = Done (Some account2, w2).
Proof.
  destruct (backup_restores 10 3 [] other_wallet other_key (U 32 0) blank_wallet other_sealed empty_hash eq_refl)
    as (json & w1 & w2 & Hj & Ho & Ha & _ & Hf).
  exists json, w1, w2. pose proof (Hf account2) as Hf2. rewrite account2_opened in Hf2.
  exact (conj Hj (conj Ho (conj Ha Hf2))).
Defined.

Lemma other_accounts : accounts_of (ws_entries other_wallet) = [account2].
Proof. vm_compute. reflexivity. Qed.
Lemma other_movable key : key ∈ accounts_of (ws_entries other_wallet) → movable this_wallet other_wallet this_key other_key key.
Proof. rewrite other_accounts. intros Hk%list_elem_of_singleton. apply sample_movable. rewrite Hk. by left. Qed.

Lemma import_restores_witness : ∃ json moved rest this', serialize_json other_wallet = Done (json, other_wallet) ∧
  [account2] = moved ++ rest ∧
  import_backup 10 json [] this_wallet = Done (negb (bool_decide (rest = [])), this') ∧
  ∀ key, key ∈ moved → ∃ prv, opened (ws_entries other_wallet) other_key key = Some prv ∧
    fetch key this' = Done (Some prv, this').
Proof.
  destruct (import_restores 10 [] other_wallet other_key (U 32 0) this_wallet this_key (U 32 0) other_sealed empty_hash this_open other_movable)
    as (json & moved & rest & this' & Hj & Hall & Hi & _ & _ & Hm & _).
  exists json, moved, rest, this'. rewrite other_accounts in Hall. exact (conj Hj (conj Hall (conj Hi Hm))).
Defined.

(** ** Wallets of a node *)

#[export] Instance test_wallets : WalletConfig := {|
  receive_minimum := U 16 1;
  password_fanout := 4;
  preconfigured_representatives := [test_account];
  work_generate_blocking root := if u_eqb root key1 then U 8 47 else U 8 243;
|}.

(** A wallet with the keys of the genesis account and of the account the
    first send goes to, in a node that has the genesis block only and in one
    that has the first send too. *)
Definition node_wallet : wallet_store := with_key key1 this_key (with_key test_account this_key this_wallet).
Definition before_send : wallets := Wallets_state _ _ sample_node {[ U 32 1 := node_wallet ]} [] ∅ [] [].
Definition after_send : wallets :=
  Wallets_state _ _ sample_next {[ U 32 1 := node_wallet ]} [] {[ [U 1 7] := block_hash worked1 ]} [] [].

Lemma node_wallet_unlocked : unlocked node_wallet = true.
Proof. vm_compute. reflexivity. Qed.
Lemma genesis_opened : opened (ws_entries node_wallet) (key_of node_wallet) test_account = Some test_account.
Proof. vm_compute. reflexivity. Qed.
Lemma key1_opened : opened (ws_entries node_wallet) (key_of node_wallet) key1 = Some key1.
Proof. vm_compute. reflexivity. Qed.
Lemma wallet_found : ({[ U 32 1 := node_wallet ]} : gmap u256 wallet_store) !! U 32 1 = Some node_wallet.
Proof. apply lookup_singleton_eq. Qed.

Definition genesis_info : account_info := default (Account_info (U 32 0) (U 32 0) (U 32 0) (U 16 0) (U 8 0) (U 8 0))
  (a_accounts genesis_store !! test_account).
Lemma genesis_info_found : a_accounts genesis_store !! test_account = Some genesis_info.
Proof. vm_compute. reflexivity. Qed.
Lemma sample_can_send : can_send before_send genesis_store (U 32 1) node_wallet test_account genesis_info test_account.
Proof.
  constructor; [exact sample_node_ok|exact node_db_rel|exact wallet_found|exact node_wallet_unlocked
    |exact genesis_opened|exact genesis_info_found|vm_compute; reflexivity].
Qed.

Lemma send_moves_witness : ∃ b s',
  wallet_send_action (U 32 1) test_account key1 (U 16 100) true (Some [U 1 7]) before_send = Done (Some b, s') ∧
  delivered sample_node [b] (ww_node s') ∧ ww_send_action_ids s' !! [U 1 7] = Some (block_hash b).
Proof.
  destruct (send_moves before_send genesis_store (U 32 1) node_wallet test_account genesis_info test_account key1 (U 16 100) true
    (Some [U 1 7]) sample_can_send (conj eq_refl eq_refl) ltac:(vm_compute; split; [reflexivity|discriminate]))
    as (b & s' & Hr & Hd & _ & Hid & _).
  exists b, s'. exact (conj Hr (conj Hd (Hid _ eq_refl))).
Defined.

Definition pendingb (k : pending_key) (c : block_store) : bool :=
  match lmdb_pending_get k c with Done (Some _, _) => true | _ => false end.
Lemma ahead_pending : pendingb (key1, block_hash worked1) ahead_db = true.
Proof. vm_compute. reflexivity. Qed.
Lemma ahead_key1 : absentb key1 ahead_db = true.
Proof. vm_compute. reflexivity. Qed.
Lemma found_pending c st k : store_rel c st → pendingb k c = true → ∃ q, a_pending st !! k = Some q.
Proof.
  unfold pendingb. intros Hs Hk. destruct (sim_read_run _ _ _ _ (pending_get_sim k) Hs) as [c' E]. rewrite E in Hk.
  destruct (a_pending st !! k) as [q|]; [by exists q|done].
Qed.
Lemma sample_can_receive : ∃ st q, store_rel ahead_db st ∧ a_accounts st !! key1 = None ∧
  can_receive after_send st (U 32 1) node_wallet worked1 key1 q key1.
Proof.
  destruct ahead_store as (st & i & sc & Hs & _ & _ & Hb & _). destruct (found_pending _ _ _ Hs ahead_pending) as [q Hq].
  pose proof (not_found_account ahead_db st key1 Hs ahead_key1) as Hn. exists st, q. split; [done|]. split; [done|].
  constructor; [exact sample_next_ok|exact Hs|exact wallet_found|exact node_wallet_unlocked|exact key1_opened
    |by exists sc|exact Hq|by apply u_eqb_false|]. rewrite Hn. vm_compute. reflexivity.
Qed.

Lemma receive_moves_witness : ∃ b s',
  wallet_receive_action (U 32 1) worked1 key2 (U 16 100) true after_send = Done (Some b, s') ∧
  delivered sample_next [b] (ww_node s') ∧ ww_items s' = ww_items after_send.
Proof.
  destruct sample_can_receive as (st & q & Hs & Hn & Hc).
  destruct (receive_moves after_send st (U 32 1) node_wallet worked1 key1 q key1 key2 (U 16 100) true Hc
    ltac:(vm_compute; discriminate)) as (b & s' & Hr & Hd & Hi & _).
  exists b, s'. exact (conj Hr (conj Hd Hi)).
Defined.

Lemma send_once_witness : ∃ n',
  wallet_send_action (U 32 1) test_account key2 (U 16 999) true (Some [U 1 7]) after_send =
    Done (Some worked1, set_node n' after_send) ∧ stays sample_next n'.
Proof.
  destruct ahead_store as (st & i & sc & Hs & _ & _ & Hb & _).
  destruct (send_once after_send st (U 32 1) test_account key2 (U 16 999) true [U 1 7] worked1 sample_next_ok Hs
    ltac:(discriminate) (lookup_singleton_eq _ _) ltac:(rewrite Hb; reflexivity)) as (n' & Hr & Hst).
  exists n'. exact (conj Hr Hst).
Defined.

(** ** The work pool *)

#[export] Instance no_card : OpenCL := {| opencl _ := None |}.
Lemma no_card_correct : card_correct.
Proof. by intros root w. Qed.

Definition sample_seed : xorshift1024star :=
  Xorshift (map (λ i, U 8 (0x9e3779b97f4a7c15 * (Z.of_nat i + 1))) (seq 0 16)) 0.
Definition event_okb (p : work_pool) (ev : pool_event) : bool :=
  match ev with
  | Generate root => negb (is_zero root)
  | Cancel _ | Stop => true
  | Take i | Batch i | Finish i => Nat.ltb i (length (wp_threads p))
  end.
Fixpoint run_events (evs : list pool_event) (p : work_pool) : option work_pool :=
  match evs with
  | [] => Some p
  | ev :: evs =>
      if event_okb p ev && (wp_ticket p <? 2 ^ 32) then
        match pool_step ev p with Done (tt, p) => run_events evs p | Fault _ => None end
      else None
  end.
Lemma event_okb_spec p ev : event_okb p ev = true → event_ok p ev.
Proof.
  destruct ev; cbn [event_okb event_ok]; [rewrite negb_true_iff; apply is_zero_false|done|done|apply Nat.ltb_lt..].
Qed.
Lemma run_events_spec seeds evs0 evs p p' : pool_run seeds evs0 p → run_events evs p = Some p' → pool_run seeds (evs0 ++ evs) p'.
Proof.
  revert evs0 p. induction evs as [|ev evs IH]; simpl; intros evs0 p Hp; [intros [= <-]; by rewrite app_nil_r|].
  destruct (event_okb p ev && (wp_ticket p <? 2 ^ 32)) eqn:Eok; [|done]. apply andb_true_iff in Eok as [He Hlt].
  destruct (pool_step ev p) as [[[] p1]|] eqn:Es; [|done]. intros Hr.
  rewrite (cons_middle ev evs0 evs), app_assoc. eapply IH; [|exact Hr]. eapply pool_next; [exact Hp|lia|by apply event_okb_spec|exact Es].
Qed.

(** A request that is answered, one that is cancelled and one that waits. *)
Definition sample_events : list pool_event :=
  [Generate key1; Take 0; Generate key2; Take 1; Batch 0; Finish 0; Generate test_account; Cancel key2; Finish 1].
Definition sample_pool_new : work_pool := new_pool [sample_seed; sample_seed].
Definition sample_pool : work_pool := default sample_pool_new (run_events sample_events sample_pool_new).
Definition sample_waits : work_pool := default sample_pool_new (run_events [Generate key1] sample_pool_new).

Lemma sample_pool_some : is_some (run_events sample_events sample_pool_new) = true.
Proof. vm_compute. reflexivity. Qed.
Lemma sample_pool_run : pool_run [sample_seed; sample_seed] sample_events sample_pool.
Proof.
  pose proof sample_pool_some as Hs. unfold sample_pool.
  destruct (run_events sample_events sample_pool_new) as [p|] eqn:E; [|discriminate Hs].
  exact (run_events_spec _ [] sample_events _ _ (pool_start _) E).
Qed.
Lemma sample_waits_run : pool_run [sample_seed; sample_seed] [Generate key1] sample_waits.
Proof. apply (run_events_spec _ [] [Generate key1] _ _ (pool_start _)). reflexivity. Qed.
Lemma sample_pool_state : (wp_ticket sample_pool, length (wp_calls sample_pool), (wp_pending sample_pool).*2) = (2, 2%nat, [2%nat]).
Proof. vm_compute. reflexivity. Qed.

Lemma pool_answers_witness : pool_run [sample_seed; sample_seed] sample_events sample_pool ∧
  NoDup ((wp_pending sample_pool).*2 ++ (wp_calls sample_pool).*1) ∧
  (∀ id w, (id, Some w) ∈ wp_calls sample_pool → ∃ root, wp_requests sample_pool !! id = Some root ∧
     work_validate badem_network root w = false).
Proof.
  destruct (pool_answers _ sample_events sample_pool no_card_correct sample_pool_run
    ltac:(vm_compute; reflexivity)) as (_ & Hn & _ & Hc).
  exact (conj sample_pool_run (conj Hn Hc)).
Defined.

Lemma sample_good : good key1 sample_seed 208.
Proof. unfold good. vm_compute. reflexivity. Qed.
Lemma waits_idle : wp_threads sample_waits !! 1%nat = Some (Worker sample_seed None).
Proof. reflexivity. Qed.
Lemma waits_front : wp_pending sample_waits = [(key1, 0%nat)].
Proof. reflexivity. Qed.

Lemma pool_finds_witness : ∃ m p' w,
  (thread_take 1;; batches m 1;; thread_finish 1) sample_waits = Done (tt, p') ∧
  wp_calls p' = wp_calls sample_waits ++ [(0%nat, Some w)] ∧ work_validate badem_network key1 w = false.
Proof.
  destruct (pool_finds _ [Generate key1] sample_waits 1 (Worker sample_seed None) key1 0 [] 208 1 no_card_correct sample_waits_run
    ltac:(vm_compute; reflexivity) waits_idle eq_refl waits_front sample_good ltac:(lia)) as (m & p' & w & _ & Hr & Hc & Hv).
  exists m, p', w. exact (conj Hr (conj Hc Hv)).
Defined.
